(* ===== verification/_CoqProject ===== *)
-Q . S2P
Prelude.v
Types.v
Wire.v
Messages.v
MemPool.v
LFQueue.v
Ring.v
BookView.v
BookHeap.v
MEOrderBookSpec.v
BookAbs.v
BookText.v
MEOrderBookLaws.v
MEOrder.v
MEOrderBook.v
MEOrderBookInv.v
MEOrderBookRefine.v
MEOrderBookProps.v
MEOrderBookText.v
MatchingEngine.v
FIFOSequencer.v
Sockets.v
SocketUtils.v
OrderServer.v
OrderServerProps.v
TCPServer.v
TCPServerKqueue.v
OrderServerRound.v
Threads.v
Feed.v
EngineFeed.v
EngineTypes.v
EngineDestroy.v
SnapshotSynthesizer.v
MarketDataPublisher.v
ExchangeProcess.v
MarketDataConsumer.v
MarketDataConsumerProps.v
EndToEnd.v
OrderGateway.v
OrderPath.v
OrderPathInv.v
OrderPathSafety.v
Double.v
Ostream.v
Logger.v
LoggerProps.v
Measurements.v
NanosecondTimer.v
LatencyTracker.v
LatencyTrackerProps.v
PerformanceDashboard.v
TradingTypes.v
PositionKeeper.v
RiskManager.v
OrderManager.v
FeatureEngine.v
Strategies.v
MarketOrder.v
MarketOrderBook.v
MarketOrderBookInv.v
MarketOrderBookRefine.v
MarketOrderBookClear.v
MarketOrderBookProps.v
MarketOrderBookText.v
BookMirror.v
MarketOrderBookRoom.v
BookMirrorText.v
TradeEngine.v
TradeEngineThread.v
ClientDestroy.v
ObserverClient.v
TradingMain.v
ClientProcess.v
TradingProtocol.v
TradingSafety.v
