(* ===== verification/Prelude.v ===== *)
(** A verification library for the trading exchange and its trading client.

    * The program

    The exchange ([Exchange Matching Engine /EXCHANGE]) is four threads joined by lock-free queues:
    the order server reads client requests from TCP sockets, sequences them by receive time and
    queues them; the matching engine takes them one at a time, runs them on the limit order book of
    their instrument, and queues responses (back to the order server) and market updates; the
    market data publisher numbers the updates, multicasts them and passes them to the snapshot
    synthesizer, which keeps the live orders and multicasts them from time to time as a numbered
    snapshot.  The client ([trading]) mirrors it: the market data consumer follows the incremental
    stream, detects gaps and recovers from a snapshot; the order gateway sends requests and receives
    responses; the trade engine rebuilds the order books, computes features, runs one trading
    algorithm and manages one order per instrument and side under a pre-trade risk check.

    * The files

    Prelude       machine faults, the state-and-fault monad [M], [wp] (total) and [wlp] (partial
                  correctness), machine integers, list lemmas.
    Types         types.h: identifiers, bounds, printers, [Side], [AlgoType].
    Wire          bytes of integers and of packed structs; the class [Wire] with its round trip.
    Messages      client_request.h, client_response.h, market_update.h: messages, printers, bytes.
    MemPool       mem_pool.h: [allocate], [deallocate].
    LFQueue       lf_queue.h: the operations, whole histories, and one producer interleaved with one
                  consumer as a step relation.
    Ring          circular doubly linked lists as two successor maps.
    BookView      the linked structure of a limit order book as fields of nodes, and what its pointer
                  surgeries do.
    BookHeap      the member functions the two order books share, written and verified once over
                  the classes [BookOps] (accesses) and [BookLaws] (their effect on the view).
    MEOrderBookSpec, MEOrderBookLaws
                  the abstract book (two sorted lists of queues), matching by [sweep], and its laws:
                  conservation, price-time priority, the book is never crossed.
    BookAbs       the abstract book a heap represents, and the shared member functions on it.
    MEOrder, MEOrderBook, MEOrderBookInv, MEOrderBookRefine, MEOrderBookProps
                  me_order.{h,cpp}, me_order_book.{h,cpp}: data and operations, the heap invariant, the
                  refinement of the abstract book, the properties.  The book reaches the engine through
                  the class [EngineSink] with laws [SinkLaws].
    MatchingEngine   matching_engine.{h,cpp}: dispatch, both outgoing queues, one round of [run].
    FIFOSequencer    fifo_sequencer.h; [std::sort] is a parameter with its contract.
    Sockets          tcp_socket, mcast_socket, tcp_server.cpp: buffers, [send], [sendAndRecv].
    SocketUtils      socket_utils.h: the creation of sockets over a kernel that answers system calls.
    OrderServer, OrderServerProps   order_server.{h,cpp}.
    TCPServer        tcp_server.cpp: [listen] and [poll] with [epoll], a whole round of the order server.
    TCPServerKqueue  tcp_server.cpp: the branch for macOS, with [kqueue]; the two branches are alike.
    OrderServerRound   a round of the order server's thread, over all its connections.
    Threads          thread_utils.h and the functions that start and stop threads: threads as resources.
    Feed             what a sequence of market updates means ([apply_update]), snapshots.
    EngineFeed       the updates of the engine describe its books.
    EngineTypes      the types of what flows through the exchange.
    EngineDestroy    the destructors of the engine and of its books: what they log.
    SnapshotSynthesizer, MarketDataPublisher   snapshot_synthesizer, market_data_publisher.
    ExchangeProcess  exchange_main.cpp: the exchange's process.
    MarketDataConsumer, MarketDataConsumerProps   trading/market_data/market_data_consumer.
    EndToEnd         the exchange's books as the client's consumer reports them.
    OrderGateway     trading/order_gw/order_gateway, composed with the order server.
    OrderPath, OrderPathInv, OrderPathSafety
                     a gateway, the order server and the engine joined: the path of an order.
    Double, TradingTypes   IEEE doubles; the shared data of the trading client.
    Ostream          how a stream prints a double.
    Logger, LoggerProps   logging.h: [log], the queue of elements, the flushing pass.
    Measurements     time_utils.h, perf_utils.h: the time of day and the measurement macros.
    NanosecondTimer  nanosecond_timer.h: calibration and conversion.
    LatencyTracker, LatencyTrackerProps   latency_tracker.h: concurrent [record_latency] calls as a
                     step relation over atomic cells, and the readers.
    PerformanceDashboard   performance_dashboard.h.
    PositionKeeper, RiskManager, OrderManager, FeatureEngine, Strategies
                     position_keeper.h, risk_manager, om_order.h and order_manager, feature_engine.h,
                     market_maker and liquidity_taker.  The order manager sends through the class
                     [RequestSink].
    MarketOrder, MarketOrderBook, MarketOrderBookInv, MarketOrderBookRefine, MarketOrderBookClear,
    MarketOrderBookProps
                     market_order and market_order_book; the book reports through the class
                     [BookListener]; what an update does to the abstract book and to the BBO, and
                     what a CLEAR leaves behind.
    BookMirror       the engine's books as the client's [MarketOrderBook] rebuilds them.
    MarketOrderBookRoom   the pools of a client book have room for 255 new orders.
    BookText, MEOrderBookText, MarketOrderBookText, BookMirrorText
                     [toString] of both books: the text of the abstract book.
    TradeEngine      trade_engine: dispatch and the two loops of [run].
    TradeEngineThread   the engine's thread and [stop] as steps that interleave.
    ClientDestroy    the destructors of the trade engine and of its books.
    ObserverClient   a trade engine without an algorithm, from its construction to its destructor.
    TradingMain      trading_main.cpp: the command line and the RANDOM algorithm, with its log.
    ClientProcess    trading_main.cpp: the client's process.
    TradingProtocol, TradingSafety   what an exchange may answer, as a step relation; the limits the
                     client keeps under it.

    * Correspondence

    A member function is a computation in [M S], with [S] the object's members as a record; several
    objects are reached with [zoom].  A function that calls back into another component takes it
    through a class ([EngineSink], [RequestSink], [BookListener]) and is proved against its laws.  A
    pointer to an object of a pool is its index ([None] is null), a pointer to an element of an array
    or queue is its position.  Fixed-width integers are [Z] with the wrap-around written out
    ([u32], [u64], [i32]); signed overflow, null dereferences, accesses out of bounds, exceptions
    that leave a [noexcept] function and [ASSERT]s are values of [fault].  Doubles are the Standard
    Library's binary64 (no contraction and no -ffast-math, which CMakeLists.txt turns on).
    Uninitialised arrays are arguments of the constructors.  Loops are structural on a
    list or take fuel: the walks of the books get the number of touched blocks of their pool, the
    loops over a queue its contents, the receive loop the buffer's length, the loop that accepts
    connections more than there are waiting; the refinement theorems are total, so this fuel is enough
    wherever they apply.  What sockets deliver and system calls answer, clocks, random draws, [std::sort]
    and [std::stod] are arguments.

    * What is shown

    Order book: from zeroed memory, the pointer code refines the abstract book on every cancel with ids
    in the range of the table and on every order the book can take ([addable]): ids in range and not
    those of a resting order, the next slots of both pools free, no other price in the price's slot of
    the table (prices equal modulo 256), and some of the opposite side left.  The code enforces none of
    this; what it does with a taker that empties the opposite side and with an order id beyond the
    table is stated as such, and two prices in one slot are an example of a broken book.  There
    follow price-time priority, conservation and the invariant of every book that is reached that way.
    Engine: a round refines the specification on such requests ([servable]); its updates describe its
    books; whatever bytes clients send, its messages and orders stay within their types. Queues and pool: FIFO order for any interleaving of
    one producer and one consumer, the queue's lifetime, fresh allocation, exhaustion. Order server,
    gateway and sequencer: requests reach the engine in order, once, gaps refused; what is cut into
    reads does not matter; responses reach the client in order. Path of an order: however the threads
    and the network interleave, what a client has received is a beginning of what serving the requests
    one after the other answers it, and all of it when nothing is in flight. Market data: numbering,
    snapshots, recovery; the consumer's output always adds up to a state of the feed, and when it has
    caught up to the exchange's books. Client order book: each update refines the abstract book and,
    on the sides it touches, the BBO; the updates the engine publishes rebuild the exchange's book,
    time priority included, both ends print the same text, and the two programs log the same books
    when they end; a client that only watches gets there; an ADD to an empty side
    does not reach the BBO and a CLEAR leaves the price table behind. Trading client: for every market
    data stream and every exchange that keeps the contract, at most one order per instrument and side,
    and a position within its limit. Latency tracker: concurrent calls add up as if each were atomic,
    they end within a stated number of accesses, and the statistics are those of the recorded
    latencies. Logger: what is logged is written, [log] ends the process exactly when the arguments do
    not fit the format, and a logger's life is bounded by its queue. Processes: which system calls set
    up a socket, that [connect]'s failure goes unnoticed, that [poll] takes in every waiting
    connection and gives none up, that the event loops for Linux and macOS do the same, that every
    component's [start] ends the process and so both mains end at their first, that the trade engine's
    [stop] returns once its queues are drained, what the command line means, what the RANDOM
    algorithm sends and logs, and when its queue or its logger ends it. Error theorems state what the code does where it goes wrong.

    * Not modelled

    The calls of the logger and of the latency macros in the other components (nothing reads them
    back), the callbacks that only log among them; only the RANDOM algorithm is modelled with its log.
    A logger lives for 2^23 elements (about as many characters), whatever was flushed, and then
    faults, so a theorem that says of such a component that it does not fault says so of everything but
    its log, and none says how long a process survives; the branches for macOS outside tcp_server; the
    signal handler, the sleeps and the calibration of the clock in the two mains; [record_order] and
    [record_trade] of the dashboard, which are empty.  Memory ordering: the queue and the latency
    tracker are modelled under sequentially consistent steps. *)
From stdpp Require Export prelude gmap strings list fin_maps pretty sorting.
#[global] Open Scope Z_scope.

(** * Machine faults and the result type *)

(** The ways in which an operation of the C++ program can fail to return.
    [NullDeref] and [OutOfBounds] are undefined behaviour (a read or write through
    a null pointer, [operator[]] or a raw pointer past the end of the storage);
    [SignedOverflow] is undefined behaviour of signed arithmetic; [BadConversion] is the
    conversion of a double to an integer type that cannot hold it (undefined); [OutOfRange] is
    the exception of [std::array::at], which leaves a [noexcept] function and so
    calls [std::terminate]; [Overlap] is [memcpy] between overlapping regions
    (undefined); [Terminate] is [std::terminate], called by the destructor of a thread that was
    neither joined nor detached; [Exit] is [exit(EXIT_FAILURE)] from [ASSERT] or
    [FATAL]; [OutOfFuel] marks a loop of the model that was cut off. *)
Inductive fault : Type :=
  | NullDeref
  | OutOfBounds
  | SignedOverflow
  | BadConversion
  | OutOfRange
  | Overlap
  | Terminate
  | Exit
  | OutOfFuel.

#[export] Instance fault_eq_dec : EqDecision fault.
Proof. solve_decision. Defined.

Inductive res (A : Type) : Type :=
  | Ok (a : A)
  | Err (f : fault).
Arguments Ok {A} a.
Arguments Err {A} f.

Definition res_bind {A B} (m : res A) (k : A → res B) : res B :=
  match m with Ok a => k a | Err f => Err f end.

Definition res_map {A B} (f : A → B) (m : res A) : res B :=
  match m with Ok a => Ok (f a) | Err e => Err e end.

(** * The state-and-fault monad in which member functions are written *)

Definition M (S A : Type) : Type := S → res (A * S).

#[export] Instance M_ret S : MRet (M S) := λ A a s, Ok (a, s).
#[export] Instance M_bind S : MBind (M S) := λ A B k m s,
  match m s with Ok (a, s') => k a s' | Err f => Err f end.

Definition raise {S A} (f : fault) : M S A := λ _, Err f.
Definition gets {S A} (f : S → A) : M S A := λ s, Ok (f s, s).
Definition modify {S} (f : S → S) : M S unit := λ s, Ok (tt, f s).
Definition of_res {S A} (r : res A) : M S A := λ s,
  match r with Ok a => Ok (a, s) | Err f => Err f end.
(** [ASSERT(cond, msg)] of macros.h. *)
Definition ASSERT {S} (cond : bool) : M S unit := if cond then mret tt else raise Exit.
(** [FATAL(msg)] of macros.h. *)
Definition FATAL {S A} : M S A := raise Exit.
(** Dereference of a pointer that may be null. *)
Definition deref {S A} (p : option A) : M S A :=
  match p with Some a => mret a | None => raise NullDeref end.
(** Runs a computation on one component of a larger state. *)
Definition zoom {S T A} (get : T → S) (set : S → T → T) (m : M S A) : M T A := λ t,
  match m (get t) with Ok (a, s) => Ok (a, set s t) | Err f => Err f end.

(** * Machine integers, kept at their width *)

Definition wrap (w z : Z) : Z := z mod 2 ^ w.
Definition u8 (z : Z) : Z := wrap 8 z.
Definition u32 (z : Z) : Z := wrap 32 z.
Definition u64 (z : Z) : Z := wrap 64 z.
(** Two's complement reading of the low [w] bits. *)
Definition swrap (w z : Z) : Z := (z + 2 ^ (w - 1)) mod 2 ^ w - 2 ^ (w - 1).
Definition i8 (z : Z) : Z := swrap 8 z.
Definition i32 (z : Z) : Z := swrap 32 z.
Definition i64 (z : Z) : Z := swrap 64 z.
Definition in_u (w z : Z) : bool := (0 <=? z) && (z <? 2 ^ w).
Definition in_i (w z : Z) : bool := (- 2 ^ (w - 1) <=? z) && (z <? 2 ^ (w - 1)).
(** The result of a signed operation: undefined outside the type's range. *)
Definition signed {S} (w z : Z) : M S Z := if in_i w z then mret z else raise SignedOverflow.

(** * Hints and tactics *)

Create HintDb hft.
Create Rewrite HintDb hft.

Lemma u32_range z : 0 ≤ u32 z < 2 ^ 32.
Proof. apply Z.mod_pos_bound; lia. Qed.
Lemma u64_range z : 0 ≤ u64 z < 2 ^ 64.
Proof. apply Z.mod_pos_bound; lia. Qed.
Lemma u32_id z : 0 ≤ z < 2 ^ 32 → u32 z = z.
Proof. apply Z.mod_small. Qed.
Lemma u64_id z : 0 ≤ z < 2 ^ 64 → u64 z = z.
Proof. apply Z.mod_small. Qed.
Lemma swrap_range w z : 0 < w → - 2 ^ (w - 1) ≤ swrap w z < 2 ^ (w - 1).
Proof.
  intros Hw. unfold swrap.
  assert (2 ^ w = 2 * 2 ^ (w - 1)) as E.
  { rewrite <- Z.pow_succ_r by lia. f_equal. lia. }
  pose proof (Z.mod_pos_bound (z + 2 ^ (w - 1)) (2 ^ w)). lia.
Qed.
Lemma swrap_id w z : 0 < w → - 2 ^ (w - 1) ≤ z < 2 ^ (w - 1) → swrap w z = z.
Proof.
  intros Hw Hz. unfold swrap.
  assert (2 ^ w = 2 * 2 ^ (w - 1)) as E.
  { rewrite <- Z.pow_succ_r by lia. f_equal. lia. }
  rewrite Z.mod_small by lia. lia.
Qed.
#[export] Hint Resolve u32_range u64_range : hft.
#[export] Hint Rewrite u32_id u64_id using lia : hft.

(** Rewriting with the result of the first computation of a sequence. *)
Lemma bind_Ok {S A B} (m : M S A) (k : A → M S B) s a s' :
  m s = Ok (a, s') → (m ≫= k) s = k a s'.
Proof. intros E. unfold mbind, M_bind. by rewrite E. Qed.
Lemma gets_bind {S A B} (f : S → A) (k : A → M S B) s : (gets f ≫= k) s = k (f s) s.
Proof. done. Qed.
Lemma bind_Err {S A B} (m : M S A) (k : A → M S B) s f :
  m s = Err f → (m ≫= k) s = Err f.
Proof. intros E. unfold mbind, M_bind. by rewrite E. Qed.

(** ** Total correctness of a computation
    [wp m s Φ]: from [s] the computation [m] returns, with a result and a state in [Φ]. *)
Definition wp {S A} (m : M S A) (s : S) (Φ : A → S → Prop) : Prop :=
  match m s with Ok (a, s') => Φ a s' | Err _ => False end.

Section wp.
Context {S A B : Type}.
Implicit Types (s : S).

Lemma wp_ok (m : M S A) s Φ : wp m s Φ ↔ ∃ a s', m s = Ok (a, s') ∧ Φ a s'.
Proof.
  unfold wp. split.
  - destruct (m s) as [[a s']|]; [eauto|done].
  - by intros (a & s' & -> & H).
Qed.
Lemma wp_mono (m : M S A) s (Φ Ψ : A → S → Prop) :
  wp m s Φ → (∀ a s', Φ a s' → Ψ a s') → wp m s Ψ.
Proof. unfold wp. destruct (m s) as [[a s']|]; auto. Qed.
Lemma wp_ret (a : A) s (Φ : A → S → Prop) : Φ a s → wp (mret a) s Φ.
Proof. done. Qed.
Lemma wp_gets (f : S → A) s (Φ : A → S → Prop) : Φ (f s) s → wp (gets f) s Φ.
Proof. done. Qed.
Lemma wp_modify (f : S → S) s (Φ : unit → S → Prop) : Φ tt (f s) → wp (modify f) s Φ.
Proof. done. Qed.
Lemma wp_deref (a : A) s (Φ : A → S → Prop) : Φ a s → wp (deref (Some a)) s Φ.
Proof. done. Qed.
Lemma wp_bind (m : M S A) (k : A → M S B) s (Φ : B → S → Prop) :
  wp m s (λ a s', wp (k a) s' Φ) → wp (m ≫= k) s Φ.
Proof. unfold wp, mbind, M_bind. by destruct (m s) as [[a s']|]. Qed.
Lemma wp_bind_assoc {C} (m : M S A) (f : A → M S B) (g : B → M S C) s (Φ : C → S → Prop) :
  wp (m ≫= f) s (λ b s', wp (g b) s' Φ) → wp (m ≫= λ a, f a ≫= g) s Φ.
Proof. unfold wp, mbind, M_bind. destruct (m s) as [[a s']|]; [|done]. by destruct (f a s') as [[b s'']|]. Qed.
Lemma wp_eq (m m' : M S A) s Φ : m s = m' s → wp m' s Φ → wp m s Φ.
Proof. unfold wp. by intros ->. Qed.
End wp.
Lemma wp_and {S A} (m : M S A) s (Φ Ψ : A → S → Prop) :
  wp m s Φ → wp m s Ψ → wp m s (λ a s', Φ a s' ∧ Ψ a s').
Proof. unfold wp. destruct (m s) as [[a s']|]; auto. Qed.
(** [wpn m s null Φ]: if [null] then the computation reads through a null pointer,
    otherwise it returns, with a result and a state in [Φ]. *)
Definition wpn {S A} (m : M S A) (s : S) (null : bool) (Φ : A → S → Prop) : Prop :=
  if null then m s = Err NullDeref else wp m s Φ.
Lemma wpn_bind {S A B} (m : M S A) (k : A → M S B) s null (Φ : B → S → Prop) :
  wp m s (λ a s', wpn (k a) s' null Φ) → wpn (m ≫= k) s null Φ.
Proof.
  unfold wpn. intros (a & s' & E & H)%wp_ok. destruct null.
  - by rewrite (bind_Ok _ _ _ _ _ E).
  - apply wp_bind, wp_ok. eauto.
Qed.
Lemma wpn_bind_l {S A B} (m : M S A) (k : A → M S B) s null (Ψ : A → S → Prop) (Φ : B → S → Prop) :
  wpn m s null Ψ → (∀ a s', Ψ a s' → wp (k a) s' Φ) → wpn (m ≫= k) s null Φ.
Proof.
  unfold wpn. destruct null; intros Hm Hk; [by apply bind_Err|].
  apply wp_bind. by eapply wp_mono.
Qed.
Lemma wpn_mono {S A} (m : M S A) s null (Φ Ψ : A → S → Prop) :
  wpn m s null Φ → (∀ a s', Φ a s' → Ψ a s') → wpn m s null Ψ.
Proof. unfold wpn. destruct null; [done|]. apply wp_mono. Qed.
Lemma wp_zoom {S T A} (get : T → S) (set : S → T → T) (m : M S A) t (Φ : A → T → Prop) :
  wp m (get t) (λ a s, Φ a (set s t)) → wp (zoom get set m) t Φ.
Proof. unfold wp, zoom. by destruct (m (get t)) as [[a s]|]. Qed.

(** A step whose result is known. *)
Lemma wp_bind_Ok {S A B} (m : M S A) (k : A → M S B) s a s' (Φ : B → S → Prop) :
  m s = Ok (a, s') → wp (k a) s' Φ → wp (m ≫= k) s Φ.
Proof. intros E H. apply wp_bind. unfold wp at 1. by rewrite E. Qed.
Lemma zoom_Ok {S T A} (get : T → S) (set : S → T → T) (m : M S A) t a s :
  m (get t) = Ok (a, s) → zoom get set m t = Ok (a, set s t).
Proof. unfold zoom. by intros ->. Qed.

(** ** Partial correctness of a computation
    [wlp m s Φ]: if [m] returns from [s], it does so with a result and a state in [Φ]. *)
Definition wlp {S A} (m : M S A) (s : S) (Φ : A → S → Prop) : Prop :=
  ∀ a s', m s = Ok (a, s') → Φ a s'.

Section wlp.
Context {S A B : Type}.
Implicit Types (s : S).

Lemma wlp_mono (m : M S A) s (Φ Ψ : A → S → Prop) :
  wlp m s Φ → (∀ a s', Φ a s' → Ψ a s') → wlp m s Ψ.
Proof. unfold wlp. eauto. Qed.
Lemma wlp_ret (a : A) s (Φ : A → S → Prop) : Φ a s → wlp (mret a) s Φ.
Proof. by intros H ? ? [= <- <-]. Qed.
Lemma wlp_gets (f : S → A) s (Φ : A → S → Prop) : Φ (f s) s → wlp (gets f) s Φ.
Proof. by intros H ? ? [= <- <-]. Qed.
Lemma wlp_modify (f : S → S) s (Φ : unit → S → Prop) : Φ tt (f s) → wlp (modify f) s Φ.
Proof. by intros H ? ? [= <- <-]. Qed.
Lemma wlp_raise f s (Φ : A → S → Prop) : wlp (raise f) s Φ.
Proof. done. Qed.
Lemma wlp_of_res (r : res A) s (Φ : A → S → Prop) :
  (∀ a, r = Ok a → Φ a s) → wlp (of_res r) s Φ.
Proof. unfold wlp, of_res. destruct r; [|done]. intros H ? ? [= <- <-]. by apply H. Qed.
Lemma wlp_bind (m : M S A) (k : A → M S B) s (Φ : B → S → Prop) :
  wlp m s (λ a s', wlp (k a) s' Φ) → wlp (m ≫= k) s Φ.
Proof.
  unfold wlp, mbind, M_bind. destruct (m s) as [[a s']|]; [|done]. intros H ? ? E. by eapply H.
Qed.
Lemma wp_wlp (m : M S A) s (Φ : A → S → Prop) : wp m s Φ → wlp m s Φ.
Proof. unfold wp, wlp. intros H a s' E. by rewrite E in H. Qed.
End wlp.
Lemma wlp_signed {S} w z (s : S) (Φ : Z → S → Prop) : (in_i w z = true → Φ z s) → wlp (signed w z) s Φ.
Proof. unfold signed. destruct (in_i w z); [|done]. intros H. by apply wlp_ret, H. Qed.
Lemma wlp_ASSERT {S} b (s : S) (Φ : unit → S → Prop) : (b = true → Φ tt s) → wlp (ASSERT b) s Φ.
Proof. unfold ASSERT. destruct b; [|done]. intros H. by apply wlp_ret, H. Qed.
Lemma zoom_inv {S T A} (get : T → S) (set : S → T → T) (m : M S A) t a t' :
  zoom get set m t = Ok (a, t') → ∃ s, m (get t) = Ok (a, s) ∧ t' = set s t.
Proof. unfold zoom. destruct (m (get t)) as [[b s]|]; [|done]. intros [= <- <-]. eauto. Qed.
Lemma wlp_zoom {S T A} (get : T → S) (set : S → T → T) (m : M S A) t (Φ : A → T → Prop) :
  wlp m (get t) (λ a s, Φ a (set s t)) → wlp (zoom get set m) t Φ.
Proof. unfold wlp, zoom. destruct (m (get t)) as [[a s]|]; [|done]. intros H ? ? [= <- <-]. eauto. Qed.

(** [keeps f m]: when [m] returns, [f] of the state is what it was. *)
Definition keeps {S A B} (f : S → B) (m : M S A) : Prop :=
  ∀ s, wlp m s (λ _ s', f s' = f s).
Create HintDb keeps.
Section keeps.
Context {S A B C : Type} (f : S → C).
Lemma keeps_ret (a : A) : keeps f (mret a).
Proof. intros s. by apply wlp_ret. Qed.
Lemma keeps_gets (g : S → A) : keeps f (gets g).
Proof. intros s. by apply wlp_gets. Qed.
Lemma keeps_raise e : keeps f (raise (A := A) e).
Proof. intros s. apply wlp_raise. Qed.
Lemma keeps_modify (g : S → S) : (∀ s, f (g s) = f s) → keeps f (modify g).
Proof. intros H s. by apply wlp_modify. Qed.
Lemma keeps_of_res (r : res A) : keeps f (of_res r).
Proof. intros s. by apply wlp_of_res. Qed.
Lemma keeps_signed w z : keeps f (signed w z).
Proof. intros s. by apply wlp_signed. Qed.
Lemma keeps_bind (m : M S A) (k : A → M S B) : keeps f m → (∀ a, keeps f (k a)) → keeps f (m ≫= k).
Proof.
  intros Hm Hk s. apply wlp_bind. intros a s1 E1 b s2 E2. rewrite (Hk a s1 b s2 E2). by apply (Hm s a).
Qed.
Lemma keeps_zoom {T} (get : S → T) (set : T → S → S) (m : M T A) :
  (∀ t s, f (set t s) = f s) → keeps f (zoom get set m).
Proof. intros H s. apply wlp_zoom. intros a t _. apply H. Qed.
Lemma keeps_deref (p : option A) : keeps f (deref p).
Proof. destruct p; [apply keeps_ret|apply keeps_raise]. Qed.
Lemma keeps_ASSERT b : keeps f (ASSERT b).
Proof. intros s. by destruct b; [apply wlp_ret|apply wlp_raise]. Qed.
Lemma wp_keeps (m : M S A) s (Φ : A → S → Prop) :
  keeps f m → wp m s Φ → wp m s (λ a s', Φ a s' ∧ f s' = f s).
Proof.
  intros Hk (a & s' & E & H)%wp_ok. apply wp_ok. exists a, s'. split_and!; [done..|]. by apply (Hk s a).
Qed.
End keeps.
#[export] Hint Resolve keeps_deref keeps_ASSERT : keeps.
#[export] Hint Resolve keeps_ret keeps_gets keeps_raise keeps_of_res keeps_signed : keeps.
(** [keeps] of a program, by its structure. *)
Ltac keeps_tac :=
  repeat (intros; lazymatch goal with
    | |- keeps _ (_ ≫= _) => apply keeps_bind
    | |- keeps _ (modify _) => first [apply keeps_modify; done | solve [auto with keeps]]
    | |- keeps _ (match _ with _ => _ end) => case_match
    | |- keeps _ _ => solve [auto with keeps]
    end).

(** [mrun] executes the visible prefix of a monadic program. *)
Ltac mrun :=
  repeat (progress (unfold mbind, M_bind, mret, M_ret, gets, modify, raise, of_res,
                      zoom, ASSERT, FATAL, deref); cbn beta iota match).

(** [bdestruct b] splits on a boolean comparison and turns it into a [Prop]. *)
Ltac bdestruct b :=
  let E := fresh "Hb" in
  destruct b eqn:E;
  rewrite ?Z.eqb_eq, ?Z.eqb_neq, ?Z.leb_le, ?Z.leb_gt, ?Z.ltb_lt, ?Z.ltb_ge,
    ?andb_true_iff, ?andb_false_iff, ?orb_true_iff, ?orb_false_iff,
    ?negb_true_iff, ?negb_false_iff in E.

(** * Lists *)

Section lists.
Context {A : Type}.
Implicit Types (l : list A) (x y : A).

(** The last element of a non-empty list split off at the end. *)
Lemma list_snoc x l : ∃ l' y, (x :: l) = (l' ++ [y]).
Proof.
  revert x. induction l as [|z l IH]; intros x; [by exists [], x|].
  destruct (IH z) as (l' & y & ->). by exists (x :: l'), y.
Qed.

Lemma Forall_filter_keep (Q P : A → Prop) `{∀ x, Decision (P x)} l :
  Forall Q l → Forall Q (filter P l).
Proof.
  rewrite !Forall_forall. intros HQ x [_ Hx]%list_elem_of_filter. auto.
Qed.
Lemma filter_Forall_iff (P Q : A → Prop) `{∀ x, Decision (P x), ∀ x, Decision (Q x)} l :
  Forall (λ x, P x ↔ Q x) l → filter P l = filter Q l.
Proof.
  induction 1 as [|x l Hx _ IH]; [done|]. destruct (decide (P x)).
  - rewrite !filter_cons_True by tauto. by f_equal.
  - by rewrite !filter_cons_False by tauto.
Qed.
Lemma cons_app x l : x :: l = [x] ++ l.
Proof. done. Qed.
Lemma NoDup_app_cons_inv l1 x l2 :
  NoDup (l1 ++ (x :: l2)) → x ∉ l1 ∧ x ∉ l2 ∧ NoDup (l1 ++ l2).
Proof.
  rewrite <- Permutation_middle, NoDup_cons. rewrite elem_of_app. intuition.
Qed.
End lists.

Lemma StronglySorted_weaken {A} (R R' : relation A) l :
  (∀ x y, R x y → R' x y) → StronglySorted R l → StronglySorted R' l.
Proof.
  intros HR. induction 1 as [|x l _ IH Hx]; constructor; [done|].
  eapply Forall_impl; [exact Hx|auto].
Qed.
(** In a list sorted by a strictly increasing measure, the measure identifies. *)
Lemma StronglySorted_lt_inj {A} (f : A → Z) l x y :
  StronglySorted (λ x y, f x < f y) l → x ∈ l → y ∈ l → f x = f y → x = y.
Proof.
  induction 1 as [|z l _ IH Hz]; [by intros ?%not_elem_of_nil|].
  rewrite Forall_forall in Hz.
  intros [->|Hx]%elem_of_cons [->|Hy]%elem_of_cons Hf; [done| | |auto].
  - specialize (Hz _ Hy). lia.
  - specialize (Hz _ Hx). lia.
Qed.

(** Non-negative sums over lists. *)
Definition zsum {A} (f : A → Z) (l : list A) : Z := foldr (λ a n, f a + n) 0 l.

Lemma zsum_app {A} (f : A → Z) l1 l2 : zsum f (l1 ++ l2) = zsum f l1 + zsum f l2.
Proof. induction l1 as [|a l1 IH]; csimpl; [done|]. unfold zsum in *. simpl. lia. Qed.
Lemma zsum_cons {A} (f : A → Z) a l : zsum f (a :: l) = f a + zsum f l.
Proof. done. Qed.
Lemma zsum_nil {A} (f : A → Z) : zsum f [] = 0.
Proof. done. Qed.
Lemma zsum_nonneg {A} (f : A → Z) l : Forall (λ a, 0 ≤ f a) l → 0 ≤ zsum f l.
Proof. induction 1; unfold zsum in *; simpl; lia. Qed.
#[export] Hint Rewrite @zsum_app @zsum_cons @zsum_nil : hft.
(** Distinct integers of a range. *)
Lemma length_range (l : list Z) n : 0 ≤ n → NoDup l → (∀ x, x ∈ l → 0 ≤ x < n) → Z.of_nat (length l) ≤ n.
Proof.
  intros Hn Hnd Hl. assert (l ⊆+ seqZ 0 n) as Hs%submseteq_length.
  { apply NoDup_submseteq; [done|]. intros y Hy. apply elem_of_seqZ. specialize (Hl y Hy). lia. }
  rewrite length_seqZ in Hs. lia.
Qed.

(** * Strings *)

#[export] Instance append_assoc : Assoc (=) String.append.
Proof. intros s1 s2 s3. induction s1 as [|c s1 IH]; [done|]. unfold String.append; fold String.append. f_equal. exact IH. Qed.
#[export] Instance append_nil_r : RightId (=) EmptyString String.append.
Proof. intros s. induction s as [|c s IH]; [done|]. unfold String.append; fold String.append. f_equal. exact IH. Qed.
