(* ===== verification/Types.v ===== *)
(** Common/types.h: the identifiers, bounds and enumerations every component uses.

    Identifiers are integers of the width types.h gives them; the largest value of
    the type is the INVALID sentinel.  An [enum class] with a fixed underlying type
    can hold any value of that type (such values arrive from the wire), so each
    enumeration has a last constructor [..._UNKNOWN v] for the values without an
    enumerator: these are the values for which the program's [...ToString]
    functions fall through to "UNKNOWN". *)
From Stdlib Require Import Ascii.
From S2P Require Export Prelude.

(** ** Bounds *)
Definition ME_MAX_TICKERS : Z := 8.
Definition ME_MAX_CLIENT_UPDATES : Z := 262144.
Definition ME_MAX_MARKET_UPDATES : Z := 262144.
Definition ME_MAX_NUM_CLIENTS : Z := 256.
Definition ME_MAX_ORDER_IDS : Z := 1048576.
Definition ME_MAX_PRICE_LEVELS : Z := 256.

(** ** Identifiers: 64-bit order ids and priorities, 32-bit ticker ids, client ids
    and quantities, signed 64-bit prices. *)
Definition OrderId_INVALID : Z := 2 ^ 64 - 1.
Definition TickerId_INVALID : Z := 2 ^ 32 - 1.
Definition ClientId_INVALID : Z := 2 ^ 32 - 1.
Definition Price_INVALID : Z := 2 ^ 63 - 1.
Definition Price_MIN : Z := - 2 ^ 63.
Definition Qty_INVALID : Z := 2 ^ 32 - 1.
Definition Priority_INVALID : Z := 2 ^ 64 - 1.

(** [std::endl], as text. *)
Definition newline : string := String (ascii_of_nat 10) EmptyString.

Definition orderIdToString (order_id : Z) : string :=
  if order_id =? OrderId_INVALID then "INVALID" else pretty order_id.
Definition tickerIdToString (ticker_id : Z) : string :=
  if ticker_id =? TickerId_INVALID then "INVALID" else pretty ticker_id.
Definition clientIdToString (client_id : Z) : string :=
  if client_id =? ClientId_INVALID then "INVALID" else pretty client_id.
Definition priceToString (price : Z) : string :=
  if price =? Price_INVALID then "INVALID" else pretty price.
Definition qtyToString (qty : Z) : string :=
  if qty =? Qty_INVALID then "INVALID" else pretty qty.
Definition priorityToString (priority : Z) : string :=
  if priority =? Priority_INVALID then "INVALID" else pretty priority.

(** ** Sides *)
Inductive Side : Type :=
  | Side_INVALID
  | Side_BUY
  | Side_SELL
  | Side_MAX
  | Side_UNKNOWN (v : Z).

#[export] Instance Side_eq_dec : EqDecision Side.
Proof. solve_decision. Defined.

Definition sideToString (side : Side) : string :=
  match side with
  | Side_BUY => "BUY"
  | Side_SELL => "SELL"
  | Side_INVALID => "INVALID"
  | Side_MAX => "MAX"
  | Side_UNKNOWN _ => "UNKNOWN"
  end.

(** [static_cast<int>(side)]: the value of the enumerator (sideToValue). *)
Definition sideToValue (side : Side) : Z :=
  match side with
  | Side_INVALID => 0
  | Side_BUY => 1
  | Side_SELL => -1
  | Side_MAX => 2
  | Side_UNKNOWN v => v
  end.

(** [static_cast<size_t>(side) + 1], computed in 64 unsigned bits. *)
Definition sideToIndex (side : Side) : Z := u64 (u64 (sideToValue side) + 1).

(** ** Algorithm types *)
Inductive AlgoType : Type :=
  | AlgoType_INVALID
  | AlgoType_RANDOM
  | AlgoType_MAKER
  | AlgoType_TAKER
  | AlgoType_MAX
  | AlgoType_UNKNOWN (v : Z).

#[export] Instance AlgoType_eq_dec : EqDecision AlgoType.
Proof. solve_decision. Defined.

Definition algoTypeToString (type : AlgoType) : string :=
  match type with
  | AlgoType_RANDOM => "RANDOM"
  | AlgoType_MAKER => "MAKER"
  | AlgoType_TAKER => "TAKER"
  | AlgoType_INVALID => "INVALID"
  | AlgoType_MAX => "MAX"
  | AlgoType_UNKNOWN _ => "UNKNOWN"
  end.

(** [static_cast<AlgoType>(i)]. *)
Definition AlgoType_of_int (i : Z) : AlgoType :=
  if i =? 0 then AlgoType_INVALID
  else if i =? 1 then AlgoType_RANDOM
  else if i =? 2 then AlgoType_MAKER
  else if i =? 3 then AlgoType_TAKER
  else if i =? 4 then AlgoType_MAX
  else AlgoType_UNKNOWN i.

(** The loop of [stringToAlgoType] over i = INVALID .. MAX, from the [i]-th value with
    [n] values left. *)
Fixpoint stringToAlgoType_from (n : nat) (i : Z) (str : string) : AlgoType :=
  match n with
  | O => AlgoType_INVALID
  | S n =>
    let algo_type := AlgoType_of_int i in
    if decide (algoTypeToString algo_type = str) then algo_type
    else stringToAlgoType_from n (i + 1) str
  end.
Definition stringToAlgoType (str : string) : AlgoType := stringToAlgoType_from 5 0 str.

(** ** Properties *)

(** The identifier printers lose nothing on the values of their type: two order ids
    with the same text are the same order id (and likewise for prices). *)
Lemma pretty_not_INVALID (z : Z) : pretty z ≠ "INVALID"%string.
Proof.
  assert (∀ x s s', pretty_N_go x s = String "I"%char s' → ∃ s'', s = String "I"%char s'') as Hgo.
  { intros x. induction (N.lt_wf_0 x) as [x _ IH]. intros s s' Hp.
    destruct (decide (0 < x)%N) as [Hx|Hx].
    - rewrite pretty_N_go_step in Hp by done.
      apply IH in Hp as [s'' [= H1 H2]]; [|apply N.div_lt; lia].
      exfalso. revert H1. unfold pretty_N_char. by repeat case_match.
    - assert (x = 0%N) as -> by lia. rewrite pretty_N_go_0 in Hp. eauto. }
  destruct z as [|p|p]; unfold pretty, pretty_Z; [done| |done].
  unfold pretty, pretty_positive, pretty, pretty_N.
  destruct (decide (N.pos p = 0%N)); [done|].
  intros Hp. by apply Hgo in Hp as [s'' ?].
Qed.

Section printers.
Context (inv : Z).
Definition id_to_string (z : Z) : string := if z =? inv then "INVALID" else pretty z.
Lemma id_to_string_inj x y : id_to_string x = id_to_string y → x = y.
Proof.
  unfold id_to_string. bdestruct (x =? inv); bdestruct (y =? inv); intros E.
  - congruence.
  - by apply eq_sym, pretty_not_INVALID in E.
  - by apply pretty_not_INVALID in E.
  - by apply (inj pretty) in E.
Qed.
End printers.

#[export] Instance orderIdToString_inj : Inj (=) (=) orderIdToString.
Proof. exact (id_to_string_inj _). Qed.
#[export] Instance tickerIdToString_inj : Inj (=) (=) tickerIdToString.
Proof. exact (id_to_string_inj _). Qed.
#[export] Instance clientIdToString_inj : Inj (=) (=) clientIdToString.
Proof. exact (id_to_string_inj _). Qed.
#[export] Instance priceToString_inj : Inj (=) (=) priceToString.
Proof. exact (id_to_string_inj _). Qed.
#[export] Instance qtyToString_inj : Inj (=) (=) qtyToString.
Proof. exact (id_to_string_inj _). Qed.
#[export] Instance priorityToString_inj : Inj (=) (=) priorityToString.
Proof. exact (id_to_string_inj _). Qed.

Lemma sideToIndex_values :
  sideToIndex Side_SELL = 0 ∧ sideToIndex Side_INVALID = 1 ∧
  sideToIndex Side_BUY = 2 ∧ sideToIndex Side_MAX = 3.
Proof. done. Qed.
