(* ===== verification/Wire.v ===== *)
(** The wire format: packed little-endian structures in a byte buffer.

    The network messages are [#pragma pack(1)] structs copied to and from socket
    buffers byte by byte, on a little-endian machine.  [Wire] is the interface a
    message type gives to the components that send and receive it: its size
    ([sizeof]), its bytes and the reading of a struct from bytes; [WireLaws] are
    the laws they rely on.  [drain] is the framing loop of the receive callbacks. *)
From coqutil Require Import Byte Word.LittleEndianList.
From S2P Require Export Prelude.

#[global] Arguments le_split : simpl never.
#[global] Arguments le_combine : simpl never.

(** ** The interface *)
Class Wire (A : Type) := {
  wire_size : nat;
  wire_enc : A → list byte;
  wire_dec : list byte → A;
}.

Class WireLaws (A : Type) `{Wire A} (valid : A → bool) := {
  wire_size_pos : (0 < wire_size (A := A))%nat;
  wire_enc_length a : length (wire_enc a) = wire_size (A := A);
  wire_dec_enc a : valid a = true → wire_dec (wire_enc a) = a;
  wire_enc_dec bs : length bs = wire_size (A := A) → wire_enc (wire_dec bs) = bs;
}.

(** ** Fields *)
Section fields.
(** Reads [n] bytes off the front as an unsigned little-endian number. *)
Definition get_u (n : nat) (bs : list byte) : Z * list byte :=
  (le_combine (take n bs), drop n bs).
(** The same bytes as a two's complement number. *)
Definition get_i (n : nat) (bs : list byte) : Z * list byte :=
  (swrap (8 * Z.of_nat n) (le_combine (take n bs)), drop n bs).

Lemma get_u_put n z rest :
  in_u (8 * Z.of_nat n) z = true → get_u n (le_split n z ++ rest) = (z, rest).
Proof.
  unfold in_u, get_u. intros Hz.
  pose proof (length_le_split n z) as Hl.
  rewrite take_app_length' by done. rewrite drop_app_length' by done.
  rewrite le_combine_split, (Z.mul_comm (Z.of_nat n)), Z.mod_small by lia. done.
Qed.

Lemma get_i_put n z rest :
  (0 < n)%nat → in_i (8 * Z.of_nat n) z = true →
  get_i n (le_split n z ++ rest) = (z, rest).
Proof.
  unfold in_i, get_i. intros Hn Hz.
  pose proof (length_le_split n z) as Hl.
  rewrite take_app_length' by done. rewrite drop_app_length' by done.
  rewrite le_combine_split. f_equal. rewrite (Z.mul_comm (Z.of_nat n)).
  unfold swrap. rewrite Zplus_mod_idemp_l.
  apply (swrap_id (8 * Z.of_nat n) z); lia.
Qed.

Lemma le_split_mod_eq n z z' :
  z mod 2 ^ (8 * Z.of_nat n) = z' mod 2 ^ (8 * Z.of_nat n) → le_split n z = le_split n z'.
Proof. intros E. rewrite (le_split_mod z), (le_split_mod z'). by rewrite Z.mul_comm, E. Qed.

Lemma put_get_u n bs :
  (n ≤ length bs)%nat → le_split n (get_u n bs).1 ++ (get_u n bs).2 = bs.
Proof.
  intros Hn. unfold get_u; simpl.
  rewrite split_le_combine' by (rewrite length_take; lia). apply take_drop.
Qed.

Lemma get_u_inv n bs z rest :
  get_u n bs = (z, rest) → (n ≤ length bs)%nat →
  bs = le_split n z ++ rest ∧ length bs = (n + length rest)%nat.
Proof.
  intros E Hn. pose proof (put_get_u n bs Hn) as Hp. rewrite E in Hp. simpl in Hp.
  split; [done|]. rewrite <- Hp, length_app, length_le_split. done.
Qed.

Lemma swrap_mod w z : 0 < w → swrap w z mod 2 ^ w = z mod 2 ^ w.
Proof.
  intros Hw. unfold swrap. rewrite Zminus_mod_idemp_l. f_equal. lia.
Qed.

Lemma put_get_i n bs :
  (0 < n ≤ length bs)%nat → le_split n (get_i n bs).1 ++ (get_i n bs).2 = bs.
Proof.
  intros Hn. unfold get_i; simpl.
  rewrite (le_split_mod_eq _ _ (le_combine (take n bs))) by (apply swrap_mod; lia).
  rewrite split_le_combine' by (rewrite length_take; lia). apply take_drop.
Qed.

Lemma get_i_inv n bs z rest :
  get_i n bs = (z, rest) → (0 < n)%nat → (n ≤ length bs)%nat →
  bs = le_split n z ++ rest ∧ length bs = (n + length rest)%nat.
Proof.
  intros E Hn Hl. pose proof (put_get_i n bs (conj Hn Hl)) as Hp.
  rewrite E in Hp. simpl in Hp.
  split; [done|]. rewrite <- Hp, length_app, length_le_split. done.
Qed.
End fields.

(** Decides a round trip of a struct: [wire_read] reads back fields just written,
    [wire_write] splits a buffer into the fields that were read from it. *)
Ltac wire_read :=
  rewrite <- ?(assoc_L (++));
  repeat first
    [ rewrite get_u_put by done; cbn beta iota match
    | rewrite get_i_put by (done || lia); cbn beta iota match ].
Ltac wire_write :=
  repeat match goal with
  | |- context [get_u ?n ?bs] =>
    let z := fresh "z" in let r := fresh "rest" in
    let E := fresh "E" in let Hl := fresh "Hl" in
    destruct (get_u n bs) as [z r] eqn:E;
    apply get_u_inv in E as [E Hl]; [rewrite E; clear E | lia]
  | |- context [get_i ?n ?bs] =>
    let z := fresh "z" in let r := fresh "rest" in
    let E := fresh "E" in let Hl := fresh "Hl" in
    destruct (get_i n bs) as [z r] eqn:E;
    apply get_i_inv in E as [E Hl]; [rewrite E; clear E | lia | lia]
  end.

(** ** Framing: the receive loop over a stream of fixed-size structs *)
Section framing.
Context {A : Type} `{Wire A}.

(** The loop of the receive callbacks: while a whole struct remains at offset [i],
    read it and advance by its size.  The result is the structs read, in order,
    and the bytes that are left, which the callback moves to the front of the
    buffer ([memcpy]).  [fuel] bounds the number of structs. *)
Fixpoint drain_from (fuel : nat) (buf : list byte) : list A * list byte :=
  match fuel with
  | O => ([], buf)
  | S fuel =>
    if decide (wire_size (A := A) ≤ length buf)%nat then
      let '(msgs, rest) := drain_from fuel (drop (wire_size (A := A)) buf) in
      (wire_dec (take (wire_size (A := A)) buf) :: msgs, rest)
    else ([], buf)
  end.
Definition drain (buf : list byte) : list A * list byte :=
  drain_from (length buf) buf.

Context (valid : A → bool) `{!WireLaws A valid}.
#[local] Abbreviation sz := (wire_size (A := A)).

Lemma drain_from_enough n m buf :
  (length buf ≤ n)%nat → (length buf ≤ m)%nat → drain_from n buf = drain_from m buf.
Proof.
  pose proof (wire_size_pos (A := A)) as Hsz.
  revert m buf. induction n as [|n IH]; intros [|m] buf Hn Hm; simpl; try done.
  - destruct (decide _); [lia|done].
  - destruct (decide _); [lia|done].
  - destruct (decide _) as [Hb|]; [|done].
    rewrite (IH m); [done| |]; rewrite length_drop; lia.
Qed.

Lemma drain_short buf : (length buf < sz)%nat → drain buf = ([], buf).
Proof.
  intros Hb. unfold drain. destruct (length buf) as [|n] eqn:E; [done|].
  simpl. destruct (decide _); [lia|done].
Qed.

Lemma drain_long buf :
  (sz ≤ length buf)%nat →
  drain buf = let '(msgs, rest) := drain (drop sz buf) in
              (wire_dec (take sz buf) :: msgs, rest).
Proof.
  pose proof (wire_size_pos (A := A)) as Hsz.
  intros Hb. unfold drain at 1. destruct (length buf) as [|n] eqn:E; [lia|].
  simpl. destruct (decide _); [|lia]. unfold drain.
  rewrite (drain_from_enough n (length (drop sz buf))); [done| |lia].
  rewrite length_drop; lia.
Qed.

(** What is left is always shorter than a struct. *)
Lemma drain_rest buf msgs rest : drain buf = (msgs, rest) → (length rest < sz)%nat.
Proof.
  pose proof (wire_size_pos (A := A)) as Hsz.
  remember (length buf) as n eqn:E. revert buf msgs rest E.
  induction n as [n IH] using lt_wf_ind. intros buf msgs rest -> Hd.
  destruct (decide (sz ≤ length buf)%nat) as [Hb|Hb].
  - rewrite drain_long in Hd by done.
    destruct (drain (drop sz buf)) as [msgs' rest'] eqn:Hd'. simplify_eq.
    eapply (IH (length (drop sz buf))); [rewrite length_drop; lia|done|done].
  - rewrite drain_short in Hd by lia. simplify_eq. lia.
Qed.

(** Framing does not depend on how the stream is cut into reads: draining a first
    chunk, then the left-over bytes followed by a second chunk, reads the same
    structs as draining both chunks at once. *)
Lemma drain_app buf1 buf2 msgs1 rest1 :
  drain buf1 = (msgs1, rest1) →
  drain (buf1 ++ buf2) =
    let '(msgs2, rest2) := drain (rest1 ++ buf2) in (msgs1 ++ msgs2, rest2).
Proof.
  pose proof (wire_size_pos (A := A)) as Hsz.
  remember (length buf1) as n eqn:E. revert buf1 msgs1 rest1 E.
  induction n as [n IH] using lt_wf_ind. intros buf1 msgs1 rest1 -> Hd.
  destruct (decide (sz ≤ length buf1)%nat) as [Hb|Hb].
  - rewrite drain_long in Hd by done.
    destruct (drain (drop sz buf1)) as [m r] eqn:Hd1. simplify_eq.
    rewrite drain_long by (rewrite length_app; lia).
    rewrite take_app_le, drop_app_le by done.
    assert (length (drop sz buf1) < length buf1)%nat as Hlt by (rewrite length_drop; lia).
    rewrite (IH _ Hlt _ _ _ eq_refl Hd1). by destruct (drain (rest1 ++ buf2)).
  - rewrite drain_short in Hd by lia. simplify_eq.
    by destruct (drain (rest1 ++ buf2)).
Qed.

(** The bytes read and the bytes left make up the buffer. *)
Lemma drain_split buf :
  ∃ buf', buf = buf' ++ (drain buf).2 ∧ length buf' = (length (drain buf).1 * sz)%nat.
Proof.
  pose proof (wire_size_pos (A := A)) as Hsz.
  remember (length buf) as n eqn:E. revert buf E.
  induction n as [n IH] using lt_wf_ind. intros buf ->.
  destruct (decide (sz ≤ length buf)%nat) as [Hb|Hb].
  - rewrite drain_long by done. destruct (IH (length (drop sz buf))) with (buf := drop sz buf)
      as (buf' & Hbuf & Hl); [rewrite length_drop; lia|done|].
    destruct (drain (drop sz buf)) as [ms rest]. simpl in *.
    exists (take sz buf ++ buf'). split.
    + by rewrite <- (assoc_L (++)), <- Hbuf, take_drop.
    + rewrite length_app, Hl, length_take. lia.
  - rewrite drain_short by lia. by exists [].
Qed.

Lemma drain_cons m tail :
  valid m = true →
  drain (wire_enc m ++ tail) =
    let '(msgs, rest) := drain tail in (m :: msgs, rest).
Proof.
  intros Hm. pose proof (wire_enc_length m) as Hl.
  rewrite drain_long by (rewrite length_app; lia).
  by rewrite drop_app_length', take_app_length', wire_dec_enc by done.
Qed.

(** A stream of encoded messages is read back exactly. *)
Lemma drain_encoded (ms : list A) tail :
  forallb valid ms = true → (length tail < sz)%nat →
  drain (concat (wire_enc <$> ms) ++ tail) = (ms, tail).
Proof.
  intros Hv Ht. induction ms as [|m ms IH]; csimpl; [by apply drain_short|].
  simpl in Hv. apply andb_true_iff in Hv as [Hm Hms].
  by rewrite <- (assoc_L (++)), drain_cons, IH by done.
Qed.
End framing.

(** ** The receive callback's loop
    [for (i = 0; i + sizeof(A) <= next_rcv_valid_index_; i += sizeof(A))] with the loop's
    body [body], then the move of the unread bytes to the front of the buffer. *)
Section recv_loop.
Context {A S : Type} `{Wire A} (body : A → M S unit).

(** From offset [i] of the received bytes; the result is the offset the loop stops at.
    A struct has at least one byte, so [length buf + 1] rounds are enough. *)
Fixpoint recv_loop (fuel : nat) (buf : list byte) (i : nat) : M S nat :=
  match fuel with
  | O => raise OutOfFuel
  | Datatypes.S fuel =>
    if decide (i + wire_size (A := A) ≤ length buf)%nat then
      _ ← body (wire_dec (take (wire_size (A := A)) (drop i buf)));
      recv_loop fuel buf (i + wire_size (A := A))
    else mret i
  end.
(** [memcpy(data, data + i, next_rcv_valid_index_ - i)]: undefined if the two regions
    overlap.  The result is the buffer's new valid part. *)
Definition memcpy_to_front (buf : list byte) (i : nat) : M S (list byte) :=
  if decide (length buf - i ≤ i)%nat then mret (drop i buf) else raise Overlap.
Definition recv_messages (buf : list byte) : M S (list byte) :=
  if decide (wire_size (A := A) ≤ length buf)%nat then
    i ← recv_loop (Datatypes.S (length buf)) buf 0;
    memcpy_to_front buf i
  else mret buf.

(** The body on each message in turn. *)
Fixpoint each (ms : list A) : M S unit :=
  match ms with [] => mret tt | m :: ms => _ ← body m; each ms end.

Lemma each_app ms1 ms2 s : each (ms1 ++ ms2) s = (_ ← each ms1; each ms2) s.
Proof.
  revert s. induction ms1 as [|m ms1 IH]; intros s; [done|].
  simpl. unfold mbind, M_bind in *. destruct (body m s) as [[[] s']|]; [apply IH|done].
Qed.

Context (valid : A → bool) `{!WireLaws A valid}.
#[local] Abbreviation sz := (wire_size (A := A)).

Lemma recv_loop_drain fuel buf i s :
  (length buf - i < fuel)%nat → (i ≤ length buf)%nat →
  recv_loop fuel buf i s =
    (_ ← each (drain (drop i buf)).1; mret (length buf - length (drain (drop i buf)).2)%nat) s.
Proof.
  pose proof (wire_size_pos (A := A)) as Hsz.
  revert i s. induction fuel as [|fuel IH]; intros i s Hf Hi; [lia|]. simpl.
  destruct (decide _) as [Hlt|Hge].
  - rewrite (drain_long valid (drop i buf)) by (rewrite length_drop; lia).
    rewrite drop_drop. specialize (IH (i + sz)%nat).
    destruct (drain (drop (i + sz) buf)) as [ms rest]. simpl in *.
    unfold mbind, M_bind in *. destruct (body _ s) as [[[] s']|]; [|done].
    apply IH; lia.
  - rewrite drain_short by (rewrite length_drop; lia). simpl.
    unfold mbind, M_bind, mret, M_ret. rewrite length_drop. do 2 f_equal. lia.
Qed.

(** What the callback does: the body on each whole message received, in order; the bytes
    of an unfinished message stay.  The [memcpy] never overlaps. *)
Lemma recv_messages_drain buf s :
  recv_messages buf s = (_ ← each (drain buf).1; mret (drain buf).2) s.
Proof.
  pose proof (wire_size_pos (A := A)) as Hsz.
  unfold recv_messages. destruct (decide _) as [Hlt|Hge].
  - unfold mbind, M_bind. rewrite recv_loop_drain by lia. rewrite drop_0.
    pose proof (drain_split valid buf) as Hr.
    destruct (drain buf) as [ms rest] eqn:E. simpl.
    pose proof (drain_rest valid buf _ _ E) as Hrest.
    unfold mbind, M_bind. destruct (each ms s) as [[[] s']|]; [|done].
    unfold mret, M_ret, memcpy_to_front. destruct Hr as (buf' & -> & Hl).
    rewrite length_app in *. cbn [fst snd] in *.
    assert (sz ≤ length buf')%nat by (destruct ms as [|m ms]; simpl in Hl; nia).
    replace (length buf' + length rest - length rest)%nat with (length buf') by lia.
    rewrite decide_True by lia. by rewrite drop_app_length.
  - by rewrite drain_short by lia.
Qed.
End recv_loop.
