(* ===== verification/Messages.v ===== *)
(** The messages exchanged by the components: order_server/client_request.h,
    order_server/client_response.h and market_data/market_update.h.

    Each message is a record with the fields of its packed struct, its [toString],
    and its [Wire] instance: the bytes of the struct in declaration order, without
    padding, little-endian.  [..._ok] says that every field fits its C++ type and
    that an enumeration without an enumerator is written [..._UNKNOWN]. *)
From coqutil Require Import Byte Word.LittleEndianList.
From S2P Require Export Types Wire.

(** ** Enumerations *)
Inductive ClientRequestType : Type :=
  | ClientRequestType_INVALID
  | ClientRequestType_NEW
  | ClientRequestType_CANCEL
  | ClientRequestType_UNKNOWN (v : Z).

Inductive ClientResponseType : Type :=
  | ClientResponseType_INVALID
  | ClientResponseType_ACCEPTED
  | ClientResponseType_CANCELED
  | ClientResponseType_FILLED
  | ClientResponseType_CANCEL_REJECTED
  | ClientResponseType_UNKNOWN (v : Z).

Inductive MarketUpdateType : Type :=
  | MarketUpdateType_INVALID
  | MarketUpdateType_CLEAR
  | MarketUpdateType_ADD
  | MarketUpdateType_MODIFY
  | MarketUpdateType_CANCEL
  | MarketUpdateType_TRADE
  | MarketUpdateType_SNAPSHOT_START
  | MarketUpdateType_SNAPSHOT_END
  | MarketUpdateType_UNKNOWN (v : Z).

#[export] Instance ClientRequestType_eq_dec : EqDecision ClientRequestType.
Proof. solve_decision. Defined.
#[export] Instance ClientResponseType_eq_dec : EqDecision ClientResponseType.
Proof. solve_decision. Defined.
#[export] Instance MarketUpdateType_eq_dec : EqDecision MarketUpdateType.
Proof. solve_decision. Defined.

Definition clientRequestTypeToString (type : ClientRequestType) : string :=
  match type with
  | ClientRequestType_NEW => "NEW"
  | ClientRequestType_CANCEL => "CANCEL"
  | ClientRequestType_INVALID => "INVALID"
  | ClientRequestType_UNKNOWN _ => "UNKNOWN"
  end.

Definition clientResponseTypeToString (type : ClientResponseType) : string :=
  match type with
  | ClientResponseType_ACCEPTED => "ACCEPTED"
  | ClientResponseType_CANCELED => "CANCELED"
  | ClientResponseType_FILLED => "FILLED"
  | ClientResponseType_CANCEL_REJECTED => "CANCEL_REJECTED"
  | ClientResponseType_INVALID => "INVALID"
  | ClientResponseType_UNKNOWN _ => "UNKNOWN"
  end.

Definition marketUpdateTypeToString (type : MarketUpdateType) : string :=
  match type with
  | MarketUpdateType_CLEAR => "CLEAR"
  | MarketUpdateType_ADD => "ADD"
  | MarketUpdateType_MODIFY => "MODIFY"
  | MarketUpdateType_CANCEL => "CANCEL"
  | MarketUpdateType_TRADE => "TRADE"
  | MarketUpdateType_SNAPSHOT_START => "SNAPSHOT_START"
  | MarketUpdateType_SNAPSHOT_END => "SNAPSHOT_END"
  | MarketUpdateType_INVALID => "INVALID"
  | MarketUpdateType_UNKNOWN _ => "UNKNOWN"
  end.

(** The underlying values of the enumerators, and the reading of a value back. *)
Definition Side_of_int (v : Z) : Side :=
  if v =? 0 then Side_INVALID else if v =? 1 then Side_BUY
  else if v =? -1 then Side_SELL else if v =? 2 then Side_MAX else Side_UNKNOWN v.
Definition ClientRequestType_to_int (type : ClientRequestType) : Z :=
  match type with
  | ClientRequestType_INVALID => 0 | ClientRequestType_NEW => 1
  | ClientRequestType_CANCEL => 2 | ClientRequestType_UNKNOWN v => v
  end.
Definition ClientRequestType_of_int (v : Z) : ClientRequestType :=
  if v =? 0 then ClientRequestType_INVALID else if v =? 1 then ClientRequestType_NEW
  else if v =? 2 then ClientRequestType_CANCEL else ClientRequestType_UNKNOWN v.
Definition ClientResponseType_to_int (type : ClientResponseType) : Z :=
  match type with
  | ClientResponseType_INVALID => 0 | ClientResponseType_ACCEPTED => 1
  | ClientResponseType_CANCELED => 2 | ClientResponseType_FILLED => 3
  | ClientResponseType_CANCEL_REJECTED => 4 | ClientResponseType_UNKNOWN v => v
  end.
Definition ClientResponseType_of_int (v : Z) : ClientResponseType :=
  if v =? 0 then ClientResponseType_INVALID else if v =? 1 then ClientResponseType_ACCEPTED
  else if v =? 2 then ClientResponseType_CANCELED else if v =? 3 then ClientResponseType_FILLED
  else if v =? 4 then ClientResponseType_CANCEL_REJECTED else ClientResponseType_UNKNOWN v.
Definition MarketUpdateType_to_int (type : MarketUpdateType) : Z :=
  match type with
  | MarketUpdateType_INVALID => 0 | MarketUpdateType_CLEAR => 1
  | MarketUpdateType_ADD => 2 | MarketUpdateType_MODIFY => 3
  | MarketUpdateType_CANCEL => 4 | MarketUpdateType_TRADE => 5
  | MarketUpdateType_SNAPSHOT_START => 6 | MarketUpdateType_SNAPSHOT_END => 7
  | MarketUpdateType_UNKNOWN v => v
  end.
Definition MarketUpdateType_of_int (v : Z) : MarketUpdateType :=
  if v =? 0 then MarketUpdateType_INVALID else if v =? 1 then MarketUpdateType_CLEAR
  else if v =? 2 then MarketUpdateType_ADD else if v =? 3 then MarketUpdateType_MODIFY
  else if v =? 4 then MarketUpdateType_CANCEL else if v =? 5 then MarketUpdateType_TRADE
  else if v =? 6 then MarketUpdateType_SNAPSHOT_START
  else if v =? 7 then MarketUpdateType_SNAPSHOT_END else MarketUpdateType_UNKNOWN v.

(** An enumeration value is canonical when reading its underlying value gives it back. *)
Definition Side_ok (s : Side) : bool :=
  in_i 8 (sideToValue s) && bool_decide (Side_of_int (sideToValue s) = s).
Definition ClientRequestType_ok (t : ClientRequestType) : bool :=
  in_u 8 (ClientRequestType_to_int t) &&
  bool_decide (ClientRequestType_of_int (ClientRequestType_to_int t) = t).
Definition ClientResponseType_ok (t : ClientResponseType) : bool :=
  in_u 8 (ClientResponseType_to_int t) &&
  bool_decide (ClientResponseType_of_int (ClientResponseType_to_int t) = t).
Definition MarketUpdateType_ok (t : MarketUpdateType) : bool :=
  in_u 8 (MarketUpdateType_to_int t) &&
  bool_decide (MarketUpdateType_of_int (MarketUpdateType_to_int t) = t).

(** ** Structures *)
Record MEClientRequest : Type := MkMEClientRequest {
  req_type_ : ClientRequestType;
  req_client_id_ : Z;
  req_ticker_id_ : Z;
  req_order_id_ : Z;
  req_side_ : Side;
  req_price_ : Z;
  req_qty_ : Z;
}.

Record MEClientResponse : Type := MkMEClientResponse {
  resp_type_ : ClientResponseType;
  resp_client_id_ : Z;
  resp_ticker_id_ : Z;
  resp_client_order_id_ : Z;
  resp_market_order_id_ : Z;
  resp_side_ : Side;
  resp_price_ : Z;
  resp_exec_qty_ : Z;
  resp_leaves_qty_ : Z;
}.

Record MEMarketUpdate : Type := MkMEMarketUpdate {
  upd_type_ : MarketUpdateType;
  upd_order_id_ : Z;
  upd_ticker_id_ : Z;
  upd_side_ : Side;
  upd_price_ : Z;
  upd_qty_ : Z;
  upd_priority_ : Z;
}.

(** The network structures add a sequence number. *)
Record OMClientRequest : Type := MkOMClientRequest {
  omreq_seq_num_ : Z;
  me_client_request_ : MEClientRequest;
}.
Record OMClientResponse : Type := MkOMClientResponse {
  omresp_seq_num_ : Z;
  me_client_response_ : MEClientResponse;
}.
Record MDPMarketUpdate : Type := MkMDPMarketUpdate {
  mdp_seq_num_ : Z;
  me_market_update_ : MEMarketUpdate;
}.

(** The default member initialisers. *)
Definition MEClientRequest_default : MEClientRequest :=
  MkMEClientRequest ClientRequestType_INVALID ClientId_INVALID TickerId_INVALID
    OrderId_INVALID Side_INVALID Price_INVALID Qty_INVALID.
Definition MEClientResponse_default : MEClientResponse :=
  MkMEClientResponse ClientResponseType_INVALID ClientId_INVALID TickerId_INVALID
    OrderId_INVALID OrderId_INVALID Side_INVALID Price_INVALID Qty_INVALID Qty_INVALID.
Definition MEMarketUpdate_default : MEMarketUpdate :=
  MkMEMarketUpdate MarketUpdateType_INVALID OrderId_INVALID TickerId_INVALID
    Side_INVALID Price_INVALID Qty_INVALID Priority_INVALID.
Definition MDPMarketUpdate_default : MDPMarketUpdate :=
  MkMDPMarketUpdate 0 MEMarketUpdate_default.

#[export] Instance MEClientRequest_eq_dec : EqDecision MEClientRequest.
Proof. solve_decision. Defined.
#[export] Instance MEClientResponse_eq_dec : EqDecision MEClientResponse.
Proof. solve_decision. Defined.
#[export] Instance MEMarketUpdate_eq_dec : EqDecision MEMarketUpdate.
Proof. solve_decision. Defined.
#[export] Instance MDPMarketUpdate_eq_dec : EqDecision MDPMarketUpdate.
Proof. solve_decision. Defined.

(** ** Printing *)
Definition MEClientRequest_toString (r : MEClientRequest) : string :=
  "MEClientRequest" +:+ " [" +:+
  "type:" +:+ clientRequestTypeToString (req_type_ r) +:+
  " client:" +:+ clientIdToString (req_client_id_ r) +:+
  " ticker:" +:+ tickerIdToString (req_ticker_id_ r) +:+
  " oid:" +:+ orderIdToString (req_order_id_ r) +:+
  " side:" +:+ sideToString (req_side_ r) +:+
  " qty:" +:+ qtyToString (req_qty_ r) +:+
  " price:" +:+ priceToString (req_price_ r) +:+ "]".
Definition OMClientRequest_toString (r : OMClientRequest) : string :=
  "OMClientRequest" +:+ " [" +:+ "seq:" +:+ pretty (omreq_seq_num_ r) +:+
  " " +:+ MEClientRequest_toString (me_client_request_ r) +:+ "]".
Definition MEClientResponse_toString (r : MEClientResponse) : string :=
  "MEClientResponse" +:+ " [" +:+
  "type:" +:+ clientResponseTypeToString (resp_type_ r) +:+
  " client:" +:+ clientIdToString (resp_client_id_ r) +:+
  " ticker:" +:+ tickerIdToString (resp_ticker_id_ r) +:+
  " coid:" +:+ orderIdToString (resp_client_order_id_ r) +:+
  " moid:" +:+ orderIdToString (resp_market_order_id_ r) +:+
  " side:" +:+ sideToString (resp_side_ r) +:+
  " exec_qty:" +:+ qtyToString (resp_exec_qty_ r) +:+
  " leaves_qty:" +:+ qtyToString (resp_leaves_qty_ r) +:+
  " price:" +:+ priceToString (resp_price_ r) +:+ "]".
Definition OMClientResponse_toString (r : OMClientResponse) : string :=
  "OMClientResponse" +:+ " [" +:+ "seq:" +:+ pretty (omresp_seq_num_ r) +:+
  " " +:+ MEClientResponse_toString (me_client_response_ r) +:+ "]".
Definition MEMarketUpdate_toString (u : MEMarketUpdate) : string :=
  "MEMarketUpdate" +:+ " [" +:+
  " type:" +:+ marketUpdateTypeToString (upd_type_ u) +:+
  " ticker:" +:+ tickerIdToString (upd_ticker_id_ u) +:+
  " oid:" +:+ orderIdToString (upd_order_id_ u) +:+
  " side:" +:+ sideToString (upd_side_ u) +:+
  " qty:" +:+ qtyToString (upd_qty_ u) +:+
  " price:" +:+ priceToString (upd_price_ u) +:+
  " priority:" +:+ priorityToString (upd_priority_ u) +:+ "]".
Definition MDPMarketUpdate_toString (u : MDPMarketUpdate) : string :=
  "MDPMarketUpdate" +:+ " [" +:+ " seq:" +:+ pretty (mdp_seq_num_ u) +:+
  " " +:+ MEMarketUpdate_toString (me_market_update_ u) +:+ "]".

(** ** Bytes *)
Definition MEClientRequest_ok (r : MEClientRequest) : bool :=
  ClientRequestType_ok (req_type_ r) && in_u 32 (req_client_id_ r) &&
  in_u 32 (req_ticker_id_ r) && in_u 64 (req_order_id_ r) && Side_ok (req_side_ r) &&
  in_i 64 (req_price_ r) && in_u 32 (req_qty_ r).
Definition MEClientResponse_ok (r : MEClientResponse) : bool :=
  ClientResponseType_ok (resp_type_ r) && in_u 32 (resp_client_id_ r) &&
  in_u 32 (resp_ticker_id_ r) && in_u 64 (resp_client_order_id_ r) &&
  in_u 64 (resp_market_order_id_ r) && Side_ok (resp_side_ r) &&
  in_i 64 (resp_price_ r) && in_u 32 (resp_exec_qty_ r) && in_u 32 (resp_leaves_qty_ r).
Definition MEMarketUpdate_ok (u : MEMarketUpdate) : bool :=
  MarketUpdateType_ok (upd_type_ u) && in_u 64 (upd_order_id_ u) &&
  in_u 32 (upd_ticker_id_ u) && Side_ok (upd_side_ u) && in_i 64 (upd_price_ u) &&
  in_u 32 (upd_qty_ u) && in_u 64 (upd_priority_ u).
Definition OMClientRequest_ok (r : OMClientRequest) : bool :=
  in_u 64 (omreq_seq_num_ r) && MEClientRequest_ok (me_client_request_ r).
Definition OMClientResponse_ok (r : OMClientResponse) : bool :=
  in_u 64 (omresp_seq_num_ r) && MEClientResponse_ok (me_client_response_ r).
Definition MDPMarketUpdate_ok (u : MDPMarketUpdate) : bool :=
  in_u 64 (mdp_seq_num_ u) && MEMarketUpdate_ok (me_market_update_ u).

(** Splits on which enumerator [v] is the value of. *)
Ltac enum_cases v :=
  repeat match goal with
  | |- context [v =? ?k] => destruct (Z.eqb_spec v k) as [->|]; [done|]
  end; done.

Lemma ClientRequestType_to_of_int v : ClientRequestType_to_int (ClientRequestType_of_int v) = v.
Proof. unfold ClientRequestType_of_int. enum_cases v. Qed.
Lemma ClientResponseType_to_of_int v : ClientResponseType_to_int (ClientResponseType_of_int v) = v.
Proof. unfold ClientResponseType_of_int. enum_cases v. Qed.
Lemma MarketUpdateType_to_of_int v : MarketUpdateType_to_int (MarketUpdateType_of_int v) = v.
Proof. unfold MarketUpdateType_of_int. enum_cases v. Qed.
Lemma Side_to_of_int v : sideToValue (Side_of_int v) = v.
Proof. unfold Side_of_int. enum_cases v. Qed.

(** The bytes of each struct, and its reading off the front of a buffer. *)
Definition put_MEClientRequest (r : MEClientRequest) : list byte :=
  le_split 1 (ClientRequestType_to_int (req_type_ r)) ++ le_split 4 (req_client_id_ r) ++
  le_split 4 (req_ticker_id_ r) ++ le_split 8 (req_order_id_ r) ++
  le_split 1 (sideToValue (req_side_ r)) ++ le_split 8 (req_price_ r) ++
  le_split 4 (req_qty_ r).
Definition get_MEClientRequest (bs : list byte) : MEClientRequest * list byte :=
  let '(type, bs) := get_u 1 bs in
  let '(client_id, bs) := get_u 4 bs in
  let '(ticker_id, bs) := get_u 4 bs in
  let '(order_id, bs) := get_u 8 bs in
  let '(side, bs) := get_i 1 bs in
  let '(price, bs) := get_i 8 bs in
  let '(qty, bs) := get_u 4 bs in
  (MkMEClientRequest (ClientRequestType_of_int type) client_id ticker_id order_id
     (Side_of_int side) price qty, bs).

Definition put_MEClientResponse (r : MEClientResponse) : list byte :=
  le_split 1 (ClientResponseType_to_int (resp_type_ r)) ++ le_split 4 (resp_client_id_ r) ++
  le_split 4 (resp_ticker_id_ r) ++ le_split 8 (resp_client_order_id_ r) ++
  le_split 8 (resp_market_order_id_ r) ++ le_split 1 (sideToValue (resp_side_ r)) ++
  le_split 8 (resp_price_ r) ++ le_split 4 (resp_exec_qty_ r) ++
  le_split 4 (resp_leaves_qty_ r).
Definition get_MEClientResponse (bs : list byte) : MEClientResponse * list byte :=
  let '(type, bs) := get_u 1 bs in
  let '(client_id, bs) := get_u 4 bs in
  let '(ticker_id, bs) := get_u 4 bs in
  let '(client_order_id, bs) := get_u 8 bs in
  let '(market_order_id, bs) := get_u 8 bs in
  let '(side, bs) := get_i 1 bs in
  let '(price, bs) := get_i 8 bs in
  let '(exec_qty, bs) := get_u 4 bs in
  let '(leaves_qty, bs) := get_u 4 bs in
  (MkMEClientResponse (ClientResponseType_of_int type) client_id ticker_id client_order_id
     market_order_id (Side_of_int side) price exec_qty leaves_qty, bs).

Definition put_MEMarketUpdate (u : MEMarketUpdate) : list byte :=
  le_split 1 (MarketUpdateType_to_int (upd_type_ u)) ++ le_split 8 (upd_order_id_ u) ++
  le_split 4 (upd_ticker_id_ u) ++ le_split 1 (sideToValue (upd_side_ u)) ++
  le_split 8 (upd_price_ u) ++ le_split 4 (upd_qty_ u) ++ le_split 8 (upd_priority_ u).
Definition get_MEMarketUpdate (bs : list byte) : MEMarketUpdate * list byte :=
  let '(type, bs) := get_u 1 bs in
  let '(order_id, bs) := get_u 8 bs in
  let '(ticker_id, bs) := get_u 4 bs in
  let '(side, bs) := get_i 1 bs in
  let '(price, bs) := get_i 8 bs in
  let '(qty, bs) := get_u 4 bs in
  let '(priority, bs) := get_u 8 bs in
  (MkMEMarketUpdate (MarketUpdateType_of_int type) order_id ticker_id
     (Side_of_int side) price qty priority, bs).

Definition sizeof_MEClientRequest : nat := 30.
Definition sizeof_MEClientResponse : nat := 42.
Definition sizeof_MEMarketUpdate : nat := 34.

(** Reduces the projections of messages, and nothing else. *)
Ltac proj_simpl :=
  cbn [req_type_ req_client_id_ req_ticker_id_ req_order_id_ req_side_ req_price_ req_qty_
       resp_type_ resp_client_id_ resp_ticker_id_ resp_client_order_id_
       resp_market_order_id_ resp_side_ resp_price_ resp_exec_qty_ resp_leaves_qty_
       upd_type_ upd_order_id_ upd_ticker_id_ upd_side_ upd_price_ upd_qty_ upd_priority_].

(** Splits the validity check of a message into facts about its fields. *)
Ltac ok_fields H :=
  unfold OMClientRequest_ok, OMClientResponse_ok, MDPMarketUpdate_ok,
    MEClientRequest_ok, MEClientResponse_ok, MEMarketUpdate_ok,
    ClientRequestType_ok, ClientResponseType_ok, MarketUpdateType_ok, Side_ok in H;
  rewrite ?andb_true_iff, ?bool_decide_eq_true in H; destruct_and! H.

Lemma get_put_MEClientRequest r rest :
  MEClientRequest_ok r = true → get_MEClientRequest (put_MEClientRequest r ++ rest) = (r, rest).
Proof.
  intros Hok. ok_fields Hok. unfold put_MEClientRequest, get_MEClientRequest. wire_read.
  destruct r; simpl in *. congruence.
Qed.
Lemma get_put_MEClientResponse r rest :
  MEClientResponse_ok r = true →
  get_MEClientResponse (put_MEClientResponse r ++ rest) = (r, rest).
Proof.
  intros Hok. ok_fields Hok. unfold put_MEClientResponse, get_MEClientResponse. wire_read.
  destruct r; simpl in *. congruence.
Qed.
Lemma get_put_MEMarketUpdate u rest :
  MEMarketUpdate_ok u = true → get_MEMarketUpdate (put_MEMarketUpdate u ++ rest) = (u, rest).
Proof.
  intros Hok. ok_fields Hok. unfold put_MEMarketUpdate, get_MEMarketUpdate. wire_read.
  destruct u; simpl in *. congruence.
Qed.

Lemma put_get_MEClientRequest bs r rest :
  get_MEClientRequest bs = (r, rest) → (sizeof_MEClientRequest ≤ length bs)%nat →
  bs = put_MEClientRequest r ++ rest ∧ length bs = (sizeof_MEClientRequest + length rest)%nat.
Proof.
  unfold get_MEClientRequest, put_MEClientRequest, sizeof_MEClientRequest. intros E Hl.
  revert E. wire_write. intros [= <- <-]. proj_simpl.
  rewrite ClientRequestType_to_of_int, Side_to_of_int, <- !(assoc_L (++)).
  split; [done|]. rewrite !length_app, !length_le_split. lia.
Qed.
Lemma put_get_MEClientResponse bs r rest :
  get_MEClientResponse bs = (r, rest) → (sizeof_MEClientResponse ≤ length bs)%nat →
  bs = put_MEClientResponse r ++ rest ∧
  length bs = (sizeof_MEClientResponse + length rest)%nat.
Proof.
  unfold get_MEClientResponse, put_MEClientResponse, sizeof_MEClientResponse. intros E Hl.
  revert E. wire_write. intros [= <- <-]. proj_simpl.
  rewrite ClientResponseType_to_of_int, Side_to_of_int, <- !(assoc_L (++)).
  split; [done|]. rewrite !length_app, !length_le_split. lia.
Qed.
Lemma put_get_MEMarketUpdate bs u rest :
  get_MEMarketUpdate bs = (u, rest) → (sizeof_MEMarketUpdate ≤ length bs)%nat →
  bs = put_MEMarketUpdate u ++ rest ∧ length bs = (sizeof_MEMarketUpdate + length rest)%nat.
Proof.
  unfold get_MEMarketUpdate, put_MEMarketUpdate, sizeof_MEMarketUpdate. intros E Hl.
  revert E. wire_write. intros [= <- <-]. proj_simpl.
  rewrite MarketUpdateType_to_of_int, Side_to_of_int, <- !(assoc_L (++)).
  split; [done|]. rewrite !length_app, !length_le_split. lia.
Qed.

(** The network structs: an 8-byte sequence number and the internal struct.  The
    four lemmas of a struct with a header are proved once, over the inner struct. *)
Section with_seq.
Context {A B : Type} (mk : Z → A → B) (seq_of : B → Z) (body : B → A).
Context (put : A → list byte) (get : list byte → A * list byte) (ok : A → bool) (n : nat).
Hypothesis get_put : ∀ a rest, ok a = true → get (put a ++ rest) = (a, rest).
Hypothesis put_get : ∀ bs a rest, get bs = (a, rest) → (n ≤ length bs)%nat →
  bs = put a ++ rest ∧ length bs = (n + length rest)%nat.
Hypothesis put_length : ∀ a, length (put a) = n.
Hypothesis mk_eta : ∀ b, mk (seq_of b) (body b) = b.
Hypothesis seq_mk : ∀ s a, seq_of (mk s a) = s.
Hypothesis body_mk : ∀ s a, body (mk s a) = a.

Definition put_seq (b : B) : list byte := le_split 8 (seq_of b) ++ put (body b).
Definition get_seq (bs : list byte) : B :=
  let '(s, bs) := get_u 8 bs in mk s (get bs).1.

Lemma put_seq_length b : length (put_seq b) = (8 + n)%nat.
Proof. unfold put_seq. by rewrite length_app, length_le_split, put_length. Qed.
Lemma get_put_seq b :
  in_u 64 (seq_of b) && ok (body b) = true → get_seq (put_seq b) = b.
Proof.
  rewrite andb_true_iff. intros [Hs Ho]. unfold get_seq, put_seq.
  rewrite get_u_put by done. rewrite <- (app_nil_r (put (body b))), get_put by done.
  apply mk_eta.
Qed.
Lemma put_get_seq bs : length bs = (8 + n)%nat → put_seq (get_seq bs) = bs.
Proof.
  intros Hl. unfold get_seq. destruct (get_u 8 bs) as [s bs'] eqn:E.
  apply get_u_inv in E as [-> Hl']; [|lia].
  destruct (get bs') as [a rest] eqn:Ea. apply put_get in Ea as [-> Hr]; [|lia].
  assert (rest = []) as -> by (apply nil_length_inv; lia).
  unfold put_seq. simpl. by rewrite seq_mk, body_mk, app_nil_r.
Qed.
End with_seq.

#[export] Instance OMClientRequest_wire : Wire OMClientRequest := {
  wire_size := 38;
  wire_enc := put_seq omreq_seq_num_ me_client_request_ put_MEClientRequest;
  wire_dec := get_seq MkOMClientRequest get_MEClientRequest;
}.
#[export] Instance OMClientResponse_wire : Wire OMClientResponse := {
  wire_size := 50;
  wire_enc := put_seq omresp_seq_num_ me_client_response_ put_MEClientResponse;
  wire_dec := get_seq MkOMClientResponse get_MEClientResponse;
}.
#[export] Instance MDPMarketUpdate_wire : Wire MDPMarketUpdate := {
  wire_size := 42;
  wire_enc := put_seq mdp_seq_num_ me_market_update_ put_MEMarketUpdate;
  wire_dec := get_seq MkMDPMarketUpdate get_MEMarketUpdate;
}.

Ltac wire_laws size :=
  constructor; intros;
  cbn [wire_size wire_enc wire_dec OMClientRequest_wire OMClientResponse_wire
       MDPMarketUpdate_wire] in *;
  [ lia
  | rewrite (put_seq_length _ _ _ size); [done|];
    intros; unfold put_MEClientRequest, put_MEClientResponse, put_MEMarketUpdate;
    by rewrite !length_app, !length_le_split
  | eapply get_put_seq; [| |eassumption]
  | eapply (put_get_seq _ _ _ _ _ size); [| | |eassumption] ].

#[export] Instance OMClientRequest_laws : WireLaws OMClientRequest OMClientRequest_ok.
Proof.
  wire_laws sizeof_MEClientRequest; try done;
    [apply get_put_MEClientRequest|by intros []|apply put_get_MEClientRequest].
Qed.
#[export] Instance OMClientResponse_laws : WireLaws OMClientResponse OMClientResponse_ok.
Proof.
  wire_laws sizeof_MEClientResponse; try done;
    [apply get_put_MEClientResponse|by intros []|apply put_get_MEClientResponse].
Qed.
#[export] Instance MDPMarketUpdate_laws : WireLaws MDPMarketUpdate MDPMarketUpdate_ok.
Proof.
  wire_laws sizeof_MEMarketUpdate; try done;
    [apply get_put_MEMarketUpdate|by intros []|apply put_get_MEMarketUpdate].
Qed.

(** C36: every message survives the wire.  A stream of encoded messages of any of the three kinds, followed by
    the beginning of another, is framed and decoded by the receive loop into exactly the messages
    that were sent, in order, with the unfinished bytes kept; and the other way round, any bytes of
    the size of a message are the encoding of the message they are decoded to. *)
Theorem messages_roundtrip (reqs : list OMClientRequest) (resps : list OMClientResponse)
    (upds : list MDPMarketUpdate) tail :
  forallb OMClientRequest_ok reqs = true → forallb OMClientResponse_ok resps = true →
  forallb MDPMarketUpdate_ok upds = true → (length tail < 38)%nat →
  drain (concat (wire_enc <$> reqs) ++ tail) = (reqs, tail) ∧
  drain (concat (wire_enc <$> resps) ++ tail) = (resps, tail) ∧
  drain (concat (wire_enc <$> upds) ++ tail) = (upds, tail) ∧
  (∀ bs, length bs = 38%nat → wire_enc (wire_dec (A := OMClientRequest) bs) = bs) ∧
  (∀ bs, length bs = 50%nat → wire_enc (wire_dec (A := OMClientResponse) bs) = bs) ∧
  (∀ bs, length bs = 42%nat → wire_enc (wire_dec (A := MDPMarketUpdate) bs) = bs).
Proof.
  intros Hreq Hresp Hupd Ht. split_and!.
  - by apply (drain_encoded OMClientRequest_ok).
  - apply (drain_encoded OMClientResponse_ok); [done|simpl; lia].
  - apply (drain_encoded MDPMarketUpdate_ok); [done|simpl; lia].
  - intros bs Hl. by apply (wire_enc_dec (valid := OMClientRequest_ok)).
  - intros bs Hl. by apply (wire_enc_dec (valid := OMClientResponse_ok)).
  - intros bs Hl. by apply (wire_enc_dec (valid := MDPMarketUpdate_ok)).
Qed.
Definition sample_request : OMClientRequest :=
  MkOMClientRequest 7 (MkMEClientRequest ClientRequestType_NEW 3 2 11 Side_SELL (-101) 5).
Lemma messages_roundtrip_witness :
  drain (concat (wire_enc <$> [sample_request; sample_request]) ++ [Byte.x01]) =
    ([sample_request; sample_request], [Byte.x01]).
Proof.
  apply (messages_roundtrip [sample_request; sample_request] [] [] [Byte.x01]); [reflexivity..|simpl; lia].
Defined.
