(* ===== verification/MemPool.v ===== *)
(** Common/mem_pool.h: the object pool that holds the nodes of the order books.

    [store_] is the vector of blocks; an index without an entry is a block that has
    not been touched since construction (a value-initialised object, free).  A
    pointer to an object of the pool is its index.  Every pool of the program is
    used by a single thread, so [allocate] is modelled without interference from
    other threads: its 1000 retries all see the same pool. *)
From S2P Require Export Prelude.

(** [T()], the value-initialised object of a type. *)
Class ValueInit (T : Type) := value_init : T.

Record ObjectBlock (T : Type) : Type := MkObjectBlock {
  object_ : T;
  is_free_ : bool;
}.
Arguments MkObjectBlock {T}.
Arguments object_ {T}.
Arguments is_free_ {T}.

Record MemPool (T : Type) : Type := MkMemPool {
  store_ : gmap Z (ObjectBlock T);
  store_size : Z;
  next_free_ : Z;
}.
Arguments MkMemPool {T}.
Arguments store_ {T}.
Arguments store_size {T}.
Arguments next_free_ {T}.

Section mem_pool.
Context {T : Type} `{!ValueInit T}.
Implicit Types (p : MemPool T) (x : T).

Definition block p (i : Z) : ObjectBlock T :=
  default (MkObjectBlock value_init true) (store_ p !! i).
Definition obj p (i : Z) : T := object_ (block p i).
Definition is_free p (i : Z) : bool := is_free_ (block p i).
Definition set_block (i : Z) (b : ObjectBlock T) p : MemPool T :=
  MkMemPool (<[i := b]> (store_ p)) (store_size p) (next_free_ p).
(** Assignment through a pointer into the pool. *)
Definition set_obj (i : Z) x p : MemPool T :=
  set_block i (MkObjectBlock x (is_free p i)) p.
Definition set_free (i : Z) (b : bool) p : MemPool T :=
  set_block i (MkObjectBlock (obj p i) b) p.
Definition set_next_free (i : Z) p : MemPool T :=
  MkMemPool (store_ p) (store_size p) i.

(** The constructor: the size must be a power of two. *)
Definition MemPool_new (num_elems : Z) : res (MemPool T) :=
  if Z.land num_elems (u64 (num_elems - 1)) =? 0
  then Ok (MkMemPool ∅ num_elems 0) else Err Exit.

(** [store_[i]]: outside the vector the access is undefined. *)
Definition in_store p (i : Z) : bool := (0 <=? i) && (i <? store_size p).
(** [store_[i].is_free_.exchange(v)]. *)
Definition exchange_is_free (i : Z) (v : bool) : M (MemPool T) bool :=
  ok ← gets (λ p, in_store p i);
  if ok : bool
  then old ← gets (λ p, is_free p i); _ ← modify (set_free i v); mret old
  else raise OutOfBounds.

(** The retry loop of [allocate]; [x] is the object the arguments construct. *)
Fixpoint allocate_from (retries : nat) x : M (MemPool T) (option Z) :=
  match retries with
  | O => mret None
  | S retries =>
    current ← gets next_free_;
    next ← gets (λ p, Z.land (u64 (current + 1)) (u64 (store_size p - 1)));
    was_free ← exchange_is_free current false;
    if was_free : bool
    then
      _ ← modify (set_next_free next);
      _ ← modify (set_obj current x);
      mret (Some current)
    else allocate_from retries x
  end.
Definition allocate x : M (MemPool T) (option Z) := allocate_from 1000 x.

Definition deallocate (elem_index : Z) : M (MemPool T) unit :=
  ok ← gets (λ p, in_store p elem_index);
  _ ← ASSERT ok;
  modify (set_free elem_index true).

(** ** Invariant *)
Record pool_wf p : Prop := {
  pool_size : ∃ k, 0 ≤ k < 64 ∧ store_size p = 2 ^ k;
  pool_next : 0 ≤ next_free_ p < store_size p;
}.

(** The slots in use. *)
Definition live p (i : Z) : Prop := is_free p i = false.

Lemma pool_wf_next p :
  pool_wf p →
  Z.land (u64 (next_free_ p + 1)) (u64 (store_size p - 1))
    = (next_free_ p + 1) mod store_size p.
Proof.
  intros [(k & Hk & ->) Hn].
  assert (2 ^ k < 2 ^ 64) by (apply Z.pow_lt_mono_r; lia).
  rewrite (u64_id (next_free_ p + 1)), (u64_id (2 ^ k - 1)) by lia.
  rewrite <- Z.land_ones by lia. by rewrite Z.ones_equiv, <- Z.sub_1_r.
Qed.

(** ** Reading after writing *)
Lemma block_set_block i b p j :
  block (set_block i b p) j = if decide (i = j) then b else block p j.
Proof.
  unfold block, set_block; simpl. rewrite lookup_insert. by case_decide.
Qed.
Lemma obj_set_obj i x p j :
  obj (set_obj i x p) j = if decide (i = j) then x else obj p j.
Proof. unfold obj, set_obj. rewrite block_set_block. by case_decide. Qed.
Lemma is_free_set_obj i x p j : is_free (set_obj i x p) j = is_free p j.
Proof. unfold is_free, set_obj. rewrite block_set_block. case_decide; by subst. Qed.
Lemma set_obj_set_obj i x y p : set_obj i y (set_obj i x p) = set_obj i y p.
Proof.
  unfold set_obj at 1. rewrite is_free_set_obj. unfold set_obj, set_block. simpl.
  by rewrite insert_insert_eq.
Qed.
Lemma obj_set_free i b p j : obj (set_free i b p) j = obj p j.
Proof. unfold obj, set_free. rewrite block_set_block. case_decide; by subst. Qed.
Lemma is_free_set_free i b p j :
  is_free (set_free i b p) j = if decide (i = j) then b else is_free p j.
Proof. unfold is_free, set_free. rewrite block_set_block. by case_decide. Qed.
Lemma obj_set_next_free n p j : obj (set_next_free n p) j = obj p j.
Proof. done. Qed.
Lemma is_free_set_next_free n p j : is_free (set_next_free n p) j = is_free p j.
Proof. done. Qed.

Lemma is_free_id p i b : live p i → b = false → set_free i b p = p.
Proof.
  unfold live, is_free, set_free, set_block, obj, block. intros Hl ->.
  destruct p as [st sz nf]; simpl in *. f_equal. apply insert_id.
  destruct (st !! i) as [[o f]|]; simpl in *; congruence.
Qed.

(** ** What the operations do *)
(** The pool after handing out the slot [next_free_] for the object [x]. *)
Definition allocated x p : MemPool T :=
  set_obj (next_free_ p) x
    (set_next_free ((next_free_ p + 1) mod store_size p)
       (set_free (next_free_ p) false p)).

Lemma in_store_next p : pool_wf p → in_store p (next_free_ p) = true.
Proof. intros [_ Hn]. unfold in_store. lia. Qed.

Lemma allocate_free x p :
  pool_wf p → is_free p (next_free_ p) = true →
  allocate x p = Ok (Some (next_free_ p), allocated x p).
Proof.
  intros Hwf Hf. unfold allocate. cbn [allocate_from]. unfold exchange_is_free. mrun.
  rewrite in_store_next by done. rewrite Hf, pool_wf_next by done. done.
Qed.

Lemma allocate_from_busy n x p :
  pool_wf p → is_free p (next_free_ p) = false → allocate_from n x p = Ok (None, p).
Proof.
  intros Hwf Hf. induction n as [|n IH]; [done|].
  cbn [allocate_from]. unfold exchange_is_free. mrun.
  rewrite in_store_next by done. rewrite Hf, is_free_id by done. exact IH.
Qed.
Lemma allocate_busy x p :
  pool_wf p → is_free p (next_free_ p) = false → allocate x p = Ok (None, p).
Proof. apply allocate_from_busy. Qed.

Lemma deallocate_ok i p :
  in_store p i = true → deallocate i p = Ok (tt, set_free i true p).
Proof. intros Hi. unfold deallocate. mrun. rewrite Hi. done. Qed.
Lemma deallocate_foreign i p :
  in_store p i = false → deallocate i p = Err Exit.
Proof. intros Hi. unfold deallocate. mrun. rewrite Hi. done. Qed.

Lemma obj_allocated x p j :
  obj (allocated x p) j = if decide (next_free_ p = j) then x else obj p j.
Proof.
  unfold allocated. rewrite obj_set_obj.
  by rewrite obj_set_next_free, obj_set_free.
Qed.
Lemma is_free_allocated x p j :
  is_free (allocated x p) j = if decide (next_free_ p = j) then false else is_free p j.
Proof.
  unfold allocated. by rewrite is_free_set_obj, is_free_set_next_free, is_free_set_free.
Qed.

Lemma pool_wf_set_obj i x p : pool_wf p → pool_wf (set_obj i x p).
Proof. by intros [??]. Qed.
Lemma pool_wf_set_free i b p : pool_wf p → pool_wf (set_free i b p).
Proof. by intros [??]. Qed.
Lemma pool_wf_allocated x p : pool_wf p → pool_wf (allocated x p).
Proof.
  intros [Hs Hn]. split; [done|]. simpl. apply Z.mod_pos_bound. simpl in *. lia.
Qed.

#[local] Hint Resolve pool_wf_set_obj pool_wf_set_free pool_wf_allocated : hft.

(** A slot in use has an entry in the map of touched blocks: the number of slots
    in use is at most the size of that map, which is the fuel of the list walks. *)
Lemma live_dom p i : live p i → i ∈ dom (store_ p).
Proof.
  unfold live, is_free, block. rewrite elem_of_dom.
  destruct (store_ p !! i); simpl; [eauto|done].
Qed.
Lemma live_count p (l : list Z) :
  NoDup l → Forall (live p) l → (length l ≤ size (store_ p))%nat.
Proof.
  intros Hnd Hl. rewrite <- size_dom, <- (size_list_to_set (C := gset Z) l) by done.
  apply subseteq_size. intros i. rewrite elem_of_list_to_set.
  rewrite Forall_forall in Hl. intros Hi. by apply live_dom, Hl.
Qed.
(** [n] objects allocated and given back at once, as short-lived orders are. *)
Fixpoint churn (n : nat) x : M (MemPool T) unit :=
  match n with
  | O => mret tt
  | S n =>
    i ← allocate x;
    _ ← (match i with Some i => deallocate i | None => mret tt end);
    churn n x
  end.

(** Allocates each object in turn; the pointers returned, in order. *)
Fixpoint allocate_all (xs : list T) : M (MemPool T) (list (option Z)) :=
  match xs with
  | [] => mret []
  | x :: xs => i ← allocate x; ps ← allocate_all xs; mret (i :: ps)
  end.

Lemma MemPool_new_ok k :
  0 ≤ k < 64 → MemPool_new (2 ^ k) = Ok (MkMemPool ∅ (2 ^ k) 0).
Proof.
  intros Hk. unfold MemPool_new.
  assert (2 ^ k < 2 ^ 64) by (apply Z.pow_lt_mono_r; lia).
  rewrite u64_id by lia.
  rewrite Z.sub_1_r, <- Z.ones_equiv, Z.land_ones, Z.mod_same by lia. done.
Qed.

(** One round of [churn] only moves [next_free_] on, as long as that slot is free. *)
Lemma churn_round n x p :
  pool_wf p → is_free p (next_free_ p) = true →
  churn (S n) x p = churn n x (set_free (next_free_ p) true (allocated x p)).
Proof.
  intros Hwf Hf. cbn [churn]. unfold mbind, M_bind. rewrite allocate_free by done.
  by rewrite deallocate_ok by exact (in_store_next p Hwf).
Qed.

Lemma churn_from n x p :
  pool_wf p → next_free_ p + Z.of_nat n ≤ store_size p →
  (∀ i, next_free_ p ≤ i < store_size p → is_free p i = true) →
  ∃ p', churn n x p = Ok (tt, p') ∧ pool_wf p' ∧ store_size p' = store_size p ∧
    next_free_ p' = (next_free_ p + Z.of_nat n) mod store_size p ∧
    (∀ i, is_free p' i = is_free p i).
Proof.
  revert p. induction n as [|n IH]; intros p Hwf Hn Hfree.
  { exists p. split_and!; try done. destruct Hwf as [_ ?].
    rewrite Z.add_0_r, Z.mod_small by lia. done. }
  pose proof Hwf as [_ Hb].
  rewrite churn_round by (try done; apply Hfree; lia).
  set (p1 := set_free _ _ _).
  assert (∀ i, is_free p1 i = is_free p i) as Hp1.
  { intros i. unfold p1. rewrite is_free_set_free, is_free_allocated.
    case_decide as E; [|done]. subst i. rewrite Hfree by lia. done. }
  destruct n as [|n].
  { exists p1. split_and!; try done. unfold p1. auto with hft. }
  destruct (IH p1) as (p' & -> & Hwf' & Hs & Hnf & Hf').
  - unfold p1. auto with hft.
  - simpl. rewrite Z.mod_small; lia.
  - intros i. rewrite Hp1. simpl. rewrite Z.mod_small by lia. intros. apply Hfree. lia.
  - exists p'. split_and!; try done.
    + rewrite Hnf. simpl. rewrite Zplus_mod_idemp_l. f_equal. lia.
    + intros i. by rewrite Hf', Hp1.
Qed.

(** ** Properties *)

(** C37: [allocate] hands out a block that was free and is inside the store, constructs the object in
    it, marks it as taken, leaves every other block as it is, and keeps the pool well formed. *)
Theorem allocate_fresh x p i p' :
  pool_wf p → allocate x p = Ok (Some i, p') →
  is_free p i = true ∧ 0 ≤ i < store_size p ∧ live p' i ∧ obj p' i = x ∧
  (∀ j, j ≠ i → obj p' j = obj p j ∧ is_free p' j = is_free p j) ∧ pool_wf p'.
Proof.
  intros Hwf. pose proof Hwf as [_ Hn].
  destruct (is_free p (next_free_ p)) eqn:Hf.
  - rewrite allocate_free by done. intros [= <- <-]. unfold live.
    split_and!; try (done || lia).
    + by rewrite is_free_allocated, decide_True.
    + by rewrite obj_allocated, decide_True.
    + intros j Hj. by rewrite is_free_allocated, obj_allocated, !decide_False by done.
    + by apply pool_wf_allocated.
  - by rewrite allocate_busy by done.
Qed.

(** Filling a pool from slot [n] on: the slots below [n] are in use, the others free. *)
Lemma allocate_all_from n xs p :
  pool_wf p → 0 ≤ n → n + Z.of_nat (length xs) ≤ store_size p →
  next_free_ p = n mod store_size p →
  (∀ i, live p i ↔ 0 ≤ i < n) →
  ∃ p', allocate_all xs p = Ok (Some <$> seqZ n (Z.of_nat (length xs)), p') ∧
    (∀ i, live p' i ↔ 0 ≤ i < n + Z.of_nat (length xs)) ∧
    (∀ i x, xs !! Z.to_nat (i - n) = Some x → n ≤ i → obj p' i = x) ∧
    (∀ i, i < n → obj p' i = obj p i).
Proof.
  revert n p. induction xs as [|x xs IH]; intros n p Hwf H0 Hn Hnf Hl.
  { exists p. split_and!; try done. intros i. rewrite Hl. simpl. lia. }
  simpl in Hn. rewrite Z.mod_small in Hnf by lia.
  assert (is_free p (next_free_ p) = true) as Hf.
  { destruct (is_free p _) eqn:E; [done|]. apply Hl in E. lia. }
  cbn [allocate_all]. unfold mbind, M_bind. rewrite allocate_free by done.
  destruct (IH (n + 1) (allocated x p)) as (p' & -> & Hl' & Ho & Ho').
  { auto with hft. } { lia. } { simpl. lia. } { simpl. by rewrite Hnf. }
  { intros i. unfold live. rewrite is_free_allocated.
    case_decide; [split; [lia|done]|]. fold (live p i). rewrite Hl. lia. }
  exists p'. simpl length. rewrite Nat2Z.inj_succ, (seqZ_cons n) by lia. split_and!.
  - by rewrite Hnf, Z.pred_succ, <- Z.add_1_r.
  - intros i. rewrite Hl'. lia.
  - intros i y Hy Hi. destruct (decide (i = n)) as [->|].
    + rewrite Z.sub_diag in Hy. simplify_eq/=.
      by rewrite Ho', obj_allocated, decide_True by lia.
    + apply Ho; [|lia].
      by replace (Z.to_nat (i - n)) with (S (Z.to_nat (i - (n + 1)))) in Hy by lia.
  - intros i Hi. by rewrite Ho', obj_allocated, decide_False by lia.
Qed.

(** A new pool of [2^k] blocks serves as many allocations as it has blocks, in address order: the
    pointers are distinct, each block holds the object it was allocated for, and exactly these blocks
    are taken. *)
Theorem allocate_all_fresh k xs :
  0 ≤ k < 64 → Z.of_nat (length xs) ≤ 2 ^ k →
  ∃ p, allocate_all xs (MkMemPool ∅ (2 ^ k) 0)
         = Ok (Some <$> seqZ 0 (Z.of_nat (length xs)), p) ∧
    (∀ i, live p i ↔ 0 ≤ i < Z.of_nat (length xs)) ∧
    (∀ i x, xs !! Z.to_nat i = Some x → 0 ≤ i → obj p i = x).
Proof.
  intros Hk Hlen.
  destruct (allocate_all_from 0 xs (MkMemPool ∅ (2 ^ k) 0)) as (p' & E & Hl & Ho & _).
  { split; simpl; [eauto|lia]. } { done. } { simpl; lia. } { done. }
  { intros i. unfold live, is_free, block. simpl. rewrite lookup_empty. simpl. lia. }
  exists p'. split_and!; try done.
  intros i x Hx Hi. apply Ho; [|done]. by rewrite Z.sub_0_r.
Qed.

(** The pool can fail with one object alive.  [allocate] advances [next_free_] only past a block it
    took, so after one long-lived object and [2^k - 1] allocate/deallocate pairs the cursor is back at
    the live block, and the next call spends its thousand retries on it and returns [nullptr], with all
    the other blocks free. *)
Theorem churn_exhausts k x y z :
  0 ≤ k < 64 →
  ∃ p i, (i0 ← allocate x; _ ← churn (Z.to_nat (2 ^ k - 1)) y; mret i0)
           (MkMemPool ∅ (2 ^ k) 0) = Ok (Some i, p) ∧
    (∀ j, 0 ≤ j < 2 ^ k → live p j ↔ j = i) ∧
    allocate z p = Ok (None, p).
Proof.
  intros Hk. set (p0 := MkMemPool _ _ _).
  assert (∀ i, is_free p0 i = true) as H0.
  { intros i. unfold is_free, block, p0. simpl. by rewrite lookup_empty. }
  assert (pool_wf p0) as Hwf by (split; simpl; [eauto|lia]).
  assert (pool_wf (allocated x p0)) as Hwf1 by auto with hft.
  unfold mbind, M_bind. rewrite allocate_free by done.
  assert (∀ i, is_free (allocated x p0) i = bool_decide (i ≠ 0)) as H1.
  { intros i. rewrite is_free_allocated, H0. simpl.
    case_decide; case_bool_decide; congruence || lia. }
  assert (∃ p, churn (Z.to_nat (2 ^ k - 1)) y (allocated x p0) = Ok (tt, p) ∧ pool_wf p ∧
    next_free_ p = 0 ∧ (∀ i, is_free p i = bool_decide (i ≠ 0))) as (p & -> & Hp & Hn & Hf).
  { destruct (decide (k = 0)) as [->|].
    { exists (allocated x p0). split_and!; auto. }
    assert (2 ^ 1 ≤ 2 ^ k) by (apply Z.pow_le_mono_r; lia).
    assert (next_free_ (allocated x p0) = 1) as E by (simpl; rewrite Z.mod_small; lia).
    destruct (churn_from (Z.to_nat (2 ^ k - 1)) y (allocated x p0))
      as (p & -> & Hp & Hs & Hn & Hf); [done|rewrite E; simpl; lia| |].
    { intros i. rewrite E, H1. intros. case_bool_decide; lia. }
    exists p. split_and!; try done.
    - rewrite Hn, E. simpl.
      replace (1 + Z.of_nat (Z.to_nat (2 ^ k - 1))) with (2 ^ k) by lia.
      apply Z.mod_same. lia.
    - intros i. by rewrite Hf. }
  exists p, 0. split_and!; [done| |].
  - intros j Hj. unfold live. rewrite Hf. case_bool_decide; lia || done.
  - apply allocate_busy; [done|]. by rewrite Hn, Hf.
Qed.
End mem_pool.

Arguments allocate : simpl never.
Arguments deallocate : simpl never.

(** A new pool. *)
Definition empty_pool {T} (size : Z) : MemPool T := MkMemPool ∅ size 0.
Lemma empty_pool_wf {T} k : 0 ≤ k < 64 → pool_wf (empty_pool (T := T) (2 ^ k)).
Proof. intros Hk. split; simpl; [eauto|lia]. Qed.

#[export] Hint Rewrite @obj_set_obj @is_free_set_obj @obj_set_free @is_free_set_free
  @obj_allocated @is_free_allocated : hft.
#[export] Hint Resolve pool_wf_set_obj pool_wf_set_free pool_wf_allocated : hft.

(** ** Witnesses *)
#[local] Instance Z_value_init : ValueInit Z := 0.

Definition pool4 : MemPool Z := MkMemPool ∅ 4 0.

Lemma pool4_wf : pool_wf pool4.
Proof. split; simpl; [by exists 2|lia]. Qed.

Example allocate_fresh_witness :
  ∃ p', allocate 7 pool4 = Ok (Some 0, p') ∧ live p' 0 ∧ obj p' 0 = 7 ∧ pool_wf p'.
Proof.
  eexists. split; [vm_compute; reflexivity|].
  destruct (allocate_fresh 7 pool4 0 _ pool4_wf ltac:(vm_compute; reflexivity))
    as (_ & _ & ? & ? & _ & ?). auto.
Defined.

Example allocate_all_fresh_witness :
  ∃ p, allocate_all [7; 8; 9] (MkMemPool ∅ (2 ^ 2) 0) = Ok (Some <$> seqZ 0 3, p) ∧ obj p 1 = 8.
Proof.
  destruct (allocate_all_fresh 2 [7; 8; 9] ltac:(lia) ltac:(simpl; lia)) as (p & H & _ & Ho).
  exists p. split; [exact H|]. by apply Ho.
Defined.

Example churn_exhausts_witness :
  ∃ p i, (i0 ← allocate 7; _ ← churn 3 8; mret i0) (MkMemPool ∅ (2 ^ 2) 0) = Ok (Some i, p) ∧
    allocate 9 p = Ok (None, p).
Proof.
  destruct (churn_exhausts 2 7 8 9 ltac:(lia)) as (p & i & H & _ & Ha).
  exists p, i. split; [exact H|exact Ha].
Defined.
