(* ===== verification/LFQueue.v ===== *)
(** Common/lf_queue.h: the queues between the threads.

    First part: the queue as a data structure, one operation at a time.  Second part:
    a producer thread and a consumer thread whose atomic accesses interleave.

    [write_pos_] and [read_pos_] are 64-bit counters that are never reduced modulo the
    size; [getNextToWriteTo] reduces only the position after the next one, for the
    test that the queue is full.  A pointer into [store_] is an index, and an access
    outside the vector is undefined behaviour ([OutOfBounds]). *)
From S2P Require Export Prelude.

Record LFQueue (T : Type) : Type := MkLFQueue {
  q_store_ : gmap Z T;
  q_size : Z;
  write_pos_ : Z;
  read_pos_ : Z;
}.
Arguments MkLFQueue {T}.
Arguments q_store_ {T}.
Arguments q_size {T}.
Arguments write_pos_ {T}.
Arguments read_pos_ {T}.

Section lf_queue.
Context {T : Type} (dflt : T).
Implicit Types (q : LFQueue T) (v : T).

(** The constructor fills the vector with [T()]; indices without an entry hold it. *)
Definition LFQueue_new (num_elems : Z) : res (LFQueue T) :=
  if Z.land num_elems (u64 (num_elems - 1)) =? 0
  then Ok (MkLFQueue ∅ num_elems 0 0) else Err Exit.
Definition slot q (i : Z) : T := default dflt (q_store_ q !! i).

(** The three stores to the queue: an element, and either counter plus one. *)
Definition set_slot (i : Z) v q : LFQueue T :=
  MkLFQueue (<[i := v]> (q_store_ q)) (q_size q) (write_pos_ q) (read_pos_ q).
Definition add_write q : LFQueue T :=
  MkLFQueue (q_store_ q) (q_size q) (u64 (write_pos_ q + 1)) (read_pos_ q).
Definition add_read q : LFQueue T :=
  MkLFQueue (q_store_ q) (q_size q) (write_pos_ q) (u64 (read_pos_ q + 1)).
Definition next_write (w : Z) q : Z := Z.land (u64 (w + 1)) (u64 (q_size q - 1)).

Definition getNextToWriteTo : M (LFQueue T) (option Z) :=
  current_write ← gets write_pos_;
  next_write ← gets (next_write current_write);
  read_pos ← gets read_pos_;
  if next_write =? read_pos then mret None else mret (Some current_write).

(** [*next_write = v]: the caller's write through the pointer it got. *)
Definition write_slot (p : option Z) v : M (LFQueue T) unit :=
  i ← deref p;
  ok ← gets (λ q, (0 <=? i) && (i <? q_size q));
  if ok : bool
  then modify (set_slot i v)
  else raise OutOfBounds.

Definition updateWriteIndex : M (LFQueue T) bool :=
  _ ← modify add_write; mret true.

Definition getNextToRead : M (LFQueue T) (option Z) :=
  current_read ← gets read_pos_;
  write_pos ← gets write_pos_;
  if current_read =? write_pos then mret None else mret (Some current_read).

(** [*p]: the caller's read through the pointer it got. *)
Definition read_slot (p : option Z) : M (LFQueue T) T :=
  i ← deref p;
  ok ← gets (λ q, (0 <=? i) && (i <? q_size q));
  if ok : bool then gets (λ q, slot q i) else raise OutOfBounds.

Definition updateReadIndex : M (LFQueue T) bool :=
  current_read ← gets read_pos_;
  write_pos ← gets write_pos_;
  if current_read =? write_pos then mret false
  else
    _ ← modify add_read; mret true.

Definition queue_size : M (LFQueue T) Z :=
  write_pos ← gets write_pos_;
  read_pos ← gets read_pos_;
  gets (λ q, Z.land (u64 (write_pos - read_pos)) (u64 (q_size q - 1))).

(** How every producer of the program uses the queue (it never tests the pointer). *)
Definition push v : M (LFQueue T) unit :=
  next_write ← getNextToWriteTo;
  _ ← write_slot next_write v;
  _ ← updateWriteIndex;
  mret tt.
(** How every consumer uses it: take the next element if there is one. *)
Definition pop : M (LFQueue T) (option T) :=
  p ← getNextToRead;
  match p with
  | None => mret None
  | Some i => v ← read_slot (Some i); _ ← updateReadIndex; mret (Some v)
  end.

(** ** Invariant and abstraction *)
Record queue_wf q : Prop := {
  queue_size_pow : ∃ k, 0 ≤ k < 64 ∧ q_size q = 2 ^ k;
  queue_pos : 0 ≤ read_pos_ q ≤ write_pos_ q ∧ write_pos_ q ≤ q_size q;
  queue_slack : write_pos_ q - read_pos_ q < q_size q;
}.

(** The elements written and not yet read, oldest first. *)
Definition contents q : list T :=
  slot q <$> seqZ (read_pos_ q) (write_pos_ q - read_pos_ q).

Lemma contents_length q :
  queue_wf q → Z.of_nat (length (contents q)) = write_pos_ q - read_pos_ q.
Proof. intros [_ ? _]. unfold contents. rewrite length_fmap, length_seqZ. lia. Qed.

Lemma queue_size_lt q : queue_wf q → 0 < q_size q ≤ 2 ^ 63.
Proof.
  intros [(k & Hk & ->) _ _]. split; [lia|]. apply Z.pow_le_mono_r; lia.
Qed.

Lemma mask_mod q z :
  queue_wf q → 0 ≤ z < 2 ^ 64 → Z.land (u64 z) (u64 (q_size q - 1)) = z mod q_size q.
Proof.
  intros Hwf Hz. pose proof (queue_size_lt q Hwf) as Hs.
  destruct Hwf as [(k & Hk & E) _ _]. rewrite !u64_id by lia.
  rewrite E, <- Z.land_ones by lia. by rewrite Z.ones_equiv, <- Z.sub_1_r.
Qed.

Lemma LFQueue_new_ok k :
  0 ≤ k < 64 → ∃ q, LFQueue_new (2 ^ k) = Ok q ∧ queue_wf q ∧ q_size q = 2 ^ k ∧
    write_pos_ q = 0 ∧ read_pos_ q = 0 ∧ contents q = [].
Proof.
  intros Hk. exists (MkLFQueue ∅ (2 ^ k) 0 0). unfold LFQueue_new.
  assert (2 ^ k < 2 ^ 64) by (apply Z.pow_lt_mono_r; lia).
  rewrite u64_id by lia.
  rewrite Z.sub_1_r, <- Z.ones_equiv, Z.land_ones, Z.mod_same by lia.
  split_and!; try done. constructor; simpl; [eauto|lia|lia].
Qed.

(** The queue after a successful [push] and after a successful [pop]. *)
Definition pushed v q : LFQueue T :=
  MkLFQueue (<[write_pos_ q := v]> (q_store_ q)) (q_size q) (write_pos_ q + 1) (read_pos_ q).
Definition popped q : LFQueue T :=
  MkLFQueue (q_store_ q) (q_size q) (write_pos_ q) (read_pos_ q + 1).

(** There is room for one more element. *)
Definition can_push q : bool :=
  (write_pos_ q + 1 <? q_size q) || ((write_pos_ q + 1 =? q_size q) && (0 <? read_pos_ q)).

Lemma can_push_wf v q : queue_wf q → can_push q = true → queue_wf (pushed v q).
Proof. unfold can_push. intros [Hs Hp Hr] Hc. split; simpl; [done|lia|lia]. Qed.

Lemma slot_set_slot i v q j :
  slot (set_slot i v q) j = if decide (i = j) then v else slot q j.
Proof. unfold slot; simpl. rewrite lookup_insert. by case_decide. Qed.

Lemma contents_set_slot v q :
  queue_wf q → contents (set_slot (write_pos_ q) v q) = contents q.
Proof.
  intros [_ Hp _]. unfold contents; simpl. apply list_fmap_ext.
  intros i x Hx. apply lookup_seqZ in Hx. by rewrite slot_set_slot, decide_False by lia.
Qed.
Lemma add_write_eq q :
  queue_wf q →
  add_write q = MkLFQueue (q_store_ q) (q_size q) (write_pos_ q + 1) (read_pos_ q).
Proof.
  intros Hwf. pose proof (queue_size_lt q Hwf). destruct Hwf as [_ Hp _].
  unfold add_write. by rewrite u64_id by lia.
Qed.
Lemma add_read_eq q : queue_wf q → read_pos_ q < write_pos_ q → add_read q = popped q.
Proof.
  intros Hwf Hlt. pose proof (queue_size_lt q Hwf). destruct Hwf as [_ Hp _].
  unfold add_read. by rewrite u64_id by lia.
Qed.
Lemma contents_add_write q :
  queue_wf q → contents (add_write q) = contents q ++ [slot q (write_pos_ q)].
Proof.
  intros Hwf. rewrite add_write_eq by done. destruct Hwf as [_ Hp _].
  unfold contents; simpl.
  replace (write_pos_ q + 1 - read_pos_ q) with ((write_pos_ q - read_pos_ q) + 1) by lia.
  rewrite seqZ_app, fmap_app by lia. f_equal.
  replace (read_pos_ q + (write_pos_ q - read_pos_ q)) with (write_pos_ q) by lia.
  by rewrite seqZ_cons, seqZ_nil by lia.
Qed.
Lemma contents_popped q :
  queue_wf q → read_pos_ q < write_pos_ q →
  contents q = slot q (read_pos_ q) :: contents (popped q).
Proof.
  intros [_ Hp _] Hlt. unfold contents. rewrite seqZ_cons by lia. simpl.
  repeat f_equal; lia.
Qed.

Lemma pushed_eq v q :
  queue_wf q → pushed v q = add_write (set_slot (write_pos_ q) v q).
Proof. intros [? ? ?]. by rewrite add_write_eq. Qed.
Lemma contents_pushed v q :
  queue_wf q → can_push q = true → contents (pushed v q) = contents q ++ [v].
Proof.
  intros Hwf _. rewrite pushed_eq, contents_add_write by done || (destruct Hwf; by split).
  rewrite contents_set_slot, slot_set_slot, decide_True by done. done.
Qed.

Lemma push_ok v q :
  queue_wf q → can_push q = true → push v q = Ok (tt, pushed v q).
Proof.
  intros Hwf Hc. pose proof (queue_size_lt q Hwf). pose proof Hwf as [_ Hp Hr].
  unfold can_push in Hc. unfold push, getNextToWriteTo, write_slot, updateWriteIndex, next_write. mrun.
  rewrite mask_mod by (done || lia).
  assert ((write_pos_ q + 1) mod q_size q ≠ read_pos_ q) as Hne.
  { destruct (decide (write_pos_ q + 1 < q_size q)).
    - rewrite Z.mod_small; lia.
    - replace (write_pos_ q + 1) with (q_size q) by lia. rewrite Z.mod_same; lia. }
  apply Z.eqb_neq in Hne as ->.
  replace ((0 <=? write_pos_ q) && (write_pos_ q <? q_size q)) with true by lia.
  simpl. by rewrite pushed_eq.
Qed.

(** A push without room is undefined behaviour: through a null pointer when the
    position after the next one, reduced modulo the size, is the read position, and
    past the end of the vector otherwise. *)
Lemma push_fault v q :
  queue_wf q → can_push q = false →
  push v q = Err (if (write_pos_ q + 1) mod q_size q =? read_pos_ q
                  then NullDeref else OutOfBounds).
Proof.
  intros Hwf Hc. pose proof (queue_size_lt q Hwf). pose proof Hwf as [_ Hp Hr].
  unfold can_push in Hc. unfold push, getNextToWriteTo, write_slot, next_write. mrun.
  rewrite mask_mod by (done || lia).
  bdestruct ((write_pos_ q + 1) mod q_size q =? read_pos_ q); [done|].
  bdestruct (write_pos_ q <? q_size q).
  - exfalso. assert (write_pos_ q + 1 = q_size q) as E by lia.
    rewrite E, Z.mod_same in Hb; lia.
  - by rewrite andb_false_r.
Qed.

Lemma pop_empty q : queue_wf q → contents q = [] → pop q = Ok (None, q).
Proof.
  intros Hwf Hc. pose proof (contents_length q Hwf) as Hl. rewrite Hc in Hl. simpl in Hl.
  unfold pop, getNextToRead. mrun.
  replace (read_pos_ q =? write_pos_ q) with true by lia. done.
Qed.

Lemma pop_ok v vs q :
  queue_wf q → contents q = v :: vs →
  pop q = Ok (Some v, popped q) ∧ queue_wf (popped q) ∧ contents (popped q) = vs.
Proof.
  intros Hwf Hc. pose proof (queue_size_lt q Hwf). pose proof Hwf as [Hs Hp Hr].
  pose proof (contents_length q Hwf) as Hl. rewrite Hc in Hl. simpl in Hl.
  unfold contents in Hc. rewrite seqZ_cons in Hc by lia. simplify_eq/=.
  split_and!.
  - unfold pop, getNextToRead, read_slot, updateReadIndex. mrun.
    replace (read_pos_ q =? write_pos_ q) with false by lia. cbn beta iota match.
    replace ((0 <=? read_pos_ q) && (read_pos_ q <? q_size q)) with true by lia. simpl.
    replace (read_pos_ q =? write_pos_ q) with false by lia. simpl.
    by rewrite add_read_eq by (done || lia).
  - split; simpl; [done|lia|lia].
  - unfold contents; simpl. f_equal. f_equal; lia.
Qed.

Lemma queue_size_ok q :
  queue_wf q → queue_size q = Ok (Z.of_nat (length (contents q)), q).
Proof.
  intros Hwf. pose proof (queue_size_lt q Hwf). pose proof Hwf as [_ Hp Hr].
  rewrite contents_length by done. unfold queue_size. mrun.
  rewrite mask_mod by (done || lia). by rewrite Z.mod_small by lia.
Qed.

Lemma push_inv v q q' u :
  queue_wf q → push v q = Ok (u, q') → can_push q = true ∧ q' = pushed v q.
Proof.
  intros Hwf. destruct (can_push q) eqn:Hc.
  - rewrite push_ok by done. naive_solver.
  - by rewrite push_fault by done.
Qed.
Lemma pop_inv q q' o :
  queue_wf q → pop q = Ok (o, q') →
  (o = None ∧ contents q = [] ∧ q' = q) ∨
  (∃ v vs, o = Some v ∧ contents q = v :: vs ∧ q' = popped q ∧
     queue_wf q' ∧ contents q' = vs).
Proof.
  intros Hwf. destruct (contents q) as [|v vs] eqn:Hc.
  - rewrite pop_empty by done. naive_solver.
  - destruct (pop_ok v vs q Hwf Hc) as (-> & ? & ?). naive_solver.
Qed.
Lemma push_some v q q' u :
  queue_wf q → push v q = Ok (u, q') → queue_wf q' ∧ contents q' = contents q ++ [v].
Proof.
  intros Hwf [Hc ->]%push_inv; [|done]. split; [by apply can_push_wf|by apply contents_pushed].
Qed.
Lemma pop_some v q q' :
  queue_wf q → pop q = Ok (Some v, q') → queue_wf q' ∧ contents q = v :: contents q'.
Proof. intros Hwf [?|(? & ? & ? & ? & ? & ? & ?)]%pop_inv; naive_solver. Qed.
End lf_queue.

(** * Histories: any sequence of whole operations *)
Section history.
Context {T : Type} (dflt : T) (k : Z).

(** [history q ps os]: the queue [q] is reached from a new queue of 2^k slots by
    pushes and pops in which the values [ps] were pushed and [os] were popped. *)
Inductive history : LFQueue T → list T → list T → Prop :=
  | history_new q :
      LFQueue_new (2 ^ k) = Ok q → history q [] []
  | history_push q ps os v q' :
      history q ps os → push v q = Ok (tt, q') → history q' (ps ++ [v]) os
  | history_pop q ps os v q' :
      history q ps os → pop dflt q = Ok (Some v, q') → history q' ps (os ++ [v])
  | history_pop_empty q ps os q' :
      history q ps os → pop dflt q = Ok (None, q') → history q' ps os.

Lemma history_inv q ps os :
  0 ≤ k < 64 → history q ps os →
  queue_wf q ∧ q_size q = 2 ^ k ∧ ps = os ++ contents dflt q ∧
  write_pos_ q = Z.of_nat (length ps) ∧ read_pos_ q = Z.of_nat (length os).
Proof.
  intros Hk.
  induction 1 as [q Hq|q ps os v q' _ IH Hp|q ps os v q' _ IH Hp|q ps os q' _ IH Hp].
  - destruct (LFQueue_new_ok dflt k Hk) as (q0 & E & ? & ? & ? & ? & ?).
    assert (q = q0) as -> by congruence. split_and!; simpl; auto.
  - destruct IH as (Hwf & Hs & -> & Hw & Hr). apply push_inv in Hp as [Hc ->]; [|done].
    split_and!; try done; [by apply can_push_wf| |].
    + by rewrite contents_pushed, (assoc_L (++)) by done.
    + simpl. rewrite Hw, (length_app _ [v]). simpl. lia.
  - destruct IH as (Hwf & Hs & -> & Hw & Hr).
    apply pop_inv in Hp as [(? & _)|(v' & vs & [= <-] & Hc & -> & Hwf' & Hc')]; [done| |done].
    split_and!; try done.
    + by rewrite Hc, Hc', <- (assoc_L (++)).
    + simpl. rewrite Hr, length_app. simpl. lia.
  - destruct IH as (Hwf & Hs & -> & Hw & Hr).
    apply pop_inv in Hp as [(_ & Hc & ->)|(v' & vs & ? & _)]; [|done|done].
    split_and!; done.
Qed.
End history.

(** * One producer thread and one consumer thread *)
Section spsc.
Context {T : Type} (dflt : T) (k : Z).
Implicit Types (q : LFQueue T) (v : T).

(** The program points between two atomic accesses.  The producer has loaded
    [write_pos_] ([PLoaded]), has a pointer ([PPtr]), has stored the element
    ([PStored]), or has been handed a null pointer ([PNull]).  The consumer has
    loaded [read_pos_] ([CLoaded]), has a pointer ([CPtr]), has read the element
    ([CRead]), or is inside [updateReadIndex] ([CUpd], [CAdd]). *)
Inductive producer : Type :=
  | PIdle | PLoaded (v : T) (w : Z) | PPtr (v : T) (w : Z) | PStored (v : T) | PNull.
Inductive consumer : Type :=
  | CIdle | CLoaded (r : Z) | CPtr (r : Z) | CRead (v : T) | CUpd (v : T) (r : Z)
  | CAdd (v : T).

Record spsc_state : Type := MkSpsc {
  sp_queue : LFQueue T;
  sp_prod : producer;
  sp_cons : consumer;
  sp_sent : list T;
  sp_recv : list T;
}.

(** One atomic access of either thread. *)
Inductive spsc_step : spsc_state → spsc_state → Prop :=
  | step_load_write q v c ss rs :
      spsc_step (MkSpsc q PIdle c ss rs) (MkSpsc q (PLoaded v (write_pos_ q)) c ss rs)
  | step_full q v w c ss rs :
      next_write w q = read_pos_ q →
      spsc_step (MkSpsc q (PLoaded v w) c ss rs) (MkSpsc q PNull c ss rs)
  | step_room q v w c ss rs :
      next_write w q ≠ read_pos_ q →
      spsc_step (MkSpsc q (PLoaded v w) c ss rs) (MkSpsc q (PPtr v w) c ss rs)
  | step_store q v w c ss rs :
      0 ≤ w < q_size q →
      spsc_step (MkSpsc q (PPtr v w) c ss rs) (MkSpsc (set_slot w v q) (PStored v) c ss rs)
  | step_publish q v c ss rs :
      spsc_step (MkSpsc q (PStored v) c ss rs) (MkSpsc (add_write q) PIdle c (ss ++ [v]) rs)
  | step_load_read q p ss rs :
      spsc_step (MkSpsc q p CIdle ss rs) (MkSpsc q p (CLoaded (read_pos_ q)) ss rs)
  | step_empty q p r ss rs :
      r = write_pos_ q →
      spsc_step (MkSpsc q p (CLoaded r) ss rs) (MkSpsc q p CIdle ss rs)
  | step_nonempty q p r ss rs :
      r ≠ write_pos_ q →
      spsc_step (MkSpsc q p (CLoaded r) ss rs) (MkSpsc q p (CPtr r) ss rs)
  | step_read q p r ss rs :
      0 ≤ r < q_size q →
      spsc_step (MkSpsc q p (CPtr r) ss rs) (MkSpsc q p (CRead (slot dflt q r)) ss rs)
  | step_upd_load q p v ss rs :
      spsc_step (MkSpsc q p (CRead v) ss rs) (MkSpsc q p (CUpd v (read_pos_ q)) ss rs)
  | step_upd_check q p v r ss rs :
      r ≠ write_pos_ q →
      spsc_step (MkSpsc q p (CUpd v r) ss rs) (MkSpsc q p (CAdd v) ss rs)
  | step_upd_empty q p v r ss rs :
      r = write_pos_ q →
      spsc_step (MkSpsc q p (CUpd v r) ss rs) (MkSpsc q p CIdle ss rs)
  | step_consume q p v ss rs :
      spsc_step (MkSpsc q p (CAdd v) ss rs) (MkSpsc (add_read q) p CIdle ss (rs ++ [v])).

Definition spsc_init (s : spsc_state) : Prop :=
  LFQueue_new (2 ^ k) = Ok (sp_queue s) ∧ sp_prod s = PIdle ∧ sp_cons s = CIdle ∧
  sp_sent s = [] ∧ sp_recv s = [].
Inductive spsc_reachable : spsc_state → Prop :=
  | spsc_start s : spsc_init s → spsc_reachable s
  | spsc_next s s' : spsc_reachable s → spsc_step s s' → spsc_reachable s'.

(** What each program point knows about the queue. *)
Definition prod_ok (q : LFQueue T) (p : producer) : Prop :=
  match p with
  | PIdle | PNull => True
  | PLoaded _ w => w = write_pos_ q
  | PPtr _ w => w = write_pos_ q ∧ ∃ r, 0 ≤ r ≤ read_pos_ q ∧ next_write w q ≠ r
  | PStored v => write_pos_ q < q_size q ∧ slot dflt q (write_pos_ q) = v ∧
                 (write_pos_ q + 1 = q_size q → 0 < read_pos_ q)
  end.
Definition cons_ok (q : LFQueue T) (c : consumer) : Prop :=
  match c with
  | CIdle => True
  | CLoaded r => r = read_pos_ q
  | CPtr r => r = read_pos_ q ∧ r < write_pos_ q
  | CRead v | CAdd v => read_pos_ q < write_pos_ q ∧ slot dflt q (read_pos_ q) = v
  | CUpd v r => r = read_pos_ q ∧ read_pos_ q < write_pos_ q ∧ slot dflt q (read_pos_ q) = v
  end.

Record spsc_ok (s : spsc_state) : Prop := {
  sp_wf : queue_wf (sp_queue s);
  sp_prod_ok : prod_ok (sp_queue s) (sp_prod s);
  sp_cons_ok : cons_ok (sp_queue s) (sp_cons s);
  sp_fifo : sp_sent s = sp_recv s ++ contents dflt (sp_queue s);
}.

Lemma spsc_ok_init s : 0 ≤ k < 64 → spsc_init s → spsc_ok s.
Proof.
  intros Hk (Hq & Hp & Hc & Hs & Hr).
  destruct (LFQueue_new_ok dflt k Hk) as (q0 & E & Hwf & _ & _ & _ & Hcs).
  assert (sp_queue s = q0) as Hq0 by congruence.
  split; rewrite ?Hq0, ?Hp, ?Hc, ?Hs, ?Hr; done.
Qed.

(** The consumer's knowledge survives the producer's accesses, and conversely. *)
Lemma cons_ok_store v q c :
  cons_ok q c → cons_ok (set_slot (write_pos_ q) v q) c.
Proof.
  destruct c; simpl; try done; intros; destruct_and?;
    rewrite slot_set_slot, decide_False by lia; done.
Qed.
Lemma cons_ok_publish q c :
  queue_wf q → cons_ok q c → cons_ok (add_write q) c.
Proof.
  intros Hwf. rewrite add_write_eq by done.
  destruct c; unfold slot; simpl; try done; intros; destruct_and?; split_and?; done || lia.
Qed.
Lemma prod_ok_consume q p :
  queue_wf q → read_pos_ q < write_pos_ q → prod_ok q p → prod_ok (popped q) p.
Proof.
  intros [_ Hp _] Hlt. destruct p; unfold slot, next_write; simpl; try done.
  - intros (-> & r & Hr & Hn). split; [done|]. exists r. split; [lia|done].
  - intros (? & ? & ?). split_and!; [done|done|lia].
Qed.

(** A pointer to the last slot is only handed out once something was read. *)
Lemma ptr_room q r :
  queue_wf q → 0 ≤ r ≤ read_pos_ q → next_write (write_pos_ q) q ≠ r →
  write_pos_ q + 1 = q_size q → 0 < read_pos_ q.
Proof.
  intros Hwf Hr Hn He. pose proof (queue_size_lt q Hwf).
  pose proof Hwf as [_ Hp _]. unfold next_write in Hn.
  rewrite mask_mod, He, Z.mod_same in Hn by (done || lia). lia.
Qed.

Lemma spsc_ok_store v w c q ss rs :
  spsc_ok (MkSpsc q (PPtr v w) c ss rs) → 0 ≤ w < q_size q →
  spsc_ok (MkSpsc (set_slot w v q) (PStored v) c ss rs).
Proof.
  intros [Hwf [-> (r & Hr & Hn)] Hc Hf] Hw. simpl in *. split; simpl.
  - by destruct Hwf.
  - split_and!; [lia|by rewrite slot_set_slot, decide_True|].
    intros. by eapply (ptr_room q r).
  - by apply cons_ok_store.
  - by rewrite contents_set_slot.
Qed.
Lemma spsc_ok_publish v c q ss rs :
  spsc_ok (MkSpsc q (PStored v) c ss rs) →
  spsc_ok (MkSpsc (add_write q) PIdle c (ss ++ [v]) rs).
Proof.
  intros [Hwf (Hlt & Hv & Hlast) Hc Hf]. simpl in *. subst ss. split; simpl; [|done| |].
  - rewrite add_write_eq by done. pose proof Hwf as [? ? ?]. split; simpl; [done|lia|lia].
  - by apply cons_ok_publish.
  - by rewrite contents_add_write, Hv, (assoc_L (++)).
Qed.
Lemma spsc_ok_consume v p q ss rs :
  spsc_ok (MkSpsc q p (CAdd v) ss rs) →
  spsc_ok (MkSpsc (add_read q) p CIdle ss (rs ++ [v])).
Proof.
  intros [Hwf Hp [Hlt Hv] Hf]. simpl in *. subst ss. rewrite add_read_eq by done. split; simpl.
  - pose proof Hwf as [? ? ?]. split; simpl; [done|lia|lia].
  - by apply prod_ok_consume.
  - done.
  - by rewrite (contents_popped dflt q Hwf Hlt), Hv, <- (assoc_L (++)).
Qed.

Lemma spsc_ok_step s s' : spsc_ok s → spsc_step s s' → spsc_ok s'.
Proof.
  intros Hok Hstep. destruct Hstep.
  4: by apply (spsc_ok_store v w).
  4: by apply spsc_ok_publish.
  11: by apply spsc_ok_consume.
  all: destruct Hok as [Hwf Hp Hc Hf]; pose proof Hwf as [_ ? _]; simpl in *.
  all: split; simpl; destruct_and?; try (done || lia || (split; done || lia)).
  - subst w. split; [done|]. exists (read_pos_ q). split; [lia|done].
  - by subst r.
Qed.

Lemma spsc_reachable_ok s : 0 ≤ k < 64 → spsc_reachable s → spsc_ok s.
Proof.
  intros Hk. induction 1 as [s Hs|s s' _ IH Hstep].
  - by apply spsc_ok_init.
  - by eapply spsc_ok_step.
Qed.

(** C30: one producer thread and one consumer thread, interleaved at the level of their atomic loads and
    stores, keep the queue first-in-first-out: what was sent is what was received followed by what the
    queue holds, and the two never hold pointers to the same slot. *)
Theorem spsc_fifo s :
  0 ≤ k < 64 → spsc_reachable s →
  sp_sent s = sp_recv s ++ contents dflt (sp_queue s) ∧
  (∀ v w r, sp_prod s = PPtr v w → sp_cons s = CPtr r → w ≠ r).
Proof.
  intros Hk Hs. destruct (spsc_reachable_ok s Hk Hs) as [_ Hp Hc Hf].
  split; [done|]. intros v w r Ep Ec. rewrite Ep in Hp. rewrite Ec in Hc.
  simpl in *. lia.
Qed.
End spsc.

(** ** Consuming, step by step *)
Section consume.
Context {T : Type} (dflt : T).
Implicit Types (q : LFQueue T) (v : T) (vs : list T).

Lemma getNextToRead_nil q :
  queue_wf q → contents dflt q = [] → getNextToRead q = Ok (None, q).
Proof.
  intros Hwf Hc. pose proof (contents_length dflt q Hwf) as Hl. rewrite Hc in Hl. simpl in Hl.
  unfold getNextToRead. mrun. by rewrite (proj2 (Z.eqb_eq _ _)) by lia.
Qed.
Lemma read_cons q v vs :
  queue_wf q → contents dflt q = v :: vs →
  getNextToRead q = Ok (Some (read_pos_ q), q) ∧
  read_slot dflt (Some (read_pos_ q)) q = Ok (v, q) ∧
  updateReadIndex q = Ok (true, popped q) ∧
  queue_wf (popped q) ∧ contents dflt (popped q) = vs.
Proof.
  intros Hwf Hc. destruct (pop_ok dflt v vs q Hwf Hc) as (_ & Hwf' & Hc').
  pose proof (queue_size_lt q Hwf). pose proof Hwf as [_ Hp Hr].
  pose proof (contents_length dflt q Hwf) as Hl. rewrite Hc in Hl. simpl in Hl.
  rewrite (contents_popped dflt q) in Hc by (done || lia). injection Hc as <- _.
  unfold getNextToRead, read_slot, updateReadIndex. mrun.
  rewrite (proj2 (Z.eqb_neq _ _)) by lia. rewrite (proj2 (andb_true_iff _ _)) by lia.
  by rewrite add_read_eq by (done || lia).
Qed.
(** A consumer that sees an element in slot [i]. *)
Lemma read_some q i q' :
  queue_wf q → getNextToRead q = Ok (Some i, q') →
  q' = q ∧ ∃ v, read_slot dflt (Some i) q = Ok (v, q) ∧
    updateReadIndex q = Ok (true, popped q) ∧
    queue_wf (popped q) ∧ contents dflt q = v :: contents dflt (popped q).
Proof.
  intros Hwf H. destruct (contents dflt q) as [|v vs] eqn:Hc.
  - rewrite getNextToRead_nil in H by done. congruence.
  - destruct (read_cons q v vs Hwf Hc) as (E & ? & ? & ? & <-). rewrite E in H.
    injection H as <- <-. eauto 10.
Qed.
End consume.

(** A new queue of 2^18 slots, as the programs build them. *)
Definition new_queue {T} : LFQueue T := MkLFQueue ∅ (2 ^ 18) 0 0.
Lemma new_queue_wf {T} : queue_wf (new_queue (T := T)).
Proof. split; simpl; [by exists 18|lia|lia]. Qed.

(** ** Room *)
(** [q] holds [vs] and has room for [n] more elements. *)
Definition queue_room {T} (d : T) (q : LFQueue T) (n : nat) (vs : list T) : Prop :=
  queue_wf q ∧ contents d q = vs ∧ write_pos_ q + Z.of_nat n < q_size q.

Lemma queue_room_push {T} (d v : T) q n vs :
  queue_room d q (S n) vs →
  wp (push v) q (λ _ q', queue_room d q' n (vs ++ [v]) ∧ read_pos_ q' = read_pos_ q).
Proof.
  intros (Hwf & <- & Hr). assert (can_push q = true) as Hc by (unfold can_push; lia).
  unfold wp. rewrite push_ok by done. split; [|done]. split_and!.
  - by apply can_push_wf.
  - by apply contents_pushed.
  - simpl. lia.
Qed.

(** ** Properties of the sequential queue *)

(** In every history of pushes and pops from a new queue the values come out in the order they went
    in, at most [2^k - 1] of them wait at a time, and [size] counts them. *)
Theorem queue_fifo {T} (dflt : T) k q ps os :
  0 ≤ k < 64 → history dflt k q ps os →
  ps = os ++ contents dflt q ∧
  Z.of_nat (length (contents dflt q)) < 2 ^ k ∧
  queue_size q = Ok (Z.of_nat (length (contents dflt q)), q).
Proof.
  intros Hk Hh. destruct (history_inv dflt k q ps os Hk Hh) as (Hwf & Hs & Hps & _).
  split_and!; [done| |by apply queue_size_ok].
  rewrite contents_length by done. destruct Hwf as [_ _ ?]. lia.
Qed.

(** C38: the positions of a queue only grow: [getNextToWriteTo] masks the position it compares and
    [updateWriteIndex] stores it unmasked.  A queue therefore accepts at most [2^k] values in its
    lifetime, and the push after the last one dereferences the null pointer [getNextToWriteTo] returned,
    or the address one past the end of the store, whatever has been consumed meanwhile. *)
Theorem queue_lifetime {T} (dflt : T) k q ps os v :
  0 ≤ k < 64 → history dflt k q ps os →
  Z.of_nat (length ps) ≤ 2 ^ k ∧
  (Z.of_nat (length ps) = 2 ^ k →
   push v q = Err (if 1 mod 2 ^ k =? Z.of_nat (length os) then NullDeref else OutOfBounds)).
Proof.
  intros Hk Hh. destruct (history_inv dflt k q ps os Hk Hh) as (Hwf & Hs & _ & Hw & Hr).
  pose proof Hwf as [_ ? _]. split; [lia|]. intros Hl.
  rewrite push_fault by (done || (unfold can_push; lia)).
  rewrite Hw, Hr, Hl, Hs. rewrite <- Zplus_mod_idemp_l, Z.mod_same by lia. done.
Qed.

(** ** Witnesses *)
Example queue_fifo_witness :
  history 0 1 (popped (pushed 7 (MkLFQueue ∅ 2 0 0))) [7] [7] ∧
  [7] = [7] ++ contents 0 (popped (pushed 7 (MkLFQueue ∅ 2 0 0))).
Proof.
  assert (history 0 1 (popped (pushed 7 (MkLFQueue ∅ 2 0 0))) [7] [7]) as H.
  { apply (history_pop _ _ (pushed 7 (MkLFQueue ∅ 2 0 0)) [7] []); [|reflexivity].
    apply (history_push _ _ (MkLFQueue ∅ 2 0 0) [] []); [|reflexivity]. by apply history_new. }
  split; [exact H|]. apply (queue_fifo 0 1 _ _ _ ltac:(lia) H).
Defined.

Example queue_lifetime_witness :
  ∃ q, history 0 1 q [7; 8] [7] ∧ push 9 q = Err NullDeref.
Proof.
  set (q0 := MkLFQueue (T := Z) ∅ 2 0 0).
  assert (history 0 1 (pushed 8 (popped (pushed 7 q0))) [7; 8] [7]) as H.
  { apply (history_push _ _ (popped (pushed 7 q0)) [7] [7]); [|reflexivity].
    apply (history_pop _ _ (pushed 7 q0) [7] []); [|reflexivity].
    apply (history_push _ _ q0 [] []); [|reflexivity]. by apply history_new. }
  eexists. split; [exact H|].
  exact (proj2 (queue_lifetime 0 1 _ _ _ 9 ltac:(lia) H) eq_refl).
Defined.

Example spsc_fifo_witness :
  ∃ s, spsc_reachable 0 1 s ∧ sp_sent s = [7] ∧
    sp_sent s = sp_recv s ++ contents 0 (sp_queue s).
Proof.
  set (q := MkLFQueue (T := Z) ∅ 2 0 0).
  assert (spsc_reachable 0 1 (MkSpsc (add_write (set_slot 0 7 q)) PIdle CIdle [7] [])) as H.
  { eapply spsc_next; [|apply (step_publish 0 (set_slot 0 7 q) 7 CIdle [] [])].
    eapply spsc_next; [|apply (step_store 0 q 7 0); simpl; lia].
    eapply spsc_next; [|apply step_room; done].
    eapply spsc_next; [|apply step_load_write].
    apply spsc_start. repeat split. }
  eexists. split; [exact H|]. split; [done|]. apply (spsc_fifo 0 1 _ ltac:(lia) H).
Defined.
