(* ===== verification/Ring.v ===== *)
(** Circular doubly linked lists.

    Both order books thread their orders and their price levels on intrusive circular
    lists: each node has a [prev] and a [next] pointer and the list is entered at its
    first node.  Here a heap of such nodes is seen through its two link functions;
    [ring nxt prv l] says that the nodes [l] form such a list, in this order, entered
    at the head of [l].  The lemmas say what linking a node before the first one and
    unlinking a node do; insertions and removals elsewhere follow by rotation. *)
From S2P Require Export Prelude.

Section ring.
Implicit Types (nxt prv : Z → option Z) (l : list Z) (x y z p : Z).

(** [y] follows [x]. *)
Definition linked nxt prv x y : Prop := nxt x = Some y ∧ prv y = Some x.

Fixpoint chain nxt prv x l : Prop :=
  match l with
  | [] => True
  | y :: l => linked nxt prv x y ∧ chain nxt prv y l
  end.

Definition ring nxt prv l : Prop :=
  match l with
  | [] => True
  | x :: l => chain nxt prv x (l ++ [x])
  end.

Lemma chain_app nxt prv x l1 y l2 :
  chain nxt prv x (l1 ++ y :: l2) ↔ chain nxt prv x (l1 ++ [y]) ∧ chain nxt prv y l2.
Proof. revert x. induction l1 as [|z l1 IH]; intros x; simpl; [tauto|]. rewrite IH. tauto. Qed.

(** A chain only reads the [next] of its sources and the [prev] of its targets. *)
Lemma chain_frame nxt prv nxt' prv' x l y :
  chain nxt prv x (l ++ [y]) →
  (∀ z, z ∈ x :: l → nxt' z = nxt z) → (∀ z, z ∈ l ++ [y] → prv' z = prv z) →
  chain nxt' prv' x (l ++ [y]).
Proof.
  revert x. induction l as [|z l IH]; intros x; simpl.
  - intros [[Hn Hp] _] En Ep. unfold linked; rewrite En, Ep by set_solver. done.
  - intros [[Hn Hp] Hc] En Ep. unfold linked; rewrite En, Ep by set_solver.
    split; [done|]. apply IH; [done| |]; set_solver.
Qed.

Lemma ring_frame nxt prv nxt' prv' l :
  ring nxt prv l → (∀ z, z ∈ l → nxt' z = nxt z ∧ prv' z = prv z) → ring nxt' prv' l.
Proof.
  destruct l as [|x l]; [done|]. simpl. intros Hr Hf.
  eapply chain_frame; [done| |]; intros z Hz; apply Hf; set_solver.
Qed.

Lemma ring_rotate nxt prv l1 l2 : ring nxt prv (l1 ++ l2) ↔ ring nxt prv (l2 ++ l1).
Proof.
  destruct l1 as [|x l1], l2 as [|y l2]; simpl; rewrite ?app_nil_r; [done..|].
  rewrite <- !(assoc_L (++)); simpl. rewrite (chain_app _ _ x l1), (chain_app _ _ y l2 x (l1 ++ _)). tauto.
Qed.

Lemma ring_snoc nxt prv l x y :
  ring nxt prv (x :: l ++ [y]) ↔
  chain nxt prv x (l ++ [y]) ∧ linked nxt prv y x.
Proof. simpl. rewrite <- (assoc_L (++)). simpl. rewrite chain_app. simpl. tauto. Qed.

Lemma ring_singleton nxt prv x : ring nxt prv [x] ↔ linked nxt prv x x.
Proof. simpl. tauto. Qed.

(** The neighbours of the first node. *)
Lemma ring_prev nxt prv x l :
  ring nxt prv (x :: l) → ∃ z, last (x :: l) = Some z ∧ prv x = Some z ∧ nxt z = Some x.
Proof.
  destruct l as [|w l] using rev_ind; intros Hr.
  - apply ring_singleton in Hr as [??]. by exists x.
  - apply ring_snoc in Hr as [_ [??]]. exists w. split_and!; [|done|done].
    by rewrite app_comm_cons, last_snoc.
Qed.
Lemma ring_next nxt prv x y l :
  ring nxt prv (x :: y :: l) → nxt x = Some y ∧ prv y = Some x.
Proof. by intros [[??] _]. Qed.
Lemma ring_single_iff nxt prv x l :
  NoDup (x :: l) → ring nxt prv (x :: l) → (nxt x = Some x ↔ l = []).
Proof.
  intros Hnd Hr. split; [|intros ->; by apply ring_singleton in Hr as [? _]].
  destruct l as [|y l]; [done|]. intros Hx. apply ring_next in Hr as [Hn _].
  apply NoDup_cons in Hnd as [Hni _]. simplify_eq. set_solver.
Qed.
Lemma ring_single_prev_iff nxt prv x l :
  NoDup (x :: l) → ring nxt prv (x :: l) → (prv x = Some x ↔ l = []).
Proof.
  intros Hnd Hr. split; [|intros ->; by apply ring_singleton in Hr as [_ ?]].
  destruct (ring_prev _ _ _ _ Hr) as (z & Hz & Hp & _). intros Hx. simplify_eq.
  destruct l as [|y l]; [done|]. apply NoDup_cons in Hnd as [Hni _].
  rewrite last_cons_cons in Hz. apply last_Some in Hz as [l' E]. rewrite E in Hni. set_solver.
Qed.

Lemma ring_next_head nxt prv l1 x l2 :
  ring nxt prv (l1 ++ x :: l2) → nxt x = head (l2 ++ l1 ++ [x]).
Proof.
  intros Hr%ring_rotate. rewrite (assoc_L (++)). simpl in Hr. destruct (l2 ++ l1); simpl in *.
  - by destruct Hr as [[? _] _].
  - by destruct Hr as [[? _] _].
Qed.
Lemma ring_prev_last nxt prv l1 x l2 :
  ring nxt prv (l1 ++ x :: l2) → prv x = last (x :: l2 ++ l1).
Proof.
  intros Hr%ring_rotate. simpl in Hr. destruct (ring_prev _ _ _ _ Hr) as (z & -> & ? & _). done.
Qed.

(** Every node has both neighbours, and they are in the list. *)
Lemma ring_elem nxt prv l x :
  ring nxt prv l → x ∈ l →
  ∃ y z, nxt x = Some y ∧ prv x = Some z ∧ y ∈ l ∧ z ∈ l ∧ prv y = Some x ∧ nxt z = Some x.
Proof.
  intros Hr (l1 & l2 & ->)%list_elem_of_split. apply ring_rotate in Hr. simpl in Hr.
  destruct (ring_prev _ _ _ _ Hr) as (z & Hz & Hp & Hn).
  assert (z ∈ l1 ++ x :: l2) as Hzin.
  { apply last_Some in Hz as [l' E]. assert (z ∈ x :: l2 ++ l1) as Hi.
    { rewrite E. set_solver. } set_solver. }
  destruct (l2 ++ l1) as [|y l] eqn:E.
  - apply ring_singleton in Hr as [? ?]. simplify_eq. exists x, x. set_solver.
  - destruct (ring_next _ _ _ _ _ Hr) as [? ?]. exists y, z.
    assert (y ∈ l2 ++ l1) by (rewrite E; set_solver). set_solver.
Qed.

(** Linking a new node [p] between the last node [z] and the first node [x]. *)
Lemma ring_insert nxt prv nxt' prv' x l z p :
  NoDup (x :: l) → ring nxt prv (x :: l) → prv x = Some z →
  nxt' z = Some p → nxt' p = Some x → prv' p = Some z → prv' x = Some p →
  (∀ w, w ∈ x :: l → w ≠ z → nxt' w = nxt w) →
  (∀ w, w ∈ x :: l → w ≠ x → prv' w = prv w) →
  ring nxt' prv' (x :: l ++ [p]).
Proof.
  intros Hnd Hr Hz Hzp Hpx Hpz Hxp Hn Hp. apply ring_snoc. split; [|done].
  destruct (ring_prev _ _ _ _ Hr) as (z' & Hl & ? & _). simplify_eq.
  destruct l as [|y l _] using rev_ind; simpl in *; [by simplify_eq|].
  rewrite app_comm_cons, last_snoc in Hl. simplify_eq.
  apply NoDup_cons in Hnd as [Hx Hnd]. apply NoDup_app in Hnd as (_ & Hlz & _).
  rewrite <- (assoc_L (++)); simpl. rewrite <- (assoc_L (++)) in Hr; simpl in Hr.
  apply chain_app in Hr as [Hc _]. apply chain_app; simpl.
  split; [|done]. eapply chain_frame; [done| |].
  - intros w Hw. apply Hn; [set_solver|]. intros ->. set_solver.
  - intros w Hw. apply Hp; [set_solver|]. intros ->. set_solver.
Qed.

(** Unlinking the first node [x] of a list with at least two nodes. *)
Lemma ring_remove nxt prv nxt' prv' x y l z :
  NoDup (x :: y :: l) → ring nxt prv (x :: y :: l) → prv x = Some z →
  nxt' z = Some y → prv' y = Some z →
  (∀ w, w ∈ y :: l → w ≠ z → nxt' w = nxt w) →
  (∀ w, w ∈ y :: l → w ≠ y → prv' w = prv w) →
  ring nxt' prv' (y :: l).
Proof.
  intros Hnd Hr Hz Hzy Hyz Hn Hp.
  destruct (ring_prev _ _ _ _ Hr) as (z' & Hl & ? & _). simplify_eq.
  destruct Hr as [_ Hr]. apply NoDup_cons in Hnd as [Hx Hnd].
  rewrite last_cons_cons in Hl.
  destruct l as [|w l _] using rev_ind; simpl in *; [by simplify_eq|].
  rewrite app_comm_cons, last_snoc in Hl. simplify_eq.
  apply NoDup_cons in Hnd as [Hy Hnd]. apply NoDup_app in Hnd as (_ & Hlz & _).
  rewrite <- (assoc_L (++)) in Hr |- *; simpl in *.
  apply chain_app in Hr as [Hc _]. apply chain_app; simpl.
  split; [|done]. eapply chain_frame; [done| |].
  - intros w Hw. apply Hn; [set_solver|]. intros ->. set_solver.
  - intros w Hw. apply Hp; [set_solver|]. intros ->. set_solver.
Qed.
End ring.
