(* ===== verification/BookView.v ===== *)
(** The linked structure shared by the two limit order books.

    The exchange's [MEOrderBook] and the client's [MarketOrderBook] keep the same heap
    shape: per side a circular list of price levels, best price first; per level a
    circular list of orders, oldest first; an array from hashed prices to levels and a
    map from order keys to orders.  A [view] is that heap seen through its fields, and
    [wf V L] says that it represents the layout [L] (per side, the levels and the
    orders of each level, in order).  The lemmas say what the four pointer surgeries
    of the books do to the layout: appending an order to a level, opening a level,
    unlinking an order, unlinking a level; and what an update of an order's data does. *)
From Stdlib Require Import FunctionalExtensionality.
From stdpp Require Export sorting functions.
From S2P Require Export Types Ring.

(** What the books need to know of an order's data: its side, price and key. *)
Class OrderData (A K : Type) := {
  od_side : A → Side;
  od_price : A → Z;
  od_key : A → K;
}.

(** [true] is the bid side. *)
Definition to_side (s : bool) : Side := if s then Side_BUY else Side_SELL.
(** [better s x y]: price [x] is better than price [y] on side [s]. *)
Definition better (s : bool) (x y : Z) : Prop := if s then y < x else x < y.
#[export] Instance better_dec s x y : Decision (better s x y).
Proof. destruct s; simpl; apply _. Defined.

#[export] Instance to_side_inj : Inj (=) (=) to_side.
Proof. by intros [] []. Qed.

Record view (A K : Type) : Type := MkView {
  v_best : bool → option Z;
  v_lside : Z → Side;
  v_lprice : Z → Z;
  v_lfirst : Z → option Z;
  v_lprev : Z → option Z;
  v_lnext : Z → option Z;
  v_llive : Z → bool;
  v_data : Z → A;
  v_oprev : Z → option Z;
  v_onext : Z → option Z;
  v_olive : Z → bool;
  v_pmap : Z → option Z;
  v_omap : K → option Z;
}.
Arguments MkView {A K}.
Arguments v_best {A K}. Arguments v_lside {A K}. Arguments v_lprice {A K}.
Arguments v_lfirst {A K}. Arguments v_lprev {A K}. Arguments v_lnext {A K}.
Arguments v_llive {A K}. Arguments v_data {A K}. Arguments v_oprev {A K}.
Arguments v_onext {A K}. Arguments v_olive {A K}. Arguments v_pmap {A K}.
Arguments v_omap {A K}.

(** Per side, the levels and the orders of each level. *)
Abbreviation layout := (bool → list (Z * list Z)).
Definition lvls (l : list (Z * list Z)) : list Z := l.*1.
Definition ords (l : list (Z * list Z)) : list Z := concat l.*2.

Lemma lvls_app l1 l2 : lvls (l1 ++ l2) = lvls l1 ++ lvls l2.
Proof. apply fmap_app. Qed.
Lemma lvls_cons p os l : lvls ((p, os) :: l) = p :: lvls l.
Proof. done. Qed.
Lemma ords_app l1 l2 : ords (l1 ++ l2) = ords l1 ++ ords l2.
Proof. unfold ords. by rewrite fmap_app, concat_app. Qed.
Lemma ords_cons p os l : ords ((p, os) :: l) = os ++ ords l.
Proof. done. Qed.
Lemma lvls_elem l p : p ∈ lvls l ↔ ∃ os, (p, os) ∈ l.
Proof.
  unfold lvls. rewrite list_elem_of_fmap. split; [intros ([q os] & -> & H); eauto|].
  intros [os H]. by exists (p, os).
Qed.
Lemma ords_elem l o : o ∈ ords l ↔ ∃ p os, (p, os) ∈ l ∧ o ∈ os.
Proof.
  induction l as [|[p os] l IH]; [set_solver|]. rewrite ords_cons, elem_of_app, IH. set_solver.
Qed.
Create Rewrite HintDb lay.
#[export] Hint Rewrite lvls_app lvls_cons ords_app ords_cons : lay.

(** Singling out one level. *)
Lemma ords_focus l1 p os l2 : ords (l1 ++ (p, os) :: l2) ≡ₚ os ++ ords (l1 ++ l2).
Proof.
  autorewrite with lay. rewrite !(assoc_L (++)), (Permutation_app_comm _ os). done.
Qed.
Lemma lvls_focus l1 p os l2 : lvls (l1 ++ (p, os) :: l2) ≡ₚ p :: lvls (l1 ++ l2).
Proof. autorewrite with lay. by rewrite <- Permutation_middle. Qed.
Lemma ords_focus_elem l1 p os l2 o :
  o ∈ ords (l1 ++ (p, os) :: l2) ↔ o ∈ os ∨ o ∈ ords (l1 ++ l2).
Proof. by rewrite ords_focus, elem_of_app. Qed.
Lemma lvls_focus_elem l1 p os l2 q :
  q ∈ lvls (l1 ++ (p, os) :: l2) ↔ q = p ∨ q ∈ lvls (l1 ++ l2).
Proof. by rewrite lvls_focus, elem_of_cons. Qed.
Lemma ords_focus_NoDup l1 p os l2 :
  NoDup (ords (l1 ++ (p, os) :: l2)) ↔
  NoDup os ∧ (∀ o, o ∈ os → o ∉ ords (l1 ++ l2)) ∧ NoDup (ords (l1 ++ l2)).
Proof. by rewrite ords_focus, NoDup_app. Qed.
Lemma lvls_focus_NoDup l1 p os l2 :
  NoDup (lvls (l1 ++ (p, os) :: l2)) ↔ p ∉ lvls (l1 ++ l2) ∧ NoDup (lvls (l1 ++ l2)).
Proof. by rewrite lvls_focus, NoDup_cons. Qed.
Lemma focus_elem l1 (p : Z) (os : list Z) l2 : (p, os) ∈ l1 ++ (p, os) :: l2.
Proof. apply elem_of_app. right. apply elem_of_cons. by left. Qed.
Lemma elem_of_insert {B} (l1 : list B) x l2 y : y ∈ l1 ++ x :: l2 ↔ y = x ∨ y ∈ l1 ++ l2.
Proof. by rewrite <- Permutation_middle, elem_of_cons. Qed.

Section view.
Context {A K : Type} `{!EqDecision K, !OrderData A K} (index : Z → Z).
Implicit Types (V : view A K) (L : layout) (s : bool) (p o x z : Z) (os : list Z).

(** ** The represented layout *)
Record level_wf V s p os : Prop := {
  lw_side : v_lside V p = to_side s;
  lw_first : v_lfirst V p = head os;
  lw_nonempty : os ≠ [];
  lw_ring : ring (v_onext V) (v_oprev V) os;
  lw_orders : ∀ o, o ∈ os →
    od_side (v_data V o) = to_side s ∧ od_price (v_data V o) = v_lprice V p;
}.

Record side_wf V s (l : list (Z * list Z)) : Prop := {
  sw_best : v_best V s = head (lvls l);
  sw_ring : ring (v_lnext V) (v_lprev V) (lvls l);
  sw_nodup : NoDup (lvls l);
  sw_sorted : StronglySorted (better s) (v_lprice V <$> lvls l);
  sw_levels : ∀ p os, (p, os) ∈ l → level_wf V s p os;
  sw_orders : NoDup (ords l);
}.

Record wf V L : Prop := {
  wf_sides : ∀ s, side_wf V s (L s);
  wf_llive : ∀ p, v_llive V p = true ↔ ∃ s, p ∈ lvls (L s);
  wf_olive : ∀ o, v_olive V o = true ↔ ∃ s, o ∈ ords (L s);
  wf_pmap : ∀ i p, v_pmap V i = Some p ↔ v_llive V p = true ∧ index (v_lprice V p) = i;
  wf_omap : ∀ k o, v_omap V k = Some o ↔ v_olive V o = true ∧ od_key (v_data V o) = k;
}.

(** ** Views that agree on the nodes in use *)
Record view_agree V V' : Prop := {
  va_best : ∀ s, v_best V s = v_best V' s;
  va_llive : ∀ p, v_llive V p = v_llive V' p;
  va_olive : ∀ o, v_olive V o = v_olive V' o;
  va_pmap : ∀ i, v_pmap V i = v_pmap V' i;
  va_omap : ∀ k, v_omap V k = v_omap V' k;
  va_level : ∀ p, v_llive V p = true →
    v_lside V p = v_lside V' p ∧ v_lprice V p = v_lprice V' p ∧
    v_lfirst V p = v_lfirst V' p ∧ v_lprev V p = v_lprev V' p ∧ v_lnext V p = v_lnext V' p;
  va_order : ∀ o, v_olive V o = true →
    v_data V o = v_data V' o ∧ v_oprev V o = v_oprev V' o ∧ v_onext V o = v_onext V' o;
}.
#[export] Instance view_equiv : Equiv (view A K) := view_agree.
#[export] Instance view_equivalence : Equivalence (≡@{view A K}).
Proof.
  split.
  - intros V. by split.
  - intros V V' [? El Eo ? ? Hl Ho]. split; try done.
    + intros p Hp. rewrite <- El in Hp. destruct (Hl p Hp) as (?&?&?&?&?). by split_and!.
    + intros o Hp. rewrite <- Eo in Hp. destruct (Ho o Hp) as (?&?&?). by split_and!.
  - intros V V' V'' [? El Eo ? ? Hl Ho] [? El' Eo' ? ? Hl' Ho']. split; try (intros; etransitivity; eauto).
    + intros p Hp. destruct (Hl p Hp) as (->&->&->&->&->). apply Hl'. by rewrite <- El.
    + intros o Hp. destruct (Ho o Hp) as (->&->&->). apply Ho'. by rewrite <- Eo.
Qed.

(** A side only depends on its own nodes. *)
Lemma side_wf_frame V V' s l :
  side_wf V s l → v_best V' s = v_best V s →
  (∀ p, p ∈ lvls l →
    v_lside V' p = v_lside V p ∧ v_lprice V' p = v_lprice V p ∧
    v_lfirst V' p = v_lfirst V p ∧ v_lprev V' p = v_lprev V p ∧ v_lnext V' p = v_lnext V p) →
  (∀ o, o ∈ ords l →
    v_data V' o = v_data V o ∧ v_oprev V' o = v_oprev V o ∧ v_onext V' o = v_onext V o) →
  side_wf V' s l.
Proof.
  intros [Hb Hr Hn Hs Hl Ho] Eb El Eo. split; try done.
  - congruence.
  - eapply ring_frame; [done|]. intros p Hp. by destruct (El p Hp) as (_&_&_&?&?).
  - replace (v_lprice V' <$> lvls l) with (v_lprice V <$> lvls l); [done|].
    apply list_fmap_ext. intros i p Hp%list_elem_of_lookup_2.
    by destruct (El p Hp) as (_&->&_).
  - intros p os Hin. destruct (Hl p os Hin) as [H1 H2 H3 H4 H5].
    assert (p ∈ lvls l) as Hp by (apply lvls_elem; eauto).
    assert (∀ o, o ∈ os → o ∈ ords l) as Hos by (intros; apply ords_elem; eauto).
    destruct (El p Hp) as (E1&E2&E3&_). split; try congruence.
    + eapply ring_frame; [done|]. intros o Hin'. by destruct (Eo o (Hos o Hin')) as (_&?&?).
    + intros o Hin'. destruct (Eo o (Hos o Hin')) as (->&_). rewrite E2. by apply H5.
Qed.

#[export] Instance wf_proper : Proper ((≡) ==> (=) ==> impl) wf.
Proof.
  intros V V' [Eb El Eo Ep Em Hl Ho] L _ <- [Hs Hll Hol Hpm Hom]. split.
  - intros s. eapply side_wf_frame; [apply Hs|done| |].
    + intros p Hp. destruct (Hl p) as (?&?&?&?&?); [apply Hll; eauto|]. by split_and!.
    + intros o Hin. destruct (Ho o) as (?&?&?); [apply Hol; eauto|]. by split_and!.
  - intros p. by rewrite <- El.
  - intros o. by rewrite <- Eo.
  - intros i p. rewrite <- Ep, Hpm, <- El. split; intros [Hp <-]; (split; [done|]);
      by destruct (Hl p Hp) as (_&->&_).
  - intros k o. rewrite <- Em, Hom, <- Eo. split; intros [Hp <-]; (split; [done|]);
      by destruct (Ho o Hp) as (->&_).
Qed.

(** ** Single writes *)
Definition vs_best s (p : option Z) V : view A K :=
  MkView (<[s := p]> (v_best V)) (v_lside V) (v_lprice V) (v_lfirst V) (v_lprev V) (v_lnext V)
    (v_llive V) (v_data V) (v_oprev V) (v_onext V) (v_olive V) (v_pmap V) (v_omap V).
Definition vs_lfirst p (f : option Z) V : view A K :=
  MkView (v_best V) (v_lside V) (v_lprice V) (<[p := f]> (v_lfirst V)) (v_lprev V) (v_lnext V)
    (v_llive V) (v_data V) (v_oprev V) (v_onext V) (v_olive V) (v_pmap V) (v_omap V).
Definition vs_lprev p (f : option Z) V : view A K :=
  MkView (v_best V) (v_lside V) (v_lprice V) (v_lfirst V) (<[p := f]> (v_lprev V)) (v_lnext V)
    (v_llive V) (v_data V) (v_oprev V) (v_onext V) (v_olive V) (v_pmap V) (v_omap V).
Definition vs_lnext p (f : option Z) V : view A K :=
  MkView (v_best V) (v_lside V) (v_lprice V) (v_lfirst V) (v_lprev V) (<[p := f]> (v_lnext V))
    (v_llive V) (v_data V) (v_oprev V) (v_onext V) (v_olive V) (v_pmap V) (v_omap V).
Definition vs_llive p (b : bool) V : view A K :=
  MkView (v_best V) (v_lside V) (v_lprice V) (v_lfirst V) (v_lprev V) (v_lnext V)
    (<[p := b]> (v_llive V)) (v_data V) (v_oprev V) (v_onext V) (v_olive V) (v_pmap V) (v_omap V).
Definition vs_data o (d : A) V : view A K :=
  MkView (v_best V) (v_lside V) (v_lprice V) (v_lfirst V) (v_lprev V) (v_lnext V) (v_llive V)
    (<[o := d]> (v_data V)) (v_oprev V) (v_onext V) (v_olive V) (v_pmap V) (v_omap V).
Definition vs_oprev o (f : option Z) V : view A K :=
  MkView (v_best V) (v_lside V) (v_lprice V) (v_lfirst V) (v_lprev V) (v_lnext V) (v_llive V)
    (v_data V) (<[o := f]> (v_oprev V)) (v_onext V) (v_olive V) (v_pmap V) (v_omap V).
Definition vs_onext o (f : option Z) V : view A K :=
  MkView (v_best V) (v_lside V) (v_lprice V) (v_lfirst V) (v_lprev V) (v_lnext V) (v_llive V)
    (v_data V) (v_oprev V) (<[o := f]> (v_onext V)) (v_olive V) (v_pmap V) (v_omap V).
Definition vs_olive o (b : bool) V : view A K :=
  MkView (v_best V) (v_lside V) (v_lprice V) (v_lfirst V) (v_lprev V) (v_lnext V) (v_llive V)
    (v_data V) (v_oprev V) (v_onext V) (<[o := b]> (v_olive V)) (v_pmap V) (v_omap V).
Definition vs_pmap i (p : option Z) V : view A K :=
  MkView (v_best V) (v_lside V) (v_lprice V) (v_lfirst V) (v_lprev V) (v_lnext V) (v_llive V)
    (v_data V) (v_oprev V) (v_onext V) (v_olive V) (<[i := p]> (v_pmap V)) (v_omap V).
Definition vs_omap k (p : option Z) V : view A K :=
  MkView (v_best V) (v_lside V) (v_lprice V) (v_lfirst V) (v_lprev V) (v_lnext V) (v_llive V)
    (v_data V) (v_oprev V) (v_onext V) (v_olive V) (v_pmap V) (<[k := p]> (v_omap V)).
(** A fresh level node: its fields, and the node is in use. *)
Definition vs_level p sd (px : Z) (f : option Z) V : view A K :=
  MkView (v_best V) (<[p := sd]> (v_lside V)) (<[p := px]> (v_lprice V)) (<[p := f]> (v_lfirst V))
    (<[p := None]> (v_lprev V)) (<[p := None]> (v_lnext V)) (<[p := true]> (v_llive V))
    (v_data V) (v_oprev V) (v_onext V) (v_olive V) (v_pmap V) (v_omap V).
Definition vs_order o (d : A) V : view A K :=
  MkView (v_best V) (v_lside V) (v_lprice V) (v_lfirst V) (v_lprev V) (v_lnext V) (v_llive V)
    (<[o := d]> (v_data V)) (<[o := None]> (v_oprev V)) (<[o := None]> (v_onext V))
    (<[o := true]> (v_olive V)) (v_pmap V) (v_omap V).

(** Two views with the same fields at every node are equal. *)
Lemma view_ext V V' :
  (∀ s, v_best V s = v_best V' s) →
  (∀ p, v_lside V p = v_lside V' p ∧ v_lprice V p = v_lprice V' p ∧
    v_lfirst V p = v_lfirst V' p ∧ v_lprev V p = v_lprev V' p ∧
    v_lnext V p = v_lnext V' p ∧ v_llive V p = v_llive V' p) →
  (∀ o, v_data V o = v_data V' o ∧ v_oprev V o = v_oprev V' o ∧
    v_onext V o = v_onext V' o ∧ v_olive V o = v_olive V' o) →
  (∀ i, v_pmap V i = v_pmap V' i) → (∀ k, v_omap V k = v_omap V' k) → V = V'.
Proof.
  destruct V, V'; simpl. intros H1 H2 H3 H4 H5.
  f_equal; apply functional_extensionality; intros; try apply H1; try apply H2;
    try apply H3; auto.
Qed.

Lemma vs_lfirst_id p f V : v_lfirst V p = f → vs_lfirst p f V = V.
Proof.
  intros H. apply view_ext; simpl; try done. intros q. unfold insert, fn_insert.
  case_decide; subst; by split_and!.
Qed.
Lemma vs_best_id s f V : v_best V s = f → vs_best s f V = V.
Proof.
  intros H. apply view_ext; simpl; try done. intros q. unfold insert, fn_insert.
  case_decide; by subst.
Qed.

(** ** The surgeries *)
(** The order [o], with data [d], is linked between [z] and [x]. *)
Definition link_order o (d : A) z x V : view A K :=
  MkView (v_best V) (v_lside V) (v_lprice V) (v_lfirst V) (v_lprev V) (v_lnext V) (v_llive V)
    (<[o := d]> (v_data V)) (<[x := Some o]> (<[o := Some z]> (v_oprev V)))
    (<[z := Some o]> (<[o := Some x]> (v_onext V))) (<[o := true]> (v_olive V))
    (v_pmap V) (<[od_key d := Some o]> (v_omap V)).
(** The order [o] between [z] and [x] is unlinked. *)
Definition unlink_order o z x V : view A K :=
  MkView (v_best V) (v_lside V) (v_lprice V) (v_lfirst V) (v_lprev V) (v_lnext V) (v_llive V)
    (v_data V) (<[x := Some z]> (v_oprev V)) (<[z := Some x]> (v_onext V))
    (<[o := false]> (v_olive V)) (v_pmap V) (<[od_key (v_data V o) := None]> (v_omap V)).
(** The level [p] of side [s] and price [px] is linked between [z] and [x]. *)
Definition link_level p s (px : Z) (f : option Z) z x (best : option Z) V : view A K :=
  MkView (<[s := best]> (v_best V)) (<[p := to_side s]> (v_lside V)) (<[p := px]> (v_lprice V))
    (<[p := f]> (v_lfirst V)) (<[x := Some p]> (<[p := Some z]> (v_lprev V)))
    (<[z := Some p]> (<[p := Some x]> (v_lnext V))) (<[p := true]> (v_llive V))
    (v_data V) (v_oprev V) (v_onext V) (v_olive V) (<[index px := Some p]> (v_pmap V)) (v_omap V).
Definition unlink_level p s z x (best : option Z) V : view A K :=
  MkView (<[s := best]> (v_best V)) (v_lside V) (v_lprice V) (v_lfirst V)
    (<[x := Some z]> (v_lprev V)) (<[z := Some x]> (v_lnext V)) (<[p := false]> (v_llive V))
    (v_data V) (v_oprev V) (v_onext V) (v_olive V)
    (<[index (v_lprice V p) := None]> (v_pmap V)) (v_omap V).

(** Replacing the orders of one level. *)
Lemma side_wf_alter V V' s l1 p os os' l2 :
  side_wf V s (l1 ++ (p, os) :: l2) → v_best V' s = v_best V s →
  (∀ q, q ∈ lvls (l1 ++ (p, os) :: l2) →
    v_lside V' q = v_lside V q ∧ v_lprice V' q = v_lprice V q ∧
    (q ≠ p → v_lfirst V' q = v_lfirst V q) ∧
    v_lprev V' q = v_lprev V q ∧ v_lnext V' q = v_lnext V q) →
  (∀ o, o ∈ ords (l1 ++ l2) →
    v_data V' o = v_data V o ∧ v_oprev V' o = v_oprev V o ∧ v_onext V' o = v_onext V o) →
  level_wf V' s p os' → NoDup (ords (l1 ++ (p, os') :: l2)) →
  side_wf V' s (l1 ++ (p, os') :: l2).
Proof.
  intros [Hb Hr Hn Hs Hl _] Eb El Eo Hp Hnd.
  assert (lvls (l1 ++ (p, os') :: l2) = lvls (l1 ++ (p, os) :: l2)) as E
    by by autorewrite with lay.
  split; rewrite ?E; try done.
  - congruence.
  - eapply ring_frame; [done|]. intros q Hq. by destruct (El q Hq) as (_&_&_&?&?).
  - replace (v_lprice V' <$> _) with (v_lprice V <$> lvls (l1 ++ (p, os) :: l2)); [done|].
    apply list_fmap_ext. intros i q Hq%list_elem_of_lookup_2. by destruct (El q Hq) as (_&->&_).
  - intros q osq Hin.
    assert (q = p ∧ osq = os' ∨ (q, osq) ∈ l1 ++ l2) as [[-> ->]|Hin'] by set_solver; [done|].
    assert ((q, osq) ∈ l1 ++ (p, os) :: l2) as Hin2 by set_solver.
    destruct (Hl q osq Hin2) as [H1 H2 H3 H4 H5].
    assert (q ∈ lvls (l1 ++ (p, os) :: l2)) as Hq by (apply lvls_elem; eauto).
    assert (∀ o, o ∈ osq → o ∈ ords (l1 ++ l2)) as Hos by (intros; apply ords_elem; eauto).
    assert (q ≠ p) as Hqp.
    { intros ->. autorewrite with lay in Hn. apply NoDup_app_cons_inv in Hn as (Hn1&Hn2&_).
      apply elem_of_app in Hin' as [Hin'|Hin']; [apply Hn1|apply Hn2]; apply lvls_elem; eauto. }
    destruct (El q Hq) as (E1&E2&E3&_). split; try (rewrite ?E3 by done; congruence).
    + eapply ring_frame; [done|]. intros o Hin3. by destruct (Eo o (Hos o Hin3)) as (_&?&?).
    + intros o Hin3. destruct (Eo o (Hos o Hin3)) as (->&_). rewrite E2. by apply H5.
Qed.
(** What the layout says of single nodes. *)
Lemma wf_level_live V L s p os :
  wf V L → (p, os) ∈ L s → v_llive V p = true ∧ v_pmap V (index (v_lprice V p)) = Some p.
Proof.
  intros Hwf Hin. assert (v_llive V p = true) as Hl.
  { apply (wf_llive _ _ Hwf). exists s. apply lvls_elem. eauto. }
  split; [done|]. by apply (wf_pmap _ _ Hwf).
Qed.
Lemma wf_level V L s p os : wf V L → (p, os) ∈ L s → level_wf V s p os.
Proof. intros Hwf. apply (sw_levels _ _ _ (wf_sides _ _ Hwf s)). Qed.
Lemma wf_order_live V L s o : wf V L → o ∈ ords (L s) → v_olive V o = true.
Proof. intros Hwf Hin. apply (wf_olive _ _ Hwf). eauto. Qed.
Lemma wf_order_key V L s o :
  wf V L → o ∈ ords (L s) → v_omap V (od_key (v_data V o)) = Some o.
Proof. intros Hwf Hin. apply (wf_omap _ _ Hwf). split; [by eapply wf_order_live|done]. Qed.
Lemma wf_order_side V L s o : wf V L → o ∈ ords (L s) → od_side (v_data V o) = to_side s.
Proof.
  intros Hwf (p & os & Hin & Ho)%ords_elem.
  by apply (lw_orders _ _ _ _ (wf_level _ _ _ _ _ Hwf Hin)).
Qed.
Lemma wf_live_level V L p :
  wf V L → v_llive V p = true → ∃ s l1 os l2, L s = l1 ++ (p, os) :: l2.
Proof.
  intros Hwf [s Hs]%(wf_llive _ _ Hwf). apply lvls_elem in Hs as [os Hs].
  apply list_elem_of_split in Hs as (l1 & l2 & E). eauto.
Qed.
Lemma wf_live_order V L o :
  wf V L → v_olive V o = true → ∃ s l1 p os1 os2 l2, L s = l1 ++ (p, os1 ++ o :: os2) :: l2.
Proof.
  intros Hwf [s Hs]%(wf_olive _ _ Hwf). apply ords_elem in Hs as (p & os & Hin & Ho).
  apply list_elem_of_split in Hin as (l1 & l2 & E).
  apply list_elem_of_split in Ho as (os1 & os2 & ->). eauto 10.
Qed.

(** The two sides have no node in common. *)
Lemma wf_levels_disjoint V L s s' p : wf V L → p ∈ lvls (L s) → p ∈ lvls (L s') → s = s'.
Proof.
  intros Hwf [os H]%lvls_elem [os' H']%lvls_elem. apply (inj to_side).
  by rewrite <- (lw_side _ _ _ _ (wf_level _ _ _ _ _ Hwf H)),
    (lw_side _ _ _ _ (wf_level _ _ _ _ _ Hwf H')).
Qed.
Lemma wf_orders_disjoint V L s s' o : wf V L → o ∈ ords (L s) → o ∈ ords (L s') → s = s'.
Proof.
  intros Hwf H H'. apply (inj to_side).
  by rewrite <- (wf_order_side _ _ _ _ Hwf H), (wf_order_side _ _ _ _ Hwf H').
Qed.

(** ** What the surgeries do to the layout *)
Ltac upd := simpl; unfold insert, fn_insert; simpl; repeat case_decide; simplify_eq.

(** A side whose nodes are untouched. *)
Lemma other_side V V' L s s' l :
  wf V L → s' ≠ s → v_best V' s' = v_best V s' →
  (∀ p, v_llive V p = true → p ∉ lvls (L s) →
    v_lside V' p = v_lside V p ∧ v_lprice V' p = v_lprice V p ∧
    v_lfirst V' p = v_lfirst V p ∧ v_lprev V' p = v_lprev V p ∧ v_lnext V' p = v_lnext V p) →
  (∀ o, v_olive V o = true → o ∉ ords (L s) →
    v_data V' o = v_data V o ∧ v_oprev V' o = v_oprev V o ∧ v_onext V' o = v_onext V o) →
  side_wf V' s' (<[s := l]> L s').
Proof.
  intros Hwf Hne Hb Hl Ho. rewrite fn_lookup_insert_ne by done.
  eapply side_wf_frame; [by apply (wf_sides _ _ Hwf)|done| |].
  - intros p Hp. apply Hl; [apply (wf_llive _ _ Hwf); eauto|].
    intros Hp'. by apply Hne, (wf_levels_disjoint _ _ _ _ _ Hwf Hp).
  - intros o Hp. apply Ho; [apply (wf_olive _ _ Hwf); eauto|].
    intros Hp'. by apply Hne, (wf_orders_disjoint _ _ _ _ _ Hwf Hp).
Qed.

(** Membership after replacing one side. *)
Lemma insert_side_elem {B} (f : list (Z * list Z) → list B) L s l (x : B) :
  (∃ s', x ∈ f (<[s := l]> L s')) ↔ x ∈ f l ∨ ∃ s', s' ≠ s ∧ x ∈ f (L s').
Proof.
  split.
  - intros [s' H]. destruct (decide (s' = s)) as [->|].
    + rewrite fn_lookup_insert in H. auto.
    + rewrite fn_lookup_insert_ne in H by done. eauto.
  - intros [H|(s' & Hne & H)]; [exists s|exists s'];
      [rewrite fn_lookup_insert|rewrite fn_lookup_insert_ne by done]; done.
Qed.

Lemma side_elem {B} (f : list (Z * list Z) → list B) L s (x : B) :
  (∃ s', x ∈ f (L s')) ↔ x ∈ f (L s) ∨ ∃ s', s' ≠ s ∧ x ∈ f (L s').
Proof.
  split; [|naive_solver].
  intros [s' H]. destruct (decide (s' = s)) as [->|]; eauto.
Qed.

(** A table of the live nodes by their keys, with a node more or less. *)
Definition indexes {I} (m : I → option Z) (live : Z → bool) (key : Z → I) : Prop :=
  ∀ k w, m k = Some w ↔ live w = true ∧ key w = k.
Lemma indexes_link {I} `{!EqDecision I} (m : I → option Z) live key key' k0 o :
  indexes m live key → live o = false → m k0 = None → key' o = k0 → (∀ w, w ≠ o → key' w = key w) →
  indexes (<[k0 := Some o]> m) (<[o := true]> live) key'.
Proof.
  intros Hm Ho Hk Hko Hkw k w. unfold insert, fn_insert.
  destruct (decide (k0 = k)) as [<-|Hne]; destruct (decide (o = w)) as [<-|Hnw].
  - done.
  - rewrite Hkw by done. split; [congruence|]. intros H%(Hm k0 w). congruence.
  - split; [|intros [_ ?]; congruence]. intros [? _]%(Hm k o). congruence.
  - rewrite Hkw by done. apply Hm.
Qed.
Lemma indexes_unlink {I} `{!EqDecision I} (m : I → option Z) live key k0 o :
  indexes m live key → m k0 = Some o → indexes (<[k0 := None]> m) (<[o := false]> live) key.
Proof.
  intros Hm Hk k w. pose proof (proj1 (Hm k0 o) Hk) as [_ Hko]. unfold insert, fn_insert.
  destruct (decide (k0 = k)) as [<-|Hne]; destruct (decide (o = w)) as [<-|Hnw].
  - naive_solver.
  - split; [congruence|]. intros H%(Hm k0 w). congruence.
  - rewrite (Hm k o). split; [intros [_ ?]; congruence|naive_solver].
  - apply Hm.
Qed.

Lemma wf_link_order V L s l1 p os l2 o d z x :
  wf V L → L s = l1 ++ (p, os) :: l2 → head os = Some x → last os = Some z →
  v_olive V o = false → od_side d = to_side s → od_price d = v_lprice V p →
  v_omap V (od_key d) = None →
  wf (link_order o d z x V) (<[s := l1 ++ (p, os ++ [o]) :: l2]> L).
Proof.
  intros Hwf HL Hx Hz Ho Hs Hp Hk.
  assert (∀ s' o', o' ∈ ords (L s') → o' ≠ o) as Hfresh.
  { intros s' o' Hin ->. by rewrite (wf_order_live _ _ _ _ Hwf Hin) in Ho. }
  pose proof (wf_sides _ _ Hwf s) as HS. rewrite HL in HS.
  pose proof (sw_levels _ _ _ HS _ _ (focus_elem _ _ _ _)) as Hlw.
  pose proof (sw_orders _ _ _ HS) as (Hnd1 & Hnd2 & Hnd3)%ords_focus_NoDup.
  assert (∀ w, w ∈ os → w ∈ ords (L s)) as Hos.
  { intros w Hw. rewrite HL. apply ords_focus_elem. auto. }
  apply head_Some in Hx as Hx'. destruct Hx' as [os' ->].
  apply last_Some in Hz as Hz'. destruct Hz' as [os'' Ez].
  assert (z ∈ x :: os') as Hzin by (rewrite Ez; apply elem_of_app; right; apply list_elem_of_singleton; done).
  assert (x ∈ x :: os') as Hxin by (apply elem_of_cons; auto).
  split.
  - intros s'. destruct (decide (s' = s)) as [->|Hne].
    + rewrite fn_lookup_insert. eapply side_wf_alter; [done|done| | | |].
      * intros q _. by split_and!.
      * intros w Hw. assert (w ∉ x :: os') by (intros ?; by eapply Hnd2).
        assert (w ≠ o) by (apply (Hfresh s); rewrite HL; apply ords_focus_elem; auto).
        assert (w ≠ x) by (intros ->; auto). assert (w ≠ z) by (intros ->; auto).
        split_and!; upd; done.
      * destruct Hlw as [H1 H2 H3 H4 H5]. split; simpl; [done|done|done| |].
        -- destruct (ring_prev _ _ _ _ H4) as (z' & Hz' & Hpx & Hnz). simplify_eq.
           assert (x ≠ o) by eauto. assert (z ≠ o) by eauto.
           eapply (ring_insert (v_onext V) (v_oprev V)); try done; try (by upd);
             intros w Hw Hne; assert (w ≠ o) by eauto; upd; done.
        -- intros w Hw. rewrite app_comm_cons, elem_of_app in Hw.
           upd; [done|]. apply H5. destruct Hw as [?|?%list_elem_of_singleton]; congruence.
      * apply ords_focus_NoDup. split_and!; [| |done].
        -- apply NoDup_app. split_and!; [done| |apply NoDup_singleton].
           intros w Hw ->%list_elem_of_singleton. eapply (Hfresh s); [by apply Hos|done].
        -- intros w [Hw|Hw%list_elem_of_singleton]%elem_of_app; [by apply Hnd2|].
           intros Hw'. eapply (Hfresh s); [|done]. rewrite HL. apply ords_focus_elem. auto.
    + eapply other_side; [done..|by intros; split_and!|].
      intros w Hw Hnw. assert (w ≠ o) by congruence.
      assert (w ≠ x) by (intros ->; auto). assert (w ≠ z) by (intros ->; auto).
      split_and!; upd; done.
  - intros q. simpl. rewrite (wf_llive _ _ Hwf), insert_side_elem, (side_elem lvls L s), HL.
    by rewrite !lvls_focus_elem.
  - intros w. rewrite insert_side_elem, ords_focus_elem, elem_of_app, list_elem_of_singleton.
    transitivity (w = o ∨ v_olive V w = true); [upd; naive_solver|].
    rewrite (wf_olive _ _ Hwf), (side_elem ords L s), HL, ords_focus_elem. tauto.
  - apply (wf_pmap _ _ Hwf).
  - apply (indexes_link (v_omap V) (v_olive V) (λ w, od_key (v_data V w)) (λ w, od_key ((<[o := d]> (v_data V)) w)));
      [exact (wf_omap _ _ Hwf)|done|done|by upd|intros w Hw; by upd].
Qed.

Lemma ring_prev_self (nxt prv : Z → option Z) os1 o os2 :
  NoDup (os1 ++ o :: os2) → ring nxt prv (os1 ++ o :: os2) →
  prv o = Some o ↔ os1 ++ os2 = [].
Proof.
  intros Hnd Hr%ring_rotate. rewrite (Permutation_app_comm os1) in Hnd. simpl in *.
  rewrite (ring_single_prev_iff nxt) by done.
  split; [intros [-> ->]%app_nil|intros [-> ->]%app_nil]; done.
Qed.
Lemma ring_next_self (nxt prv : Z → option Z) os1 o os2 :
  NoDup (os1 ++ o :: os2) → ring nxt prv (os1 ++ o :: os2) →
  nxt o = Some o ↔ os1 ++ os2 = [].
Proof.
  intros Hnd Hr%ring_rotate. rewrite (Permutation_app_comm os1) in Hnd. simpl in *.
  rewrite (ring_single_iff _ prv) by done.
  split; [intros [-> ->]%app_nil|intros [-> ->]%app_nil]; done.
Qed.
(** Unlinking from a ring, wherever the node is. *)
Lemma ring_unlink (nxt prv : Z → option Z) os1 o os2 z x :
  NoDup (os1 ++ o :: os2) → ring nxt prv (os1 ++ o :: os2) → prv o = Some z →
  nxt o = Some x → ring (<[z := Some x]> nxt) (<[x := Some z]> prv) (os1 ++ os2).
Proof.
  intros Hnd Hr Hz Hx. apply ring_rotate. apply ring_rotate in Hr.
  rewrite (Permutation_app_comm os1) in Hnd. simpl in *.
  destruct (os2 ++ os1) as [|y l]; [done|].
  pose proof (ring_next _ _ _ _ _ Hr) as [Hy _]. simplify_eq.
  eapply (ring_remove nxt prv); try done; intros; by upd.
Qed.

Lemma wf_unlink_order V L s l1 p os1 o os2 l2 z x :
  wf V L → L s = l1 ++ (p, os1 ++ o :: os2) :: l2 → os1 ++ os2 ≠ [] →
  v_oprev V o = Some z → v_onext V o = Some x →
  wf (vs_lfirst p (head (os1 ++ os2)) (unlink_order o z x V))
    (<[s := l1 ++ (p, os1 ++ os2) :: l2]> L).
Proof.
  intros Hwf HL Hne Hz Hx.
  pose proof (wf_sides _ _ Hwf s) as HS. rewrite HL in HS.
  pose proof (sw_levels _ _ _ HS _ _ (focus_elem _ _ _ _)) as Hlw.
  pose proof (sw_orders _ _ _ HS) as (Hnd1 & Hnd2 & Hnd3)%ords_focus_NoDup.
  assert (∀ w, w ∈ os1 ++ o :: os2 → w ∈ ords (L s)) as Hos.
  { intros w Hw. rewrite HL. apply ords_focus_elem. auto. }
  assert (o ∈ os1 ++ o :: os2) as Hoin by (apply elem_of_insert; auto).
  destruct (ring_elem _ _ _ _ (lw_ring _ _ _ _ Hlw) Hoin) as (x' & z' & ? & ? & Hxin & Hzin & _).
  simplify_eq.
  pose proof (NoDup_app_cons_inv _ _ _ Hnd1) as (Hno1 & Hno2 & Hnd4).
  assert (∀ w, w ∈ os1 ++ o :: os2 ↔ w = o ∨ w ∈ os1 ++ os2) as Hmid.
  { intros w. apply elem_of_insert. }
  assert (o ∉ os1 ++ os2) as Hno by (rewrite elem_of_app; tauto).
  split.
  - intros s'. destruct (decide (s' = s)) as [->|Hns].
    + rewrite fn_lookup_insert. eapply side_wf_alter; [done|done| | | |].
      * intros q _. split_and!; upd; done.
      * intros w Hw. assert (w ∉ os1 ++ o :: os2) by (intros ?; by eapply Hnd2).
        assert (w ≠ x) by (intros ->; auto). assert (w ≠ z) by (intros ->; auto).
        split_and!; upd; done.
      * destruct Hlw as [H1 H2 H3 H4 H5]. split; simpl; [done|by upd|done| |].
        -- by apply ring_unlink with o.
        -- intros w Hw. apply H5, Hmid. auto.
      * apply ords_focus_NoDup. split_and!; [done| |done].
        intros w Hw. apply Hnd2, Hmid. auto.
    + eapply other_side; [done..| |].
      * intros q Hq Hnq. assert (q ≠ p).
        { intros ->. apply Hnq. rewrite HL. apply lvls_focus_elem. auto. }
        split_and!; upd; done.
      * intros w Hw Hnw. assert (w ≠ x) by (intros ->; auto).
        assert (w ≠ z) by (intros ->; auto). split_and!; upd; done.
  - intros q. simpl. rewrite (wf_llive _ _ Hwf), insert_side_elem, (side_elem lvls L s), HL.
    by rewrite !lvls_focus_elem.
  - intros w. rewrite insert_side_elem, ords_focus_elem.
    transitivity (w ≠ o ∧ v_olive V w = true); [upd; naive_solver|].
    rewrite (wf_olive _ _ Hwf), (side_elem ords L s), HL, ords_focus_elem, Hmid.
    assert (o ∉ ords (l1 ++ l2)) by (by apply Hnd2).
    assert (∀ s', s' ≠ s → o ∉ ords (L s')) as Hd.
    { intros s' Hns Ho. by eapply Hns, wf_orders_disjoint, Hos, Hoin. }
    destruct (decide (w = o)) as [->|]; [|naive_solver]. naive_solver.
  - intros i q. simpl. apply (wf_pmap _ _ Hwf).
  - apply (indexes_unlink (v_omap V) (v_olive V) (λ w, od_key (v_data V w))); [exact (wf_omap _ _ Hwf)|].
    by apply (wf_order_key _ _ _ _ Hwf (Hos _ Hoin)).
Qed.

Lemma wf_vs_data V L s o d :
  wf V L → o ∈ ords (L s) → od_side d = od_side (v_data V o) →
  od_price d = od_price (v_data V o) → od_key d = od_key (v_data V o) → wf (vs_data o d V) L.
Proof.
  intros Hwf Ho Hs Hp Hk. split; simpl.
  - intros s'. destruct (wf_sides _ _ Hwf s') as [H1 H2 H3 H4 H5 H6]. split; try done.
    intros p os [G1 G2 G3 G4 G5]%H5. split; try done. simpl. intros w Hw.
    upd; rewrite ?Hs, ?Hp; by apply G5.
  - apply (wf_llive _ _ Hwf).
  - apply (wf_olive _ _ Hwf).
  - apply (wf_pmap _ _ Hwf).
  - intros k w. rewrite (wf_omap _ _ Hwf). by upd; rewrite ?Hk.
Qed.

(** A level whose only order is [o] goes, and the order with it. *)
Lemma wf_unlink_level V L s l1 p o l2 z x :
  wf V L → L s = l1 ++ (p, [o]) :: l2 → v_lprev V p = Some z → v_lnext V p = Some x →
  wf (unlink_level p s z x (head (lvls (l1 ++ l2))) (unlink_order o o o V))
    (<[s := l1 ++ l2]> L).
Proof.
  intros Hwf HL Hz Hx.
  pose proof (wf_sides _ _ Hwf s) as HS. rewrite HL in HS.
  destruct HS as [HSb HSr HSn HSs HSl HSo].
  apply ords_focus_NoDup in HSo as (_ & Ho & HSo). specialize (Ho o (list_elem_of_here _ _)).
  apply lvls_focus_NoDup in HSn as Hn. destruct Hn as [Hp HSn'].
  assert (p ∈ lvls (L s)) as Hps by (rewrite HL; apply lvls_focus_elem; auto).
  assert (o ∈ ords (L s)) as Hos.
  { rewrite HL. apply ords_focus_elem. left. apply list_elem_of_here. }
  assert (p ∈ lvls (l1 ++ (p, [o]) :: l2)) as Hpl by (rewrite <- HL; done).
  destruct (ring_elem _ _ _ _ HSr Hpl) as (x' & z' & ? & ? & Hxin & Hzin & _). simplify_eq.
  rewrite <- HL in Hxin, Hzin. pose proof (wf_level_live _ _ _ _ _ Hwf
    ltac:(rewrite HL; apply focus_elem)) as [_ Hpm].
  split.
  - intros s'. destruct (decide (s' = s)) as [->|Hns].
    + rewrite fn_lookup_insert. split; simpl; [by upd| |done| | |done].
      * rewrite lvls_app in *. by apply ring_unlink with p.
      * rewrite lvls_app, lvls_cons, fmap_app, fmap_cons in HSs.
        rewrite lvls_app, fmap_app. apply StronglySorted_app in HSs as (G1 & G2 & G3).
        apply StronglySorted_cons in G3 as [_ G3].
        apply StronglySorted_app. split_and!; [|done..]. set_solver.
      * intros q os Hin. assert ((q, os) ∈ l1 ++ (p, [o]) :: l2) as Hin' by (apply elem_of_insert; auto).
        destruct (HSl _ _ Hin') as [G1 G2 G3 G4 G5]. split; try done. simpl.
        eapply ring_frame; [done|]. intros w Hw.
        assert (w ≠ o) by (intros ->; apply Ho, ords_elem; eauto). split; upd; done.
    + eapply other_side; [done|done|by upd| |].
      * intros q Hq Hnq. assert (q ≠ x) by (intros ->; auto).
        assert (q ≠ z) by (intros ->; auto). split_and!; upd; done.
      * intros w Hw Hnw. assert (w ≠ o) by (intros ->; auto). split_and!; upd; done.
  - intros q. rewrite insert_side_elem.
    transitivity (q ≠ p ∧ v_llive V q = true); [upd; naive_solver|].
    rewrite (wf_llive _ _ Hwf), (side_elem lvls L s), HL, lvls_focus_elem.
    assert (∀ s', s' ≠ s → p ∉ lvls (L s')) as Hd.
    { intros s' Hns Hp'. by eapply Hns, wf_levels_disjoint. }
    destruct (decide (q = p)) as [->|]; naive_solver.
  - intros w. rewrite insert_side_elem.
    transitivity (w ≠ o ∧ v_olive V w = true); [upd; naive_solver|].
    rewrite (wf_olive _ _ Hwf), (side_elem ords L s), HL, ords_focus_elem, list_elem_of_singleton.
    assert (∀ s', s' ≠ s → o ∉ ords (L s')) as Hd.
    { intros s' Hns Ho'. by eapply Hns, wf_orders_disjoint. }
    destruct (decide (w = o)) as [->|]; naive_solver.
  - by apply (indexes_unlink (v_pmap V) (v_llive V) (λ q, index (v_lprice V q))); [exact (wf_pmap _ _ Hwf)|].
  - apply (indexes_unlink (v_omap V) (v_olive V) (λ w, od_key (v_data V w))); [exact (wf_omap _ _ Hwf)|].
    by apply (wf_order_key _ _ _ _ Hwf Hos).
Qed.

(** Where a new level [p] goes between [l1] and [l2]: its two neighbours. *)
Definition neighbours V p (l1 l2 : list (Z * list Z)) z x : Prop :=
  match lvls (l2 ++ l1) with
  | [] => z = p ∧ x = p
  | y :: _ => x = y ∧ v_lprev V y = Some z
  end.

Lemma ring_link (nxt prv : Z → option Z) (l1 l2 : list Z) p z x :
  NoDup (l1 ++ l2) → p ∉ l1 ++ l2 → ring nxt prv (l1 ++ l2) →
  match l2 ++ l1 with [] => z = p ∧ x = p | y :: _ => x = y ∧ prv y = Some z end →
  ring (<[z := Some p]> (<[p := Some x]> nxt)) (<[x := Some p]> (<[p := Some z]> prv))
    (l1 ++ p :: l2).
Proof.
  intros Hnd Hp Hr Hz. apply ring_rotate. rewrite <- app_comm_cons.
  rewrite (Permutation_app_comm l1) in Hnd. rewrite elem_of_app in Hp.
  assert (p ∉ l2 ++ l1) as Hp' by (rewrite elem_of_app; tauto).
  apply ring_rotate in Hr.
  change (p :: l2 ++ l1) with ([p] ++ (l2 ++ l1)). apply ring_rotate.
  destruct (l2 ++ l1) as [|y l]; simpl.
  { destruct Hz as [-> ->]. unfold linked. split_and!; upd; done. }
  destruct Hz as [-> Hz]. destruct (ring_prev _ _ _ _ Hr) as (z' & Hl & ? & _). simplify_eq.
  assert (z ∈ y :: l) as Hzin by (apply last_Some in Hl as [l' ->]; apply elem_of_app; right; apply list_elem_of_here).
  assert (y ≠ p) by (intros ->; apply Hp', list_elem_of_here).
  assert (z ≠ p) by (intros ->; auto).
  apply (ring_insert nxt prv _ _ y l z p Hnd Hr Hz); try (by upd).
  - intros w Hw Hne. assert (w ≠ p) by (intros ->; auto). by upd.
  - intros w Hw Hne. assert (w ≠ p) by (intros ->; auto). by upd.
Qed.

(** The neighbours are levels of the side, or the new level. *)
Lemma neighbours_in V l1 l2 p z x q :
  ring (v_lnext V) (v_lprev V) (lvls (l1 ++ l2)) → neighbours V p l1 l2 z x →
  q ≠ p → q ∉ lvls (l1 ++ l2) → q ≠ x ∧ q ≠ z.
Proof.
  intros Hr Hnb Hqp Hnq. unfold neighbours in Hnb. destruct (lvls (l2 ++ l1)) as [|y l] eqn:E.
  - by destruct Hnb as [-> ->].
  - destruct Hnb as [-> Hz]. rewrite lvls_app in *. apply ring_rotate in Hr. rewrite E in Hr.
    destruct (ring_prev _ _ _ _ Hr) as (z' & Hl & ? & _). simplify_eq.
    apply last_Some in Hl as [l' E']. rewrite (Permutation_app_comm (lvls l1)), E in Hnq.
    split; intros ->; apply Hnq; [apply list_elem_of_here|].
    rewrite E'. apply elem_of_app. right. apply list_elem_of_here.
Qed.
(** The prices stay sorted. *)
Lemma prices_link V s l1 l2 p px os :
  StronglySorted (better s) (v_lprice V <$> lvls (l1 ++ l2)) → p ∉ lvls (l1 ++ l2) →
  (∀ q, q ∈ lvls l1 → better s (v_lprice V q) px) →
  (∀ q, q ∈ lvls l2 → better s px (v_lprice V q)) →
  StronglySorted (better s) (<[p := px]> (v_lprice V) <$> lvls (l1 ++ (p, os) :: l2)).
Proof.
  intros HSs Hpn Hb1 Hb2. replace (<[p:=px]> (v_lprice V) <$> lvls (l1 ++ (p, os) :: l2)) with
    ((v_lprice V <$> lvls l1) ++ px :: (v_lprice V <$> lvls l2)).
  { rewrite lvls_app, fmap_app in HSs. apply StronglySorted_app in HSs as (G1 & G2 & G3).
    apply StronglySorted_app. split_and!; [|done|].
    - intros q1 q2 Hq1 [->|Hq2]%elem_of_cons; [|by apply G1].
      apply list_elem_of_fmap in Hq1 as (q & -> & Hq). by apply Hb1.
    - apply StronglySorted_cons. split; [|done]. apply Forall_fmap, Forall_forall, Hb2. }
  rewrite lvls_app, lvls_cons, fmap_app, fmap_cons. rewrite lvls_app, elem_of_app in Hpn.
  f_equal; [|f_equal; [by rewrite fn_lookup_insert|]]; apply list_fmap_ext;
    intros i q Hq%list_elem_of_lookup_2; by rewrite fn_lookup_insert_ne by (intros ->; tauto).
Qed.

Lemma wf_link_level V L s l1 l2 p px o d z x :
  wf V L → L s = l1 ++ l2 → v_llive V p = false → v_olive V o = false →
  od_side d = to_side s → od_price d = px → v_omap V (od_key d) = None →
  v_pmap V (index px) = None → neighbours V p l1 l2 z x →
  (∀ q, q ∈ lvls l1 → better s (v_lprice V q) px) →
  (∀ q, q ∈ lvls l2 → better s px (v_lprice V q)) →
  wf (link_level p s px (Some o) z x (head (lvls (l1 ++ (p, [o]) :: l2))) (link_order o d o o V))
    (<[s := l1 ++ (p, [o]) :: l2]> L).
Proof.
  intros Hwf HL Hp Ho Hsd Hpx Hk Hpm Hnb Hb1 Hb2.
  pose proof (wf_sides _ _ Hwf s) as HS. rewrite HL in HS.
  destruct HS as [HSb HSr HSn HSs HSl HSo].
  assert (∀ s' w, w ∈ ords (L s') → w ≠ o) as Hfo.
  { intros s' w Hin ->. by rewrite (wf_order_live _ _ _ _ Hwf Hin) in Ho. }
  assert (∀ s' q, q ∈ lvls (L s') → q ≠ p) as Hfp.
  { intros s' q Hin ->. assert (v_llive V p = true) by (apply (wf_llive _ _ Hwf); eauto). congruence. }
  assert (p ∉ lvls (l1 ++ l2)) as Hpn by (rewrite <- HL; intros H; by eapply Hfp).
  assert (o ∉ ords (l1 ++ l2)) as Hon by (rewrite <- HL; intros H; by eapply Hfo).
  assert (∀ q, v_llive V q = true → q ∉ lvls (L s) → q ≠ x ∧ q ≠ z) as Hxz
    by (intros q Hq Hnq; rewrite HL in Hnq; eapply neighbours_in; [exact HSr|exact Hnb|congruence|done]).
  split.
  - intros s'. destruct (decide (s' = s)) as [->|Hns].
    + rewrite fn_lookup_insert. split; simpl; [by upd| | | | |].
      * rewrite lvls_app in *. rewrite lvls_cons. apply ring_link; try done.
        unfold neighbours in Hnb. by rewrite lvls_app in Hnb.
      * by apply lvls_focus_NoDup.
      * by apply prices_link.
      * intros q os [E|Hin]%elem_of_insert.
        { simplify_eq. split; simpl; [by upd|by upd|done| |].
          - unfold linked. split_and!; upd; done.
          - intros w ->%list_elem_of_singleton. split; upd; done. }
        assert (q ∈ lvls (L s)) as Hq by (rewrite HL; apply lvls_elem; eauto).
        assert (∀ w, w ∈ os → w ≠ o) as Hw.
        { intros w Hw. apply (Hfo s). rewrite HL. apply ords_elem. eauto. }
        pose proof (Hfp _ _ Hq). destruct (HSl _ _ Hin) as [G1 G2 G3 G4 G5].
        split; simpl; [by upd|by upd|done| |].
        -- eapply ring_frame; [done|]. intros w Hw'. pose proof (Hw w Hw'). split; upd; done.
        -- intros w Hw'. pose proof (Hw w Hw'). upd; by apply G5.
      * apply ords_focus_NoDup. split_and!; [apply NoDup_singleton| |done].
        by intros w ->%list_elem_of_singleton.
    + eapply other_side; [done|done|by upd| |].
      * intros q Hq Hnq. destruct (Hxz q Hq Hnq). assert (q ≠ p) by congruence.
        split_and!; upd; done.
      * intros w Hw Hnw. assert (w ≠ o) by congruence. split_and!; upd; done.
  - intros q. rewrite insert_side_elem, lvls_focus_elem.
    transitivity (q = p ∨ v_llive V q = true); [upd; naive_solver|].
    rewrite (wf_llive _ _ Hwf), (side_elem lvls L s), HL. tauto.
  - intros w. rewrite insert_side_elem, ords_focus_elem, list_elem_of_singleton.
    transitivity (w = o ∨ v_olive V w = true); [upd; naive_solver|].
    rewrite (wf_olive _ _ Hwf), (side_elem ords L s), HL. tauto.
  - apply (indexes_link (v_pmap V) (v_llive V) (λ q, index (v_lprice V q)) (λ q, index ((<[p := px]> (v_lprice V)) q)));
      [exact (wf_pmap _ _ Hwf)|done|done|by upd|intros q Hq; by upd].
  - apply (indexes_link (v_omap V) (v_olive V) (λ w, od_key (v_data V w)) (λ w, od_key ((<[o := d]> (v_data V)) w)));
      [exact (wf_omap _ _ Hwf)|done|done|by upd|intros w Hw; by upd].
Qed.
End view.
