(* ===== verification/BookHeap.v ===== *)
(** The member functions the two order books share, over any heap that has their accesses.

    [me_order_book.h] and [market_order_book.h] contain the same [removeOrdersAtPrice], [removeOrder] and
    [addOrder], once over [MEOrder]s and once over [MarketOrder]s.  [BookOps] names the accesses these
    functions make, [BookLaws] says what each access does to the [view] of the heap, and the
    functions are written and verified here once, against the laws.  Each book shows that its own
    functions are these ([reflexivity]) and that its accesses obey the laws. *)
From S2P Require Export BookView.

Class BookOps (B A : Type) := {
  ONode : Type;
  LNode : Type;
  on_data : ONode → A;
  on_prev : ONode → option Z;
  on_next : ONode → option Z;
  ln_side : LNode → Side;
  ln_price : LNode → Z;
  ln_first : LNode → option Z;
  ln_prev : LNode → option Z;
  ln_next : LNode → option Z;
  op_get_order : option Z → M B ONode;
  op_put_oprev : option Z → option Z → M B unit;
  op_put_onext : option Z → option Z → M B unit;
  op_get_level : option Z → M B LNode;
  op_put_lfirst : option Z → option Z → M B unit;
  op_put_lprev : option Z → option Z → M B unit;
  op_put_lnext : option Z → option Z → M B unit;
  op_get_best : Side → M B (option Z);
  op_set_best : Side → option Z → M B unit;
  op_level_at : Z → M B (option Z);
  op_level_assign : Z → option Z → M B unit;
  op_key_assign : ONode → option Z → M B unit;
  op_free_order : Z → M B unit;
  op_free_level : Z → M B unit;
  op_new_level : Side → Z → option Z → M B (option Z);
  op_link_level : option Z → M B unit;
}.

Section programs.
Context {B A K : Type} `{!BookOps B A, !OrderData A K}.

Definition heap_removeOrdersAtPrice (side : Side) (price : Z) : M B unit :=
  best_orders_by_price ← op_get_best side;
  orders_at_price ← op_level_at price;
  l ← op_get_level orders_at_price;
  _ ← (if decide (ln_next l = orders_at_price)
       then op_set_best side None
       else
         _ ← op_put_lnext (ln_prev l) (ln_next l);
         l ← op_get_level orders_at_price;
         _ ← op_put_lprev (ln_next l) (ln_prev l);
         _ ← (if decide (orders_at_price = best_orders_by_price)
              then
                l ← op_get_level orders_at_price;
                op_set_best side (ln_next l)
              else mret tt);
         _ ← op_put_lnext orders_at_price None;
         op_put_lprev orders_at_price None);
  _ ← op_level_assign price None;
  i ← deref orders_at_price;
  op_free_level i.

Definition heap_removeOrder (order : option Z) : M B unit :=
  o ← op_get_order order;
  orders_at_price ← op_level_at (od_price (on_data o));
  _ ← (if decide (on_prev o = order)
       then heap_removeOrdersAtPrice (od_side (on_data o)) (od_price (on_data o))
       else
         let order_before := on_prev o in
         let order_after := on_next o in
         _ ← op_put_onext order_before order_after;
         _ ← op_put_oprev order_after order_before;
         l ← op_get_level orders_at_price;
         _ ← (if decide (ln_first l = order)
              then op_put_lfirst orders_at_price order_after
              else mret tt);
         _ ← op_put_onext order None;
         op_put_oprev order None);
  o ← op_get_order order;
  _ ← op_key_assign o None;
  i ← deref order;
  op_free_order i.

Definition heap_addOrder (order : option Z) : M B unit :=
  o ← op_get_order order;
  orders_at_price ← op_level_at (od_price (on_data o));
  _ ← (match orders_at_price with
       | None =>
         _ ← op_put_oprev order order;
         _ ← op_put_onext order order;
         new_orders_at_price ← op_new_level (od_side (on_data o)) (od_price (on_data o)) order;
         op_link_level new_orders_at_price
       | Some _ =>
         l ← op_get_level orders_at_price;
         let first_order := ln_first l in
         f ← op_get_order first_order;
         _ ← op_put_onext (on_prev f) order;
         f ← op_get_order first_order;
         _ ← op_put_oprev order (on_prev f);
         _ ← op_put_onext order first_order;
         op_put_oprev first_order order
       end);
  o ← op_get_order order;
  op_key_assign o order.
End programs.

(** ** The invariant *)
Section invariant.
Context {A K : Type} `{!EqDecision K, !OrderData A K} (index : Z → Z) (order_ok : A → Prop).
Implicit Types (V : view A K) (L : layout).

Record vinv V L : Prop := {
  vi_wf : wf index V L;
  vi_olive : ∀ o, v_olive V o = true → 0 ≤ o < ME_MAX_ORDER_IDS;
  vi_llive : ∀ p, v_llive V p = true → 0 ≤ p < ME_MAX_PRICE_LEVELS;
  vi_orders : ∀ o, v_olive V o = true → order_ok (v_data V o);
}.

#[export] Instance vinv_proper : Proper ((≡) ==> (=) ==> impl) vinv.
Proof.
  intros V V' HV L _ <- [H1 H2 H3 H4]. split.
  - by rewrite <- HV.
  - intros o Ho. apply H2. by rewrite (va_olive _ _ HV).
  - intros o Ho. apply H3. by rewrite (va_llive _ _ HV).
  - intros o Ho. rewrite <- (va_olive _ _ HV) in Ho.
    destruct (va_order _ _ HV o Ho) as (<- & _). by apply H4.
Qed.

(** The steps of a view that only take nodes out of use keep the three last conditions. *)
Lemma vinv_shrink V V' L L' :
  vinv V L → wf index V' L' →
  (∀ o, v_olive V' o = true → v_olive V o = true ∧ order_ok (v_data V' o)) →
  (∀ p, v_llive V' p = true → v_llive V p = true) → vinv V' L'.
Proof.
  intros [H1 H2 H3 H4] Hwf Ho Hl. split; [done| | |].
  - intros o Hin. by apply H2, Ho.
  - intros o Hin. by apply H3, Hl.
  - intros o Hin. by apply Ho.
Qed.

(** A heap without nodes in use. *)
Lemma vinv_empty V :
  (∀ s, v_best V s = None) → (∀ o, v_olive V o = false) → (∀ p, v_llive V p = false) →
  (∀ i, v_pmap V i = None) → (∀ k, v_omap V k = None) → vinv V (λ _, []).
Proof.
  intros Hb Ho Hl Hp Hk. split.
  - split.
    + intros s; split; simpl; try done; try apply NoDup_nil_2; try apply SSorted_nil;
        by intros ? ? ?%not_elem_of_nil.
    + intros p. rewrite Hl. split; [done|]. intros [? H]. by apply not_elem_of_nil in H.
    + intros p. rewrite Ho. split; [done|]. intros [? H]. by apply not_elem_of_nil in H.
    + intros i p. rewrite Hl, Hp. by split; [|intros []].
    + intros i p. rewrite Ho, Hk. by split; [|intros []].
  - intros o. by rewrite Ho.
  - intros o. by rewrite Hl.
  - intros o. by rewrite Ho.
Qed.

(** What the layout says of an order and its level. *)
Lemma order_facts V L s l1 p os1 o os2 l2 :
  vinv V L → L s = l1 ++ (p, os1 ++ o :: os2) :: l2 →
  ∃ x z, v_onext V o = Some x ∧ v_oprev V o = Some z ∧ (z = o ↔ os1 ++ os2 = []) ∧
    od_side (v_data V o) = to_side s ∧ od_price (v_data V o) = v_lprice V p ∧
    v_pmap V (index (v_lprice V p)) = Some p ∧ v_llive V p = true ∧
    v_olive V o = true ∧ v_lfirst V p = head (os1 ++ o :: os2) ∧ o ∉ os1 ∧
    (os1 = [] → os2 ≠ [] → head os2 = Some x).
Proof.
  intros Hinv HL. pose proof (vi_wf _ _ Hinv) as Hwf.
  assert ((p, os1 ++ o :: os2) ∈ L s) as Hlev by (rewrite HL; apply focus_elem).
  pose proof (wf_level _ _ _ _ _ _ Hwf Hlev) as Hlw.
  destruct (wf_level_live _ _ _ _ _ _ Hwf Hlev) as [Hpl Hpm].
  assert (o ∈ os1 ++ o :: os2) as Hoin by (apply elem_of_insert; auto).
  destruct (ring_elem _ _ _ _ (lw_ring _ _ _ _ Hlw) Hoin) as (x & z & Hx & Hz & Hxin & Hzin & _).
  destruct (lw_orders _ _ _ _ Hlw o Hoin) as [Hs Hp].
  pose proof (sw_orders _ _ _ (wf_sides _ _ _ Hwf s)) as Hnd. rewrite HL in Hnd.
  apply ords_focus_NoDup in Hnd as [Hnd _].
  exists x, z. split_and!; try done.
  - rewrite <- (ring_prev_self _ _ _ _ _ Hnd (lw_ring _ _ _ _ Hlw)). split; congruence.
  - eapply wf_order_live; [done|]. apply ords_elem. eauto.
  - apply (lw_first _ _ _ _ Hlw).
  - by apply NoDup_app_cons_inv in Hnd as (? & _).
  - intros -> Hne. pose proof (lw_ring _ _ _ _ Hlw) as Hr. destruct os2 as [|y os2']; [done|].
    apply ring_next in Hr as [? _]. simpl. congruence.
Qed.
End invariant.
Arguments vi_wf {A K _ index order_ok} V L _.
Arguments vi_olive {A K _ index order_ok} V L _.
Arguments vi_llive {A K _ index order_ok} V L _.
Arguments vi_orders {A K _ index order_ok} V L _.
Arguments vinv_shrink {A K _ index order_ok} V V' L L'.
Arguments order_facts {A K _ index order_ok} V L s l1 p os1 o os2 l2.

(** Equality of two views given by writes to the same view. *)
Ltac view_ext_tac :=
  apply view_ext; simpl; intros; unfold insert, fn_insert; repeat case_decide; subst;
  split_and?; try done; try congruence.

(** ** The place of a new level *)
Section place.
Context {A K : Type} (index : Z → Z) (W : view A K) (s : bool) (px : Z) (ls : list Z) (p : Z).

(** The level [p] of price [px] is to be linked into the levels [ls] of side [s]. *)
Record linkable : Prop := {
  lk_ring : ring (v_lnext W) (v_lprev W) ls;
  lk_nodup : NoDup ls;
  lk_live : ∀ q, q ∈ ls → v_llive W q = true;
  lk_best : v_best W s = head ls;
  lk_sorted : StronglySorted (better s) (v_lprice W <$> ls);
  lk_fresh : ∀ q, q ∈ ls → v_lprice W q ≠ px;
  lk_new : p ∉ ls;
  lk_side : v_lside W p = to_side s;
  lk_price : v_lprice W p = px;
}.
(** It goes between [l1] and [l2], with neighbours [z] and [x]. *)
Definition placed (l1 l2 : list Z) (z x : Z) : Prop :=
  ls = l1 ++ l2 ∧
  match l2 ++ l1 with [] => z = p ∧ x = p | y :: _ => x = y ∧ v_lprev W y = Some z end ∧
  (∀ q, q ∈ l1 → better s (v_lprice W q) px) ∧
  (∀ q, q ∈ l2 → better s px (v_lprice W q)).
Definition level_linked (l1 l2 : list Z) (z x : Z) : view A K :=
  vs_best s (head (l1 ++ p :: l2)) (vs_lprev x (Some p) (vs_lnext z (Some p)
    (vs_lprev p (Some z) (vs_lnext p (Some x) (vs_pmap (index px) (Some p) W))))).

Context (Hlk : linkable).
Lemma not_better_lt q : q ∈ ls → ¬ better s px (v_lprice W q) → better s (v_lprice W q) px.
Proof. intros Hq. pose proof (lk_fresh Hlk q Hq). destruct s; simpl; lia. Qed.
Lemma placed_before pre t suf :
  ls = pre ++ t :: suf → (∀ q, q ∈ pre → ¬ better s px (v_lprice W q)) →
  better s px (v_lprice W t) →
  ∃ z, v_lprev W t = Some z ∧ z ∈ ls ∧ placed pre (t :: suf) z t.
Proof.
  intros Hls Hpre Hbt.
  assert (t ∈ ls) as Ht by (rewrite Hls; apply elem_of_insert; auto).
  destruct (ring_elem _ _ _ _ (lk_ring Hlk) Ht) as (_ & z & _ & Hz & _ & Hzin & _).
  exists z. split_and!; [done..|]. split_and!; try done.
  - intros q Hq. apply not_better_lt; [|auto]. rewrite Hls. apply elem_of_app. auto.
  - pose proof (lk_sorted Hlk) as Hsorted. rewrite Hls, fmap_app, fmap_cons in Hsorted.
    apply StronglySorted_app in Hsorted as (_ & _ & [Hs _]%StronglySorted_cons).
    intros q [->|Hq]%elem_of_cons; [done|]. rewrite Forall_fmap, Forall_forall in Hs.
    specialize (Hs q Hq). simpl in Hs. destruct s; simpl in *; lia.
Qed.
Lemma placed_after pre t :
  ls = pre ++ [t] → (∀ q, q ∈ pre → ¬ better s px (v_lprice W q)) →
  ¬ better s px (v_lprice W t) →
  ∃ x, v_lnext W t = Some x ∧ x ∈ ls ∧ head ls = Some x ∧ placed ls [] t x.
Proof.
  intros Hls Hpre Hbt.
  assert (t ∈ ls) as Ht by (rewrite Hls; apply elem_of_insert; auto).
  assert (∃ x, head ls = Some x ∧ v_lnext W t = Some x ∧ v_lprev W x = Some t)
    as (x & Hh & Hx & Hxt).
  { pose proof (lk_ring Hlk) as Hr. rewrite Hls in Hr. rewrite (ring_next_head _ _ _ _ _ Hr), Hls.
    destruct pre as [|x pre]; simpl.
    - exists t. split_and!; try done. by rewrite (ring_prev_last _ _ [] t [] Hr).
    - exists x. split_and!; try done.
      destruct (ring_prev _ _ _ _ Hr) as (z & Hl & -> & _).
      by rewrite app_comm_cons, last_snoc in Hl. }
  exists x. split_and!; try done.
  - apply head_Some in Hh as [l ->]. left.
  - split_and!; [by rewrite app_nil_r| | |by intros q ?%not_elem_of_nil].
    + simpl. destruct ls as [|y l]; simpl in *; by simplify_eq.
    + intros q Hq. apply not_better_lt; [done|]. rewrite Hls in Hq.
      apply elem_of_app in Hq as [?| ->%list_elem_of_singleton]; auto.
Qed.
End place.

(** The layout without the order [o] of the level [(p, os1 ++ o :: os2)]. *)
Definition without (l1 : list (Z * list Z)) (p : Z) (os : list Z) (l2 : list (Z * list Z)) :
    list (Z * list Z) :=
  l1 ++ (if decide (os = []) then l2 else (p, os) :: l2).
Lemma without_lvls l1 p os l2 q : q ∈ lvls (without l1 p os l2) → q ∈ lvls (l1 ++ (p, os) :: l2).
Proof.
  unfold without. rewrite lvls_focus_elem. case_decide; [auto|]. rewrite lvls_focus_elem. auto.
Qed.
Lemma without_ords l1 p os l2 : ords (without l1 p os l2) = ords (l1 ++ (p, os) :: l2).
Proof. unfold without. case_decide as E; [|done]. rewrite E. by autorewrite with lay. Qed.

(** A view whose nodes in use, and their data, are among those of another. *)
Definition shrinks {A K} (V V' : view A K) : Prop :=
  (∀ w, v_olive V' w = true → v_olive V w = true) ∧
  (∀ q, v_llive V' q = true → v_llive V q = true ∧ v_lprice V' q = v_lprice V q).
#[export] Instance shrinks_preorder {A K} : PreOrder (shrinks (A := A) (K := K)).
Proof.
  split; [by split|]. intros V1 V2 V3 [H1 H2] [H3 H4]. split; [auto|].
  intros q [Hq Ep]%H4. apply H2 in Hq as [? ?]. split; [done|congruence].
Qed.

(** ** The laws of the accesses *)
(** [heap_is b V n]: the heap of [b] is [V], and [n] stands for the counters of the book and its
    pools; [level_slot] is the slot the level pool hands out next. *)
Class BookLaws (B A K N : Type) `{!BookOps B A, !OrderData A K, !EqDecision K} (index : Z → Z)
    (order_ok : A → Prop) := {
  heap_is : B → view A K → N → Prop;
  level_slot : N → Z;
  next_level_slot : N → N;
  law_get_order b V n i (Φ : ONode → B → Prop) :
    heap_is b V n →
    (∀ x, on_data x = v_data V i → on_prev x = v_oprev V i → on_next x = v_onext V i → Φ x b) →
    wp (op_get_order (Some i)) b Φ;
  law_get_level b V n p (Φ : LNode → B → Prop) :
    heap_is b V n →
    (∀ x, ln_side x = v_lside V p → ln_price x = v_lprice V p → ln_first x = v_lfirst V p →
       ln_prev x = v_lprev V p → ln_next x = v_lnext V p → Φ x b) →
    wp (op_get_level (Some p)) b Φ;
  law_get_best b V n s (Φ : option Z → B → Prop) :
    heap_is b V n → Φ (v_best V s) b → wp (op_get_best (to_side s)) b Φ;
  law_level_at b V n price (Φ : option Z → B → Prop) :
    heap_is b V n → Φ (v_pmap V (index price)) b → wp (op_level_at price) b Φ;
  law_put_onext b V n i v (Φ : unit → B → Prop) :
    heap_is b V n → (∀ b', heap_is b' (vs_onext i v V) n → Φ tt b') → wp (op_put_onext (Some i) v) b Φ;
  law_put_oprev b V n i v (Φ : unit → B → Prop) :
    heap_is b V n → (∀ b', heap_is b' (vs_oprev i v V) n → Φ tt b') → wp (op_put_oprev (Some i) v) b Φ;
  law_put_lfirst b V n i v (Φ : unit → B → Prop) :
    heap_is b V n → (∀ b', heap_is b' (vs_lfirst i v V) n → Φ tt b') → wp (op_put_lfirst (Some i) v) b Φ;
  law_put_lprev b V n i v (Φ : unit → B → Prop) :
    heap_is b V n → (∀ b', heap_is b' (vs_lprev i v V) n → Φ tt b') → wp (op_put_lprev (Some i) v) b Φ;
  law_put_lnext b V n i v (Φ : unit → B → Prop) :
    heap_is b V n → (∀ b', heap_is b' (vs_lnext i v V) n → Φ tt b') → wp (op_put_lnext (Some i) v) b Φ;
  law_set_best b V n s p (Φ : unit → B → Prop) :
    heap_is b V n → (∀ b', heap_is b' (vs_best s p V) n → Φ tt b') → wp (op_set_best (to_side s) p) b Φ;
  law_level_assign b V n price p (Φ : unit → B → Prop) :
    heap_is b V n → (∀ b', heap_is b' (vs_pmap (index price) p V) n → Φ tt b') →
    wp (op_level_assign price p) b Φ;
  law_key_assign b V n x p (Φ : unit → B → Prop) :
    heap_is b V n → order_ok (on_data x) →
    (∀ b', heap_is b' (vs_omap (od_key (on_data x)) p V) n → Φ tt b') →
    wp (op_key_assign x p) b Φ;
  law_free_order b V n i (Φ : unit → B → Prop) :
    heap_is b V n → 0 ≤ i < ME_MAX_ORDER_IDS →
    (∀ b', heap_is b' (vs_olive i false V) n → Φ tt b') → wp (op_free_order i) b Φ;
  law_free_level b V n i (Φ : unit → B → Prop) :
    heap_is b V n → 0 ≤ i < ME_MAX_PRICE_LEVELS →
    (∀ b', heap_is b' (vs_llive i false V) n → Φ tt b') → wp (op_free_level i) b Φ;
  law_new_level b V n i side price first (Φ : option Z → B → Prop) :
    heap_is b V n → level_slot n = i → v_llive V i = false →
    (∀ b', heap_is b' (vs_level i side price first V) (next_level_slot n) → Φ (Some i) b') →
    wp (op_new_level side price first) b Φ;
  law_link_level b W n s px ls p :
    heap_is b W n → linkable W s px ls p →
    wp (op_link_level (Some p)) b (λ _ b', ∃ l1 l2 z x,
      placed W s px ls p l1 l2 z x ∧ heap_is b' (level_linked index W s px p l1 l2 z x) n);
}.

(** The assignment to the key map of an order whose data is known. *)
Ltac key_assign :=
  lazymatch goal with H : on_data ?x = _ |- wp (op_key_assign ?x _) _ _ =>
    simpl in H; rewrite ?fn_lookup_insert in H;
    eapply law_key_assign; [eassumption|rewrite H; try done|rewrite H; intros ? ?]
  end.
(** [hps] runs a member function up to the next conditional, keeping track of the view. *)
Ltac hps_rule :=
  lazymatch goal with
  | |- wp (mret _) _ _ => apply wp_ret
  | |- wp (deref (Some _)) _ _ => apply wp_deref
  | |- wp (op_get_order (Some _)) _ _ =>
    let x := fresh "node" in let E1 := fresh in let E2 := fresh in let E3 := fresh in
    eapply law_get_order; [eassumption|intros x E1 E2 E3; rewrite ?E1, ?E2, ?E3; clear E2 E3]
  | |- wp (op_get_level (Some _)) _ _ =>
    let x := fresh "node" in let E1 := fresh in let E2 := fresh in let E3 := fresh in
    let E4 := fresh in let E5 := fresh in
    eapply law_get_level; [eassumption|intros x E1 E2 E3 E4 E5; rewrite ?E1, ?E2, ?E3, ?E4, ?E5; clear x E1 E2 E3 E4 E5]
  | |- wp (op_get_best (to_side _)) _ _ => eapply law_get_best; [eassumption|]
  | |- wp (op_level_at _) _ _ => eapply law_level_at; [eassumption|]
  | |- wp (op_put_onext (Some _) _) _ _ => eapply law_put_onext; [eassumption|intros ? ?]
  | |- wp (op_put_oprev (Some _) _) _ _ => eapply law_put_oprev; [eassumption|intros ? ?]
  | |- wp (op_put_lfirst (Some _) _) _ _ => eapply law_put_lfirst; [eassumption|intros ? ?]
  | |- wp (op_put_lprev (Some _) _) _ _ => eapply law_put_lprev; [eassumption|intros ? ?]
  | |- wp (op_put_lnext (Some _) _) _ _ => eapply law_put_lnext; [eassumption|intros ? ?]
  | |- wp (op_set_best (to_side _) _) _ _ => eapply law_set_best; [eassumption|intros ? ?]
  | |- wp (op_level_assign _ _) _ _ => eapply law_level_assign; [eassumption|intros ? ?]
  end.
Ltac hps :=
  repeat (lazymatch goal with
    | |- wp (_ ≫= _) _ _ => apply wp_bind
    | _ => hps_rule
    end; cbn -[wp to_side op_get_order op_get_level op_get_best op_level_at op_put_onext op_put_oprev
      op_put_lfirst op_put_lprev op_put_lnext op_set_best op_level_assign op_key_assign op_free_order
      op_free_level op_new_level op_link_level deref insert]).

Section laws.
Context {B A K N : Type} `{!BookOps B A, !OrderData A K, !EqDecision K} (index : Z → Z)
  (order_ok : A → Prop) `{!BookLaws B A K N index order_ok}.
Implicit Types (b : B) (V : view A K) (L : layout) (n : N).
#[local] Abbreviation vinv := (vinv index order_ok).

Lemma heap_is_eq b V V' n : heap_is b V n → V = V' → heap_is b V' n.
Proof. by intros ? <-. Qed.

(** ** Removing an order *)
Lemma heap_removeOrder_many b L V n s l1 p os1 o os2 l2 :
  heap_is b V n → vinv V L → L s = l1 ++ (p, os1 ++ o :: os2) :: l2 → os1 ++ os2 ≠ [] →
  wp (heap_removeOrder (Some o)) b (λ _ b', ∃ V', heap_is b' V' n ∧
    (∀ w, v_data V' w = v_data V w) ∧ (∀ q, v_lprice V' q = v_lprice V q) ∧
    vinv V' (<[s := l1 ++ (p, os1 ++ os2) :: l2]> L)).
Proof.
  intros Hb Hinv HL Hne.
  destruct (order_facts V L s l1 p os1 o os2 l2 Hinv HL)
    as (x & z & Hx & Hz & Hzo & Hs & Hp & Hpm & Hpl & Ho & Hf & Hn & Hh).
  unfold heap_removeOrder. hps. rewrite decide_False by (rewrite Hz; intros ?; simplify_eq; tauto).
  rewrite Hx, Hz, Hp, Hpm. hps.
  apply (wp_mono _ _ (λ _ b1, heap_is b1 (vs_lfirst p (head (os1 ++ os2))
    (vs_oprev x (Some z) (vs_onext z (Some x) V))) n)).
  { rewrite Hf. case_decide as Hd; hps.
    - destruct os1 as [|y os1']; simpl in *.
      + by rewrite Hh.
      + simplify_eq. exfalso. apply Hn, list_elem_of_here.
    - destruct os1 as [|y os1']; simpl in *; [done|]. by rewrite vs_lfirst_id. }
  intros _ b1 Hb1. hps. pose proof (vi_orders _ _ Hinv o Ho) as Hr.
  key_assign. hps.
  eapply law_free_order; [eassumption|by apply (vi_olive _ _ Hinv)|]. intros b3 Hb3.
  eexists. split; [exact Hb3|]. split_and!; [done..|].
  eapply vinv_proper; [|reflexivity|].
  2:{ eapply vinv_shrink; [apply Hinv|
      apply (wf_unlink_order _ _ _ s l1 p os1 o os2 l2 z x (vi_wf _ _ Hinv)); done| |done].
    simpl. intros w. unfold insert, fn_insert. case_decide; [done|]. intros Hw.
    split; [done|]. by apply (vi_orders _ _ Hinv). }
  split; simpl; try done. intros w. unfold insert, fn_insert. case_decide; [done|].
  intros _. repeat case_decide; done.
Qed.

Lemma heap_removeOrdersAtPrice_ok b L V n s l1 p o l2 :
  heap_is b V n → vinv V L → L s = l1 ++ (p, [o]) :: l2 →
  wp (heap_removeOrdersAtPrice (to_side s) (v_lprice V p)) b (λ _ b', ∃ V' z x, heap_is b' V' n ∧
    v_lprev V p = Some z ∧ v_lnext V p = Some x ∧
    (∀ w, v_data V' w = v_data V w) ∧ (∀ q, v_lprice V' q = v_lprice V q) ∧
    v_omap V' = v_omap V ∧ v_olive V' = v_olive V ∧
    (vs_omap (od_key (v_data V o)) None (vs_olive o false V'))
      ≡ unlink_level index p s z x (head (lvls (l1 ++ l2))) (unlink_order o o o V)).
Proof.
  intros Hb Hinv HL. pose proof (vi_wf _ _ Hinv) as Hwf.
  assert ((p, [o]) ∈ L s) as Hlev by (rewrite HL; apply focus_elem).
  destruct (wf_level_live _ _ _ _ _ _ Hwf Hlev) as [Hpl Hpm].
  pose proof (wf_sides _ _ _ Hwf s) as [HSb HSr HSn _ _ _]. rewrite HL in HSb, HSr, HSn.
  rewrite lvls_app, lvls_cons in HSr, HSn, HSb.
  assert (p ∈ lvls l1 ++ p :: lvls l2) as Hpin by (apply elem_of_insert; auto).
  destruct (ring_elem _ _ _ _ HSr Hpin) as (x & z & Hx & Hz & Hxin & Hzin & _).
  pose proof (ring_next_self _ _ _ _ _ HSn HSr) as Hself.
  pose proof (ring_prev_self _ _ _ _ _ HSn HSr) as Hself'.
  pose proof (vi_llive _ _ Hinv p Hpl) as Hrange.
  apply NoDup_app_cons_inv in HSn as (Hn1 & Hn2 & _).
  unfold heap_removeOrdersAtPrice. hps. rewrite Hpm. hps.
  apply (wp_mono _ _ (λ _ b1, ∃ lp ln, heap_is b1 (vs_lprev p lp (vs_lnext p ln
    (vs_best s (head (lvls (l1 ++ l2))) (vs_lprev x (Some z) (vs_lnext z (Some x) V))))) n)).
  { rewrite lvls_app. case_decide as Hd.
    - apply Hself in Hd as Hnil. rewrite Hnil in *. rewrite Hd in Hx. simplify_eq/=.
      assert (z = x) as -> by (apply app_nil in Hnil as [E1 E2]; rewrite E1, E2 in Hzin;
        by apply list_elem_of_singleton in Hzin).
      hps. exists (Some x), (Some x). eapply heap_is_eq; [done|]. view_ext_tac.
    - assert (p ≠ z) as Hpz.
      { intros <-. by apply Hd, Hself, Hself'. }
      rewrite Hx, Hz. hps. rewrite fn_lookup_insert_ne, Hx, Hz by done. hps.
      apply (wp_mono _ _ (λ _ b1, heap_is b1 (vs_best s (head (lvls l1 ++ lvls l2))
        (vs_lprev x (Some z) (vs_lnext z (Some x) V))) n)).
      { rewrite HSb. case_decide as Hbest; hps.
        - destruct (lvls l1) as [|y ys]; simpl in *; [|simplify_eq; by destruct Hn1; left].
          match goal with H : heap_is _ (vs_best _ _ _) _ |- _ => revert H end.
          rewrite fn_lookup_insert_ne, Hx by done. destruct (lvls l2) as [|y ys].
          { exfalso. by apply Hd, Hself. }
          apply ring_next in HSr as [? _]. by simplify_eq.
        - destruct (lvls l1) as [|y ys]; simpl in *; [done|]. by rewrite vs_best_id. }
      intros _ b1 Hb1. hps. by eexists _, _. }
  intros _ b1 (lp & ln & Hb1). hps.
  eapply law_free_level; [eassumption|done|]. intros b2 Hb2.
  eexists _, z, x. split; [exact Hb2|]. split_and!; try done.
  split; simpl; try done.
  - intros q. unfold insert, fn_insert. case_decide; [done|]. intros _.
    repeat case_decide; subst; done.
  - intros w. unfold insert, fn_insert. case_decide; [done|]. intros _.
    repeat case_decide; subst; done.
Qed.

Lemma heap_removeOrder_one b L V n s l1 p o l2 :
  heap_is b V n → vinv V L → L s = l1 ++ (p, [o]) :: l2 →
  wp (heap_removeOrder (Some o)) b (λ _ b', ∃ V', heap_is b' V' n ∧
    (∀ w, v_data V' w = v_data V w) ∧ (∀ q, v_lprice V' q = v_lprice V q) ∧
    vinv V' (<[s := l1 ++ l2]> L)).
Proof.
  intros Hb Hinv HL. destruct (order_facts V L s l1 p [] o [] l2 Hinv HL)
    as (x & z & Hx & Hz & [_ Hzo] & Hs & Hp & Hpm & Hpl & Ho & _).
  rewrite Hzo in Hz by done.
  unfold heap_removeOrder. hps. rewrite decide_True by done. rewrite Hs, Hp.
  eapply wp_mono; [by apply (heap_removeOrdersAtPrice_ok b L V n s l1 p o l2)|].
  intros _ b1 (V1 & zl & xl & Hb1 & Hzl & Hxl & Hd & Hlp & Hom & Hol & HV). hps. rewrite Hd in *.
  pose proof (vi_orders _ _ Hinv o Ho) as Hr.
  key_assign. hps.
  eapply law_free_order; [eassumption|by apply (vi_olive _ _ Hinv)|]. intros b3 Hb3.
  eexists. split; [exact Hb3|]. split_and!; [done..|].
  eapply vinv_proper; [|reflexivity|].
  2:{ eapply vinv_shrink; [apply Hinv|
      apply (wf_unlink_level _ _ _ s l1 p o l2 zl xl (vi_wf _ _ Hinv)); done| |].
    - simpl. intros w. unfold insert, fn_insert. case_decide; [done|]. intros Hw.
      split; [done|]. by apply (vi_orders _ _ Hinv).
    - simpl. intros w. unfold insert, fn_insert. by case_decide. }
  rewrite <- HV. reflexivity.
Qed.

Lemma heap_removeOrder_ok b L V n s l1 p os1 o os2 l2 :
  heap_is b V n → vinv V L → L s = l1 ++ (p, os1 ++ o :: os2) :: l2 →
  wp (heap_removeOrder (Some o)) b (λ _ b', ∃ V', heap_is b' V' n ∧ shrinks V V' ∧
    (∀ w, v_data V' w = v_data V w) ∧ (∀ q, v_lprice V' q = v_lprice V q) ∧
    vinv V' (<[s := without l1 p (os1 ++ os2) l2]> L)).
Proof.
  intros Hb Hinv HL. eapply (wp_mono _ _ (λ _ b', ∃ V', heap_is b' V' n ∧
    (∀ w, v_data V' w = v_data V w) ∧ (∀ q, v_lprice V' q = v_lprice V q) ∧
    vinv V' (<[s := without l1 p (os1 ++ os2) l2]> L))).
  - unfold without. case_decide as Hos.
    + apply app_nil in Hos as [-> ->]. by apply (heap_removeOrder_one b L V n s l1 p o l2).
    + by apply (heap_removeOrder_many b L V n s l1 p os1 o os2 l2).
  - intros _ b' (V' & Hb' & Hd & Hp & Hinv'). exists V'. split_and!; try done.
    pose proof (vi_wf _ _ Hinv) as Hwf. pose proof (vi_wf _ _ Hinv') as Hwf'. split.
    + intros w [s' Hw]%(wf_olive _ _ _ Hwf'). apply (wf_olive _ _ _ Hwf).
      destruct (decide (s' = s)) as [->|Hne].
      * rewrite fn_lookup_insert, without_ords in Hw. exists s. rewrite HL.
        rewrite ords_focus_elem in Hw |- *. rewrite elem_of_insert. tauto.
      * rewrite fn_lookup_insert_ne in Hw by done. eauto.
    + intros q [s' Hq]%(wf_llive _ _ _ Hwf'). split; [|done]. apply (wf_llive _ _ _ Hwf).
      destruct (decide (s' = s)) as [->|Hne].
      * rewrite fn_lookup_insert in Hq. apply without_lvls in Hq. exists s. rewrite HL.
        by rewrite lvls_focus_elem in Hq |- *.
      * rewrite fn_lookup_insert_ne in Hq by done. eauto.
Qed.

(** ** Adding an order *)
Section add_order.
Context b L V n o (d : A) (Hb : heap_is b (vs_order o d V) n) (Hinv : vinv V L).
Context (s : bool) (Hside : od_side d = to_side s).
Context (Ho : v_olive V o = false) (Hor : 0 ≤ o < ME_MAX_ORDER_IDS) (Hd : order_ok d).
Context (Hkey : v_omap V (od_key d) = None).

Lemma heap_addOrder_push l1 p os l2 :
  L s = l1 ++ (p, os) :: l2 → v_lprice V p = od_price d →
  wp (heap_addOrder (Some o)) b (λ _ b', ∃ V', heap_is b' V' n ∧
    v_data V' = <[o := d]> (v_data V) ∧ v_lprice V' = v_lprice V ∧
    vinv V' (<[s := l1 ++ (p, os ++ [o]) :: l2]> L)).
Proof.
  intros HL Hp. pose proof (vi_wf _ _ Hinv) as Hwf.
  assert ((p, os) ∈ L s) as Hlev by (rewrite HL; apply focus_elem).
  destruct (wf_level_live _ _ _ _ _ _ Hwf Hlev) as [Hpl Hpm].
  pose proof (wf_level _ _ _ _ _ _ Hwf Hlev) as [_ Hf Hne Hr _].
  assert (∀ w, w ∈ os → w ≠ o) as Hwo.
  { intros w Hw ->. rewrite (wf_order_live _ V L s o Hwf) in Ho; [done|].
    apply ords_elem. eauto. }
  destruct os as [|x os']; [done|]. destruct (ring_prev _ _ _ _ Hr) as (z & Hl & Hz & Hzx).
  simpl in Hf. assert (x ≠ o) as Hxo by (apply Hwo; left).
  assert (z ≠ o) as Hzo.
  { apply Hwo. apply last_Some in Hl as [l' ->]. apply elem_of_app. right. left. }
  unfold heap_addOrder. hps. rewrite fn_lookup_insert, <- Hp, Hpm. hps. rewrite Hf. hps.
  rewrite !fn_lookup_insert_ne, Hz by done. hps. key_assign. eexists. split; [eassumption|]. split_and!; [done..|].
  assert (wf index (link_order o d z x V) (<[s := l1 ++ (p, (x :: os') ++ [o]) :: l2]> L))
    as Hwf'.
  { exact (wf_link_order _ V L s l1 p (x :: os') l2 o d z x Hwf HL eq_refl Hl Ho Hside
      (eq_sym Hp) Hkey). }
  assert (∀ W, W = link_order o d z x V → vinv W (<[s := l1 ++ (p, (x :: os') ++ [o]) :: l2]> L))
    as Hgoal.
  { intros W ->. split; [done| | |].
    - intros w. simpl. unfold insert, fn_insert. case_decide; [by subst|apply Hinv].
    - apply (vi_llive _ _ Hinv).
    - intros w. simpl. unfold insert, fn_insert. case_decide; [done|apply Hinv]. }
  apply Hgoal. view_ext_tac.
Qed.

(** The level pool hands out slot [p], and no level has the slot of this price. *)
Lemma heap_addOrder_new p :
  level_slot n = p → v_llive V p = false → 0 ≤ p < ME_MAX_PRICE_LEVELS →
  v_pmap V (index (od_price d)) = None →
  wp (heap_addOrder (Some o)) b (λ _ b', ∃ V' l1 l2, heap_is b' V' (next_level_slot n) ∧
    v_data V' = <[o := d]> (v_data V) ∧ v_lprice V' = <[p := od_price d]> (v_lprice V) ∧
    L s = l1 ++ l2 ∧ (∀ q, q ∈ lvls l1 → better s (v_lprice V q) (od_price d)) ∧
    (∀ q, q ∈ lvls l2 → better s (od_price d) (v_lprice V q)) ∧
    vinv V' (<[s := l1 ++ (p, [o]) :: l2]> L)).
Proof.
  intros Hp Hpl Hpr Hpm. pose proof (vi_wf _ _ Hinv) as Hwf.
  pose proof (wf_sides _ _ _ Hwf s) as [HSb HSr HSn HSs _ _].
  assert (∀ q, q ∈ lvls (L s) → q ≠ p) as Hqp.
  { intros q Hq ->. assert (v_llive V p = true); [|congruence].
    apply (wf_llive _ _ _ Hwf). eauto. }
  unfold heap_addOrder. hps. rewrite !fn_lookup_insert, Hpm. hps.
  eapply law_new_level; [eassumption|exact Hp|done|]. intros b1 Hb1. hps.
  simpl in Hb1. rewrite Hside in Hb1.
  set (W := vs_level _ _ _ _ _) in Hb1.
  assert (∀ q, q ∈ lvls (L s) → v_lnext W q = v_lnext V q ∧ v_lprev W q = v_lprev V q ∧
    v_lprice W q = v_lprice V q ∧ v_llive W q = true) as HW.
  { intros q Hq. pose proof (Hqp q Hq). unfold W. simpl.
    rewrite !fn_lookup_insert_ne by done. split_and!; try done.
    apply (wf_llive _ _ _ Hwf). eauto. }
  assert (v_lprice W <$> lvls (L s) = v_lprice V <$> lvls (L s)) as Hfm.
  { apply list_fmap_ext. intros i q Hq%list_elem_of_lookup_2. apply (HW q Hq). }
  eapply wp_mono.
  { eapply (law_link_level b1 W _ s (od_price d) (lvls (L s)) p Hb1). split.
    - eapply ring_frame; [done|]. intros q Hq. destruct (HW q Hq) as (->&->&_). done.
    - done.
    - intros q Hq. apply (HW q Hq).
    - done.
    - by rewrite Hfm.
    - intros q Hq. destruct (HW q Hq) as (_&_&->&_). intros E.
      assert (v_pmap V (index (v_lprice V q)) = Some q); [|congruence].
      apply (wf_pmap _ _ _ Hwf). split; [|done]. apply (wf_llive _ _ _ Hwf). eauto.
    - intros Hpin. by apply (Hqp p).
    - unfold W. simpl. apply fn_lookup_insert.
    - unfold W. simpl. apply fn_lookup_insert. }
  intros _ b2 (m1 & m2 & z & x & (Hm & Hnb & Hbe1 & Hbe2) & Hb2).
  unfold lvls in Hm. apply fmap_app_inv in Hm as (l1 & l2 & -> & -> & HL).
  fold (lvls l1) in *. fold (lvls l2) in *.
  hps. key_assign.
  assert (∀ q, q ∈ lvls l1 ∨ q ∈ lvls l2 → v_lprice W q = v_lprice V q) as Hpr'.
  { intros q Hq'. apply HW. rewrite HL, lvls_app. by apply elem_of_app. }
  eexists _, l1, l2. split; [eassumption|]. split_and!; [done..| | |].
  { intros q Hin. rewrite <- Hpr' by auto. by apply Hbe1. }
  { intros q Hin. rewrite <- Hpr' by auto. by apply Hbe2. }
  assert (neighbours V p l1 l2 z x) as Hnb'.
  { unfold neighbours. rewrite lvls_app. destruct (lvls l2 ++ lvls l1) as [|y ys] eqn:E; [done|].
    destruct Hnb as [-> <-]. split; [done|]. symmetry. apply HW.
    rewrite HL, lvls_app, (Permutation_app_comm (lvls l1)), E. left. }
  assert (∀ U, U = link_level index p s (od_price d) (Some o) z x
      (head (lvls (l1 ++ (p, [o]) :: l2))) (link_order o d o o V) →
    vinv U (<[s := l1 ++ (p, [o]) :: l2]> L)) as Hgoal.
  { intros U ->. split.
    - apply wf_link_level; try done.
      + intros q Hin. rewrite <- Hpr' by auto. by apply Hbe1.
      + intros q Hin. rewrite <- Hpr' by auto. by apply Hbe2.
    - intros w. simpl. unfold insert, fn_insert. case_decide; [by subst|apply Hinv].
    - intros w. simpl. unfold insert, fn_insert. case_decide; [by subst|apply Hinv].
    - intros w. simpl. unfold insert, fn_insert. case_decide; [done|apply Hinv]. }
  apply Hgoal. rewrite lvls_app, lvls_cons. unfold level_linked, W. view_ext_tac.
Qed.
End add_order.
End laws.
