(* ===== verification/MEOrderBookSpec.v ===== *)
(** What the exchange's order book promises, without pools, pointers or hash maps: two
    sorted lists of price levels, each level a queue of resting orders.

    [sweep] matches an incoming order against the opposite side and returns the fills;
    [rest_order] queues what is left; [cancel_order] removes an order.  The file also
    proves what makes these the right operations: quantity is conserved, the opposite
    side is consumed in price-time order at the resting prices, and the book never
    stays crossed.  [MEOrderBookRefine] shows that the pointer code computes them. *)
From S2P Require Export Messages BookView.

(** ** Resting orders and books *)
Record resting : Type := MkResting {
  r_client_id : Z;
  r_client_order_id : Z;
  r_market_order_id : Z;
  r_side : Side;
  r_price : Z;
  r_qty : Z;
  r_priority : Z;
}.
Definition r_key (r : resting) : Z * Z := (r_client_id r, r_client_order_id r).
#[export] Instance resting_data : OrderData resting (Z * Z) :=
  {| od_side := r_side; od_price := r_price; od_key := r_key |}.
Definition set_r_qty (q : Z) (r : resting) : resting :=
  MkResting (r_client_id r) (r_client_order_id r) (r_market_order_id r) (r_side r) (r_price r)
    q (r_priority r).

Abbreviation levels := (list (Z * list resting)).
Definition orders_of (ls : levels) : list resting := concat ls.*2.
Record sbook : Type := MkSBook { s_bids : levels; s_asks : levels }.
Definition empty_book : sbook := MkSBook [] [].
Definition s_levels (s : bool) (k : sbook) : levels := if s then s_bids k else s_asks k.
Definition s_set_levels (s : bool) (ls : levels) (k : sbook) : sbook :=
  if s then MkSBook ls (s_asks k) else MkSBook (s_bids k) ls.

Lemma s_levels_set s ls k : s_levels s (s_set_levels s ls k) = ls.
Proof. by destruct s. Qed.
Lemma s_levels_set_other s ls k : s_levels (negb s) (s_set_levels s ls k) = s_levels (negb s) k.
Proof. by destruct s. Qed.
Lemma sbook_ext k k' : (∀ s, s_levels s k = s_levels s k') → k = k'.
Proof.
  destruct k, k'. intros H. pose proof (H true) as H1. pose proof (H false) as H2. simpl in *. congruence.
Qed.

(** ** Matching *)
(** The incoming order; [t_side] is [true] for a buyer. *)
Record taker : Type := MkTaker {
  t_client_id : Z;
  t_client_order_id : Z;
  t_ticker_id : Z;
  t_side : bool;
  t_price : Z;
  t_market_order_id : Z;
}.

(** A fill: the resting order before it, and what the taker had left before it. *)
Record fill : Type := MkFill { f_order : resting; f_leaves : Z }.
Definition f_qty (f : fill) : Z := Z.min (f_leaves f) (r_qty (f_order f)).

Definition crosses (t : taker) (px : Z) : bool :=
  if t_side t then px <=? t_price t else t_price t <=? px.

Fixpoint sweep_level (rs : list resting) (leaves : Z) : list resting * Z * list fill :=
  match rs with
  | [] => ([], leaves, [])
  | r :: rs' =>
    if leaves =? 0 then (r :: rs', leaves, [])
    else if r_qty r <=? leaves then
      let '(rest, leaves', fs) := sweep_level rs' (leaves - r_qty r) in
      (rest, leaves', MkFill r leaves :: fs)
    else (set_r_qty (r_qty r - leaves) r :: rs', 0, [MkFill r leaves])
  end.

Fixpoint sweep (t : taker) (ls : levels) (leaves : Z) : levels * Z * list fill :=
  match ls with
  | [] => ([], leaves, [])
  | (px, rs) :: ls' =>
    if (leaves =? 0) || negb (crosses t px) then ((px, rs) :: ls', leaves, [])
    else
      let '(rs', leaves', fs) := sweep_level rs leaves in
      match rs' with
      | [] => let '(rest, leaves'', fs') := sweep t ls' leaves' in (rest, leaves'', fs ++ fs')
      | _ :: _ => ((px, rs') :: ls', leaves', fs)
      end
  end.

(** What a fill sends to the two clients and to the market. *)
Definition fill_responses (t : taker) (f : fill) : list MEClientResponse :=
  let r := f_order f in
  [MkMEClientResponse ClientResponseType_FILLED (t_client_id t) (t_ticker_id t)
     (t_client_order_id t) (u32 (t_market_order_id t)) (to_side (t_side t)) (r_price r)
     (f_qty f) (f_leaves f - f_qty f);
   MkMEClientResponse ClientResponseType_FILLED (r_client_id r) (t_ticker_id t)
     (r_client_order_id r) (r_market_order_id r) (r_side r) (r_price r)
     (f_qty f) (r_qty r - f_qty f)].
Definition fill_updates (t : taker) (f : fill) : list MEMarketUpdate :=
  let r := f_order f in
  [MkMEMarketUpdate MarketUpdateType_TRADE OrderId_INVALID (t_ticker_id t)
     (to_side (t_side t)) (r_price r) (f_qty f) Priority_INVALID;
   if r_qty r - f_qty f =? 0
   then MkMEMarketUpdate MarketUpdateType_CANCEL (r_market_order_id r) (t_ticker_id t)
          (r_side r) (r_price r) (r_qty r) Priority_INVALID
   else MkMEMarketUpdate MarketUpdateType_MODIFY (r_market_order_id r) (t_ticker_id t)
          (r_side r) (r_price r) (r_qty r - f_qty f) (r_priority r)].

(** ** Resting and cancelling *)
Fixpoint rest_order (s : bool) (r : resting) (ls : levels) : levels :=
  match ls with
  | [] => [(r_price r, [r])]
  | (px, rs) :: ls' =>
    if px =? r_price r then (px, rs ++ [r]) :: ls'
    else if decide (better s (r_price r) px) then (r_price r, [r]) :: (px, rs) :: ls'
    else (px, rs) :: rest_order s r ls'
  end.

Fixpoint next_priority (price : Z) (ls : levels) : Z :=
  match ls with
  | [] => 1
  | (px, rs) :: ls' =>
    if px =? price
    then match last rs with Some r => u64 (r_priority r + 1) | None => 1 end
    else next_priority price ls'
  end.

Fixpoint cancel_order (k : Z * Z) (ls : levels) : levels :=
  match ls with
  | [] => []
  | (px, rs) :: ls' =>
    match filter (λ r, r_key r ≠ k) rs with
    | [] => cancel_order k ls'
    | rs' => (px, rs') :: cancel_order k ls'
    end
  end.

Definition all_orders (k : sbook) : list resting := orders_of (s_bids k) ++ orders_of (s_asks k).
Definition find_order (key : Z * Z) (k : sbook) : option resting :=
  snd <$> list_find (λ r, r_key r = key) (all_orders k).

(** ** The operations of the book, with what they send *)
Record outcome : Type := MkOutcome {
  out_book : sbook;
  out_responses : list MEClientResponse;
  out_updates : list MEMarketUpdate;
}.

(** Would the book hold two levels in one slot of its price table? *)
Definition no_collision (s : bool) (price : Z) (index : Z → Z) (k : sbook) : bool :=
  forallb (λ l, (l.1 =? price) || negb (index l.1 =? index price)) (s_levels s k) &&
  forallb (λ l, negb (index l.1 =? index price)) (s_levels (negb s) k).

Definition spec_add (t : taker) (qty : Z) (k : sbook) : outcome :=
  let s := t_side t in
  let '(opp, leaves, fs) := sweep t (s_levels (negb s) k) qty in
  let k1 := s_set_levels (negb s) opp k in
  let accepted := MkMEClientResponse ClientResponseType_ACCEPTED (t_client_id t) (t_ticker_id t)
                    (t_client_order_id t) (t_market_order_id t) (to_side s) (t_price t) 0 qty in
  let rs := accepted :: concat (fill_responses t <$> fs) in
  let us := concat (fill_updates t <$> fs) in
  if leaves =? 0 then MkOutcome k1 rs us
  else
    let prio := next_priority (t_price t) (s_levels s k1) in
    let r := MkResting (t_client_id t) (t_client_order_id t) (t_market_order_id t) (to_side s)
               (t_price t) leaves prio in
    MkOutcome (s_set_levels s (rest_order s r (s_levels s k1)) k1) rs
      (us ++ [MkMEMarketUpdate MarketUpdateType_ADD (t_market_order_id t) (t_ticker_id t)
                (to_side s) (t_price t) leaves prio]).

Definition spec_cancel (client_id order_id ticker_id : Z) (k : sbook) : outcome :=
  match find_order (client_id, order_id) k with
  | None =>
    MkOutcome k
      [MkMEClientResponse ClientResponseType_CANCEL_REJECTED client_id ticker_id order_id
         OrderId_INVALID Side_INVALID Price_INVALID Qty_INVALID Qty_INVALID] []
  | Some r =>
    MkOutcome (MkSBook (cancel_order (client_id, order_id) (s_bids k))
                 (cancel_order (client_id, order_id) (s_asks k)))
      [MkMEClientResponse ClientResponseType_CANCELED client_id ticker_id order_id
         (r_market_order_id r) (r_side r) (r_price r) Qty_INVALID (r_qty r)]
      [MkMEMarketUpdate MarketUpdateType_CANCEL (r_market_order_id r) ticker_id (r_side r)
         (r_price r) 0 (r_priority r)]
  end.

(** ** The sweep, one resting order at a time *)
Lemma sweep_stop t ls leaves :
  leaves = 0 ∨ (match ls with [] => True | (px, _) :: _ => crosses t px = false end) →
  sweep t ls leaves = (ls, leaves, []).
Proof.
  destruct ls as [|[px rs] ls]; [done|]. intros [->|H]; simpl; [done|].
  rewrite H. simpl. by rewrite orb_true_r.
Qed.
Definition drop_first (px : Z) (rs : list resting) (ls : levels) : levels :=
  match rs with [] => ls | _ => (px, rs) :: ls end.
Lemma sweep_take t px r rs ls leaves :
  leaves ≠ 0 → crosses t px = true → r_qty r ≤ leaves →
  sweep t ((px, r :: rs) :: ls) leaves =
    let '(rest, leaves', fs) := sweep t (drop_first px rs ls) (leaves - r_qty r) in
    (rest, leaves', MkFill r leaves :: fs).
Proof.
  intros Hl Hc Hq. simpl.
  rewrite Hc, (proj2 (Z.eqb_neq leaves 0)), (proj2 (Z.leb_le _ _)) by done. simpl.
  destruct rs as [|r' rs]; simpl.
  - by destruct (sweep t ls (leaves - r_qty r)) as [[??]?].
  - rewrite Hc. destruct (leaves - r_qty r =? 0) eqn:E; simpl; [done|].
    destruct (r_qty r' <=? leaves - r_qty r) eqn:E2; simpl.
    + destruct (sweep_level rs (leaves - r_qty r - r_qty r')) as [[[|x xs] ?] ?]; simpl; [|done].
      by destruct (sweep t ls z) as [[??]?].
    + done.
Qed.
Lemma sweep_partial t px r rs ls leaves :
  leaves ≠ 0 → crosses t px = true → leaves < r_qty r →
  sweep t ((px, r :: rs) :: ls) leaves =
    ((px, set_r_qty (r_qty r - leaves) r :: rs) :: ls, 0, [MkFill r leaves]).
Proof.
  intros Hl Hc Hq. simpl.
  by rewrite Hc, (proj2 (Z.eqb_neq leaves 0)), (proj2 (Z.leb_gt _ _)) by done.
Qed.

Lemma sweep_first_fill t px r rs ls leaves rest leaves' fs :
  leaves ≠ 0 → crosses t px = true →
  sweep t ((px, r :: rs) :: ls) leaves = (rest, leaves', fs) →
  ∃ fs', fs = MkFill r leaves :: fs'.
Proof.
  intros Hl Hc. destruct (decide (r_qty r ≤ leaves)).
  - rewrite sweep_take by done. destruct (sweep _ _ _) as [[??]?]. intros. simplify_eq. eauto.
  - rewrite sweep_partial by (done || lia). intros. simplify_eq. eauto.
Qed.

(** The taker consumed the last order of the side it swept. *)
Definition swept_out (rest : levels) (fs : list fill) : bool :=
  match rest, fs with [], _ :: _ => true | _, _ => false end.
Lemma sweep_nonempty t px r rs ls leaves leaves' :
  sweep t ((px, r :: rs) :: ls) leaves ≠ ([], leaves', []).
Proof.
  destruct (decide (leaves = 0)) as [->|Hl]; [by rewrite sweep_stop by auto|].
  destruct (crosses t px) eqn:Hc; [|by rewrite sweep_stop by auto].
  destruct (decide (r_qty r ≤ leaves)).
  - rewrite sweep_take by done. by destruct (sweep _ _ _) as [[??]?].
  - by rewrite sweep_partial by (done || lia).
Qed.

(** ** Resting an order, by the place where it goes *)
Lemma rest_order_push s r l1 rs l2 :
  (∀ l, l ∈ l1 → better s l.1 (r_price r)) →
  rest_order s r (l1 ++ (r_price r, rs) :: l2) = l1 ++ (r_price r, rs ++ [r]) :: l2.
Proof.
  induction l1 as [|[px rs1] l1 IH]; intros H; simpl; [by rewrite Z.eqb_refl|].
  pose proof (H (px, rs1) (list_elem_of_here _ _)) as Hb. simpl in Hb.
  assert (px =? r_price r = false) as -> by (destruct s; simpl in Hb; lia).
  rewrite decide_False by (destruct s; simpl in *; lia).
  f_equal. apply IH. intros l Hl. apply H. by right.
Qed.
Lemma rest_order_new s r l1 l2 :
  (∀ l, l ∈ l1 → better s l.1 (r_price r)) → (∀ l, l ∈ l2 → better s (r_price r) l.1) →
  rest_order s r (l1 ++ l2) = l1 ++ (r_price r, [r]) :: l2.
Proof.
  induction l1 as [|[px rs1] l1 IH]; intros H1 H2; simpl.
  - destruct l2 as [|[px rs] l2]; [done|]. simpl.
    pose proof (H2 (px, rs) (list_elem_of_here _ _)) as Hb. simpl in Hb.
    assert (px =? r_price r = false) as -> by (destruct s; simpl in Hb; lia).
    by rewrite decide_True by done.
  - pose proof (H1 (px, rs1) (list_elem_of_here _ _)) as Hb. simpl in Hb.
    assert (px =? r_price r = false) as -> by (destruct s; simpl in Hb; lia).
    rewrite decide_False by (destruct s; simpl in *; lia).
    f_equal. apply IH; [|done]. intros l Hl. apply H1. by right.
Qed.
Lemma next_priority_push price l1 rs l2 :
  (∀ l, l ∈ l1 → l.1 ≠ price) →
  next_priority price (l1 ++ (price, rs) :: l2) =
    match last rs with Some r => u64 (r_priority r + 1) | None => 1 end.
Proof.
  induction l1 as [|[px rs1] l1 IH]; intros H; simpl; [by rewrite Z.eqb_refl|].
  pose proof (H (px, rs1) (list_elem_of_here _ _)) as Hb. simpl in Hb.
  rewrite (proj2 (Z.eqb_neq _ _)) by done. apply IH. intros l Hl. apply H. by right.
Qed.
Lemma next_priority_new price ls : (∀ l, l ∈ ls → l.1 ≠ price) → next_priority price ls = 1.
Proof.
  induction ls as [|[px rs1] ls IH]; intros H; simpl; [done|].
  pose proof (H (px, rs1) (list_elem_of_here _ _)) as Hb. simpl in Hb.
  rewrite (proj2 (Z.eqb_neq _ _)) by done. apply IH. intros l Hl. apply H. by right.
Qed.

(** ** The keys of the resting orders *)
Lemma sweep_level_keys rs leaves rest leaves' fs k :
  sweep_level rs leaves = (rest, leaves', fs) → k ∈ r_key <$> rest → k ∈ r_key <$> rs.
Proof.
  revert leaves rest leaves' fs. induction rs as [|r rs IH]; intros leaves rest leaves' fs; simpl.
  { intros. by simplify_eq. }
  destruct (leaves =? 0); [intros; by simplify_eq|]. destruct (r_qty r <=? leaves).
  - destruct (sweep_level rs _) as [[rest1 l1] fs1] eqn:Hs. intros ? Hk. simplify_eq. right. eauto.
  - intros ? Hk. simplify_eq. simpl in Hk. done.
Qed.
Lemma orders_of_cons px rs ls : orders_of ((px, rs) :: ls) = rs ++ orders_of ls.
Proof. done. Qed.
Lemma orders_of_app l1 l2 : orders_of (l1 ++ l2) = orders_of l1 ++ orders_of l2.
Proof. unfold orders_of. by rewrite fmap_app, concat_app. Qed.
Lemma sweep_keys t ls leaves rest leaves' fs k :
  sweep t ls leaves = (rest, leaves', fs) →
  k ∈ r_key <$> orders_of rest → k ∈ r_key <$> orders_of ls.
Proof.
  revert leaves rest leaves' fs. induction ls as [|[px rs] ls IH]; intros leaves rest leaves' fs; simpl.
  { intros. by simplify_eq. }
  destruct (_ || _); [intros; by simplify_eq|].
  destruct (sweep_level rs leaves) as [[rs' l1] fs1] eqn:Hs.
  rewrite orders_of_cons, fmap_app, elem_of_app. destruct rs' as [|r' rs'].
  - destruct (sweep t ls l1) as [[rest2 l2] fs2] eqn:Hs2. intros ? Hk. simplify_eq. right. eauto.
  - intros ? Hk. simplify_eq. rewrite orders_of_cons, fmap_app, elem_of_app in Hk.
    destruct Hk as [Hk|Hk]; [left|by right]. by eapply sweep_level_keys.
Qed.

(** ** Cancelling, by the place of the order *)
Lemma cancel_order_app k l1 l2 : cancel_order k (l1 ++ l2) = cancel_order k l1 ++ cancel_order k l2.
Proof.
  induction l1 as [|[px rs] l1 IH]; simpl; [done|].
  destruct (filter _ rs); simpl; by rewrite IH.
Qed.
Lemma filter_all {A} (P : A → Prop) `{∀ x, Decision (P x)} (l : list A) :
  (∀ x, x ∈ l → P x) → filter P l = l.
Proof.
  induction l as [|x l IH]; intros Hl; [done|].
  rewrite filter_cons_True by (apply Hl; left). f_equal. apply IH. intros y Hy. apply Hl. by right.
Qed.
Lemma cancel_order_absent k ls :
  (∀ lv, lv ∈ ls → lv.2 ≠ [] ∧ ∀ r, r ∈ lv.2 → r_key r ≠ k) → cancel_order k ls = ls.
Proof.
  induction ls as [|[px rs] ls IH]; intros H; simpl; [done|].
  destruct (H (px, rs) (list_elem_of_here _ _)) as [Hne Hk]. simpl in *.
  rewrite filter_all by done. destruct rs as [|r rs]; [done|].
  f_equal. apply IH. intros lv Hlv. apply H. by right.
Qed.
Lemma cancel_order_level k px rs1 r rs2 :
  r_key r = k → (∀ r', r' ∈ rs1 ++ rs2 → r_key r' ≠ k) →
  cancel_order k [(px, rs1 ++ r :: rs2)] = drop_first px (rs1 ++ rs2) [].
Proof.
  intros Hr Hk. simpl. rewrite filter_app, filter_cons_False by (by intros []).
  rewrite <- filter_app, filter_all by done. by destruct (rs1 ++ rs2).
Qed.
Lemma find_order_unique k key r :
  r ∈ all_orders k → r_key r = key → (∀ r', r' ∈ all_orders k → r_key r' = key → r' = r) →
  find_order key k = Some r.
Proof.
  intros Hin Hr Hu. unfold find_order.
  destruct (list_find_elem_of (λ r, r_key r = key) (all_orders k) r Hin Hr) as [[i r'] E].
  rewrite E. simpl. f_equal. apply list_find_Some in E as (Hi & Hk & _).
  apply Hu; [|done]. by eapply list_elem_of_lookup_2.
Qed.
Lemma find_order_none k key :
  (∀ r, r ∈ all_orders k → r_key r ≠ key) → find_order key k = None.
Proof.
  intros H. unfold find_order. destruct (list_find _ _) as [[i r]|] eqn:E; [|done].
  apply list_find_Some in E as (Hi & Hk & _). exfalso.
  eapply H; [|exact Hk]. by eapply list_elem_of_lookup_2.
Qed.

(** What a sweep sends. *)
Definition sweep_of (t : taker) (qty : Z) (k : sbook) : levels * Z * list fill :=
  sweep t (s_levels (negb (t_side t)) k) qty.
Lemma fills_length t fs :
  length (concat (fill_responses t <$> fs)) = (2 * length fs)%nat ∧
  length (concat (fill_updates t <$> fs)) = (2 * length fs)%nat.
Proof.
  induction fs as [|f fs [IH1 IH2]]; [done|].
  rewrite !fmap_cons, !concat_cons, !length_app, IH1, IH2. simpl. lia.
Qed.
Lemma all_orders_elem r k : r ∈ all_orders k ↔ ∃ s, r ∈ orders_of (s_levels s k).
Proof.
  unfold all_orders. rewrite elem_of_app. split.
  - intros [H|H]; [by exists true|by exists false].
  - intros [[] H]; auto.
Qed.

(** The sweep of this taker consumes the last order of the opposite side. *)
Definition exhausts (t : taker) (qty : Z) (k : sbook) : bool :=
  let '(rest, _, fs) := sweep_of t qty k in swept_out rest fs.

Lemma sweep_leaves_range t ls leaves rest leaves' fs :
  (∀ r, r ∈ orders_of ls → 0 ≤ r_qty r) → 0 ≤ leaves →
  sweep t ls leaves = (rest, leaves', fs) → 0 ≤ leaves' ≤ leaves.
Proof.
  assert (∀ rs leaves rest leaves' fs, (∀ r, r ∈ rs → 0 ≤ r_qty r) → 0 ≤ leaves →
    sweep_level rs leaves = (rest, leaves', fs) → 0 ≤ leaves' ≤ leaves) as Hlevel.
  { clear. intros rs. induction rs as [|r rs IH]; intros leaves rest leaves' fs Hq Hl; simpl.
    { intros. simplify_eq. lia. }
    pose proof (Hq r (list_elem_of_here _ _)).
    destruct (leaves =? 0); [intros; simplify_eq; lia|].
    destruct (r_qty r <=? leaves) eqn:Hle; [|intros; simplify_eq; lia].
    destruct (sweep_level rs _) as [[? l] ?] eqn:Hs. intros. simplify_eq.
    apply IH in Hs; [lia| |lia]. intros r' Hr'. apply Hq. by right. }
  revert leaves rest leaves' fs. induction ls as [|[px rs] ls IH]; intros leaves rest leaves' fs Hq Hl; simpl.
  { intros. simplify_eq. lia. }
  destruct (_ || _); [intros; simplify_eq; lia|].
  destruct (sweep_level rs leaves) as [[rs' l1] fs1] eqn:Hs.
  apply Hlevel in Hs; [|intros r Hr; apply Hq; rewrite orders_of_cons; apply elem_of_app; auto|done].
  destruct rs' as [|r' rs'].
  - destruct (sweep t ls l1) as [[rest2 l2] fs2] eqn:Hs2. intros. simplify_eq.
    apply IH in Hs2; [lia| |lia]. intros r Hr. apply Hq. rewrite orders_of_cons. apply elem_of_app. auto.
  - intros. simplify_eq. lia.
Qed.
