(* ===== verification/BookAbs.v ===== *)
(** The abstract book a view of the heap represents.

    [abs_book V L] reads the two sorted lists of queues of [MEOrderBookSpec] off a view [V] with layout
    [L].  Adding and removing an order on any heap that obeys [BookLaws] is [rest_order] and
    [cancel_order] on it, and changing a quantity in place is [requantify].  Both order books, the
    exchange's and the client's, get their refinement from here. *)
From S2P Require Export MEOrderBookSpec BookHeap.

(** ** The abstraction *)
Definition absl (V : view resting (Z * Z)) (l : list (Z * list Z)) : levels :=
  (λ l : Z * list Z, (v_lprice V l.1, v_data V <$> l.2)) <$> l.
Definition abs (V : view resting (Z * Z)) (L : layout) (s : bool) : levels := absl V (L s).
Definition abs_book (V : view resting (Z * Z)) (L : layout) : sbook :=
  MkSBook (abs V L true) (abs V L false).

Lemma s_levels_abs V L s : s_levels s (abs_book V L) = abs V L s.
Proof. by destruct s. Qed.
Lemma orders_of_abs V L s : orders_of (abs V L s) = v_data V <$> ords (L s).
Proof.
  unfold orders_of, abs, absl, ords. induction (L s) as [|[p os] l IH]; [done|].
  simpl. rewrite fmap_app. f_equal. exact IH.
Qed.
Lemma absl_frame V V' l :
  (∀ o, o ∈ ords l → v_data V' o = v_data V o) →
  (∀ p, p ∈ lvls l → v_lprice V' p = v_lprice V p) → absl V' l = absl V l.
Proof.
  intros Hd Hp. unfold absl. apply list_fmap_ext.
  intros i [p os] Hin%list_elem_of_lookup_2. simpl. f_equal.
  - apply Hp, lvls_elem. eauto.
  - apply list_fmap_ext. intros j o Ho%list_elem_of_lookup_2. apply Hd, ords_elem. eauto.
Qed.
Lemma absl_app V l1 l2 : absl V (l1 ++ l2) = absl V l1 ++ absl V l2.
Proof. apply fmap_app. Qed.
Lemma absl_price V l lv : lv ∈ absl V l → ∃ p, p ∈ lvls l ∧ lv.1 = v_lprice V p.
Proof.
  unfold absl. intros ([p os] & -> & Hin)%list_elem_of_fmap. exists p.
  split; [|done]. apply lvls_elem. eauto.
Qed.
Lemma abs_book_set V L s :
  abs_book V L = s_set_levels s (abs V L s) (s_set_levels (negb s) (abs V L (negb s)) (abs_book V L)).
Proof. by destruct s. Qed.
Lemma abs_book_eq V L V' L' s :
  abs V' L' (negb s) = abs V L (negb s) →
  abs_book V' L' = s_set_levels s (abs V' L' s) (abs_book V L).
Proof. by destruct s; simpl; intros <-. Qed.

(** The slot of the price is empty, and [slot] is a free level; or it holds the level of this side
    and price. *)
Definition slot_ok (index : Z → Z) (V : view resting (Z * Z)) (L : layout) (slot : Z) (s : bool)
    (price : Z) : Prop :=
  match v_pmap V (index price) with
  | None => v_llive V slot = false
  | Some p => p ∈ lvls (L s) ∧ v_lprice V p = price
  end.

(** The book after a cancel, and after the quantity of an order is replaced. *)
Definition cancel_in_book (key : Z * Z) (k : sbook) : sbook :=
  MkSBook (cancel_order key (s_bids k)) (cancel_order key (s_asks k)).
(** The order with key [key] gets the quantity [q]. *)
Definition requantified (key : Z * Z) (q : Z) (r : resting) : resting :=
  if decide (r_key r = key) then set_r_qty q r else r.
Definition requantify (key : Z * Z) (q : Z) (ls : levels) : levels :=
  (λ l : Z * list resting, (l.1, requantified key q <$> l.2)) <$> ls.
Definition requantify_book (key : Z * Z) (q : Z) (k : sbook) : sbook :=
  MkSBook (requantify key q (s_bids k)) (requantify key q (s_asks k)).

(** ** The shape of a book *)
(** Levels are not empty, hold orders of their side and price, and different orders have different
    keys. *)
Record tidy (k : sbook) : Prop := {
  td_level s px rs : (px, rs) ∈ s_levels s k →
    rs ≠ [] ∧ ∀ r, r ∈ rs → r_side r = to_side s ∧ r_price r = px;
  td_unique r r' : r ∈ all_orders k → r' ∈ all_orders k → r_key r = r_key r' → r = r';
}.
Lemma level_order s px rs r k : (px, rs) ∈ s_levels s k → r ∈ rs → r ∈ all_orders k.
Proof.
  intros (l1 & l2 & E)%list_elem_of_split Hr. apply all_orders_elem. exists s.
  rewrite E, orders_of_app, orders_of_cons, !elem_of_app. auto.
Qed.
Lemma tidy_find k r : tidy k → r ∈ all_orders k → find_order (r_key r) k = Some r.
Proof. intros Hk Hr. apply find_order_unique; [done..|]. intros r' Hr' E. by apply (td_unique _ Hk). Qed.

Section abstraction.
Context {index : Z → Z} {order_ok : resting → Prop}.
#[local] Abbreviation vinv := (BookHeap.vinv index order_ok).
Implicit Types (V : view resting (Z * Z)) (L : layout).
(** The first level of a side. *)
Lemma first_level V L s p os l2 :
  vinv V L → L s = (p, os) :: l2 →
  ∃ o os', os = o :: os' ∧ v_best V s = Some p ∧ v_lfirst V p = Some o ∧
    r_price (v_data V o) = v_lprice V p.
Proof.
  intros Hinv HL. pose proof (vi_wf _ _ Hinv) as Hwf.
  assert ((p, os) ∈ L s) as Hin by (rewrite HL; left).
  pose proof (wf_level _ _ _ _ _ _ Hwf Hin) as [_ Hf Hne _ Ho].
  destruct os as [|o os']; [done|]. exists o, os'. split_and!; try done.
  - rewrite (sw_best _ _ _ (wf_sides _ _ _ Hwf s)), HL. done.
  - by destruct (Ho o (list_elem_of_here _ _)).
Qed.
Lemma no_level V L s : vinv V L → L s = [] → v_best V s = None.
Proof.
  intros Hinv HL. by rewrite (sw_best _ _ _ (wf_sides _ _ _ (vi_wf _ _ Hinv) s)), HL.
Qed.


Section resting.
Context V L (Hinv : vinv V L) (s : bool) (price : Z).
(** The level of the price, in its place. *)
Lemma level_place p :
  p ∈ lvls (L s) → v_lprice V p = price →
  ∃ l1 os l2, L s = l1 ++ (p, os) :: l2 ∧ os ≠ [] ∧
    (∀ lv, lv ∈ absl V l1 → better s lv.1 price) ∧
    absl V (L s) = absl V l1 ++ (price, v_data V <$> os) :: absl V l2.
Proof.
  intros [os Hin]%lvls_elem Hp. pose proof (vi_wf _ _ Hinv) as Hwf.
  pose proof (wf_level _ _ _ _ _ _ Hwf Hin) as Hlw.
  apply list_elem_of_split in Hin as (l1 & l2 & HL). exists l1, os, l2.
  split_and!; [done|apply Hlw| |].
  - intros lv (q & Hq & ->)%absl_price.
    pose proof (sw_sorted _ _ _ (wf_sides _ _ _ Hwf s)) as Hs.
    rewrite HL, lvls_app, lvls_cons, fmap_app, fmap_cons, Hp in Hs.
    apply (StronglySorted_app_1_elem_of _ _ _ _ _ Hs); [|left].
    by apply list_elem_of_fmap_2.
  - rewrite HL, absl_app. by rewrite <- Hp.
Qed.
(** Without a level of the price, no level of the side has it. *)
Lemma no_level_price lv :
  v_pmap V (index price) = None → lv ∈ abs V L s → lv.1 ≠ price.
Proof.
  intros Hpm (q & Hq & ->)%absl_price Heq. pose proof (vi_wf _ _ Hinv) as Hwf.
  apply lvls_elem in Hq as [os Hq].
  destruct (wf_level_live _ _ _ _ _ _ Hwf Hq) as [_ Hq']. congruence.
Qed.

Context (o : Z) (d : resting) (Ho : v_olive V o = false).

(** Adding the data of a fresh order and the price of a fresh level changes no level. *)
Lemma data_fresh (V' : view resting (Z * Z)) s' q os :
  v_data V' = <[o := d]> (v_data V) → (q, os) ∈ L s' → v_data V' <$> os = v_data V <$> os.
Proof.
  intros HV Hin. apply list_fmap_ext. intros i w Hw%list_elem_of_lookup_2.
  rewrite HV, fn_lookup_insert_ne; [done|]. intros <-.
  assert (o ∈ ords (L s')) as Hw' by (apply ords_elem; eauto).
  by rewrite (wf_order_live _ _ _ _ _ (vi_wf _ _ Hinv) Hw') in Ho.
Qed.
Lemma absl_fresh (V' : view resting (Z * Z)) s' l :
  v_data V' = <[o := d]> (v_data V) → (∀ lv, lv ∈ l → lv ∈ L s') →
  (∀ q, q ∈ lvls l → v_lprice V' q = v_lprice V q) → absl V' l = absl V l.
Proof.
  intros HV Hl Hp. apply list_fmap_ext. intros i [q os] Hin%list_elem_of_lookup_2. simpl.
  rewrite (data_fresh V' s' q os HV (Hl _ Hin)). f_equal. apply Hp, lvls_elem. eauto.
Qed.

End resting.

Lemma no_collision_slot V L slot s price :
  vinv V L → v_llive V (slot) = false →
  no_collision s price index (abs_book V L) = true → slot_ok index V L slot s price.
Proof.
  intros Hinv Hls Hnc. unfold slot_ok. pose proof (vi_wf _ _ Hinv) as Hwf.
  destruct (v_pmap V (index price)) as [p|] eqn:Hpm; [|done].
  apply (wf_pmap _ _ _ Hwf) in Hpm as [Hl Hi].
  apply (wf_llive _ _ _ Hwf) in Hl as [s' Hs'].
  apply lvls_elem in Hs' as Hos. destruct Hos as [os Hos].
  assert ((v_lprice V p, v_data V <$> os) ∈ abs V L s') as Hin.
  { unfold abs, absl. apply list_elem_of_fmap. by exists (p, os). }
  unfold no_collision in Hnc. rewrite !s_levels_abs in Hnc.
  apply andb_true_iff in Hnc as [H1 H2]. rewrite forallb_forall in H1, H2.
  destruct (decide (s' = s)) as [->|Hne].
  - split; [done|]. apply list_elem_of_In, H1 in Hin. simpl in Hin. lia.
  - assert (s' = negb s) as -> by by destruct s, s'.
    apply list_elem_of_In, H2 in Hin. simpl in Hin. lia.
Qed.

Lemma key_fresh V L key :
  vinv V L → (∀ r, r ∈ all_orders (abs_book V L) → r_key r ≠ key) → v_omap V key = None.
Proof.
  intros Hinv Hf. destruct (v_omap V key) as [o|] eqn:Ho; [|done].
  apply (wf_omap _ _ _ (vi_wf _ _ Hinv)) in Ho as [Hl Hk].
  apply (wf_olive _ _ _ (vi_wf _ _ Hinv)) in Hl as [s Hs]. exfalso. eapply Hf; [|exact Hk].
  apply all_orders_elem. exists s. rewrite s_levels_abs, orders_of_abs.
  by apply list_elem_of_fmap_2.
Qed.

(** The order map and the resting orders. *)
Lemma omap_find V L key :
  vinv V L → find_order key (abs_book V L) = v_data V <$> v_omap V key.
Proof.
  intros Hinv. pose proof (vi_wf _ _ Hinv) as Hwf.
  assert (∀ r, r ∈ all_orders (abs_book V L) →
    ∃ o, r = v_data V o ∧ v_olive V o = true) as Hall.
  { intros r [s Hr]%all_orders_elem. rewrite s_levels_abs, orders_of_abs in Hr.
    apply list_elem_of_fmap in Hr as (o & -> & Ho). exists o. split; [done|].
    by eapply wf_order_live. }
  destruct (v_omap V key) as [o|] eqn:Ho; simpl.
  - pose proof Ho as Ho'. apply (wf_omap _ _ _ Hwf) in Ho' as [Hl Hk].
    apply find_order_unique; [|done|].
    + apply (wf_olive _ _ _ Hwf) in Hl as [s Hs]. apply all_orders_elem. exists s.
      rewrite s_levels_abs, orders_of_abs. by apply list_elem_of_fmap_2.
    + intros r (o' & -> & Hl')%Hall Hk'.
      assert (v_omap V key = Some o') by (by apply (wf_omap _ _ _ Hwf)). congruence.
  - apply find_order_none. intros r (o' & -> & Hl')%Hall Hk'.
    assert (v_omap V key = Some o') by (by apply (wf_omap _ _ _ Hwf)). congruence.
Qed.

(** Cancelling, level by level. *)
Lemma cancel_absl_absent V L s l key :
  vinv V L → (∀ lv, lv ∈ l → lv ∈ L s) → (∀ o, o ∈ ords l → r_key (v_data V o) ≠ key) →
  cancel_order key (absl V l) = absl V l.
Proof.
  intros Hinv Hl Hk. apply cancel_order_absent.
  intros lv ([p os] & -> & Hin)%list_elem_of_fmap. simpl. split.
  - pose proof (wf_level _ _ _ _ _ _ (vi_wf _ _ Hinv) (Hl _ Hin)) as [_ _ Hne _ _].
    by destruct os.
  - intros r (o & -> & Ho)%list_elem_of_fmap. apply Hk, ords_elem. eauto.
Qed.

Lemma cancel_abs V L V' s l1 p os1 o os2 l2 s' :
  vinv V L → L s = l1 ++ (p, os1 ++ o :: os2) :: l2 →
  (∀ w, v_data V' w = v_data V w) → (∀ q, v_lprice V' q = v_lprice V q) →
  abs V' (<[s := without l1 p (os1 ++ os2) l2]> L) s'
    = cancel_order (r_key (v_data V o)) (abs V L s').
Proof.
  intros Hinv HL Hd Hp. pose proof (vi_wf _ _ Hinv) as Hwf.
  assert (∀ l, absl V' l = absl V l) as Habsl by (intros; by apply absl_frame).
  assert (o ∈ ords (L s)) as Ho.
  { rewrite HL. apply ords_focus_elem. left. apply elem_of_insert. auto. }
  assert (∀ s1 w, w ∈ ords (L s1) → w ≠ o → r_key (v_data V w) ≠ r_key (v_data V o)) as Huniq.
  { intros s1 w Hw Hne Hk. pose proof (wf_order_key _ _ _ _ _ Hwf Hw) as Hkw.
    pose proof (wf_order_key _ _ _ _ _ Hwf Ho) as Hko. simpl in Hkw, Hko. congruence. }
  unfold abs. rewrite Habsl. destruct (decide (s' = s)) as [->|Hne].
  - rewrite fn_lookup_insert.
    pose proof (sw_orders _ _ _ (wf_sides _ _ _ Hwf s)) as Hnd. rewrite HL in Hnd.
    apply ords_focus_NoDup in Hnd as (Hnd1 & Hnd2 & _).
    apply NoDup_app_cons_inv in Hnd1 as (Hn1 & Hn2 & _).
    assert (o ∈ os1 ++ o :: os2) as Hoin by (apply elem_of_insert; auto).
    assert (∀ w, w ∈ ords l1 ∨ w ∈ ords l2 → r_key (v_data V w) ≠ r_key (v_data V o)) as Hother.
    { intros w Hw. assert (w ∈ ords (l1 ++ l2)) as Hw' by (rewrite ords_app; by apply elem_of_app).
      apply (Huniq s); [rewrite HL; apply ords_focus_elem; auto|].
      intros ->. by apply (Hnd2 o). }
    assert (∀ lv, lv ∈ l1 ∨ lv ∈ l2 → lv ∈ L s) as Hsub.
    { intros lv Hlv. rewrite HL. apply elem_of_insert. rewrite elem_of_app. tauto. }
    rewrite HL. unfold without. unfold absl at 2.
    rewrite fmap_app, fmap_cons. fold (absl V l1) (absl V l2). simpl.
    rewrite cancel_order_app, (cons_app _ (absl V l2)), cancel_order_app.
    rewrite (cancel_absl_absent V L s l1), (cancel_absl_absent V L s l2) by auto.
    rewrite fmap_app, fmap_cons, cancel_order_level; [|done|].
    + rewrite absl_app. f_equal. rewrite <- fmap_app.
      case_decide as Hos; [by rewrite Hos|]. by destruct (os1 ++ os2).
    + rewrite <- fmap_app. intros r (w & -> & Hw)%list_elem_of_fmap.
      apply (Huniq s).
      * rewrite HL. apply ords_focus_elem. left. apply elem_of_insert. auto.
      * intros ->. apply elem_of_app in Hw. tauto.
  - rewrite fn_lookup_insert_ne by done. symmetry. eapply cancel_absl_absent; [done|done|].
    intros w Hw. apply (Huniq s'); [done|]. intros ->.
    by apply Hne, (wf_orders_disjoint _ _ _ _ _ _ Hwf Hw).
Qed.

Lemma abs_book_cancel V L V' L' key :
  (∀ s, abs V' L' s = cancel_order key (abs V L s)) →
  abs_book V' L' = cancel_in_book key (abs_book V L).
Proof. intros H. unfold cancel_in_book, abs_book. simpl. by rewrite !H. Qed.

Lemma abs_tidy V L : vinv V L → tidy (abs_book V L).
Proof.
  intros Hinv. pose proof (vi_wf _ _ Hinv) as Hwf. split.
  - intros s px rs. rewrite s_levels_abs. intros ([p os] & [= -> ->] & Hin)%list_elem_of_fmap.
    destruct (wf_level _ _ _ _ _ _ Hwf Hin) as [_ _ Hne _ Ho]. simpl in *. split; [by destruct os|].
    intros r (o & -> & Hin')%list_elem_of_fmap. by apply Ho.
  - intros r r' [s Hr]%all_orders_elem [s' Hr']%all_orders_elem.
    rewrite s_levels_abs, orders_of_abs in Hr, Hr'.
    apply list_elem_of_fmap in Hr as (o & -> & Ho), Hr' as (o' & -> & Ho'). intros Hk.
    pose proof (wf_order_key _ _ _ _ _ Hwf Ho) as H1. pose proof (wf_order_key _ _ _ _ _ Hwf Ho') as H2.
    simpl in H1, H2. congruence.
Qed.

(** ** Changing a quantity *)
Lemma requantify_absl V V' o q l :
  v_data V' = <[o := set_r_qty q (v_data V o)]> (v_data V) → v_lprice V' = v_lprice V →
  (∀ w, w ∈ ords l → r_key (v_data V w) = r_key (v_data V o) → w = o) →
  absl V' l = requantify (r_key (v_data V o)) q (absl V l).
Proof.
  intros Hd Hp Hu. unfold requantify, absl. rewrite <- list_fmap_compose. apply list_fmap_ext.
  intros i [p os] Hin%list_elem_of_lookup_2. simpl. rewrite Hp. f_equal.
  rewrite <- list_fmap_compose. apply list_fmap_ext. intros j w Hw%list_elem_of_lookup_2. simpl.
  rewrite Hd. unfold requantified. case_decide as Hk.
  - rewrite (Hu w) by (apply ords_elem || done; eauto). apply fn_lookup_insert.
  - rewrite fn_lookup_insert_ne; [done|]. by intros ->.
Qed.
Lemma requantify_abs V V' L s o q :
  vinv V L → o ∈ ords (L s) → v_data V' = <[o := set_r_qty q (v_data V o)]> (v_data V) →
  v_lprice V' = v_lprice V →
  abs_book V' L = requantify_book (r_key (v_data V o)) q (abs_book V L).
Proof.
  intros Hinv Ho Hd Hp. pose proof (vi_wf _ _ Hinv) as Hwf.
  assert (∀ s' w, w ∈ ords (L s') → r_key (v_data V w) = r_key (v_data V o) → w = o) as Hu.
  { intros s' w Hw Hk. pose proof (wf_order_key _ _ _ _ _ Hwf Hw) as Hkw.
    pose proof (wf_order_key _ _ _ _ _ Hwf Ho) as Hko. simpl in Hkw, Hko. congruence. }
  unfold abs_book, requantify_book, abs. simpl. by f_equal; apply requantify_absl; eauto.
Qed.
Lemma vinv_requantify V L s o q :
  vinv V L → o ∈ ords (L s) → order_ok (set_r_qty q (v_data V o)) →
  vinv (vs_data o (set_r_qty q (v_data V o)) V) L.
Proof.
  intros Hinv Ho Hq. split; simpl; [|apply Hinv..|].
  - by apply wf_vs_data with s; [apply Hinv|..].
  - intros w Hw. unfold insert, fn_insert. case_decide; [done|by apply Hinv].
Qed.
End abstraction.

(** ** The programs of [BookHeap] on the abstract book *)
Section programs.
Context {B N : Type} `{!BookOps B resting} (index : Z → Z) (order_ok : resting → Prop)
  `{!BookLaws B resting (Z * Z) N index order_ok}.
#[local] Abbreviation vinv := (BookHeap.vinv index order_ok).

Section rest.
Context (b : B) (V : view resting (Z * Z)) (L : layout) (n : N) (Hinv : vinv V L) (s : bool).
Context (o : Z) (d : resting) (Hside : r_side d = to_side s) (Ho : v_olive V o = false).
Context (Hor : 0 ≤ o < ME_MAX_ORDER_IDS) (Hd : order_ok d) (Hkey : v_omap V (r_key d) = None).
Context (Hslot : slot_ok index V L (level_slot n) s (r_price d)).
Context (Hlr : 0 ≤ level_slot n < ME_MAX_PRICE_LEVELS).

(** What [addOrder] of the new node [o] with data [d] leaves. *)
Definition rested b' : Prop := ∃ V' L' n', heap_is b' V' n' ∧ vinv V' L' ∧
  (n' = n ∨ n' = next_level_slot n) ∧
  abs_book V' L' = s_set_levels s (rest_order s d (s_levels s (abs_book V L))) (abs_book V L).

Lemma rested_intro b' V' L' n' :
  heap_is b' V' n' → vinv V' L' → n' = n ∨ n' = next_level_slot n →
  abs V' L' s = rest_order s d (abs V L s) → abs V' L' (negb s) = abs V L (negb s) → rested b'.
Proof.
  intros Hb Hi Hn Hs Ho'. exists V', L', n'. split_and!; try done.
  rewrite (abs_book_eq V L V' L' s) by done. by rewrite Hs, s_levels_abs.
Qed.

Lemma heap_addOrder_rest :
  heap_is b (vs_order o d V) n → wp (heap_addOrder (Some o)) b (λ _ b', rested b').
Proof.
  intros Hb. pose proof Hslot as Hslot'. unfold slot_ok in Hslot'.
  assert (negb s ≠ s) as Hns by by destruct s.
  destruct (v_pmap V (index (r_price d))) as [p|] eqn:Hpm.
  - destruct Hslot' as [Hin Hp].
    destruct (level_place V L Hinv s _ p Hin Hp) as (l1 & os & l2 & HL & _ & Hb1 & Habs).
    eapply wp_mono; [by eapply (heap_addOrder_push index order_ok b L V n o d Hb Hinv s Hside Ho Hor Hd Hkey)|].
    intros _ b' (V' & Hb' & HVd & HVp & Hinv').
    eapply rested_intro; [exact Hb'|exact Hinv'|by left| |]; unfold abs;
      rewrite ?fn_lookup_insert, ?fn_lookup_insert_ne by done.
    + rewrite Habs, rest_order_push by exact Hb1.
      unfold absl at 1. rewrite fmap_app, fmap_cons. fold (absl V' l1) (absl V' l2).
      assert (∀ lv, lv ∈ l1 ∨ lv ∈ l2 → lv ∈ L s) as Hsub.
      { intros lv Hlv. rewrite HL. apply elem_of_insert. rewrite elem_of_app. tauto. }
      rewrite (absl_fresh V L Hinv o d Ho V' s l1 HVd), (absl_fresh V L Hinv o d Ho V' s l2 HVd)
        by (auto || by rewrite HVp).
      simpl. rewrite fmap_app, (data_fresh V L Hinv o d Ho V' s p os HVd) by (rewrite HL; apply focus_elem).
      rewrite HVp, Hp. simpl. by rewrite HVd, fn_lookup_insert.
    + apply (absl_fresh V L Hinv o d Ho V' (negb s)); try done. by rewrite HVp.
  - eapply wp_mono.
    { by eapply (heap_addOrder_new index order_ok b L V n o d Hb Hinv s Hside Ho Hor Hd Hkey _ eq_refl). }
    intros _ b' (V' & l1 & l2 & Hb' & HVd & HVp & HL & Hb1 & Hb2 & Hinv').
    assert (∀ s' q, q ∈ lvls (L s') → v_lprice V' q = v_lprice V q) as Hpf.
    { intros s' q Hq. rewrite HVp, fn_lookup_insert_ne; [done|]. intros <-.
      assert (v_llive V (level_slot n) = true); [|congruence].
      apply (wf_llive _ _ _ (vi_wf _ _ Hinv)). eauto. }
    eapply rested_intro; [exact Hb'|exact Hinv'|by right| |]; unfold abs;
      rewrite ?fn_lookup_insert, ?fn_lookup_insert_ne by done.
    + unfold absl at 1. rewrite fmap_app, fmap_cons. fold (absl V' l1) (absl V' l2).
      assert (∀ lv, lv ∈ l1 ∨ lv ∈ l2 → lv ∈ L s) as Hsub.
      { intros lv Hlv. rewrite HL. by apply elem_of_app. }
      assert (∀ q, q ∈ lvls l1 ∨ q ∈ lvls l2 → q ∈ lvls (L s)) as Hsubl.
      { intros q Hq. rewrite HL, lvls_app. by apply elem_of_app. }
      rewrite (absl_fresh V L Hinv o d Ho V' s l1 HVd), (absl_fresh V L Hinv o d Ho V' s l2 HVd) by eauto.
      rewrite HL, absl_app, rest_order_new.
      * simpl. by rewrite HVp, HVd, !fn_lookup_insert.
      * intros lv (q & Hq & ->)%absl_price. auto.
      * intros lv (q & Hq & ->)%absl_price. auto.
    + apply (absl_fresh V L Hinv o d Ho V' (negb s)); try done. apply Hpf.
Qed.
End rest.

Lemma heap_removeOrder_cancel b V L n o key :
  heap_is b V n → vinv V L → v_omap V key = Some o →
  wp (heap_removeOrder (Some o)) b (λ _ b', ∃ V' L', heap_is b' V' n ∧ vinv V' L' ∧
    abs_book V' L' = cancel_in_book key (abs_book V L)).
Proof.
  intros Hb Hinv Ho. pose proof (vi_wf _ _ Hinv) as Hwf.
  apply (wf_omap _ _ _ Hwf) in Ho as [Hl <-].
  destruct (wf_live_order _ _ _ _ Hwf Hl) as (s & l1 & p & os1 & os2 & l2 & HL).
  eapply wp_mono; [by apply (heap_removeOrder_ok index order_ok b L V n s l1 p os1 o os2 l2)|].
  intros _ b' (V' & Hb' & _ & Hd & Hp & Hinv'). eexists _, _. split_and!; [exact Hb'|exact Hinv'|].
  apply abs_book_cancel. intros s'. by eapply cancel_abs.
Qed.
End programs.
