(* ===== verification/BookText.v ===== *)
(** [toString] of an order book, which me_order_book.cpp and market_order_book.cpp share.

    The function walks the circular lists of a side and of each of its levels, and may check on the
    way that the prices are sorted ([FATAL] if not).  It is written over [BookOps]; over [BookLaws] it
    is shown to print the abstract book. *)
From Stdlib Require Import Ascii.
From S2P Require Export MemPool BookAbs.

(** * Formatting *)

(** [snprintf] into a buffer of 4096 bytes. *)
Definition snprintf (s : string) : string := Stdlib.Strings.String.substring 0 4095 s.
Fixpoint spaces (n : nat) : string :=
  match n with O => EmptyString | S n => String " "%char (spaces n) end.
(** [%3s] and [%-3s]. *)
Definition pad_left (w : nat) (s : string) : string := spaces (w - String.length s) +:+ s.
Definition pad_right (w : nat) (s : string) : string := s +:+ spaces (w - String.length s).

Definition level_header (price prev_price next_price qty num_orders : Z) : string :=
  snprintf (" <px:" +:+ pad_left 3 (priceToString price) +:+ " p:" +:+
            pad_left 3 (priceToString prev_price) +:+ " n:" +:+
            pad_left 3 (priceToString next_price) +:+ "> " +:+
            pad_right 3 (priceToString price) +:+ " @ " +:+ pad_right 5 (qtyToString qty) +:+ "(" +:+
            pad_right 4 (pretty num_orders) +:+ ")")%string.
Definition order_entry (oid qty prev_oid next_oid : Z) : string :=
  snprintf ("[oid:" +:+ orderIdToString oid +:+ " q:" +:+ qtyToString qty +:+ " p:" +:+
            orderIdToString prev_oid +:+ " n:" +:+ orderIdToString next_oid +:+ "] ")%string.
Definition level_prefix (side : Side) (count : Z) : string :=
  (if decide (side = Side_SELL) then "ASKS L:" else "BIDS L:")%string +:+
  pretty count +:+ " => "%string.
Definition book_middle : string :=
  newline +:+ "                          X"%string +:+ newline +:+ newline.

(** * The walks *)
Section programs.
Context {B : Type} `{!BookOps B resting}.

(** The first loop of [printer]: the total quantity (32 bits) and the number of the orders. *)
Fixpoint sum_level (fuel : nat) (first o_itr : option Z) (qty num_orders : Z) : M B (Z * Z) :=
  match fuel with
  | O => raise OutOfFuel
  | S fuel =>
      o ← op_get_order o_itr;
      let qty := u32 (qty + r_qty (on_data o)) in
      let num_orders := u64 (num_orders + 1) in
      if decide (on_next o = first) then mret (qty, num_orders)
      else sum_level fuel first (on_next o) qty num_orders
  end.

Definition order_id_of (p : option Z) : M B Z :=
  match p with
  | None => mret OrderId_INVALID
  | Some _ => o ← op_get_order p; mret (r_market_order_id (on_data o))
  end.

(** The second loop of [printer]. *)
Fixpoint print_level (fuel : nat) (detailed : bool) (first o_itr : option Z) (ss : string) :
    M B string :=
  match fuel with
  | O => raise OutOfFuel
  | S fuel =>
      o ← op_get_order o_itr;
      ss ← (if detailed then
              prev ← order_id_of (on_prev o);
              next ← order_id_of (on_next o);
              mret (ss +:+ order_entry (r_market_order_id (on_data o)) (r_qty (on_data o)) prev next)
            else mret ss);
      if decide (on_next o = first) then mret ss
      else print_level fuel detailed first (on_next o) ss
  end.

Definition heap_printer (fuel : nat) (detailed sanity_check : bool) (itr : option Z) (side : Side)
    (last_price : Z) (ss : string) : M B (string * Z) :=
  l ← op_get_level itr;
  '(qty, num_orders) ← sum_level fuel (ln_first l) (ln_first l) 0 0;
  prev ← op_get_level (ln_prev l);
  next ← op_get_level (ln_next l);
  let ss := ss +:+ level_header (ln_price l) (ln_price prev) (ln_price next) qty num_orders in
  ss ← print_level fuel detailed (ln_first l) (ln_first l) ss;
  let ss := ss +:+ newline in
  if sanity_check then
    if (bool_decide (side = Side_SELL) && (ln_price l <=? last_price)) ||
       (bool_decide (side = Side_BUY) && (last_price <=? ln_price l))
    then FATAL
    else mret (ss, ln_price l)
  else mret (ss, last_price).

Fixpoint print_side (fuel ofuel : nat) (detailed validity_check : bool) (side : Side)
    (best itr : option Z) (count last_price : Z) (ss : string) : M B string :=
  match fuel with
  | O => raise OutOfFuel
  | S fuel =>
      match itr with
      | None => mret ss
      | Some _ =>
          let ss := ss +:+ level_prefix side count in
          l ← op_get_level itr;
          let next_itr := if decide (ln_next l = best) then None else ln_next l in
          '(ss, last_price) ← heap_printer ofuel detailed validity_check itr side last_price ss;
          print_side fuel ofuel detailed validity_check side best next_itr (u64 (count + 1))
            last_price ss
      end
  end.

(** [fuel] and [ofuel] bound the levels of a side and the orders of a level. *)
Definition heap_toString (fuel ofuel : nat) (ticker_id : Z) (detailed validity_check : bool) :
    M B string :=
  let ss := "Ticker:"%string +:+ tickerIdToString ticker_id +:+ newline in
  asks ← op_get_best Side_SELL;
  ss ← print_side fuel ofuel detailed validity_check Side_SELL asks asks 0 Price_MIN ss;
  let ss := ss +:+ book_middle in
  bids ← op_get_best Side_BUY;
  print_side fuel ofuel detailed validity_check Side_BUY bids bids 0 Price_INVALID ss.
End programs.

(** * The text of a book *)

(** The orders of a level; [prev] and [first] are the ids before and after them in the circle. *)
Fixpoint orders_text (detailed : bool) (prev first : Z) (rs : list resting) : string :=
  match rs with
  | [] => EmptyString
  | r :: rs =>
      let next := match rs with [] => first | r' :: _ => r_market_order_id r' end in
      (if detailed then order_entry (r_market_order_id r) (r_qty r) prev next else EmptyString) +:+
      orders_text detailed (r_market_order_id r) first rs
  end.
Definition level_text (detailed : bool) (prev_price next_price : Z) (l : Z * list resting) : string :=
  level_header l.1 prev_price next_price (u32 (zsum r_qty l.2)) (Z.of_nat (length l.2)) +:+
  match l.2, last l.2 with
  | r :: _, Some z =>
      orders_text detailed (r_market_order_id z) (r_market_order_id r) l.2
  | _, _ => EmptyString
  end +:+ newline.
(** The levels of a side from the [count]-th on; [prev] and [first] are the prices before and after
    them in the circle. *)
Fixpoint levels_text (detailed : bool) (side : Side) (count prev first : Z) (ls : levels) : string :=
  match ls with
  | [] => EmptyString
  | l :: ls =>
      let next := match ls with [] => first | l' :: _ => l'.1 end in
      level_prefix side count +:+ level_text detailed prev next l +:+
      levels_text detailed side (count + 1) l.1 first ls
  end.
Definition side_text (detailed : bool) (s : bool) (ls : levels) : string :=
  match ls, last ls with
  | l :: _, Some z => levels_text detailed (to_side s) 0 z.1 l.1 ls
  | _, _ => EmptyString
  end.
Definition book_text (detailed : bool) (ticker_id : Z) (k : sbook) : string :=
  "Ticker:"%string +:+ tickerIdToString ticker_id +:+ newline +:+
  side_text detailed false (s_asks k) +:+ book_middle +:+ side_text detailed true (s_bids k).

(** What the validity check needs of the best prices: the sentinels are strictly worse. *)
Definition best_within (s : bool) (k : sbook) : bool :=
  match s_levels s k with
  | [] => true
  | (px, _) :: _ => bool_decide (better s (if s then Price_INVALID else Price_MIN) px)
  end.

(** * The walks print the book *)

(** The last node of a circle is the one that leads back to the first. *)
Lemma ring_last_iff nxt prv l pre x suf :
  NoDup l → ring nxt prv l → l = pre ++ x :: suf → (nxt x = head l ↔ suf = []).
Proof.
  intros Hnd Hr ->. rewrite (ring_next_head _ _ _ _ _ Hr).
  destruct suf as [|y suf]; simpl; [by destruct pre|].
  split; [|done]. destruct pre as [|z pre]; simpl; intros ?; simplify_eq;
    apply NoDup_cons in Hnd as [Hn _]; exfalso; apply Hn; set_solver.
Qed.
Lemma ring_step nxt prv l pre x y suf :
  ring nxt prv l → l = pre ++ x :: y :: suf → nxt x = Some y ∧ prv y = Some x.
Proof.
  intros Hr ->. assert (nxt x = Some y) as Hn by by rewrite (ring_next_head _ _ _ _ _ Hr).
  split; [done|]. destruct (ring_elem _ _ _ x Hr) as (y' & ? & ? & _ & _ & _ & ? & _);
    [set_solver|congruence].
Qed.

Section walks.
Context {B N : Type} {index : Z → Z} {order_ok : resting → Prop}.
Context `{!BookOps B resting, !BookLaws B resting (Z * Z) N index order_ok}.
Context (b : B) (V : view resting (Z * Z)) (L : layout) (n : N).
Context (Hb : heap_is b V n) (Hinv : vinv index order_ok V L).

Section level.
Context (os : list Z) (Hnd : NoDup os) (Hring : ring (v_onext V) (v_oprev V) os).

Lemma sum_level_ok fuel pre o suf qty num (Φ : Z * Z → B → Prop) :
  os = pre ++ o :: suf → (length suf < fuel)%nat →
  Φ (u32 (qty + zsum r_qty (v_data V <$> o :: suf)), u64 (num + Z.of_nat (length (o :: suf)))) b →
  wp (sum_level fuel (head os) (Some o) qty num) b Φ.
Proof.
  revert pre o suf qty num. induction fuel as [|fuel IH]; intros pre o suf qty num Hos Hf HΦ; [lia|].
  cbn [sum_level]. apply wp_bind. eapply law_get_order; [exact Hb|]. intros x -> _ ->.
  pose proof (ring_last_iff _ _ _ _ _ _ Hnd Hring Hos) as Hlast. case_decide as E.
  - apply Hlast in E as ->. apply wp_ret. simpl in HΦ. unfold zsum in HΦ. simpl in HΦ.
    by rewrite Z.add_0_r in HΦ.
  - destruct suf as [|y suf]; [tauto|].
    destruct (ring_step _ _ _ _ _ _ _ Hring Hos) as [-> _].
    apply (IH (pre ++ [o]) y suf); [by rewrite <- (assoc_L (++))|simpl in *; lia|].
    unfold u32, u64, wrap in *. rewrite Zplus_mod_idemp_l, Zplus_mod_idemp_l.
    rewrite !fmap_cons, !zsum_cons in *. simpl length in *.
    replace (qty + r_qty (v_data V o) + (r_qty (v_data V y) + zsum r_qty (v_data V <$> suf)))
      with (qty + (r_qty (v_data V o) + (r_qty (v_data V y) + zsum r_qty (v_data V <$> suf)))) by lia.
    replace (num + 1 + Z.of_nat (S (length suf))) with (num + Z.of_nat (S (S (length suf)))) by lia.
    done.
Qed.

Definition moid (o : Z) : Z := r_market_order_id (v_data V o).
Lemma order_id_of_ok o (Φ : Z → B → Prop) : Φ (moid o) b → wp (order_id_of (Some o)) b Φ.
Proof.
  intros H. unfold order_id_of. apply wp_bind. eapply law_get_order; [exact Hb|].
  intros x -> _ _. by apply wp_ret.
Qed.
Lemma print_level_ok fuel detailed f pre o suf z ss (Φ : string → B → Prop) :
  head os = Some f → os = pre ++ o :: suf → (length suf < fuel)%nat → v_oprev V o = Some z →
  Φ (ss +:+ orders_text detailed (moid z) (moid f) (v_data V <$> o :: suf)) b →
  wp (print_level fuel detailed (Some f) (Some o) ss) b Φ.
Proof.
  intros Hhead. revert pre o suf z ss.
  induction fuel as [|fuel IH]; intros pre o suf z ss Hos Hf Hz HΦ; [lia|].
  pose proof (ring_last_iff _ _ _ _ _ _ Hnd Hring Hos) as Hlast. rewrite Hhead in Hlast.
  cbn [print_level]. apply wp_bind. eapply law_get_order; [exact Hb|]. intros x -> -> ->.
  assert (∃ y, v_onext V o = Some y ∧ y = match suf with [] => f | y :: _ => y end) as (y & Hy & Ey).
  { destruct suf as [|y suf]; [exists f; split; [by apply Hlast|done]|].
    exists y. by destruct (ring_step _ _ _ _ _ _ _ Hring Hos). }
  rewrite Hz, Hy in *.
  assert (∀ Ψ : string → B → Prop,
    Ψ (ss +:+ (if detailed then order_entry (moid o) (r_qty (v_data V o)) (moid z) (moid y) else "")) b →
    wp (if detailed then prev ← order_id_of (Some z); next ← order_id_of (Some y);
          mret (ss +:+ order_entry (r_market_order_id (v_data V o)) (r_qty (v_data V o)) prev next)
        else mret ss) b Ψ) as Hentry.
  { intros Ψ H. destruct detailed; [|apply wp_ret; by rewrite (right_id_L EmptyString String.append) in H].
    do 2 (apply wp_bind, order_id_of_ok). by apply wp_ret. }
  apply wp_bind, Hentry. case_decide as E.
  - apply Hlast in E as ->. subst y. apply wp_ret. simpl in HΦ.
    by rewrite (right_id_L EmptyString String.append) in HΦ.
  - destruct suf as [|y' suf]; [tauto|]. subst y'.
    destruct (ring_step _ _ _ _ _ _ _ Hring Hos) as [_ Hp].
    apply (IH (pre ++ [o]) y suf o); [by rewrite <- (assoc_L (++))|simpl in *; lia|exact Hp|].
    by rewrite <- (assoc_L String.append).
Qed.
End level.

Lemma level_orders_NoDup s p os : (p, os) ∈ L s → NoDup os.
Proof.
  intros Hin. pose proof (sw_orders _ _ _ (wf_sides _ _ _ (vi_wf _ _ Hinv) s)) as H.
  apply list_elem_of_split in Hin as (l1 & l2 & E). rewrite E in H.
  by apply ords_focus_NoDup in H as [? _].
Qed.

Lemma printer_ok ofuel detailed check s p os z x last ss (Φ : string * Z → B → Prop) :
  (p, os) ∈ L s → (length os ≤ ofuel)%nat → Z.of_nat (length os) < 2 ^ 64 →
  v_lprev V p = Some z → v_lnext V p = Some x →
  (check = true → better s last (v_lprice V p)) →
  Φ (ss +:+ level_text detailed (v_lprice V z) (v_lprice V x) (v_lprice V p, v_data V <$> os),
     if check then v_lprice V p else last) b →
  wp (heap_printer ofuel detailed check (Some p) (to_side s) last ss) b Φ.
Proof.
  intros Hin Hof Hlen Hz Hx Hcheck HΦ. pose proof (vi_wf _ _ Hinv) as Hwf.
  pose proof (wf_level _ _ _ _ _ _ Hwf Hin) as [_ Hfirst Hne Hring _].
  pose proof (level_orders_NoDup _ _ _ Hin) as Hnd.
  destruct os as [|o os]; [done|]. set (all := o :: os) in *.
  destruct (ring_prev _ _ _ _ Hring) as (zo & Hlast & Hzo & _).
  unfold heap_printer. apply wp_bind. eapply law_get_level; [exact Hb|].
  intros node _ -> -> -> ->. rewrite Hfirst, Hz, Hx.
  apply wp_bind. simpl (head all).
  apply (sum_level_ok all Hnd Hring _ [] o os); [done|simpl in Hof; lia|].
  apply wp_bind. eapply law_get_level; [exact Hb|]. intros zn _ -> _ _ _.
  apply wp_bind. eapply law_get_level; [exact Hb|]. intros xn _ -> _ _ _.
  apply wp_bind.
  apply (print_level_ok all Hnd Hring _ _ o [] o os zo); [done|done|simpl in Hof; lia|exact Hzo|].
  assert (level_text detailed (v_lprice V z) (v_lprice V x) (v_lprice V p, v_data V <$> all) =
    level_header (v_lprice V p) (v_lprice V z) (v_lprice V x)
      (u32 (0 + zsum r_qty (v_data V <$> o :: os))) (u64 (0 + Z.of_nat (length (o :: os)))) +:+
    orders_text detailed (moid zo) (moid o) (v_data V <$> o :: os) +:+ newline) as E.
  { unfold level_text. cbn [fst snd]. fold all in Hlast |- *. rewrite fmap_last, Hlast, length_fmap, !Z.add_0_l, u64_id by lia. done. }
  rewrite E, !(assoc_L String.append) in HΦ. rewrite ?(assoc_L String.append).
  destruct check; [|by apply wp_ret]. specialize (Hcheck eq_refl).
  replace ((bool_decide (to_side s = Side_SELL) && (v_lprice V p <=? last))
    || (bool_decide (to_side s = Side_BUY) && (last <=? v_lprice V p))) with false; [by apply wp_ret|].
  destruct s; simpl in *; lia.
Qed.

(** A side, from the level [(p, os)] on. *)
Lemma print_side_ok fuel ofuel detailed check s h l1 p os l2 count last ss z
    (Φ : string → B → Prop) :
  head (lvls (L s)) = Some h → L s = l1 ++ (p, os) :: l2 →
  (length l2 + 1 < fuel)%nat → (∀ q qs, (q, qs) ∈ L s → (length qs ≤ ofuel)%nat) →
  (∀ q qs, (q, qs) ∈ L s → Z.of_nat (length qs) < 2 ^ 64) → 0 ≤ count → count + Z.of_nat (length l2) + 1 < 2 ^ 64 →
  v_lprev V p = Some z → (check = true → better s last (v_lprice V p)) →
  Φ (ss +:+ levels_text detailed (to_side s) count (v_lprice V z) (v_lprice V h)
       (absl V ((p, os) :: l2))) b →
  wp (print_side fuel ofuel detailed check (to_side s) (Some h) (Some p) count last ss) b Φ.
Proof.
  intros Hh. pose proof (wf_sides _ _ _ (vi_wf _ _ Hinv) s) as Hside.
  revert l1 p os l2 count last ss z.
  induction fuel as [|fuel IH]; intros l1 p os l2 count last ss z HL Hf Hof Hmax Hc0 Hc Hz Hck HΦ; [lia|].
  assert ((p, os) ∈ L s) as Hin by (rewrite HL; apply focus_elem).
  assert (lvls (L s) = lvls l1 ++ p :: lvls l2) as Hlvls by by rewrite HL, lvls_app, lvls_cons.
  pose proof (ring_last_iff _ _ _ _ _ _ (sw_nodup _ _ _ Hside) (sw_ring _ _ _ Hside) Hlvls) as Hlast.
  rewrite Hh in Hlast.
  assert (∃ x, v_lnext V p = Some x ∧ x = match l2 with [] => h | (y, _) :: _ => y end)
    as (x & Hx & Ex).
  { destruct l2 as [|[y ys] l2]; [exists h; split; [by apply Hlast|done]|].
    exists y. by destruct (ring_step _ _ _ _ _ _ _ (sw_ring _ _ _ Hside) Hlvls). }
  cbn [print_side]. apply wp_bind. eapply law_get_level; [exact Hb|]. intros node _ _ _ _ ->.
  apply wp_bind. rewrite Hx in *.
  apply (printer_ok ofuel detailed check s p os z x); [done|eauto| |done|done|done|].
  { by apply (Hmax p). }
  destruct l2 as [|[y ys] l2]; simpl in Ex; subst x.
  - rewrite decide_True by done. destruct fuel as [|fuel]; [simpl in *; lia|]. apply wp_ret.
    simpl in HΦ. by rewrite (right_id_L EmptyString String.append), (assoc_L String.append) in HΦ.
  - rewrite decide_False by (intros E; apply Hlast in E; done).
    destruct (ring_step _ _ _ _ _ _ _ (sw_ring _ _ _ Hside) Hlvls) as [_ Hpy].
    rewrite u64_id by (simpl in *; lia).
    apply (IH (l1 ++ [(p, os)]) y ys l2 _ _ _ p); try done; try (simpl in *; lia).
    + by rewrite HL, <- (assoc_L (++)).
    + intros ->. pose proof (sw_sorted _ _ _ Hside) as Hsort.
      rewrite Hlvls, lvls_cons, fmap_app in Hsort. apply StronglySorted_app in Hsort as (_ & _ & Hsort).
      apply StronglySorted_cons in Hsort as [Hall _]. by apply Forall_cons in Hall as [? _].
    + rewrite <- !(assoc_L String.append). exact HΦ.
Qed.

Lemma side_ok fuel ofuel detailed check s last ss (Φ : string → B → Prop) :
  (length (L s) < fuel)%nat → (∀ q qs, (q, qs) ∈ L s → (length qs ≤ ofuel)%nat) →
  Z.of_nat (length (L s)) < 2 ^ 64 → (∀ q qs, (q, qs) ∈ L s → Z.of_nat (length qs) < 2 ^ 64) →
  (check = true → match abs V L s with [] => True | (px, _) :: _ => better s last px end) →
  Φ (ss +:+ side_text detailed s (abs V L s)) b →
  wp (print_side fuel ofuel detailed check (to_side s) (v_best V s) (v_best V s) 0 last ss) b Φ.
Proof.
  intros Hf Hof Hmax Hmax' Hck HΦ. pose proof (wf_sides _ _ _ (vi_wf _ _ Hinv) s) as Hside.
  destruct (L s) as [|[p os] l] eqn:HL.
  - rewrite (no_level _ _ _ Hinv HL). unfold abs in HΦ. rewrite HL in HΦ.
    destruct fuel as [|fuel]; [simpl in Hf; lia|]. apply wp_ret.
    by rewrite (right_id_L EmptyString String.append) in HΦ.
  - destruct (first_level _ _ _ _ _ _ Hinv HL) as (_ & _ & _ & -> & _).
    pose proof (sw_ring _ _ _ Hside) as Hring. rewrite lvls_cons in Hring.
    destruct (ring_prev _ _ _ _ Hring) as (z & Hlast & Hz & _).
    apply (print_side_ok _ _ _ _ s p [] p os l 0 last ss z); try done; try (simpl in *; lia).
    + by rewrite HL.
    + rewrite HL. exact Hof.
    + rewrite HL. exact Hmax'.
    + intros Hc. specialize (Hck Hc). unfold abs in Hck. by rewrite HL in Hck.
    + unfold side_text, abs in HΦ. rewrite HL in HΦ.
      assert (list.last (absl V ((p, os) :: l)) =
              (λ l : Z * list Z, (v_lprice V l.1, v_data V <$> l.2)) <$> list.last ((p, os) :: l)) as E
        by apply fmap_last.
      assert (fst <$> list.last ((p, os) :: l) = Some z) as Ez.
      { rewrite <- fmap_last. exact Hlast. }
      destruct (list.last ((p, os) :: l)) as [[z' zs]|]; [|done]. injection Ez as ->.
      simpl in HΦ, E. rewrite E in HΦ. exact HΦ.
Qed.

Lemma levels_bounded s : Z.of_nat (length (L s)) ≤ ME_MAX_PRICE_LEVELS.
Proof.
  pose proof (vi_wf _ _ Hinv) as Hwf. rewrite <- (length_fmap fst).
  apply length_range; [done|apply (sw_nodup _ _ _ (wf_sides _ _ _ Hwf s))|].
  intros p Hp. apply (vi_llive _ _ Hinv), (wf_llive _ _ _ Hwf). eauto.
Qed.
Lemma orders_bounded s q qs : (q, qs) ∈ L s → Z.of_nat (length qs) ≤ ME_MAX_ORDER_IDS.
Proof.
  intros Hq. pose proof (vi_wf _ _ Hinv) as Hwf.
  apply length_range; [done|by eapply level_orders_NoDup|].
  intros o Ho. apply (vi_olive _ _ Hinv), (wf_olive _ _ _ Hwf). exists s. apply ords_elem. eauto.
Qed.

Lemma heap_toString_ok fuel ofuel ticker_id detailed check :
  (∀ s, (length (L s) < fuel)%nat) →
  (∀ s q qs, (q, qs) ∈ L s → (length qs ≤ ofuel)%nat) →
  (check = true → ∀ s, best_within s (abs_book V L) = true) →
  heap_toString fuel ofuel ticker_id detailed check b =
    Ok (book_text detailed ticker_id (abs_book V L), b).
Proof.
  intros Hf Hof Hck.
  assert (∀ s, Z.of_nat (length (L s)) < 2 ^ 64) as Hmax.
  { intros s. pose proof (levels_bounded s) as H. unfold ME_MAX_PRICE_LEVELS in H. lia. }
  assert (∀ s q qs, (q, qs) ∈ L s → Z.of_nat (length qs) < 2 ^ 64) as Hmax'.
  { intros s q qs Hq. pose proof (orders_bounded s q qs Hq) as H. unfold ME_MAX_ORDER_IDS in H. lia. }
  assert (wp (heap_toString fuel ofuel ticker_id detailed check) b (λ r b',
    b' = b ∧ r = book_text detailed ticker_id (abs_book V L))) as H.
  { assert (check = true → ∀ s, match abs V L s with [] => True
      | (px, _) :: _ => better s (if s then Price_INVALID else Price_MIN) px end) as Hbest.
    { intros Hc s. specialize (Hck Hc s). unfold best_within in Hck. rewrite s_levels_abs in Hck.
      destruct (abs V L s) as [|[px rs] ls]; [done|]. by apply bool_decide_eq_true in Hck. }
    unfold heap_toString. apply wp_bind. change Side_SELL with (to_side false).
    eapply law_get_best; [exact Hb|].
    apply wp_bind. apply (side_ok _ _ _ _ false); try done; [eauto..|intros Hc; apply (Hbest Hc false)|].
    apply wp_bind. change Side_BUY with (to_side true).
    eapply law_get_best; [exact Hb|].
    apply (side_ok _ _ _ _ true); try done; [eauto..|intros Hc; apply (Hbest Hc true)|].
    split; [done|]. unfold book_text. by rewrite <- !(assoc_L String.append). }
  apply wp_ok in H as (a & b' & -> & -> & ->). done.
Qed.

(** A pool has as many touched blocks as there are nodes in use. *)
Lemma levels_counted {T : Type} `{!ValueInit T} (pool : MemPool T) s :
  (∀ q, v_llive V q = true → live pool q) → (length (L s) ≤ size (store_ pool))%nat.
Proof.
  intros H. pose proof (vi_wf _ _ Hinv) as Hwf. rewrite <- (length_fmap fst).
  apply live_count; [apply (sw_nodup _ _ _ (wf_sides _ _ _ Hwf s))|].
  apply Forall_forall. intros p Hp. apply H, (wf_llive _ _ _ Hwf). eauto.
Qed.
Lemma orders_counted {T : Type} `{!ValueInit T} (pool : MemPool T) s p os :
  (∀ o, v_olive V o = true → live pool o) → (p, os) ∈ L s → (length os ≤ size (store_ pool))%nat.
Proof.
  intros H Hin. pose proof (vi_wf _ _ Hinv) as Hwf.
  apply live_count; [by eapply level_orders_NoDup|].
  apply Forall_forall. intros o Ho. apply H, (wf_olive _ _ _ Hwf). exists s. apply ords_elem. eauto.
Qed.
End walks.
