(* ===== verification/MEOrderBookLaws.v ===== *)
(** What the specification of the order book guarantees: quantity is conserved, the
    opposite side is consumed in price-time order, the book is never left crossed, and
    within a level priorities and order ids increase. *)
From S2P Require Export MEOrderBookSpec.

(** ** Conservation and price-time priority of a sweep *)
(** [taken ls fs leaves rest]: [fs] are fills of the first orders of [ls], each for its
    whole quantity, except possibly the last one, which uses up the taker. *)
Inductive taken : list resting → Z → list fill → list resting → Z → Prop :=
  | taken_stop rs leaves : taken rs leaves [] rs leaves
  | taken_whole r rs leaves fs rest leaves' :
      0 < leaves → r_qty r ≤ leaves → taken rs (leaves - r_qty r) fs rest leaves' →
      taken (r :: rs) leaves (MkFill r leaves :: fs) rest leaves'
  | taken_part r rs leaves :
      0 < leaves → leaves < r_qty r →
      taken (r :: rs) leaves [MkFill r leaves] (set_r_qty (r_qty r - leaves) r :: rs) 0.

Lemma taken_app rs leaves fs rest leaves' rs2 :
  taken rs leaves fs rest leaves' → taken (rs ++ rs2) leaves fs (rest ++ rs2) leaves'.
Proof. induction 1; simpl; by constructor. Qed.
Lemma taken_trans rs leaves fs leaves1 rs2 fs2 rest2 leaves2 :
  taken rs leaves fs [] leaves1 → taken rs2 leaves1 fs2 rest2 leaves2 →
  taken (rs ++ rs2) leaves (fs ++ fs2) rest2 leaves2.
Proof.
  remember [] as nil eqn:Hnil. intros H H2. induction H; simplify_eq/=; [done|].
  constructor; auto.
Qed.

Lemma taken_nonneg rs leaves fs rest leaves' :
  taken rs leaves fs rest leaves' → 0 ≤ leaves → 0 ≤ leaves'.
Proof. induction 1; lia. Qed.

Lemma sweep_level_taken rs leaves rest leaves' fs :
  (∀ r, r ∈ rs → 0 ≤ r_qty r) → 0 ≤ leaves →
  sweep_level rs leaves = (rest, leaves', fs) → taken rs leaves fs rest leaves'.
Proof.
  revert leaves rest leaves' fs. induction rs as [|r rs IH]; intros leaves rest leaves' fs Hq Hl; simpl.
  { intros. simplify_eq. constructor. }
  destruct (leaves =? 0) eqn:Hz; [intros; simplify_eq; constructor|].
  destruct (r_qty r <=? leaves) eqn:Hle.
  - destruct (sweep_level rs _) as [[rest1 l1] fs1] eqn:Hs. intros. simplify_eq.
    apply taken_whole; [lia|lia|]. apply IH; [|lia|done]. intros r' Hr'. apply Hq. by right.
  - intros. simplify_eq. apply taken_part; lia.
Qed.

Lemma sweep_taken t ls leaves rest leaves' fs :
  (∀ r, r ∈ orders_of ls → 0 ≤ r_qty r) → 0 ≤ leaves →
  sweep t ls leaves = (rest, leaves', fs) →
  taken (orders_of ls) leaves fs (orders_of rest) leaves'.
Proof.
  revert leaves rest leaves' fs. induction ls as [|[px rs] ls IH]; intros leaves rest leaves' fs Hq Hl; simpl.
  { intros. simplify_eq. constructor. }
  destruct (_ || _); [intros; simplify_eq; constructor|].
  destruct (sweep_level rs leaves) as [[rs' l1] fs1] eqn:Hs.
  rewrite orders_of_cons in Hq |- *.
  apply sweep_level_taken in Hs; [|intros r Hr; apply Hq, elem_of_app; auto|done].
  pose proof (taken_nonneg _ _ _ _ _ Hs Hl) as Hl1.
  destruct rs' as [|r' rs'].
  - destruct (sweep t ls l1) as [[rest2 l2] fs2] eqn:Hs2. intros. simplify_eq.
    apply IH in Hs2; [|intros r Hr; apply Hq, elem_of_app; auto|done].
    by eapply taken_trans.
  - intros. simplify_eq. rewrite orders_of_cons. by apply (taken_app _ _ _ (r' :: rs')).
Qed.

Lemma taken_conserves rs leaves fs rest leaves' :
  taken rs leaves fs rest leaves' →
  leaves = leaves' + zsum f_qty fs ∧ zsum r_qty rs = zsum r_qty rest + zsum f_qty fs.
Proof.
  induction 1 as [|r rs leaves fs rest leaves' Hl Hle _ [IH1 IH2]|r rs leaves Hl Hlt];
    autorewrite with hft; unfold f_qty; simpl; fold f_qty; lia.
Qed.
Lemma taken_prefix rs leaves fs rest leaves' :
  taken rs leaves fs rest leaves' → f_order <$> fs `prefix_of` rs.
Proof.
  induction 1 as [rs| |]; simpl; [apply prefix_nil|by apply prefix_cons|].
  apply prefix_cons, prefix_nil.
Qed.

(** Every fill is at a price the taker accepts, and what is left does not cross. *)
Lemma sweep_crosses t ls leaves rest leaves' fs :
  (∀ px rs r, (px, rs) ∈ ls → r ∈ rs → r_price r = px) →
  sweep t ls leaves = (rest, leaves', fs) →
  Forall (λ f, crosses t (r_price (f_order f)) = true) fs.
Proof.
  assert (∀ rs leaves rest leaves' fs, sweep_level rs leaves = (rest, leaves', fs) →
    Forall (λ f, f_order f ∈ rs) fs) as Hlevel.
  { clear. intros rs. induction rs as [|r rs IH]; intros leaves rest leaves' fs; simpl.
    { intros. by simplify_eq. }
    destruct (leaves =? 0); [intros; by simplify_eq|]. destruct (r_qty r <=? leaves).
    - destruct (sweep_level rs _) as [[? ?] ?] eqn:Hs. intros. simplify_eq.
      constructor; [left|]. apply IH in Hs. eapply Forall_impl; [done|]. intros f Hf. by right.
    - intros. simplify_eq. constructor; [left|done]. }
  revert leaves rest leaves' fs. induction ls as [|[px rs] ls IH]; intros leaves rest leaves' fs Hp; simpl.
  { intros. by simplify_eq. }
  destruct (_ || _) eqn:Hc; [intros; by simplify_eq|].
  apply orb_false_iff in Hc as [_ Hc]. apply negb_false_iff in Hc.
  destruct (sweep_level rs leaves) as [[rs' l1] fs1] eqn:Hs. apply Hlevel in Hs.
  assert (Forall (λ f, crosses t (r_price (f_order f)) = true) fs1) as Hf1.
  { eapply Forall_impl; [done|]. intros f Hf. simpl in Hf.
    by rewrite (Hp px rs (f_order f) (list_elem_of_here _ _) Hf). }
  destruct rs' as [|r' rs'].
  - destruct (sweep t ls l1) as [[rest2 l2] fs2] eqn:Hs2. intros. simplify_eq.
    apply Forall_app. split; [done|]. eapply IH; [|done]. intros px' rs' r' Hin.
    apply (Hp px' rs' r'). by right.
  - intros. by simplify_eq.
Qed.

(** ** The book is never left crossed *)
Definition uncrossed (k : sbook) : Prop :=
  ∀ bid ask, bid ∈ (s_bids k).*1 → ask ∈ (s_asks k).*1 → bid < ask.
Definition price_sorted (k : sbook) : Prop :=
  ∀ s, StronglySorted (better s) (s_levels s k).*1.

Lemma uncrossed_sides k :
  uncrossed k ↔ ∀ s px px', px ∈ (s_levels s k).*1 → px' ∈ (s_levels (negb s) k).*1 →
    better s px' px.
Proof.
  split.
  - intros H [] px px' H1 H2; simpl in *; by apply H.
  - intros H bid ask H1 H2. exact (H true bid ask H1 H2).
Qed.

Lemma sweep_rest_prices t ls leaves rest leaves' fs :
  sweep t ls leaves = (rest, leaves', fs) → ∃ pre, ls.*1 = pre ++ rest.*1.
Proof.
  revert leaves rest leaves' fs. induction ls as [|[px rs] ls IH]; intros leaves rest leaves' fs; simpl.
  { intros. simplify_eq. by exists []. }
  destruct (_ || _); [intros; simplify_eq; by exists []|].
  destruct (sweep_level rs leaves) as [[[|r' rs'] l1] fs1].
  - destruct (sweep t ls l1) as [[rest2 l2] fs2] eqn:Hs2. intros. simplify_eq.
    apply IH in Hs2 as [pre Hpre]. exists (px :: pre). simpl. f_equal. exact Hpre.
  - intros. simplify_eq. by exists [].
Qed.
Lemma sweep_level_leaves rs leaves r' rest leaves' fs :
  sweep_level rs leaves = (r' :: rest, leaves', fs) → leaves' = 0.
Proof.
  revert leaves r' rest leaves' fs. induction rs as [|r rs IH]; intros leaves r' rest leaves' fs; simpl; [done|].
  destruct (leaves =? 0) eqn:Hz; [intros; simplify_eq; lia|]. destruct (r_qty r <=? leaves).
  - destruct (sweep_level rs _) as [[? ?] ?] eqn:Hs. intros. simplify_eq. by eapply IH.
  - intros. by simplify_eq.
Qed.
Lemma sweep_rest_first t ls leaves rest leaves' fs :
  sweep t ls leaves = (rest, leaves', fs) → leaves' ≠ 0 →
  match rest with [] => True | (px, _) :: _ => crosses t px = false end.
Proof.
  revert leaves rest leaves' fs. induction ls as [|[px rs] ls IH]; intros leaves rest leaves' fs; simpl.
  { intros. by simplify_eq. }
  destruct (_ || _) eqn:Hc.
  { intros ? Hl. simplify_eq. apply orb_true_iff in Hc as [Hc|Hc]; [lia|].
    by apply negb_true_iff in Hc. }
  destruct (sweep_level rs leaves) as [[[|r' rs'] l1] fs1] eqn:Hs.
  - destruct (sweep t ls l1) as [[rest2 l2] fs2] eqn:Hs2. intros. simplify_eq. by eapply IH.
  - apply sweep_level_leaves in Hs. intros. by simplify_eq.
Qed.
Lemma rest_order_prices s r ls px :
  px ∈ (rest_order s r ls).*1 → px = r_price r ∨ px ∈ ls.*1.
Proof.
  induction ls as [|[px' rs] ls IH]; simpl; [set_solver|].
  destruct (px' =? r_price r); simpl; [auto|]. case_decide; simpl; rewrite ?elem_of_cons; [tauto|].
  intros [->|Hin]; [auto|]. destruct (IH Hin); auto.
Qed.
Lemma cancel_order_prices key ls px : px ∈ (cancel_order key ls).*1 → px ∈ ls.*1.
Proof.
  induction ls as [|[px' rs] ls IH]; simpl; [done|]. rewrite elem_of_cons.
  destruct (filter _ rs); simpl; rewrite ?elem_of_cons; tauto.
Qed.

Lemma not_crossing_better t px : crosses t px = false → better (t_side t) px (t_price t).
Proof. unfold crosses. destruct (t_side t); simpl; lia. Qed.
Lemma better_trans s x y z : better s x y → better s y z → better s x z.
Proof. destruct s; simpl; lia. Qed.

Lemma spec_add_uncrossed t qty k :
  price_sorted k → uncrossed k → uncrossed (out_book (spec_add t qty k)).
Proof.
  rewrite !uncrossed_sides. intros Hs Hu. unfold spec_add.
  destruct (sweep _ _ _) as [[opp leaves] fs] eqn:Hsw.
  destruct (sweep_rest_prices _ _ _ _ _ _ Hsw) as [pre Hpre].
  assert (∀ px, px ∈ opp.*1 → px ∈ (s_levels (negb (t_side t)) k).*1) as Hsub.
  { intros px Hpx. rewrite Hpre. apply elem_of_app. auto. }
  set (k1 := s_set_levels (negb (t_side t)) opp k).
  assert (∀ px px', px ∈ (s_levels (t_side t) k1).*1 → px' ∈ opp.*1 → better (t_side t) px' px) as Hu1.
  { intros px px' H1 H2. apply (Hu (t_side t)); [|auto].
    unfold k1 in H1. by destruct (t_side t). }
  assert (∀ k2 : sbook, (∀ px px', px ∈ (s_levels (t_side t) k2).*1 →
      px' ∈ (s_levels (negb (t_side t)) k2).*1 → better (t_side t) px' px) →
    ∀ s px px', px ∈ (s_levels s k2).*1 → px' ∈ (s_levels (negb s) k2).*1 → better s px' px) as Hside.
  { intros k2 H s px px' H1 H2. destruct (decide (s = t_side t)) as [->|Hne]; [by apply H|].
    assert (s = negb (t_side t)) as -> by by destruct s, (t_side t).
    rewrite negb_involutive in H2. specialize (H _ _ H2 H1). destruct (t_side t); simpl in *; lia. }
  assert (s_levels (negb (t_side t)) k1 = opp) as Hopp by apply s_levels_set.
  destruct (leaves =? 0) eqn:Hz; apply Hside; simpl.
  { by rewrite Hopp. }
  intros px px'. rewrite s_levels_set, s_levels_set_other, Hopp.
  intros [->|Hpx]%rest_order_prices Hpx'; [|auto]. simpl.
  pose proof (sweep_rest_first _ _ _ _ _ _ Hsw) as Hfirst.
  destruct opp as [|[px0 rs0] opp]; [by apply not_elem_of_nil in Hpx'|].
  assert (better (t_side t) px0 (t_price t)) as Hb by (apply not_crossing_better, Hfirst; lia).
  simpl in Hpx'. apply elem_of_cons in Hpx' as [->|Hpx']; [done|].
  specialize (Hs (negb (t_side t))). rewrite Hpre in Hs.
  apply StronglySorted_app in Hs as (_ & _ & Hs). simpl in Hs.
  apply StronglySorted_cons in Hs as [Hs _]. rewrite Forall_forall in Hs.
  specialize (Hs _ Hpx'). destruct (t_side t); simpl in *; lia.
Qed.
Lemma spec_cancel_uncrossed c o tk k :
  uncrossed k → uncrossed (out_book (spec_cancel c o tk k)).
Proof.
  intros Hu. unfold spec_cancel. destruct (find_order _ _); [|done].
  intros bid ask H1%cancel_order_prices H2%cancel_order_prices. auto.
Qed.

(** ** Time order within a level *)
Definition earlier (r r' : resting) : Prop :=
  r_priority r < r_priority r' ∧ r_market_order_id r < r_market_order_id r'.
(** A queue whose orders got increasing order ids below [n], and increasing priorities. *)
Definition queue_ok (n : Z) (rs : list resting) : Prop :=
  StronglySorted earlier rs ∧
  Forall (λ r, 1 ≤ r_priority r ≤ r_market_order_id r ∧ r_market_order_id r < n) rs.
Definition time_ordered (n : Z) (k : sbook) : Prop :=
  ∀ s lv, lv ∈ s_levels s k → queue_ok n lv.2.

Lemma queue_ok_mono n n' rs : n ≤ n' → queue_ok n rs → queue_ok n' rs.
Proof.
  intros Hn [H1 H2]. split; [done|]. eapply Forall_impl; [done|]. simpl. lia.
Qed.
Lemma queue_ok_snoc n rs r :
  queue_ok n rs → n ≤ r_market_order_id r →
  r_priority r = match last rs with Some l => r_priority l + 1 | None => 1 end → 1 ≤ n →
  queue_ok (r_market_order_id r + 1) (rs ++ [r]).
Proof.
  intros [H1 H2] Hid Hp Hn. rewrite Forall_forall in H2.
  assert (r_priority r ≤ r_market_order_id r ∧ 1 ≤ r_priority r) as Hb.
  { rewrite Hp. destruct (last rs) as [l|] eqn:Hl; [|lia].
    apply last_Some in Hl as [l' ->]. assert (l ∈ l' ++ [l]) as Hin by (apply elem_of_app; right; left). specialize (H2 l Hin). lia. }
  split.
  - apply StronglySorted_app. split_and!; [|done|by repeat constructor].
    intros x1 x2 Hx1 ->%list_elem_of_singleton. split; [|specialize (H2 _ Hx1); lia].
    destruct (last rs) as [l|] eqn:Hl.
    2:{ apply last_None in Hl. subst rs. by apply not_elem_of_nil in Hx1. }
    apply last_Some in Hl as [l' ->]. apply StronglySorted_app in H1 as (H1 & _).
    apply elem_of_app in Hx1 as [Hx1| ->%list_elem_of_singleton]; [|lia].
    destruct (H1 x1 l Hx1 (list_elem_of_here _ _)). lia.
  - apply Forall_forall. intros x [Hx| ->%list_elem_of_singleton]%elem_of_app; [|lia].
    specialize (H2 _ Hx). lia.
Qed.
Lemma queue_ok_filter n (P : resting → Prop) `{∀ r, Decision (P r)} rs :
  queue_ok n rs → queue_ok n (filter P rs).
Proof.
  intros [H1 H2]. split; [|by apply Forall_filter_keep].
  induction H1 as [|r rs H1 IH Hr]; [constructor|]. apply Forall_cons in H2 as [_ H2].
  rewrite filter_cons. case_decide; [|auto].
  apply StronglySorted_cons. split; [by apply Forall_filter_keep|auto].
Qed.
Lemma queue_ok_taken n rs leaves fs rest leaves' :
  taken rs leaves fs rest leaves' → queue_ok n rs → queue_ok n rest.
Proof.
  induction 1 as [|r rs leaves fs rest leaves' _ _ _ IH|r rs leaves _ _]; [done| |].
  - intros [[_ ?]%StronglySorted_cons [_ ?]%Forall_cons]. apply IH. by split.
  - intros [[H1 ?]%StronglySorted_cons [? ?]%Forall_cons].
    split; [apply StronglySorted_cons|apply Forall_cons]; (split; [|done]); [|done].
    eapply Forall_impl; [exact H1|done].
Qed.

Definition qty_nonneg (ls : levels) : Prop := ∀ r, r ∈ orders_of ls → 0 ≤ r_qty r.
Lemma sweep_level_queue n rs leaves rest leaves' fs :
  sweep_level rs leaves = (rest, leaves', fs) → queue_ok n rs → queue_ok n rest.
Proof.
  revert leaves rest leaves' fs. induction rs as [|r rs IH]; intros leaves rest leaves' fs; simpl.
  { intros. by simplify_eq. }
  destruct (leaves =? 0); [intros; by simplify_eq|]. destruct (r_qty r <=? leaves).
  - destruct (sweep_level rs _) as [[? ?] ?] eqn:Hs.
    intros ? [[_ ?]%StronglySorted_cons [_ ?]%Forall_cons]. simplify_eq.
    eapply IH; [done|]. by split.
  - intros ? [[H1 ?]%StronglySorted_cons [? ?]%Forall_cons]. simplify_eq.
    split; [apply StronglySorted_cons|apply Forall_cons]; (split; [|done]); [|done].
    eapply Forall_impl; [exact H1|done].
Qed.
Lemma sweep_queues n t ls leaves rest leaves' fs :
  sweep t ls leaves = (rest, leaves', fs) →
  (∀ lv, lv ∈ ls → queue_ok n lv.2) → ∀ lv, lv ∈ rest → queue_ok n lv.2.
Proof.
  revert leaves rest leaves' fs. induction ls as [|[px rs] ls IH]; intros leaves rest leaves' fs; simpl.
  { intros ? Hq. simplify_eq. exact Hq. }
  destruct (_ || _); [intros ? Hq; simplify_eq; exact Hq|].
  destruct (sweep_level rs leaves) as [[rs' l1] fs1] eqn:Hs. intros Hsw Hq.
  assert (∀ lv, lv ∈ ls → queue_ok n lv.2) as Hq' by (intros lv Hlv; apply Hq; by right).
  destruct rs' as [|r' rs'].
  - destruct (sweep t ls l1) as [[rest2 l2] fs2] eqn:Hs2. simplify_eq. by eapply IH.
  - simplify_eq. intros lv [->|Hlv]%elem_of_cons; [|auto].
    eapply sweep_level_queue; [exact Hs|]. apply (Hq (px, rs)). left.
Qed.

Lemma rest_order_queues n s r ls :
  StronglySorted (better s) ls.*1 →
  (∀ lv, lv ∈ ls → queue_ok n lv.2) → n ≤ r_market_order_id r → 1 ≤ n ≤ 2 ^ 64 - 1 →
  r_priority r = next_priority (r_price r) ls →
  ∀ lv, lv ∈ rest_order s r ls → queue_ok (r_market_order_id r + 1) lv.2.
Proof.
  intros Hso Hq Hid Hn. revert Hso Hq.
  assert (r_priority r = 1 → queue_ok (r_market_order_id r + 1) [r]) as Hone.
  { intros Hp. apply (queue_ok_snoc n []); try done; [by split; constructor|lia]. }
  assert (∀ lv, queue_ok n lv → queue_ok (r_market_order_id r + 1) lv) as Hmono.
  { intros lv. apply queue_ok_mono. lia. }
  induction ls as [|[px rs] ls IH]; simpl; intros Hso Hq Hp lv.
  { intros ->%list_elem_of_singleton. by apply Hone. }
  apply StronglySorted_cons in Hso as [Hf Hso].
  assert (∀ lv, lv ∈ ls → queue_ok n lv.2) as Hq' by (intros ? ?; apply Hq; by right).
  pose proof (Hq _ (list_elem_of_here _ _)) as Hrs. simpl in Hrs.
  destruct (px =? r_price r) eqn:Hpx.
  - intros [->|?]%elem_of_cons; [|auto]. simpl. apply (queue_ok_snoc n); [done|done| |lia].
    rewrite Hp. destruct (last rs) as [l|] eqn:Hl; [|done].
    destruct Hrs as [_ Hf']. rewrite Forall_forall in Hf'. apply last_Some in Hl as [l' ->].
    assert (l ∈ l' ++ [l]) as Hin by (apply elem_of_app; right; left).
    specialize (Hf' l Hin). apply u64_id. lia.
  - case_decide as Hb.
    + intros [->|[->|?]%elem_of_cons]%elem_of_cons; [|by apply Hmono|auto]. apply Hone.
      rewrite Hp. apply next_priority_new. intros l' Hl'. rewrite Forall_forall in Hf.
      specialize (Hf l'.1). assert (l'.1 ∈ ls.*1) as Hin by by apply list_elem_of_fmap_2.
      specialize (Hf Hin). destruct s; simpl in *; lia.
    + intros [->|?]%elem_of_cons; [by apply Hmono|]. by apply IH.
Qed.

Lemma spec_add_time_ordered t qty k :
  price_sorted k → time_ordered (t_market_order_id t) k → 1 ≤ t_market_order_id t < 2 ^ 64 →
  time_ordered (t_market_order_id t + 1) (out_book (spec_add t qty k)).
Proof.
  intros Hs Ht Hid. unfold spec_add.
  destruct (sweep _ _ _) as [[opp leaves] fs] eqn:Hsw.
  assert (time_ordered (t_market_order_id t) (s_set_levels (negb (t_side t)) opp k)) as Ht1.
  { intros s. destruct (decide (s = negb (t_side t))) as [->|Hne].
    - rewrite s_levels_set. eapply sweep_queues; [exact Hsw|]. apply Ht.
    - assert (s = t_side t) as -> by by destruct s, (t_side t).
      intros lv Hlv. apply (Ht (t_side t)). by destruct (t_side t). }
  set (k1 := s_set_levels (negb (t_side t)) opp k) in *.
  assert (time_ordered (t_market_order_id t + 1) k1) as Ht2.
  { intros s lv Hlv. eapply queue_ok_mono; [|by apply (Ht1 s)]. lia. }
  destruct (leaves =? 0); simpl; [done|].
  intros s lv. destruct (decide (s = t_side t)) as [->|Hne].
  - rewrite s_levels_set. eapply rest_order_queues; simpl; try done; [|by apply Ht1|lia].
    unfold k1. specialize (Hs (t_side t)). by destruct (t_side t).
  - assert (s = negb (t_side t)) as -> by by destruct s, (t_side t).
    rewrite s_levels_set_other. apply Ht2.
Qed.
Lemma cancel_order_queues n key ls :
  (∀ lv, lv ∈ ls → queue_ok n lv.2) → ∀ lv, lv ∈ cancel_order key ls → queue_ok n lv.2.
Proof.
  induction ls as [|[px rs] ls IH]; simpl; intros Hq lv; [by intros ?%not_elem_of_nil|].
  pose proof (queue_ok_filter n (λ r, r_key r ≠ key) rs (Hq _ (list_elem_of_here _ _))) as Hf.
  assert (∀ lv, lv ∈ ls → queue_ok n lv.2) as Hq' by (intros ? ?; apply Hq; by right).
  destruct (filter _ rs) as [|r' rs'] eqn:E; [by apply IH|].
  intros [->|Hlv]%elem_of_cons; [done|]. by apply IH.
Qed.
Lemma spec_cancel_time_ordered n c o tk k :
  time_ordered n k → time_ordered n (out_book (spec_cancel c o tk k)).
Proof.
  intros Ht. unfold spec_cancel. destruct (find_order _ _); [|done].
  intros [] lv; simpl; apply cancel_order_queues; [apply (Ht true)|apply (Ht false)].
Qed.
