(* ===== verification/MEOrder.v ===== *)
(** EXCHANGE/matcher/me_order.h and me_order.cpp: the nodes of the exchange's order
    book.  A pointer is [None] (nullptr) or the index of an object in its pool. *)
From S2P Require Export Types MemPool.

Record MEOrder : Type := MkMEOrder {
  ord_ticker_id_ : Z;
  ord_client_id_ : Z;
  ord_client_order_id_ : Z;
  ord_market_order_id_ : Z;
  ord_side_ : Side;
  ord_price_ : Z;
  ord_qty_ : Z;
  ord_priority_ : Z;
  ord_prev_order_ : option Z;
  ord_next_order_ : option Z;
}.

Record MEOrdersAtPrice : Type := MkMEOrdersAtPrice {
  oap_side_ : Side;
  oap_price_ : Z;
  oap_first_me_order_ : option Z;
  oap_prev_entry_ : option Z;
  oap_next_entry_ : option Z;
}.

(** The default member initialisers. *)
#[export] Instance MEOrder_init : ValueInit MEOrder :=
  MkMEOrder TickerId_INVALID ClientId_INVALID OrderId_INVALID OrderId_INVALID
    Side_INVALID Price_INVALID Qty_INVALID Priority_INVALID None None.
#[export] Instance MEOrdersAtPrice_init : ValueInit MEOrdersAtPrice :=
  MkMEOrdersAtPrice Side_INVALID Price_INVALID None None None.

(** Assignments to single fields. *)
Definition set_ord_qty_ (v : Z) (o : MEOrder) : MEOrder :=
  MkMEOrder (ord_ticker_id_ o) (ord_client_id_ o) (ord_client_order_id_ o)
    (ord_market_order_id_ o) (ord_side_ o) (ord_price_ o) v (ord_priority_ o)
    (ord_prev_order_ o) (ord_next_order_ o).
Definition set_ord_prev_order_ (v : option Z) (o : MEOrder) : MEOrder :=
  MkMEOrder (ord_ticker_id_ o) (ord_client_id_ o) (ord_client_order_id_ o)
    (ord_market_order_id_ o) (ord_side_ o) (ord_price_ o) (ord_qty_ o) (ord_priority_ o)
    v (ord_next_order_ o).
Definition set_ord_next_order_ (v : option Z) (o : MEOrder) : MEOrder :=
  MkMEOrder (ord_ticker_id_ o) (ord_client_id_ o) (ord_client_order_id_ o)
    (ord_market_order_id_ o) (ord_side_ o) (ord_price_ o) (ord_qty_ o) (ord_priority_ o)
    (ord_prev_order_ o) v.
Definition set_oap_first_me_order_ (v : option Z) (l : MEOrdersAtPrice) : MEOrdersAtPrice :=
  MkMEOrdersAtPrice (oap_side_ l) (oap_price_ l) v (oap_prev_entry_ l) (oap_next_entry_ l).
Definition set_oap_prev_entry_ (v : option Z) (l : MEOrdersAtPrice) : MEOrdersAtPrice :=
  MkMEOrdersAtPrice (oap_side_ l) (oap_price_ l) (oap_first_me_order_ l) v (oap_next_entry_ l).
Definition set_oap_next_entry_ (v : option Z) (l : MEOrdersAtPrice) : MEOrdersAtPrice :=
  MkMEOrdersAtPrice (oap_side_ l) (oap_price_ l) (oap_first_me_order_ l) (oap_prev_entry_ l) v.

(** [toString]; the nodes a node points to are read from their pools. *)
Definition MEOrder_toString (orders : MemPool MEOrder) (o : MEOrder) : string :=
  let moid p := match p with
                | Some i => ord_market_order_id_ (obj orders i)
                | None => OrderId_INVALID
                end in
  "MEOrder" +:+ "[" +:+
  "ticker:" +:+ tickerIdToString (ord_ticker_id_ o) +:+ " " +:+
  "cid:" +:+ clientIdToString (ord_client_id_ o) +:+ " " +:+
  "oid:" +:+ orderIdToString (ord_client_order_id_ o) +:+ " " +:+
  "moid:" +:+ orderIdToString (ord_market_order_id_ o) +:+ " " +:+
  "side:" +:+ sideToString (ord_side_ o) +:+ " " +:+
  "price:" +:+ priceToString (ord_price_ o) +:+ " " +:+
  "qty:" +:+ qtyToString (ord_qty_ o) +:+ " " +:+
  "prio:" +:+ priorityToString (ord_priority_ o) +:+ " " +:+
  "prev:" +:+ orderIdToString (moid (ord_prev_order_ o)) +:+ " " +:+
  "next:" +:+ orderIdToString (moid (ord_next_order_ o)) +:+ "]".
Definition MEOrdersAtPrice_toString (orders : MemPool MEOrder)
    (levels : MemPool MEOrdersAtPrice) (l : MEOrdersAtPrice) : string :=
  let price p := match p with
                 | Some i => oap_price_ (obj levels i)
                 | None => Price_INVALID
                 end in
  "MEOrdersAtPrice[" +:+
  "side:" +:+ sideToString (oap_side_ l) +:+ " " +:+
  "price:" +:+ priceToString (oap_price_ l) +:+ " " +:+
  "first_me_order:" +:+
    (match oap_first_me_order_ l with
     | Some i => MEOrder_toString orders (obj orders i)
     | None => "null"
     end) +:+ " " +:+
  "prev:" +:+ priceToString (price (oap_prev_entry_ l)) +:+ " " +:+
  "next:" +:+ priceToString (price (oap_next_entry_ l)) +:+ "]".
