(* ===== verification/MEOrderBook.v ===== *)
(** EXCHANGE/matcher/me_order_book.h and me_order_book.cpp: the limit order book of one
    instrument.

    The definitions follow the member functions statement by statement, on the heap
    the code works on: orders and price levels are nodes of two pools, threaded on
    circular doubly linked lists, reached through the hash maps.  The book sends its
    responses and market updates through its [MatchingEngine]; [EngineSink] is the
    interface it sees.  Logging and latency measurement are not modelled. *)
From S2P Require Export Types Messages MEOrder.

(** ** What the order book uses of the matching engine *)
Class EngineSink (E : Type) := {
  sink_response : MEClientResponse → M E unit;
  sink_update : MEMarketUpdate → M E unit;
}.

Record MEOrderBook : Type := MkMEOrderBook {
  ticker_id_ : Z;
  cid_oid_to_order_ : gmap (Z * Z) Z;
  orders_at_price_pool_ : MemPool MEOrdersAtPrice;
  bids_by_price_ : option Z;
  asks_by_price_ : option Z;
  price_orders_at_price_ : gmap Z Z;
  order_pool_ : MemPool MEOrder;
  client_response_ : MEClientResponse;
  market_update_ : MEMarketUpdate;
  next_market_order_id_ : Z;
}.

(** The constructor.  It does not initialise the two hash maps: [cid_mem] and
    [price_mem] are what their memory holds ([∅]: all null pointers). *)
Definition MEOrderBook_new (ticker_id : Z) (cid_mem : gmap (Z * Z) Z)
    (price_mem : gmap Z Z) : res MEOrderBook :=
  res_bind (MemPool_new ME_MAX_PRICE_LEVELS) (λ levels,
  res_bind (MemPool_new ME_MAX_ORDER_IDS) (λ orders,
  Ok (MkMEOrderBook ticker_id cid_mem levels None None price_mem orders
        MEClientResponse_default MEMarketUpdate_default 1))).

(** ** Assignments to members *)
Section setters.
Implicit Types b : MEOrderBook.
Definition set_cid_oid (m : gmap (Z * Z) Z) b : MEOrderBook :=
  MkMEOrderBook (ticker_id_ b) m (orders_at_price_pool_ b) (bids_by_price_ b)
    (asks_by_price_ b) (price_orders_at_price_ b) (order_pool_ b) (client_response_ b)
    (market_update_ b) (next_market_order_id_ b).
Definition set_level_pool (p : MemPool MEOrdersAtPrice) b : MEOrderBook :=
  MkMEOrderBook (ticker_id_ b) (cid_oid_to_order_ b) p (bids_by_price_ b)
    (asks_by_price_ b) (price_orders_at_price_ b) (order_pool_ b) (client_response_ b)
    (market_update_ b) (next_market_order_id_ b).
Definition set_order_pool (p : MemPool MEOrder) b : MEOrderBook :=
  MkMEOrderBook (ticker_id_ b) (cid_oid_to_order_ b) (orders_at_price_pool_ b)
    (bids_by_price_ b) (asks_by_price_ b) (price_orders_at_price_ b) p (client_response_ b)
    (market_update_ b) (next_market_order_id_ b).
Definition set_price_map (m : gmap Z Z) b : MEOrderBook :=
  MkMEOrderBook (ticker_id_ b) (cid_oid_to_order_ b) (orders_at_price_pool_ b)
    (bids_by_price_ b) (asks_by_price_ b) m (order_pool_ b) (client_response_ b)
    (market_update_ b) (next_market_order_id_ b).
(** [(side == Side::BUY ? bids_by_price_ : asks_by_price_)], read and assigned. *)
Definition best_by_price (side : Side) b : option Z :=
  if decide (side = Side_BUY) then bids_by_price_ b else asks_by_price_ b.
Definition set_best_by_price (side : Side) (p : option Z) b : MEOrderBook :=
  if decide (side = Side_BUY)
  then MkMEOrderBook (ticker_id_ b) (cid_oid_to_order_ b) (orders_at_price_pool_ b) p
         (asks_by_price_ b) (price_orders_at_price_ b) (order_pool_ b) (client_response_ b)
         (market_update_ b) (next_market_order_id_ b)
  else MkMEOrderBook (ticker_id_ b) (cid_oid_to_order_ b) (orders_at_price_pool_ b)
         (bids_by_price_ b) p (price_orders_at_price_ b) (order_pool_ b) (client_response_ b)
         (market_update_ b) (next_market_order_id_ b).
Definition set_client_response (r : MEClientResponse) b : MEOrderBook :=
  MkMEOrderBook (ticker_id_ b) (cid_oid_to_order_ b) (orders_at_price_pool_ b)
    (bids_by_price_ b) (asks_by_price_ b) (price_orders_at_price_ b) (order_pool_ b) r
    (market_update_ b) (next_market_order_id_ b).
Definition set_market_update (u : MEMarketUpdate) b : MEOrderBook :=
  MkMEOrderBook (ticker_id_ b) (cid_oid_to_order_ b) (orders_at_price_pool_ b)
    (bids_by_price_ b) (asks_by_price_ b) (price_orders_at_price_ b) (order_pool_ b)
    (client_response_ b) u (next_market_order_id_ b).
Definition set_next_market_order_id (i : Z) b : MEOrderBook :=
  MkMEOrderBook (ticker_id_ b) (cid_oid_to_order_ b) (orders_at_price_pool_ b)
    (bids_by_price_ b) (asks_by_price_ b) (price_orders_at_price_ b) (order_pool_ b)
    (client_response_ b) (market_update_ b) i.
End setters.

(** ** Access through pointers and hash maps *)
Definition get_order (p : option Z) : M MEOrderBook MEOrder :=
  i ← deref p; gets (λ b, obj (order_pool_ b) i).
Definition put_order (p : option Z) (f : MEOrder → MEOrder) : M MEOrderBook unit :=
  i ← deref p;
  modify (λ b, set_order_pool (set_obj i (f (obj (order_pool_ b) i)) (order_pool_ b)) b).
Definition get_level (p : option Z) : M MEOrderBook MEOrdersAtPrice :=
  i ← deref p; gets (λ b, obj (orders_at_price_pool_ b) i).
Definition put_level (p : option Z) (f : MEOrdersAtPrice → MEOrdersAtPrice) :
    M MEOrderBook unit :=
  i ← deref p;
  modify (λ b, set_level_pool
    (set_obj i (f (obj (orders_at_price_pool_ b) i)) (orders_at_price_pool_ b)) b).
Definition on_order_pool {A} : M (MemPool MEOrder) A → M MEOrderBook A :=
  zoom order_pool_ set_order_pool.
Definition on_level_pool {A} : M (MemPool MEOrdersAtPrice) A → M MEOrderBook A :=
  zoom orders_at_price_pool_ set_level_pool.

(** [cid_oid_to_order_.at(client_id).at(order_id)], read and assigned. *)
Definition cid_oid_in_range (client_id order_id : Z) : bool :=
  ((0 <=? client_id) && (client_id <? ME_MAX_NUM_CLIENTS)) &&
  ((0 <=? order_id) && (order_id <? ME_MAX_ORDER_IDS)).
Definition cid_oid_at (client_id order_id : Z) : M MEOrderBook (option Z) :=
  if cid_oid_in_range client_id order_id
  then gets (λ b, cid_oid_to_order_ b !! (client_id, order_id)) else raise OutOfRange.
Definition cid_oid_assign (client_id order_id : Z) (p : option Z) : M MEOrderBook unit :=
  if cid_oid_in_range client_id order_id
  then modify (λ b, set_cid_oid (partial_alter (λ _, p) (client_id, order_id)
                                   (cid_oid_to_order_ b)) b)
  else raise OutOfRange.

Definition generateNewMarketOrderId : M MEOrderBook Z :=
  id ← gets next_market_order_id_;
  _ ← modify (set_next_market_order_id (u64 (id + 1)));
  mret id.

(** [price % ME_MAX_PRICE_LEVELS]: the price is converted to an unsigned 64-bit value. *)
Definition priceToIndex (price : Z) : Z := u64 price mod ME_MAX_PRICE_LEVELS.

(** [price_orders_at_price_.at(i)], read and assigned. *)
Definition price_map_at (i : Z) : M MEOrderBook (option Z) :=
  if (0 <=? i) && (i <? ME_MAX_PRICE_LEVELS)
  then gets (λ b, price_orders_at_price_ b !! i) else raise OutOfRange.
Definition price_map_assign (i : Z) (p : option Z) : M MEOrderBook unit :=
  if (0 <=? i) && (i <? ME_MAX_PRICE_LEVELS)
  then modify (λ b, set_price_map (partial_alter (λ _, p) i (price_orders_at_price_ b)) b)
  else raise OutOfRange.

Definition getOrdersAtPrice (price : Z) : M MEOrderBook (option Z) :=
  price_map_at (priceToIndex price).

(** ** Price levels *)

(** The walk along the levels of one side (for BUY: while the level's price is at least
    the new price, and the level is not the last one). *)
Fixpoint find_target (fuel : nat) (side : Side) (price : Z) (best target : option Z) :
    M MEOrderBook (option Z) :=
  match fuel with
  | O => raise OutOfFuel
  | S fuel =>
    t ← get_level target;
    if (if decide (side = Side_BUY) then price <=? oap_price_ t else oap_price_ t <=? price)
       && negb (bool_decide (oap_next_entry_ t = best))
    then find_target fuel side price best (oap_next_entry_ t)
    else mret target
  end.

Definition addOrdersAtPrice (new_orders_at_price : option Z) : M MEOrderBook unit :=
  n ← get_level new_orders_at_price;
  let side := oap_side_ n in
  let price := oap_price_ n in
  let price_index := priceToIndex price in
  if ME_MAX_PRICE_LEVELS <=? price_index then mret tt
  else
    _ ← price_map_assign price_index new_orders_at_price;
    best_orders_by_price ← gets (best_by_price side);
    match best_orders_by_price with
    | None =>
      _ ← modify (set_best_by_price side new_orders_at_price);
      _ ← put_level new_orders_at_price (set_oap_next_entry_ new_orders_at_price);
      put_level new_orders_at_price (set_oap_prev_entry_ new_orders_at_price)
    | Some _ =>
      fuel ← gets (λ b, S (size (store_ (orders_at_price_pool_ b))));
      target ← find_target fuel side price best_orders_by_price best_orders_by_price;
      t ← get_level target;
      let insert_before :=
        if decide (side = Side_BUY) then oap_price_ t <? price else price <? oap_price_ t in
      if insert_before then
        t ← get_level target;
        _ ← put_level new_orders_at_price (set_oap_prev_entry_ (oap_prev_entry_ t));
        _ ← put_level new_orders_at_price (set_oap_next_entry_ target);
        t ← get_level target;
        _ ← put_level (oap_prev_entry_ t) (set_oap_next_entry_ new_orders_at_price);
        _ ← put_level target (set_oap_prev_entry_ new_orders_at_price);
        best ← get_level best_orders_by_price;
        if (bool_decide (side = Side_BUY) && (oap_price_ best <? price))
           || (bool_decide (side = Side_SELL) && (price <? oap_price_ best))
        then modify (set_best_by_price side new_orders_at_price)
        else mret tt
      else
        _ ← put_level new_orders_at_price (set_oap_prev_entry_ target);
        t ← get_level target;
        _ ← put_level new_orders_at_price (set_oap_next_entry_ (oap_next_entry_ t));
        t ← get_level target;
        _ ← put_level (oap_next_entry_ t) (set_oap_prev_entry_ new_orders_at_price);
        put_level target (set_oap_next_entry_ new_orders_at_price)
    end.

Definition removeOrdersAtPrice (side : Side) (price : Z) : M MEOrderBook unit :=
  best_orders_by_price ← gets (best_by_price side);
  orders_at_price ← getOrdersAtPrice price;
  l ← get_level orders_at_price;
  _ ← (if decide (oap_next_entry_ l = orders_at_price)
       then modify (set_best_by_price side None)
       else
         _ ← put_level (oap_prev_entry_ l) (set_oap_next_entry_ (oap_next_entry_ l));
         l ← get_level orders_at_price;
         _ ← put_level (oap_next_entry_ l) (set_oap_prev_entry_ (oap_prev_entry_ l));
         _ ← (if decide (orders_at_price = best_orders_by_price)
              then
                l ← get_level orders_at_price;
                modify (set_best_by_price side (oap_next_entry_ l))
              else mret tt);
         _ ← put_level orders_at_price (set_oap_next_entry_ None);
         put_level orders_at_price (set_oap_prev_entry_ None));
  _ ← price_map_assign (priceToIndex price) None;
  i ← deref orders_at_price;
  on_level_pool (deallocate i).

Definition getNextPriority (price : Z) : M MEOrderBook Z :=
  orders_at_price ← getOrdersAtPrice price;
  match orders_at_price with
  | None => mret 1
  | Some _ =>
    l ← get_level orders_at_price;
    first ← get_order (oap_first_me_order_ l);
    prev ← get_order (ord_prev_order_ first);
    mret (u64 (ord_priority_ prev + 1))
  end.

(** ** Orders *)
Definition removeOrder (order : option Z) : M MEOrderBook unit :=
  o ← get_order order;
  orders_at_price ← getOrdersAtPrice (ord_price_ o);
  _ ← (if decide (ord_prev_order_ o = order)
       then removeOrdersAtPrice (ord_side_ o) (ord_price_ o)
       else
         let order_before := ord_prev_order_ o in
         let order_after := ord_next_order_ o in
         _ ← put_order order_before (set_ord_next_order_ order_after);
         _ ← put_order order_after (set_ord_prev_order_ order_before);
         l ← get_level orders_at_price;
         _ ← (if decide (oap_first_me_order_ l = order)
              then put_level orders_at_price (set_oap_first_me_order_ order_after)
              else mret tt);
         _ ← put_order order (set_ord_next_order_ None);
         put_order order (set_ord_prev_order_ None));
  o ← get_order order;
  _ ← cid_oid_assign (ord_client_id_ o) (ord_client_order_id_ o) None;
  i ← deref order;
  on_order_pool (deallocate i).

Definition addOrder (order : option Z) : M MEOrderBook unit :=
  o ← get_order order;
  orders_at_price ← getOrdersAtPrice (ord_price_ o);
  _ ← (match orders_at_price with
       | None =>
         _ ← put_order order (set_ord_prev_order_ order);
         _ ← put_order order (set_ord_next_order_ order);
         new_orders_at_price ← on_level_pool
           (allocate (MkMEOrdersAtPrice (ord_side_ o) (ord_price_ o) order None None));
         addOrdersAtPrice new_orders_at_price
       | Some _ =>
         l ← get_level orders_at_price;
         let first_order := oap_first_me_order_ l in
         f ← get_order first_order;
         _ ← put_order (ord_prev_order_ f) (set_ord_next_order_ order);
         f ← get_order first_order;
         _ ← put_order order (set_ord_prev_order_ (ord_prev_order_ f));
         _ ← put_order order (set_ord_next_order_ first_order);
         put_order first_order (set_ord_prev_order_ order)
       end);
  o ← get_order order;
  cid_oid_assign (ord_client_id_ o) (ord_client_order_id_ o) order.

(** ** Matching, adding and cancelling *)
Section operations.
Context {E : Type} `{!EngineSink E}.

Definition on_book {A} : M MEOrderBook A → M (MEOrderBook * E) A :=
  zoom fst (λ b s, (b, s.2)).
Definition on_engine {A} : M E A → M (MEOrderBook * E) A :=
  zoom snd (λ e s, (s.1, e)).

(** [client_response_ = r; matching_engine_->sendClientResponse(&client_response_)],
    and the same for market updates. *)
Definition respond (r : MEClientResponse) : M (MEOrderBook * E) unit :=
  _ ← on_book (modify (set_client_response r)); on_engine (sink_response r).
Definition publish (u : MEMarketUpdate) : M (MEOrderBook * E) unit :=
  _ ← on_book (modify (set_market_update u)); on_engine (sink_update u).

(** The result is the new value of [*leaves_qty]. *)
Definition match_order (ticker_id client_id : Z) (side : Side)
    (client_order_id new_market_order_id : Z) (itr : option Z) (leaves_qty : Z) :
    M (MEOrderBook * E) Z :=
  order ← on_book (get_order itr);
  let order_qty := ord_qty_ order in
  let fill_qty := Z.min leaves_qty order_qty in
  let leaves_qty := u32 (leaves_qty - fill_qty) in
  _ ← on_book (put_order itr (λ o, set_ord_qty_ (u32 (ord_qty_ o - fill_qty)) o));
  order ← on_book (get_order itr);
  _ ← respond (MkMEClientResponse ClientResponseType_FILLED client_id ticker_id
         client_order_id new_market_order_id side (ord_price_ order) fill_qty leaves_qty);
  _ ← respond (MkMEClientResponse ClientResponseType_FILLED (ord_client_id_ order) ticker_id
         (ord_client_order_id_ order) (ord_market_order_id_ order) (ord_side_ order)
         (ord_price_ order) fill_qty (ord_qty_ order));
  _ ← publish (MkMEMarketUpdate MarketUpdateType_TRADE OrderId_INVALID ticker_id side
         (ord_price_ order) fill_qty Priority_INVALID);
  _ ← (if ord_qty_ order =? 0 then
         _ ← publish (MkMEMarketUpdate MarketUpdateType_CANCEL (ord_market_order_id_ order)
                ticker_id (ord_side_ order) (ord_price_ order) order_qty Priority_INVALID);
         on_book (removeOrder itr)
       else
         publish (MkMEMarketUpdate MarketUpdateType_MODIFY (ord_market_order_id_ order)
           ticker_id (ord_side_ order) (ord_price_ order) (ord_qty_ order)
           (ord_priority_ order)));
  mret leaves_qty.

(** The two loops of [checkForMatch] (a BUY walks the asks, a SELL the bids) are the
    same loop up to the side; [opp] is the side walked.  One iteration: *)
Fixpoint match_loop (fuel : nat) (client_id client_order_id ticker_id : Z) (side opp : Side)
    (price new_market_order_id leaves_qty : Z) : M (MEOrderBook * E) Z :=
  match fuel with
  | O => raise OutOfFuel
  | S fuel =>
    best ← on_book (gets (best_by_price opp));
    if (0 <? leaves_qty) && bool_decide (best ≠ None) then
      l ← on_book (get_level best);
      match oap_first_me_order_ l with
      | None => mret leaves_qty
      | Some itr =>
        o ← on_book (get_order (Some itr));
        if (if decide (side = Side_BUY) then price <? ord_price_ o
            else ord_price_ o <? price)
        then mret leaves_qty
        else
          leaves_qty ← match_order ticker_id client_id side client_order_id
                         new_market_order_id (Some itr) leaves_qty;
          best ← on_book (gets (best_by_price opp));
          l ← on_book (get_level best);
          _ ← (match oap_first_me_order_ l with
               | Some _ => mret tt
               | None =>
                 if decide (oap_next_entry_ l = best)
                 then on_book (modify (set_best_by_price opp None))
                 else on_book (modify (set_best_by_price opp (oap_next_entry_ l)))
               end);
          match_loop fuel client_id client_order_id ticker_id side opp price
            new_market_order_id leaves_qty
      end
    else mret leaves_qty
  end.

(** The parameter [new_market_order_id] is declared [Qty]: the order id is converted
    to 32 bits. *)
Definition checkForMatch (client_id client_order_id ticker_id : Z) (side : Side)
    (price qty new_market_order_id : Z) : M (MEOrderBook * E) Z :=
  let new_market_order_id := u32 new_market_order_id in
  fuel ← on_book (gets (λ b, S (size (store_ (order_pool_ b)))));
  match side with
  | Side_BUY => match_loop fuel client_id client_order_id ticker_id Side_BUY Side_SELL
                  price new_market_order_id qty
  | Side_SELL => match_loop fuel client_id client_order_id ticker_id Side_SELL Side_BUY
                  price new_market_order_id qty
  | _ => mret qty
  end.

Definition add (client_id client_order_id ticker_id : Z) (side : Side) (price qty : Z) :
    M (MEOrderBook * E) unit :=
  new_market_order_id ← on_book generateNewMarketOrderId;
  _ ← respond (MkMEClientResponse ClientResponseType_ACCEPTED client_id ticker_id
         client_order_id new_market_order_id side price 0 qty);
  leaves_qty ← checkForMatch client_id client_order_id ticker_id side price qty
                 new_market_order_id;
  if leaves_qty =? 0 then mret tt
  else
    priority ← on_book (getNextPriority price);
    order ← on_book (on_order_pool (allocate (MkMEOrder ticker_id client_id client_order_id
               new_market_order_id side price leaves_qty priority None None)));
    _ ← on_book (addOrder order);
    publish (MkMEMarketUpdate MarketUpdateType_ADD new_market_order_id ticker_id side price
               leaves_qty priority).

Definition cancel (client_id order_id ticker_id : Z) : M (MEOrderBook * E) unit :=
  exchange_order ←
    (if client_id <? ME_MAX_NUM_CLIENTS then on_book (cid_oid_at client_id order_id)
     else mret None);
  match exchange_order with
  | None =>
    let r := MkMEClientResponse ClientResponseType_CANCEL_REJECTED client_id ticker_id
               order_id OrderId_INVALID Side_INVALID Price_INVALID Qty_INVALID Qty_INVALID in
    _ ← on_book (modify (set_client_response r));
    on_engine (sink_response r)
  | Some i =>
    o ← on_book (get_order (Some i));
    let r := MkMEClientResponse ClientResponseType_CANCELED client_id ticker_id order_id
               (ord_market_order_id_ o) (ord_side_ o) (ord_price_ o) Qty_INVALID
               (ord_qty_ o) in
    let u := MkMEMarketUpdate MarketUpdateType_CANCEL (ord_market_order_id_ o) ticker_id
               (ord_side_ o) (ord_price_ o) 0 (ord_priority_ o) in
    _ ← on_book (modify (set_client_response r));
    _ ← on_book (modify (set_market_update u));
    _ ← on_book (removeOrder (Some i));
    _ ← on_engine (sink_update u);
    on_engine (sink_response r)
  end.
End operations.
