(* ===== verification/MEOrderBookInv.v ===== *)
(** The heap of [MEOrderBook] as a [view], its invariant, and the functional behaviour of the member
    functions that do the pointer surgery.  What each access of the heap does to the view makes
    the class [BookLaws]; [removeOrder] and [addOrder] are then the shared programs of [BookHeap],
    and [addOrdersAtPrice] and [getNextPriority], which are this book's own, are verified here. *)
From S2P Require Export MEOrderBook MEOrderBookSpec BookHeap.

Definition resting_of (o : MEOrder) : resting :=
  MkResting (ord_client_id_ o) (ord_client_order_id_ o) (ord_market_order_id_ o)
    (ord_side_ o) (ord_price_ o) (ord_qty_ o) (ord_priority_ o).

Definition view_of (b : MEOrderBook) : view resting (Z * Z) :=
  let lp := orders_at_price_pool_ b in
  let op := order_pool_ b in
  MkView (λ s, best_by_price (to_side s) b)
    (λ p, oap_side_ (obj lp p)) (λ p, oap_price_ (obj lp p))
    (λ p, oap_first_me_order_ (obj lp p)) (λ p, oap_prev_entry_ (obj lp p))
    (λ p, oap_next_entry_ (obj lp p)) (λ p, negb (is_free lp p))
    (λ o, resting_of (obj op o)) (λ o, ord_prev_order_ (obj op o))
    (λ o, ord_next_order_ (obj op o)) (λ o, negb (is_free op o))
    (λ i, price_orders_at_price_ b !! i) (λ k, cid_oid_to_order_ b !! k).

Definition order_ok (r : resting) : Prop :=
  0 ≤ r_qty r < 2 ^ 32 ∧
  cid_oid_in_range (r_client_id r) (r_client_order_id r) = true.

Record pools_ok (b : MEOrderBook) : Prop := {
  po_orders : pool_wf (order_pool_ b);
  po_levels : pool_wf (orders_at_price_pool_ b);
  po_orders_size : store_size (order_pool_ b) = ME_MAX_ORDER_IDS;
  po_levels_size : store_size (orders_at_price_pool_ b) = ME_MAX_PRICE_LEVELS;
}.

Lemma priceToIndex_range price : 0 ≤ priceToIndex price < ME_MAX_PRICE_LEVELS.
Proof. apply Z.mod_pos_bound. done. Qed.

(** The counters of a book: the next order id, and the slot each pool hands out next. *)
Record counters : Type := MkCounters {
  ct_next_id : Z;
  ct_order_slot : Z;
  ct_level_slot : Z;
}.
Definition counters_of (b : MEOrderBook) : counters :=
  MkCounters (next_market_order_id_ b) (next_free_ (order_pool_ b))
    (next_free_ (orders_at_price_pool_ b)).
Definition bump_order_slot (n : counters) : counters :=
  MkCounters (ct_next_id n) ((ct_order_slot n + 1) mod ME_MAX_ORDER_IDS) (ct_level_slot n).
Definition bump_level_slot (n : counters) : counters :=
  MkCounters (ct_next_id n) (ct_order_slot n) ((ct_level_slot n + 1) mod ME_MAX_PRICE_LEVELS).

(** [denotes b V n]: the heap of [b] is [V], and its counters are [n]. *)
Record denotes (b : MEOrderBook) (V : view resting (Z * Z)) (n : counters) : Prop := {
  dn_view : view_of b = V;
  dn_pools : pools_ok b;
  dn_counters : counters_of b = n;
}.

Lemma denotes_eq b V V' n : denotes b V n → V = V' → denotes b V' n.
Proof. by intros ? <-. Qed.
(** ** The accesses of the member functions, on views *)
Section accesses.
Context (b : MEOrderBook) (V : view resting (Z * Z)) (n : counters) (Hb : denotes b V n).

Ltac view_tac :=
  apply view_ext; simpl; intros; unfold insert, fn_insert;
  rewrite ?obj_set_obj, ?is_free_set_obj, ?obj_set_free, ?is_free_set_free,
    ?obj_allocated, ?is_free_allocated, ?lookup_partial_alter;
  repeat case_decide; subst; split_and?; done.
Ltac den := split; [|destruct (dn_pools _ _ _ Hb); split; simpl; auto with hft|apply Hb];
  rewrite <- (dn_view _ _ _ Hb); view_tac.

Lemma wp_get_order i Φ :
  (∀ tk, let d := v_data V i in
    Φ (MkMEOrder tk (r_client_id d) (r_client_order_id d) (r_market_order_id d) (r_side d)
         (r_price d) (r_qty d) (r_priority d) (v_oprev V i) (v_onext V i)) b) →
  wp (get_order (Some i)) b Φ.
Proof.
  rewrite <- (dn_view _ _ _ Hb). intros H. unfold wp. simpl.
  specialize (H (ord_ticker_id_ (obj (order_pool_ b) i))). simpl in H.
  by destruct (obj (order_pool_ b) i).
Qed.
Lemma wp_get_level p Φ :
  Φ (MkMEOrdersAtPrice (v_lside V p) (v_lprice V p) (v_lfirst V p) (v_lprev V p) (v_lnext V p)) b →
  wp (get_level (Some p)) b Φ.
Proof.
  rewrite <- (dn_view _ _ _ Hb). intros H. unfold wp. simpl in *.
  by destruct (obj (orders_at_price_pool_ b) p).
Qed.
Lemma wp_get_best s Φ : Φ (v_best V s) b → wp (gets (best_by_price (to_side s))) b Φ.
Proof. by rewrite <- (dn_view _ _ _ Hb). Qed.
Lemma wp_getOrdersAtPrice price Φ :
  Φ (v_pmap V (priceToIndex price)) b → wp (getOrdersAtPrice price) b Φ.
Proof.
  rewrite <- (dn_view _ _ _ Hb). intros H. unfold wp, getOrdersAtPrice, price_map_at.
  pose proof (priceToIndex_range price). by rewrite (proj2 (andb_true_iff _ _)) by lia.
Qed.
Lemma wp_cid_oid_at c o Φ :
  cid_oid_in_range c o = true → Φ (v_omap V (c, o)) b → wp (cid_oid_at c o) b Φ.
Proof. rewrite <- (dn_view _ _ _ Hb). intros Hr H. unfold wp, cid_oid_at. by rewrite Hr. Qed.

Lemma wp_put_order_next i v (Φ : unit → MEOrderBook → Prop) :
  (∀ b', denotes b' (vs_onext i v V) n → Φ tt b') →
  wp (put_order (Some i) (set_ord_next_order_ v)) b Φ.
Proof. intros H. apply H. den. Qed.
Lemma wp_put_order_prev i v (Φ : unit → MEOrderBook → Prop) :
  (∀ b', denotes b' (vs_oprev i v V) n → Φ tt b') →
  wp (put_order (Some i) (set_ord_prev_order_ v)) b Φ.
Proof. intros H. apply H. den. Qed.
Lemma wp_put_level_first i v (Φ : unit → MEOrderBook → Prop) :
  (∀ b', denotes b' (vs_lfirst i v V) n → Φ tt b') →
  wp (put_level (Some i) (set_oap_first_me_order_ v)) b Φ.
Proof. intros H. apply H. den. Qed.
Lemma wp_put_level_prev i v (Φ : unit → MEOrderBook → Prop) :
  (∀ b', denotes b' (vs_lprev i v V) n → Φ tt b') →
  wp (put_level (Some i) (set_oap_prev_entry_ v)) b Φ.
Proof. intros H. apply H. den. Qed.
Lemma wp_put_level_next i v (Φ : unit → MEOrderBook → Prop) :
  (∀ b', denotes b' (vs_lnext i v V) n → Φ tt b') →
  wp (put_level (Some i) (set_oap_next_entry_ v)) b Φ.
Proof. intros H. apply H. den. Qed.
Lemma wp_set_best s p (Φ : unit → MEOrderBook → Prop) :
  (∀ b', denotes b' (vs_best s p V) n → Φ tt b') →
  wp (modify (set_best_by_price (to_side s) p)) b Φ.
Proof.
  intros H. apply H. destruct Hb as [<- [] <-]. destruct s; split; try done;
    apply view_ext; simpl; intros; try done; unfold insert, fn_insert;
    repeat case_decide; subst; try done; by destruct s.
Qed.
Lemma wp_price_map_assign price p (Φ : unit → MEOrderBook → Prop) :
  (∀ b', denotes b' (vs_pmap (priceToIndex price) p V) n → Φ tt b') →
  wp (price_map_assign (priceToIndex price) p) b Φ.
Proof.
  intros H. unfold price_map_assign. pose proof (priceToIndex_range price).
  rewrite (proj2 (andb_true_iff _ _)) by lia. apply H. den.
Qed.
Lemma wp_cid_oid_assign c o p (Φ : unit → MEOrderBook → Prop) :
  cid_oid_in_range c o = true →
  (∀ b', denotes b' (vs_omap (c, o) p V) n → Φ tt b') → wp (cid_oid_assign c o p) b Φ.
Proof. intros Hr H. unfold cid_oid_assign. rewrite Hr. apply H. den. Qed.
Lemma wp_dealloc_order i (Φ : unit → MEOrderBook → Prop) :
  0 ≤ i < ME_MAX_ORDER_IDS →
  (∀ b', denotes b' (vs_olive i false V) n → Φ tt b') →
  wp (on_order_pool (deallocate i)) b Φ.
Proof.
  intros Hi H. apply wp_zoom. pose proof (po_orders_size _ (dn_pools _ _ _ Hb)).
  unfold wp. rewrite deallocate_ok by (unfold in_store; lia). apply H. den.
Qed.
Lemma wp_dealloc_level i (Φ : unit → MEOrderBook → Prop) :
  0 ≤ i < ME_MAX_PRICE_LEVELS →
  (∀ b', denotes b' (vs_llive i false V) n → Φ tt b') →
  wp (on_level_pool (deallocate i)) b Φ.
Proof.
  intros Hi H. apply wp_zoom. pose proof (po_levels_size _ (dn_pools _ _ _ Hb)).
  unfold wp. rewrite deallocate_ok by (unfold in_store; lia). apply H. den.
Qed.
Lemma wp_alloc_order i x (Φ : option Z → MEOrderBook → Prop) :
  ct_order_slot n = i → v_olive V i = false →
  ord_prev_order_ x = None → ord_next_order_ x = None →
  (∀ b', denotes b' (vs_order i (resting_of x) V) (bump_order_slot n) → Φ (Some i) b') →
  wp (on_order_pool (allocate x)) b Φ.
Proof.
  rewrite <- (dn_counters _ _ _ Hb). intros Hi Hf Hp Hn H. apply wp_zoom. unfold wp.
  assert (is_free (order_pool_ b) (next_free_ (order_pool_ b)) = true) as Hf'.
  { simpl in Hi. rewrite Hi. rewrite <- (dn_view _ _ _ Hb) in Hf. simpl in Hf. by destruct (is_free _ _). }
  rewrite allocate_free by (done || apply (dn_pools _ _ _ Hb)).
  simpl in Hi. rewrite Hi. apply H. split.
  - rewrite <- (dn_view _ _ _ Hb). view_tac; congruence.
  - destruct (dn_pools _ _ _ Hb). split; simpl; auto with hft.
  - unfold counters_of, bump_order_slot, bump_level_slot. simpl.
    by rewrite ?(po_orders_size _ (dn_pools _ _ _ Hb)), ?(po_levels_size _ (dn_pools _ _ _ Hb)).
Qed.
Lemma wp_alloc_level i x (Φ : option Z → MEOrderBook → Prop) :
  ct_level_slot n = i → v_llive V i = false →
  oap_prev_entry_ x = None → oap_next_entry_ x = None →
  (∀ b', denotes b' (vs_level i (oap_side_ x) (oap_price_ x) (oap_first_me_order_ x) V)
     (bump_level_slot n) → Φ (Some i) b') →
  wp (on_level_pool (allocate x)) b Φ.
Proof.
  rewrite <- (dn_counters _ _ _ Hb). intros Hi Hf Hp Hn H. apply wp_zoom. unfold wp.
  assert (is_free (orders_at_price_pool_ b) (next_free_ (orders_at_price_pool_ b)) = true) as Hf'.
  { simpl in Hi. rewrite Hi. rewrite <- (dn_view _ _ _ Hb) in Hf. simpl in Hf. by destruct (is_free _ _). }
  rewrite allocate_free by (done || apply (dn_pools _ _ _ Hb)).
  simpl in Hi. rewrite Hi. apply H. split.
  - rewrite <- (dn_view _ _ _ Hb). view_tac; congruence.
  - destruct (dn_pools _ _ _ Hb). split; simpl; auto with hft.
  - unfold counters_of, bump_order_slot, bump_level_slot. simpl.
    by rewrite ?(po_orders_size _ (dn_pools _ _ _ Hb)), ?(po_levels_size _ (dn_pools _ _ _ Hb)).
Qed.
End accesses.

(** [wps] runs a member function up to the next conditional, keeping track of the view. *)
Ltac wps_rule :=
  lazymatch goal with
  | |- wp (mret _) _ _ => apply wp_ret
  | |- wp (deref (Some _)) _ _ => apply wp_deref
  | |- wp (get_order (Some _)) _ _ => eapply wp_get_order; [eassumption|intros ?]
  | |- wp (get_level (Some _)) _ _ => eapply wp_get_level; [eassumption|]
  | |- wp (gets (best_by_price (to_side _))) _ _ => eapply wp_get_best; [eassumption|]
  | |- wp (getOrdersAtPrice _) _ _ => eapply wp_getOrdersAtPrice; [eassumption|]
  | |- wp (put_order (Some _) (set_ord_next_order_ _)) _ _ =>
    eapply wp_put_order_next; [eassumption|intros ? ?]
  | |- wp (put_order (Some _) (set_ord_prev_order_ _)) _ _ =>
    eapply wp_put_order_prev; [eassumption|intros ? ?]
  | |- wp (put_level (Some _) (set_oap_first_me_order_ _)) _ _ =>
    eapply wp_put_level_first; [eassumption|intros ? ?]
  | |- wp (put_level (Some _) (set_oap_prev_entry_ _)) _ _ =>
    eapply wp_put_level_prev; [eassumption|intros ? ?]
  | |- wp (put_level (Some _) (set_oap_next_entry_ _)) _ _ =>
    eapply wp_put_level_next; [eassumption|intros ? ?]
  | |- wp (modify (set_best_by_price (to_side _) _)) _ _ =>
    eapply wp_set_best; [eassumption|intros ? ?]
  | |- wp (price_map_assign _ _) _ _ => eapply wp_price_map_assign; [eassumption|intros ? ?]
  end.
Ltac wps :=
  repeat (lazymatch goal with
    | |- wp (_ ≫= _) _ _ => apply wp_bind
    | _ => wps_rule
    end; cbn -[wp to_side obj ME_MAX_PRICE_LEVELS priceToIndex get_order get_level put_order put_level
      gets modify deref insert]).

(** ** The invariant *)
Abbreviation vinv := (BookHeap.vinv priceToIndex order_ok).

(** ** addOrdersAtPrice *)
Section walk.
Context (b : MEOrderBook) (W : view resting (Z * Z)) (n : counters) (Hb : denotes b W n).
Context (s : bool) (px : Z) (ls : list Z).
Context (Hring : ring (v_lnext W) (v_lprev W) ls) (Hnd : NoDup ls).
Context (Hlive : ∀ q, q ∈ ls → v_llive W q = true).

Lemma levels_fuel : (length ls ≤ size (store_ (orders_at_price_pool_ b)))%nat.
Proof.
  apply live_count; [done|]. apply Forall_forall. intros q Hq. specialize (Hlive q Hq).
  rewrite <- (dn_view _ _ _ Hb) in Hlive. simpl in Hlive. unfold live.
  by destruct (is_free _ _).
Qed.

(** The walk stops at the first level that is worse than [px], or at the last level. *)
Lemma wp_find_target fuel best pre t suf :
  head ls = best → ls = pre ++ t :: suf → (length suf < fuel)%nat →
  (∀ q, q ∈ pre → ¬ better s px (v_lprice W q)) →
  wp (find_target fuel (to_side s) px best (Some t)) b (λ r b', b' = b ∧
    ∃ pre' t' suf', r = Some t' ∧ ls = pre' ++ t' :: suf' ∧
      (∀ q, q ∈ pre' → ¬ better s px (v_lprice W q)) ∧
      (better s px (v_lprice W t') ∨ suf' = [])).
Proof.
  intros <-. revert pre t suf. induction fuel as [|fuel IH]; intros pre t suf Hls Hf Hpre; [lia|].
  cbn [find_target]. wps.
  assert ((if decide (to_side s = Side_BUY) then px <=? v_lprice W t else v_lprice W t <=? px)
    = bool_decide (¬ better s px (v_lprice W t))) as ->.
  { destruct s; simpl; case_bool_decide; lia. }
  assert (bool_decide (v_lnext W t = head ls) = bool_decide (suf = [])) as ->.
  { apply bool_decide_ext. rewrite Hls in Hring. rewrite (ring_next_head _ _ _ _ _ Hring).
    rewrite Hls. rewrite Hls in Hnd. destruct suf as [|y suf]; simpl.
    - destruct pre; simpl; done.
    - split; [|done]. destruct pre as [|x pre]; simpl; intros ?; simplify_eq.
      + apply NoDup_cons in Hnd as [Hn _]. destruct Hn. left.
      + apply NoDup_cons in Hnd as [Hn _]. exfalso. apply Hn.
        apply elem_of_app. right. right. left. }
  destruct (bool_decide_reflect (¬ better s px (v_lprice W t))) as [Hnb|Hnb]; simpl;
    [destruct (bool_decide_reflect (suf = [])) as [Hs|Hs]; simpl|].
  - wps. split; [done|]. exists pre, t, suf. auto.
  - destruct suf as [|y suf]; [done|].
    assert (v_lnext W t = Some y) as ->.
    { rewrite Hls in Hring. by rewrite (ring_next_head _ _ _ _ _ Hring). }
    apply (IH (pre ++ [t]) y suf); [by rewrite <- (assoc_L (++))|simpl in *; lia|].
    intros q [?| ->%list_elem_of_singleton]%elem_of_app; auto.
  - wps. split; [done|]. exists pre, t, suf. split_and!; auto. left. by apply dec_stable.
Qed.
End walk.

Lemma addOrdersAtPrice_ok b W n s px ls p :
  denotes b W n → linkable W s px ls p →
  wp (addOrdersAtPrice (Some p)) b (λ _ b', ∃ l1 l2 z x,
    placed W s px ls p l1 l2 z x ∧ denotes b' (level_linked priceToIndex W s px p l1 l2 z x) n).
Proof.
  intros Hb Hlk. pose proof Hlk as [Hring Hnd Hlive Hbest Hsorted Hfresh Hp Hside Hprice].
  unfold addOrdersAtPrice. wps. rewrite Hprice, Hside.
  pose proof (priceToIndex_range px) as Hpi.
  assert (ME_MAX_PRICE_LEVELS <=? priceToIndex px = false) as -> by lia.
  wps. rewrite Hbest. case_eq (head ls); [intros best Hhead|intros Hhead].
  2:{ wps. exists [], [], p, p. apply head_None in Hhead. unfold placed.
      split; [by rewrite Hhead; split_and!; try done; intros q ?%not_elem_of_nil|].
      eapply denotes_eq; [done|]. view_ext_tac. }
  apply wp_bind, wp_gets, wp_bind.
  apply head_Some in Hhead as Hls. destruct Hls as [suf Hls].
  eapply wp_mono.
  { eapply (wp_find_target b' _ n ltac:(eassumption) s px ls Hring Hnd Hlive _ _ [] best suf); try done.
    - pose proof (levels_fuel b' _ n ltac:(eassumption) ls Hnd Hlive) as Hl.
      rewrite Hls in Hl. simpl in Hl. lia.
    - by intros q ?%not_elem_of_nil. }
  intros r ? (-> & pre & t & suf' & -> & Hls' & Hpre & Hstop).
  wps.
  assert ((if decide (to_side s = Side_BUY) then v_lprice W t <? px else px <? v_lprice W t)
    = bool_decide (better s px (v_lprice W t))) as ->.
  { destruct s; simpl; case_bool_decide; lia. }
  simpl in Hpre, Hstop. case_bool_decide as Hbt.
  - destruct (placed_before W s px ls p Hlk pre t suf' Hls' Hpre Hbt) as (z & Hz & Hzin & Hplaced).
    assert (t ≠ p) as Htp by (intros ->; apply Hp; rewrite Hls'; apply elem_of_insert; auto).
    wps. rewrite Hz. wps. rewrite fn_lookup_insert_ne, Hz by done. wps.
    assert (bool_decide (to_side s = Side_BUY) && (v_lprice W best <? px)
        || bool_decide (to_side s = Side_SELL) && (px <? v_lprice W best)
      = bool_decide (better s px (v_lprice W best))) as ->.
    { by destruct s; simpl; case_bool_decide; repeat case_bool_decide; simplify_eq; lia. }
    assert (z ≠ p) by (intros ->; auto).
    destruct pre as [|y pre]; simpl in Hls'; rewrite Hls in Hls'; injection Hls' as <- _.
    + rewrite bool_decide_true by done. wps. exists [], (best :: suf'), z, best.
      split; [done|]. eapply denotes_eq; [eassumption|]. view_ext_tac.
    + rewrite bool_decide_false by (apply Hpre; left). wps.
      exists (best :: pre), (t :: suf'), z, t. split; [done|].
      eapply denotes_eq; [eassumption|]. view_ext_tac.
  - destruct Hstop as [? | ->]; [done|].
    destruct (placed_after W s px ls p Hlk pre t Hls' Hpre Hbt) as (x & Hx & Hxin & Hhx & Hplaced).
    assert (t ≠ p) as Htp by (intros ->; apply Hp; rewrite Hls'; apply elem_of_insert; auto).
    assert (x ≠ p) by (intros ->; auto).
    wps. rewrite !fn_lookup_insert_ne, Hx by done. wps.
    exists ls, [], t, x. split; [done|]. eapply denotes_eq; [eassumption|]. view_ext_tac.
Qed.

(** ** The shared member functions *)
#[export] Instance MEOrderBook_ops : BookOps MEOrderBook resting := {|
  on_data := resting_of;
  on_prev := ord_prev_order_;
  on_next := ord_next_order_;
  ln_side := oap_side_;
  ln_price := oap_price_;
  ln_first := oap_first_me_order_;
  ln_prev := oap_prev_entry_;
  ln_next := oap_next_entry_;
  op_get_order := get_order;
  op_put_oprev i v := put_order i (set_ord_prev_order_ v);
  op_put_onext i v := put_order i (set_ord_next_order_ v);
  op_get_level := get_level;
  op_put_lfirst i v := put_level i (set_oap_first_me_order_ v);
  op_put_lprev i v := put_level i (set_oap_prev_entry_ v);
  op_put_lnext i v := put_level i (set_oap_next_entry_ v);
  op_get_best side := gets (best_by_price side);
  op_set_best side p := modify (set_best_by_price side p);
  op_level_at := getOrdersAtPrice;
  op_level_assign price := price_map_assign (priceToIndex price);
  op_key_assign o := cid_oid_assign (ord_client_id_ o) (ord_client_order_id_ o);
  op_free_order i := on_order_pool (deallocate i);
  op_free_level i := on_level_pool (deallocate i);
  op_new_level side price first :=
    on_level_pool (allocate (MkMEOrdersAtPrice side price first None None));
  op_link_level := addOrdersAtPrice;
|}.
Lemma removeOrdersAtPrice_heap : removeOrdersAtPrice = heap_removeOrdersAtPrice.
Proof. reflexivity. Qed.
Lemma removeOrder_heap : removeOrder = heap_removeOrder.
Proof. reflexivity. Qed.
Lemma addOrder_heap : addOrder = heap_addOrder.
Proof. reflexivity. Qed.

#[export] Program Instance MEOrderBook_laws :
  BookLaws MEOrderBook resting (Z * Z) counters priceToIndex order_ok := {|
  heap_is := denotes;
  level_slot := ct_level_slot;
  next_level_slot := bump_level_slot;
|}.
Next Obligation. intros b V n i Φ Hb H. eapply wp_get_order; [exact Hb|]. intros tk. by apply H; destruct (v_data V i). Qed.
Next Obligation. intros b V n p Φ Hb H. eapply wp_get_level; [exact Hb|]. by apply H. Qed.
Next Obligation. intros. by eapply wp_get_best. Qed.
Next Obligation. intros. by eapply wp_getOrdersAtPrice. Qed.
Next Obligation. intros. by eapply wp_put_order_next. Qed.
Next Obligation. intros. by eapply wp_put_order_prev. Qed.
Next Obligation. intros. by eapply wp_put_level_first. Qed.
Next Obligation. intros. by eapply wp_put_level_prev. Qed.
Next Obligation. intros. by eapply wp_put_level_next. Qed.
Next Obligation. intros. by eapply wp_set_best. Qed.
Next Obligation. intros. by eapply wp_price_map_assign. Qed.
Next Obligation. intros b V n x p Φ Hb [_ Hr] H. by eapply wp_cid_oid_assign. Qed.
Next Obligation. intros. by eapply wp_dealloc_order. Qed.
Next Obligation. intros. by eapply wp_dealloc_level. Qed.
Next Obligation. intros. by eapply wp_alloc_level. Qed.
Next Obligation. intros. by apply addOrdersAtPrice_ok. Qed.

Lemma removeOrder_ok b L V n s l1 p os1 o os2 l2 :
  denotes b V n → vinv V L → L s = l1 ++ (p, os1 ++ o :: os2) :: l2 →
  wp (removeOrder (Some o)) b (λ _ b', ∃ V', denotes b' V' n ∧ shrinks V V' ∧
    (∀ w, v_data V' w = v_data V w) ∧ (∀ q, v_lprice V' q = v_lprice V q) ∧
    vinv V' (<[s := without l1 p (os1 ++ os2) l2]> L)).
Proof. exact (heap_removeOrder_ok priceToIndex order_ok (BookLaws0 := MEOrderBook_laws) b L V n s l1 p os1 o os2 l2). Qed.

Section add_order.
Context (b : MEOrderBook) (L : layout) (V : view resting (Z * Z)) (n : counters) (o : Z) (d : resting).
Context (Hb : denotes b (vs_order o d V) n) (Hinv : vinv V L).
Context (s : bool) (Hside : r_side d = to_side s).
Context (Ho : v_olive V o = false) (Hor : 0 ≤ o < ME_MAX_ORDER_IDS) (Hd : order_ok d).
Context (Hkey : v_omap V (r_key d) = None).

Lemma addOrder_push l1 p os l2 :
  L s = l1 ++ (p, os) :: l2 → v_lprice V p = r_price d →
  wp (addOrder (Some o)) b (λ _ b', ∃ V', denotes b' V' n ∧
    v_data V' = <[o := d]> (v_data V) ∧ v_lprice V' = v_lprice V ∧
    vinv V' (<[s := l1 ++ (p, os ++ [o]) :: l2]> L)).
Proof.
  exact (heap_addOrder_push priceToIndex order_ok (BookLaws0 := MEOrderBook_laws) b L V n o d
    Hb Hinv s Hside Ho Hor Hd Hkey l1 p os l2).
Qed.
Lemma addOrder_new p :
  ct_level_slot n = p → v_llive V p = false → 0 ≤ p < ME_MAX_PRICE_LEVELS →
  v_pmap V (priceToIndex (r_price d)) = None →
  wp (addOrder (Some o)) b (λ _ b', ∃ V' l1 l2, denotes b' V' (bump_level_slot n) ∧
    v_data V' = <[o := d]> (v_data V) ∧ v_lprice V' = <[p := r_price d]> (v_lprice V) ∧
    L s = l1 ++ l2 ∧ (∀ q, q ∈ lvls l1 → better s (v_lprice V q) (r_price d)) ∧
    (∀ q, q ∈ lvls l2 → better s (r_price d) (v_lprice V q)) ∧
    vinv V' (<[s := l1 ++ (p, [o]) :: l2]> L)).
Proof.
  exact (heap_addOrder_new priceToIndex order_ok (BookLaws0 := MEOrderBook_laws) b L V n o d
    Hb Hinv s Hside Ho Hor Hd Hkey p).
Qed.
End add_order.
