(* ===== verification/MEOrderBookRefine.v ===== *)
(** [MEOrderBook] refines the book of [MEOrderBookSpec].

    [represents b n k] relates a book [b] of the code to an abstract book [k].  Matching,
    adding and cancelling on [b] return, send exactly what the specification sends, and
    leave a book that represents the specified one, whatever the matching engine behind
    [EngineSink] is, as long as it has room for the messages.  The one exception is part
    of the theorems: when a taker consumes the last order of the opposite side, the code
    reads through the null best-level pointer. *)
From Stdlib Require Import FunctionalExtensionality.
From S2P Require Export BookAbs MEOrderBookInv.

(** Reads the fields of orders given by their constructors. *)
Ltac read_fields :=
  cbn [ord_client_id_ ord_client_order_id_ ord_market_order_id_ ord_side_ ord_price_ ord_qty_
    ord_priority_ oap_first_me_order_ r_client_id r_client_order_id r_market_order_id r_side
    r_price r_qty r_priority set_r_qty f_order f_leaves].

(** ** What the book relies on of its matching engine *)
Class SinkLaws (E : Type) `{!EngineSink E} := {
  (** [sink_state e nr nu rs us]: [e] has sent the responses [rs] and the updates [us],
      and has room for [nr] more responses and [nu] more updates. *)
  sink_state : E → nat → nat → list MEClientResponse → list MEMarketUpdate → Prop;
  sink_response_spec e nr nu rs us r :
    sink_state e (S nr) nu rs us →
    wp (sink_response r) e (λ _ e', sink_state e' nr nu (rs ++ [r]) us);
  sink_update_spec e nr nu rs us u :
    sink_state e nr (S nu) rs us →
    wp (sink_update u) e (λ _ e', sink_state e' nr nu rs (us ++ [u]));
}.

(** ** The abstraction *)
(** The book [b] represents [k]. *)
Definition represents (b : MEOrderBook) (k : sbook) : Prop :=
  ∃ V L, denotes b V (counters_of b) ∧ vinv V L ∧ abs_book V L = k.

Section refine.
Context {E : Type} `{!EngineSink E, !SinkLaws E}.
Implicit Types (e : E) (b : MEOrderBook) (n : counters).

Lemma wp_on_book {A} (m : M MEOrderBook A) b e (Φ : A → MEOrderBook * E → Prop) :
  wp m b (λ a b', Φ a (b', e)) → wp (on_book m) (b, e) Φ.
Proof. apply (wp_zoom fst (λ b s, (b, s.2)) m (b, e)). Qed.
Lemma wp_on_engine {A} (m : M E A) b e (Φ : A → MEOrderBook * E → Prop) :
  wp m e (λ a e', Φ a (b, e')) → wp (on_engine m) (b, e) Φ.
Proof. apply (wp_zoom snd (λ e s, (s.1, e)) m (b, e)). Qed.

Lemma denotes_set_response b V n r : denotes b V n → denotes (set_client_response r b) V n.
Proof. intros [? [] ?]. by split. Qed.
Lemma denotes_set_update b V n u : denotes b V n → denotes (set_market_update u b) V n.
Proof. intros [? [] ?]. by split. Qed.

Lemma wp_respond b e V n nr nu rs us r (Φ : unit → MEOrderBook * E → Prop) :
  denotes b V n → sink_state e (S nr) nu rs us →
  (∀ b' e', denotes b' V n → sink_state e' nr nu (rs ++ [r]) us → Φ tt (b', e')) →
  wp (respond r) (b, e) Φ.
Proof.
  intros Hb He H. unfold respond. apply wp_bind, wp_on_book, wp_modify, wp_on_engine.
  eapply wp_mono; [by apply sink_response_spec|]. intros [] e' He'.
  apply H; [by apply denotes_set_response|done].
Qed.
Lemma wp_publish b e V n nr nu rs us u (Φ : unit → MEOrderBook * E → Prop) :
  denotes b V n → sink_state e nr (S nu) rs us →
  (∀ b' e', denotes b' V n → sink_state e' nr nu rs (us ++ [u]) → Φ tt (b', e')) →
  wp (publish u) (b, e) Φ.
Proof.
  intros Hb He H. unfold publish. apply wp_bind, wp_on_book, wp_modify, wp_on_engine.
  eapply wp_mono; [by apply sink_update_spec|]. intros [] e' He'.
  apply H; [by apply denotes_set_update|done].
Qed.

Lemma wp_put_order_qty b V n i (f : Z → Z) (Φ : unit → MEOrderBook → Prop) :
  denotes b V n →
  (∀ b', denotes b' (vs_data i (set_r_qty (f (r_qty (v_data V i))) (v_data V i)) V) n →
     Φ tt b') →
  wp (put_order (Some i) (λ o, set_ord_qty_ (f (ord_qty_ o)) o)) b Φ.
Proof.
  intros Hb H. apply H. split; [|destruct (dn_pools _ _ _ Hb); split; simpl; auto with hft|apply Hb].
  rewrite <- (dn_view _ _ _ Hb). apply view_ext; simpl; intros; unfold insert, fn_insert;
    rewrite ?obj_set_obj, ?is_free_set_obj; repeat case_decide; subst; split_and?; done.
Qed.

(** ** One fill *)
Section fill.
Context (t : taker) (b : MEOrderBook) (e : E) (V : view resting (Z * Z)) (L : layout)
  (n : counters) (p o : Z) (os : list Z) (l2 : list (Z * list Z)) (leaves : Z).
Context (Hb : denotes b V n) (Hinv : vinv V L)
  (HL : L (negb (t_side t)) = (p, o :: os) :: l2) (Hl : 0 < leaves < 2 ^ 32).
Context (nr nu : nat) (rs : list MEClientResponse) (us : list MEMarketUpdate)
  (He : sink_state e (2 + nr) (2 + nu) rs us).

Let r : resting := v_data V o.
Let f : fill := MkFill r leaves.
Let V1 : view resting (Z * Z) := vs_data o (set_r_qty (r_qty r - f_qty f) r) V.

Lemma first_order_live : o ∈ ords (L (negb (t_side t))) ∧ v_olive V o = true.
Proof.
  assert (o ∈ ords (L (negb (t_side t)))) as Hin by (rewrite HL; left).
  split; [done|]. eapply wf_order_live; [apply Hinv|done].
Qed.

Lemma vinv_set_qty : vinv V1 L.
Proof.
  destruct first_order_live as [Hin Ho]. unfold V1. split; simpl.
  - apply wf_vs_data with (negb (t_side t)); try done. apply Hinv.
  - apply Hinv.
  - apply Hinv.
  - intros w Hw. unfold insert, fn_insert. case_decide; [|by apply Hinv].
    destruct (vi_orders _ _ Hinv o Ho) as [Hq Hr]. split; [|done].
    unfold set_r_qty, f_qty, f, r. simpl. lia.
Qed.

Lemma match_order_ok :
  wp (match_order (t_ticker_id t) (t_client_id t) (to_side (t_side t)) (t_client_order_id t)
        (u32 (t_market_order_id t)) (Some o) leaves) (b, e)
    (λ lv s, lv = leaves - f_qty f ∧ ∃ V' L', denotes s.1 V' n ∧ vinv V' L' ∧ shrinks V V' ∧
      sink_state s.2 nr nu (rs ++ fill_responses t f) (us ++ fill_updates t f) ∧
      L' = <[negb (t_side t) := if r_qty r <=? leaves then without [] p os l2
                                else (p, o :: os) :: l2]> L ∧
      v_data V' = v_data V1 ∧ v_lprice V' = v_lprice V).
Proof.
  destruct first_order_live as [Hin Ho].
  destruct (vi_orders _ _ Hinv o Ho) as [Hq _]. fold r in Hq.
  pose proof vinv_set_qty as Hinv1.
  unfold match_order. apply wp_bind, wp_on_book. eapply wp_get_order; [eassumption|].
  intros tk d. fold r in d. unfold d. cbn [ord_qty_].
  assert (Z.min leaves (r_qty r) = f_qty f) as -> by done.
  assert (0 ≤ f_qty f ≤ leaves ∧ f_qty f ≤ r_qty r) as Hf by (unfold f_qty, f; simpl; lia).
  apply wp_bind, wp_on_book.
  apply (wp_put_order_qty b V n o (λ q, u32 (q - f_qty f))); [done|].
  fold r. rewrite (u32_id (r_qty r - _)), (u32_id (leaves - _)) by lia. fold V1.
  intros b1 Hb1.
  apply wp_bind, wp_on_book. eapply wp_get_order; [eassumption|]. intros tk1 d1. unfold d1.
  assert (v_data V1 o = set_r_qty (r_qty r - f_qty f) r) as -> by apply fn_lookup_insert.
  read_fields.
  apply wp_bind. eapply wp_respond; [exact Hb1|exact He|]. intros b2 e2 Hb2 He2.
  apply wp_bind. eapply wp_respond; [exact Hb2|exact He2|]. intros b3 e3 Hb3 He3.
  apply wp_bind. eapply wp_publish; [exact Hb3|exact He3|]. intros b4 e4 Hb4 He4.
  rewrite <- (assoc_L (++)) in He4. apply wp_bind.
  assert (r_qty r - f_qty f =? 0 = (r_qty r <=? leaves)) as Hz.
  { unfold f_qty, f. simpl. lia. }
  rewrite Hz. destruct (r_qty r <=? leaves) eqn:Hle.
  - apply wp_bind. eapply wp_publish; [exact Hb4|exact He4|]. intros b5 e5 Hb5 He5.
    apply wp_on_book. eapply wp_mono.
    { apply (removeOrder_ok b5 L V1 n (negb (t_side t)) [] p [] o os l2 Hb5 Hinv1 HL). }
    intros [] b6 (V' & Hb6 & Hsh & Hd & Hp & Hinv'). split; [done|].
    exists V', (<[negb (t_side t) := without [] p os l2]> L).
    split_and!; try done.
    + rewrite <- (assoc_L (++)) in He5. unfold fill_updates. cbn [f_order f].
      fold r. by rewrite Hz.
    + by apply functional_extensionality.
    + by apply functional_extensionality.
  - eapply wp_publish; [exact Hb4|exact He4|]. intros b5 e5 Hb5 He5. split; [done|].
    exists V1, L. split_and!; try done.
    + rewrite <- (assoc_L (++)) in He5. unfold fill_updates. cbn [f_order f].
      fold r. by rewrite Hz.
    + apply functional_extensionality. intros s. unfold insert, fn_insert.
      case_decide; by subst.
Qed.
End fill.

(** ** Matching *)
Section matching.
Context (t : taker) (n : counters).
Abbreviation opp := (negb (t_side t)).

(** The orders behind the first one, and those of the other side, keep their data. *)
Lemma abs_after_fill V V' L p o os l2 d :
  vinv V L → L opp = (p, o :: os) :: l2 →
  v_data V' = <[o := d]> (v_data V) → v_lprice V' = v_lprice V →
  absl V' l2 = absl V l2 ∧ v_data V' <$> os = v_data V <$> os ∧
  absl V' (L (t_side t)) = absl V (L (t_side t)).
Proof.
  intros Hinv HL Hd Hp. pose proof (vi_wf _ _ Hinv) as Hwf.
  pose proof (sw_orders _ _ _ (wf_sides _ _ _ Hwf opp)) as Hnd. rewrite HL, ords_cons in Hnd.
  simpl in Hnd. apply NoDup_cons in Hnd as [Hno _]. rewrite elem_of_app in Hno.
  assert (∀ w, w ≠ o → v_data V' w = v_data V w) as Hne.
  { intros w Hw. by rewrite Hd, fn_lookup_insert_ne by done. }
  split_and!.
  - apply absl_frame; [|by rewrite Hp]. intros w Hw. apply Hne. intros ->. tauto.
  - apply list_fmap_ext. intros i w Hw%list_elem_of_lookup_2. apply Hne. intros ->. tauto.
  - apply absl_frame; [|by rewrite Hp]. intros w Hw. apply Hne. intros ->.
    assert (o ∈ ords (L opp)) as Ho by (rewrite HL; left).
    pose proof (wf_orders_disjoint _ _ _ _ _ _ Hwf Ho Hw). by destruct (t_side t).
Qed.

Definition loop (fuel : nat) (leaves : Z) : M (MEOrderBook * E) Z :=
  match_loop fuel (t_client_id t) (t_client_order_id t) (t_ticker_id t) (to_side (t_side t))
    (to_side opp) (t_price t) (u32 (t_market_order_id t)) leaves.

(** What the loop leaves behind. *)
Definition swept (V : view resting (Z * Z)) (L : layout) (rest : levels) (leaves : Z)
    (nr nu : nat) (rs : list MEClientResponse) (us : list MEMarketUpdate) :
    Z → MEOrderBook * E → Prop := λ lv s,
  lv = leaves ∧ ∃ V' L', denotes s.1 V' n ∧ vinv V' L' ∧ shrinks V V' ∧
    sink_state s.2 nr nu rs us ∧
    abs V' L' opp = rest ∧ abs V' L' (t_side t) = abs V L (t_side t).

Lemma loop_stop fuel b e V L leaves nr nu rs us :
  (0 < fuel)%nat → denotes b V n → vinv V L → 0 ≤ leaves →
  sink_state e nr nu rs us →
  leaves = 0 ∨ (match L opp with [] => True | (p, _) :: _ => crosses t (v_lprice V p) = false end) →
  wp (loop fuel leaves) (b, e) (swept V L (abs V L opp) leaves nr nu rs us).
Proof.
  intros Hf Hb Hinv Hl He Hstop. destruct fuel as [|fuel]; [lia|].
  assert (swept V L (abs V L opp) leaves nr nu rs us leaves (b, e)) as Hend.
  { split; [done|]. by exists V, L. }
  unfold loop. cbn [match_loop]. apply wp_bind, wp_on_book.
  eapply wp_get_best; [done|].
  destruct (0 <? leaves) eqn:Hpos; simpl; [|by apply wp_ret].
  destruct (L opp) as [|[p os] l2] eqn:HL.
  { rewrite (no_level V L opp Hinv HL). by apply wp_ret. }
  destruct Hstop as [->|Hc]; [lia|].
  destruct (first_level V L opp p os l2 Hinv HL) as (o & os' & -> & -> & Hfo & Hpx).
  simpl. apply wp_bind, wp_on_book. eapply wp_get_level; [done|]. read_fields. rewrite Hfo.
  apply wp_bind, wp_on_book. eapply wp_get_order; [done|]. intros tk d. unfold d. read_fields.
  rewrite Hpx. unfold crosses in Hc.
  assert ((if decide (to_side (t_side t) = Side_BUY) then t_price t <? v_lprice V p
           else v_lprice V p <? t_price t) = true) as ->.
  { destruct (t_side t); simpl; lia. }
  by apply wp_ret.
Qed.

(** What the loop does between two fills: it looks at the new best level. *)
Definition look_at_best (k : M (MEOrderBook * E) Z) : M (MEOrderBook * E) Z :=
  best ← on_book (gets (best_by_price (to_side opp)));
  l ← on_book (get_level best);
  _ ← (match oap_first_me_order_ l with
       | Some _ => mret tt
       | None =>
         if decide (oap_next_entry_ l = best)
         then on_book (modify (set_best_by_price (to_side opp) None))
         else on_book (modify (set_best_by_price (to_side opp) (oap_next_entry_ l)))
       end);
  k.
Lemma look_at_best_some k b e V L null Φ :
  denotes b V n → vinv V L → L opp ≠ [] →
  wpn k (b, e) null Φ → wpn (look_at_best k) (b, e) null Φ.
Proof.
  intros Hb Hinv Hne Hk. destruct (L opp) as [|[p os] l2] eqn:HL; [done|].
  destruct (first_level V L opp p os l2 Hinv HL) as (o & os' & -> & Hbest & Hfo & _).
  apply wpn_bind, wp_on_book. eapply wp_get_best; [done|]. rewrite Hbest.
  apply wpn_bind, wp_on_book. eapply wp_get_level; [done|]. read_fields. rewrite Hfo.
  by apply wpn_bind, wp_ret.
Qed.
Lemma look_at_best_none k b e V L :
  denotes b V n → vinv V L → L opp = [] → look_at_best k (b, e) = Err NullDeref.
Proof.
  intros Hb Hinv HL. change (wpn (look_at_best k) (b, e) true (λ _ _, True)).
  apply wpn_bind, wp_on_book. eapply wp_get_best; [done|].
  by rewrite (no_level V L opp Hinv HL).
Qed.

(** The loop stops, or it fills an order. *)
Lemma loop_goes_on (V : view resting (Z * Z)) (L : layout) leaves :
  (leaves = 0 ∨ (match L opp with [] => True | (p, _) :: _ => crosses t (v_lprice V p) = false end)) ∨
  ∃ p os l2, L opp = (p, os) :: l2 ∧ crosses t (v_lprice V p) = true ∧ leaves ≠ 0.
Proof.
  destruct (decide (leaves = 0)); [auto|]. destruct (L opp) as [|[p os] l2]; [auto|].
  destruct (crosses t (v_lprice V p)) eqn:Hc; [right; eauto 10|auto].
Qed.
Lemma stop_abs (V : view resting (Z * Z)) (L : layout) leaves :
  leaves = 0 ∨ (match L opp with [] => True | (p, _) :: _ => crosses t (v_lprice V p) = false end) →
  leaves = 0 ∨ (match abs V L opp with [] => True | (px, _) :: _ => crosses t px = false end).
Proof. intros [?|H]; [by left|right]. unfold abs. by destruct (L opp) as [|[p os] l2]. Qed.

(** The opposite side after a fill of its first order. *)
Lemma abs_opp_after_fill V V1 L L1 p o os l2 leaves :
  vinv V L → L opp = (p, o :: os) :: l2 →
  let r := v_data V o in
  L1 opp = (if r_qty r <=? leaves then without [] p os l2 else (p, o :: os) :: l2) →
  v_data V1 = <[o := set_r_qty (r_qty r - f_qty (MkFill r leaves)) r]> (v_data V) → v_lprice V1 = v_lprice V →
  abs V1 L1 opp =
    if r_qty r <=? leaves then drop_first (v_lprice V p) (v_data V <$> os) (absl V l2)
    else (v_lprice V p, set_r_qty (r_qty r - leaves) r :: (v_data V <$> os)) :: absl V l2.
Proof.
  intros Hinv HL r HLo Hd Hp. destruct (abs_after_fill V V1 L p o os l2 _ Hinv HL Hd Hp) as (Ha1 & Ha2 & _).
  unfold abs. rewrite HLo. destruct (r_qty r <=? leaves) eqn:Hle.
  - unfold without. destruct os as [|o' os']; simpl; [done|].
    unfold absl. simpl. fold (absl V1 l2). rewrite Hp, Ha1. simpl in Ha2. by rewrite Ha2.
  - change (absl V1 ((p, o :: os) :: l2)) with ((v_lprice V1 p, v_data V1 o :: (v_data V1 <$> os)) :: absl V1 l2).
    rewrite Hp, Ha1, Ha2, Hd, fn_lookup_insert. unfold f_qty. simpl. by rewrite Z.min_l by lia.
Qed.

(** An iteration that fills the first order of the opposite side. *)
Lemma loop_first_fill fuel b e V L p o os l2 leaves nr nu rs us null Φ :
  denotes b V n → vinv V L → L opp = (p, o :: os) :: l2 → crosses t (v_lprice V p) = true →
  0 < leaves < 2 ^ 32 → sink_state e (2 + nr) (2 + nu) rs us →
  let r := v_data V o in
  let f := MkFill r leaves in
  (∀ b1 e1 V1 L1, denotes b1 V1 n → vinv V1 L1 → shrinks V V1 →
    sink_state e1 nr nu (rs ++ fill_responses t f) (us ++ fill_updates t f) →
    L1 opp = (if r_qty r <=? leaves then without [] p os l2 else (p, o :: os) :: l2) →
    abs V1 L1 opp =
      (if r_qty r <=? leaves then drop_first (v_lprice V p) (v_data V <$> os) (absl V l2)
       else (v_lprice V p, set_r_qty (r_qty r - leaves) r :: (v_data V <$> os)) :: absl V l2) →
    abs V1 L1 (t_side t) = abs V L (t_side t) →
    wpn (look_at_best (loop fuel (leaves - f_qty f))) (b1, e1) null Φ) →
  wpn (loop (S fuel) leaves) (b, e) null Φ.
Proof.
  intros Hb Hinv HL Hc Hl He r f Hnext.
  destruct (first_level V L opp p (o :: os) l2 Hinv HL) as (o' & os' & [= <- <-] & Hbest & Hfo & Hpx).
  unfold loop. cbn [match_loop].
  apply wpn_bind, wp_on_book. eapply wp_get_best; [done|].
  rewrite (proj2 (Z.ltb_lt _ _)) by lia. rewrite Hbest. simpl.
  apply wpn_bind, wp_on_book. eapply wp_get_level; [done|]. read_fields. rewrite Hfo.
  apply wpn_bind, wp_on_book. eapply wp_get_order; [done|]. intros tk d. unfold d. read_fields. rewrite Hpx.
  assert ((if decide (to_side (t_side t) = Side_BUY) then t_price t <? v_lprice V p
           else v_lprice V p <? t_price t) = false) as ->.
  { unfold crosses in Hc. destruct (t_side t); simpl; lia. }
  apply wpn_bind. eapply wp_mono; [by eapply (match_order_ok t b e V L n p o os l2 leaves Hb Hinv HL Hl nr nu)|].
  fold r f. intros lv [b1 e1] (-> & V1 & L1 & Hb1 & Hinv1 & Hsh1 & He1 & HL1 & Hd1 & Hp1).
  match goal with |- wpn ?m _ _ _ => change m with (look_at_best (loop fuel (leaves - f_qty f))) end.
  assert (L1 (t_side t) = L (t_side t)) as HLt.
  { rewrite HL1, fn_lookup_insert_ne; [done|]. by destruct (t_side t). }
  assert (L1 opp = if r_qty r <=? leaves then without [] p os l2 else (p, o :: os) :: l2) as HLo
    by (by rewrite HL1, fn_lookup_insert).
  apply (Hnext b1 e1 V1 L1); try done; [by eapply abs_opp_after_fill|].
  destruct (abs_after_fill V V1 L p o os l2 _ Hinv HL Hd1 Hp1) as (_ & _ & Ha). unfold abs. by rewrite HLt.
Qed.

(** What is left behind after a fill is left behind. *)
Lemma swept_after V L V1 L1 rest lv nr nu rs us a s :
  shrinks V V1 → abs V1 L1 (t_side t) = abs V L (t_side t) →
  swept V1 L1 rest lv nr nu rs us a s → swept V L rest lv nr nu rs us a s.
Proof.
  intros Hsh Hown (-> & V2 & L2 & ? & ? & ? & ? & ? & ?). split; [done|].
  exists V2, L2. split_and!; try done; [by etransitivity|congruence].
Qed.
(** A fill that leaves an order behind it does not change whether the side is emptied. *)
Lemma swept_out_after V L leaves rest leaves' fs f :
  vinv V L → L opp ≠ [] → sweep t (abs V L opp) leaves = (rest, leaves', fs) →
  swept_out rest (f :: fs) = swept_out rest fs.
Proof.
  intros Hinv Hne Hsw. destruct rest; [|done]. destruct fs as [|]; [|done]. exfalso.
  destruct (L opp) as [|[p os] l] eqn:HL; [done|].
  destruct (first_level V L opp p os l Hinv HL) as (o & os' & -> & _).
  unfold abs in Hsw. rewrite HL in Hsw. simpl in Hsw. by eapply sweep_nonempty.
Qed.

Lemma match_loop_ok fuel : ∀ b e V L leaves nr nu rs us rest leaves' fs,
  denotes b V n → vinv V L → 0 ≤ leaves < 2 ^ 32 → (length (ords (L opp)) < fuel)%nat →
  sweep t (abs V L opp) leaves = (rest, leaves', fs) →
  sink_state e (2 * length fs + nr) (2 * length fs + nu) rs us →
  wpn (loop fuel leaves) (b, e) (swept_out rest fs)
    (swept V L rest leaves' nr nu (rs ++ concat (fill_responses t <$> fs))
       (us ++ concat (fill_updates t <$> fs))).
Proof.
  induction fuel as [|fuel IH]; [lia|].
  intros b e V L leaves nr nu rs us rest leaves' fs Hb Hinv Hl Hfuel Hsw He.
  destruct (loop_goes_on V L leaves) as [Hstop|(p & os & l2 & HL & Hc & Hl0)].
  { rewrite sweep_stop in Hsw by (by apply stop_abs). simplify_eq. simpl in He. rewrite !app_nil_r.
    assert (swept_out (abs V L opp) [] = false) as -> by by destruct (abs V L opp).
    apply loop_stop; try done; lia. }
  destruct (first_level V L opp p os l2 Hinv HL) as (o & os' & -> & _). set (r := v_data V o).
  assert (abs V L opp = (v_lprice V p, r :: (v_data V <$> os')) :: absl V l2) as Habs by (unfold abs; by rewrite HL).
  rewrite Habs in Hsw. destruct (sweep_first_fill _ _ _ _ _ _ _ _ _ Hl0 Hc Hsw) as [fs' ->].
  eapply (loop_first_fill fuel b e V L p o os' l2 leaves (2 * length fs' + nr) (2 * length fs' + nu));
    try done; [lia| |].
  { replace (2 + (2 * length fs' + nr))%nat with (2 * length (MkFill r leaves :: fs') + nr)%nat by (simpl; lia).
    by replace (2 + (2 * length fs' + nu))%nat with (2 * length (MkFill r leaves :: fs') + nu)%nat by (simpl; lia). }
  clear Hb He. fold r. intros b1 e1 V1 L1 Hb1 Hinv1 Hsh1 He1 HLo Habs1 Hown. rewrite !fmap_cons, !concat_cons, !(assoc_L (++)).
  rewrite HL, ords_cons in Hfuel. simpl in Hfuel. rewrite length_app in Hfuel. unfold f_qty. cbn [f_order f_leaves].
  destruct (r_qty r <=? leaves) eqn:Hle.
  - rewrite sweep_take in Hsw by (done || lia). rewrite <- Habs1 in Hsw. rewrite Z.min_r by lia.
    destruct (sweep t (abs V1 L1 opp) (leaves - r_qty r)) as [[rest1 lv1] fs1] eqn:Hsw1. simplify_eq.
    destruct (decide (L1 opp = [])) as [Hnil|Hnil].
    + unfold abs in Hsw1. rewrite Hnil in Hsw1. simpl in Hsw1. simplify_eq. by eapply look_at_best_none.
    + eapply look_at_best_some; try done. rewrite (swept_out_after _ _ _ _ _ _ _ Hinv1 Hnil Hsw1).
      eapply wpn_mono; [eapply (IH b1 e1 V1 L1); try done|by intros lv s; apply swept_after].
      * destruct (vi_orders _ _ Hinv o) as [? _]; [by eapply first_order_live|]. unfold r in *. lia.
      * rewrite HLo, without_ords. cbn [app]. rewrite ords_cons, length_app. lia.
  - rewrite sweep_partial in Hsw by (done || lia). simplify_eq. rewrite Z.min_l, Z.sub_diag by lia.
    eapply look_at_best_some; [done|done|by rewrite HLo|]. simpl. rewrite !app_nil_r, <- Habs1.
    eapply wp_mono; [eapply (loop_stop fuel b1 e1 V1 L1 0); try done; [lia|by left]|].
    intros lv s. by apply swept_after.
Qed.
End matching.
End refine.

(** ** Resting an order *)
Section resting.
Context (b : MEOrderBook) (V : view resting (Z * Z)) (L : layout) (n : counters).
Context (Hinv : vinv V L) (s : bool) (price : Z).
Context (Hslot : slot_ok priceToIndex V L (ct_level_slot n) s price).

Lemma getNextPriority_ok :
  denotes b V n →
  wp (getNextPriority price) b (λ pr b', b' = b ∧ pr = next_priority price (abs V L s)).
Proof.
  intros Hb. unfold getNextPriority. wps. pose proof Hslot as Hslot'. unfold slot_ok in Hslot'.
  destruct (v_pmap V (priceToIndex price)) as [p|] eqn:Hpm.
  - destruct Hslot' as [Hin Hp]. destruct (level_place V L Hinv s price p Hin Hp) as (l1 & os & l2 & HL & Hne & Hb1 & Habs).
    assert ((p, os) ∈ L s) as Hin' by (rewrite HL; apply focus_elem).
    pose proof (wf_level _ _ _ _ _ _ (vi_wf _ _ Hinv) Hin') as [_ Hf _ Hr _].
    wps. rewrite Hf. destruct os as [|x os']; [done|]. simpl. wps.
    destruct (ring_prev _ _ _ _ Hr) as (z & Hl & -> & _). wps.
    split; [done|]. unfold abs. rewrite Habs, next_priority_push.
    + by rewrite fmap_last, Hl.
    + intros lv Hlv%Hb1. destruct s; simpl in Hlv; lia.
  - wps. split; [done|]. symmetry. apply next_priority_new.
    intros lv Hlv. by eapply no_level_price.
Qed.

Context (o : Z) (d : resting) (Hside : r_side d = to_side s) (Hprice : r_price d = price).
Context (Ho : v_olive V o = false) (Hor : 0 ≤ o < ME_MAX_ORDER_IDS) (Hd : order_ok d).
Context (Hkey : v_omap V (r_key d) = None) (Hlr : 0 ≤ ct_level_slot n < ME_MAX_PRICE_LEVELS).

Lemma addOrder_rest :
  denotes b (vs_order o d V) n → wp (addOrder (Some o)) b (λ _ b', ∃ V' L' n', denotes b' V' n' ∧
    vinv V' L' ∧ ct_next_id n' = ct_next_id n ∧
    abs_book V' L' = s_set_levels s (rest_order s d (s_levels s (abs_book V L))) (abs_book V L)).
Proof.
  intros Hb. eapply wp_mono.
  { eapply (heap_addOrder_rest priceToIndex order_ok (BookLaws0 := MEOrderBook_laws) b V L n Hinv s o d);
      try done; by rewrite Hprice. }
  intros _ b' (V' & L' & n' & Hb' & Hinv' & Hn & Habs). exists V', L', n'. split_and!; try done.
  by destruct Hn as [-> | ->].
Qed.
End resting.

(** ** The operations *)
Section operations.
Context {E : Type} `{!EngineSink E, !SinkLaws E}.

(** When a taker may be added: its ids are in range and fresh, both pools have their next
    slot free, and if something is left of it after matching, no other price occupies the
    slot of its price. *)
Record addable (t : taker) (qty : Z) (b : MEOrderBook) (k : sbook) : Prop := {
  ad_range : cid_oid_in_range (t_client_id t) (t_client_order_id t) = true;
  ad_fresh : ∀ r, r ∈ all_orders k → r_key r ≠ (t_client_id t, t_client_order_id t);
  ad_qty : 0 ≤ qty < 2 ^ 32;
  ad_order_slot : is_free (order_pool_ b) (next_free_ (order_pool_ b)) = true;
  ad_level_slot : is_free (orders_at_price_pool_ b) (next_free_ (orders_at_price_pool_ b)) = true;
  ad_price_slot : let '(opp, leaves, _) := sweep_of t qty k in
    (leaves =? 0) || no_collision (t_side t) (t_price t) priceToIndex
                       (s_set_levels (negb (t_side t)) opp k) = true;
  ad_id : t_market_order_id t = next_market_order_id_ b;
}.

Lemma orders_fuel b V n L s :
  denotes b V n → vinv V L → (length (ords (L s)) ≤ size (store_ (order_pool_ b)))%nat.
Proof.
  intros Hb Hinv. pose proof (vi_wf _ _ Hinv) as Hwf. apply live_count.
  - apply (sw_orders _ _ _ (wf_sides _ _ _ Hwf s)).
  - apply Forall_forall. intros o Ho. pose proof (wf_order_live _ _ _ _ _ Hwf Ho) as Hl.
    rewrite <- (dn_view _ _ _ Hb) in Hl. simpl in Hl. unfold live. by destruct (is_free _ _).
Qed.

Lemma checkForMatch_ok t b e V L n qty nr nu rs us rest leaves fs :
  denotes b V n → vinv V L → 0 ≤ qty < 2 ^ 32 →
  sweep t (abs V L (negb (t_side t))) qty = (rest, leaves, fs) →
  sink_state e (2 * length fs + nr) (2 * length fs + nu) rs us →
  wpn (checkForMatch (t_client_id t) (t_client_order_id t) (t_ticker_id t) (to_side (t_side t))
         (t_price t) qty (t_market_order_id t)) (b, e) (swept_out rest fs)
    (swept t n V L rest leaves nr nu (rs ++ concat (fill_responses t <$> fs))
         (us ++ concat (fill_updates t <$> fs))).
Proof.
  intros Hb Hinv Hq Hs He. unfold checkForMatch. apply wpn_bind, wp_on_book, wp_gets.
  assert (∀ fuel, match to_side (t_side t) with
    | Side_BUY => match_loop fuel (t_client_id t) (t_client_order_id t) (t_ticker_id t)
        Side_BUY Side_SELL (t_price t) (u32 (t_market_order_id t)) qty
    | Side_SELL => match_loop fuel (t_client_id t) (t_client_order_id t) (t_ticker_id t)
        Side_SELL Side_BUY (t_price t) (u32 (t_market_order_id t)) qty
    | _ => mret qty end = loop (E := E) t fuel qty) as Hloop.
  { intros fuel. unfold loop. by destruct (t_side t). }
  rewrite Hloop. eapply match_loop_ok; try done.
  pose proof (orders_fuel b V n L (negb (t_side t)) Hb Hinv). lia.
Qed.

(** The second half of [add]: what is left of the taker rests. *)
Definition rest_leaves (t : taker) (leaves : Z) : M (MEOrderBook * E) unit :=
  if leaves =? 0 then mret tt
  else
    priority ← on_book (getNextPriority (t_price t));
    order ← on_book (on_order_pool (allocate (MkMEOrder (t_ticker_id t) (t_client_id t)
               (t_client_order_id t) (t_market_order_id t) (to_side (t_side t)) (t_price t)
               leaves priority None None)));
    _ ← on_book (addOrder order);
    publish (MkMEMarketUpdate MarketUpdateType_ADD (t_market_order_id t) (t_ticker_id t)
               (to_side (t_side t)) (t_price t) leaves priority).

(** What the specification says of it. *)
Definition rested_book (t : taker) (leaves : Z) (k : sbook) : sbook * list MEMarketUpdate :=
  let s := t_side t in
  if leaves =? 0 then (k, [])
  else
    let prio := next_priority (t_price t) (s_levels s k) in
    let r := MkResting (t_client_id t) (t_client_order_id t) (t_market_order_id t) (to_side s)
               (t_price t) leaves prio in
    (s_set_levels s (rest_order s r (s_levels s k)) k,
     [MkMEMarketUpdate MarketUpdateType_ADD (t_market_order_id t) (t_ticker_id t)
        (to_side s) (t_price t) leaves prio]).

Lemma spec_add_split t qty k :
  let '(opp, leaves, fs) := sweep_of t qty k in
  let '(k', us) := rested_book t leaves (s_set_levels (negb (t_side t)) opp k) in
  spec_add t qty k = MkOutcome k'
    (MkMEClientResponse ClientResponseType_ACCEPTED (t_client_id t) (t_ticker_id t)
       (t_client_order_id t) (t_market_order_id t) (to_side (t_side t)) (t_price t) 0 qty
     :: concat (fill_responses t <$> fs))
    (concat (fill_updates t <$> fs) ++ us).
Proof.
  unfold spec_add, rested_book, sweep_of. destruct (sweep _ _ _) as [[opp leaves] fs].
  destruct (leaves =? 0); [|done]. by rewrite app_nil_r.
Qed.

Lemma rest_leaves_ok t leaves b e V L n nr nu rs us k' us' :
  denotes b V n → vinv V L → 0 ≤ leaves < 2 ^ 32 →
  rested_book t leaves (abs_book V L) = (k', us') →
  cid_oid_in_range (t_client_id t) (t_client_order_id t) = true →
  v_omap V (t_client_id t, t_client_order_id t) = None →
  v_olive V (ct_order_slot n) = false → v_llive V (ct_level_slot n) = false →
  (leaves ≠ 0 → slot_ok priceToIndex V L (ct_level_slot n) (t_side t) (t_price t)) →
  sink_state e nr (length us' + nu) rs us →
  wp (rest_leaves t leaves) (b, e) (λ _ s, ∃ V' L' n', denotes s.1 V' n' ∧ vinv V' L' ∧
    ct_next_id n' = ct_next_id n ∧ abs_book V' L' = k' ∧ sink_state s.2 nr nu rs (us ++ us')).
Proof.
  intros Hb Hinv Hl Hk Hr Hkey Ho Hlv Hslot He. unfold rested_book in Hk. unfold rest_leaves.
  destruct (leaves =? 0) eqn:Hz.
  { simplify_eq. apply wp_ret. rewrite app_nil_r. by exists V, L, n. }
  rewrite s_levels_abs in Hk. specialize (Hslot ltac:(lia)).
  apply wp_bind, wp_on_book. eapply wp_mono.
  { by eapply (getNextPriority_ok b V L n Hinv (t_side t)). }
  intros prio ? [-> ->]. simplify_eq. set (prio := next_priority _ _). simpl in He.
  pose proof (po_orders _ (dn_pools _ _ _ Hb)) as [_ Hno].
  pose proof (po_levels _ (dn_pools _ _ _ Hb)) as [_ Hnl].
  rewrite (po_orders_size _ (dn_pools _ _ _ Hb)) in Hno.
  rewrite (po_levels_size _ (dn_pools _ _ _ Hb)) in Hnl.
  assert (0 ≤ ct_order_slot n < ME_MAX_ORDER_IDS) as Hos by by rewrite <- (dn_counters _ _ _ Hb).
  assert (0 ≤ ct_level_slot n < ME_MAX_PRICE_LEVELS) as Hls by by rewrite <- (dn_counters _ _ _ Hb).
  apply wp_bind, wp_on_book. eapply (wp_alloc_order b V n Hb); try done.
  intros b1 Hb1. apply wp_bind, wp_on_book. eapply wp_mono.
  { refine (addOrder_rest b1 V L (bump_order_slot n) Hinv (t_side t) (t_price t) Hslot
      (ct_order_slot n) (MkResting (t_client_id t) (t_client_order_id t) (t_market_order_id t)
        (to_side (t_side t)) (t_price t) leaves prio) eq_refl eq_refl Ho Hos _ Hkey Hls Hb1).
    split; [simpl; lia|done]. }
  intros _ b2 (V2 & L2 & n2 & Hb2 & Hinv2 & Hid & Habs2).
  eapply wp_publish; [exact Hb2|exact He|]. intros b3 e3 Hb3 He3.
  exists V2, L2, n2. split_and!; try done. by rewrite Habs2, s_levels_abs.
Qed.

Lemma add_unfold t qty :
  add (E := E) (t_client_id t) (t_client_order_id t) (t_ticker_id t) (to_side (t_side t))
    (t_price t) qty =
  (new_market_order_id ← on_book generateNewMarketOrderId;
   _ ← respond (MkMEClientResponse ClientResponseType_ACCEPTED (t_client_id t) (t_ticker_id t)
          (t_client_order_id t) new_market_order_id (to_side (t_side t)) (t_price t) 0 qty);
   leaves_qty ← checkForMatch (t_client_id t) (t_client_order_id t) (t_ticker_id t)
                  (to_side (t_side t)) (t_price t) qty new_market_order_id;
   rest_leaves (MkTaker (t_client_id t) (t_client_order_id t) (t_ticker_id t) (t_side t)
     (t_price t) new_market_order_id) leaves_qty).
Proof. reflexivity. Qed.

(** What the sweep leaves of the premises of an ADD: the next slots are free, the key is unused, and the
    quantity is within its range. *)
Lemma slots_stay_free b V V2 n :
  view_of b = V → shrinks V V2 → n = counters_of b →
  is_free (order_pool_ b) (ct_order_slot n) = true → is_free (orders_at_price_pool_ b) (ct_level_slot n) = true →
  v_olive V2 (ct_order_slot n) = false ∧ v_llive V2 (ct_level_slot n) = false.
Proof.
  intros <- [Hsho Hshl] -> Hos Hls. split; apply not_true_iff_false.
  - intros H%Hsho. simpl in *. by rewrite Hos in H.
  - intros [H _]%Hshl. simpl in *. by rewrite Hls in H.
Qed.
Lemma key_after_sweep t qty V L V2 L2 opp leaves fs :
  vinv V2 L2 → sweep t (abs V L (negb (t_side t))) qty = (opp, leaves, fs) →
  abs V2 L2 (negb (t_side t)) = opp → abs V2 L2 (t_side t) = abs V L (t_side t) →
  (∀ r, r ∈ all_orders (abs_book V L) → r_key r ≠ (t_client_id t, t_client_order_id t)) →
  v_omap V2 (t_client_id t, t_client_order_id t) = None.
Proof.
  intros Hinv2 Hsw Hopp Hown Hfresh. apply (key_fresh V2 L2 _ Hinv2). intros r [s Hr]%all_orders_elem Hk.
  destruct (decide (s = negb (t_side t))) as [->|Hne].
  - rewrite s_levels_abs, Hopp in Hr.
    assert (r_key r ∈ r_key <$> orders_of (abs V L (negb (t_side t)))) as Hr'.
    { eapply sweep_keys; [exact Hsw|]. by apply list_elem_of_fmap_2. }
    apply list_elem_of_fmap in Hr' as (r' & Hk2 & Hr').
    apply (Hfresh r'); [|congruence]. apply all_orders_elem. eexists. by rewrite s_levels_abs.
  - assert (s = t_side t) as -> by by destruct s, (t_side t).
    rewrite s_levels_abs, Hown in Hr. apply (Hfresh r); [|done].
    apply all_orders_elem. eexists. by rewrite s_levels_abs.
Qed.
Lemma leaves_bound t qty V L opp leaves fs :
  vinv V L → sweep t (abs V L (negb (t_side t))) qty = (opp, leaves, fs) → 0 ≤ qty < 2 ^ 32 → 0 ≤ leaves < 2 ^ 32.
Proof.
  intros Hinv Hsw Hq. apply sweep_leaves_range in Hsw; [lia| |lia]. intros r Hr.
  rewrite orders_of_abs in Hr. apply list_elem_of_fmap in Hr as (o & -> & Ho).
  apply (wf_order_live _ _ _ _ _ (vi_wf _ _ Hinv)) in Ho. destruct (vi_orders _ _ Hinv o Ho). lia.
Qed.

(** [add], on the view. *)
Lemma add_ok t qty b e k nr nu rs us :
  represents b k → addable t qty b k →
  let out := spec_add t qty k in
  sink_state e (length (out_responses out) + nr) (length (out_updates out) + nu) rs us →
  wpn (add (t_client_id t) (t_client_order_id t) (t_ticker_id t) (to_side (t_side t))
         (t_price t) qty) (b, e) (exhausts t qty k)
    (λ _ s, represents s.1 (out_book out) ∧
       next_market_order_id_ s.1 = u64 (next_market_order_id_ b + 1) ∧
       sink_state s.2 nr nu (rs ++ out_responses out) (us ++ out_updates out)).
Proof.
  intros (V & L & Hb & Hinv & <-) [Hrange Hfresh Hqty Hos Hls Hnc Hid] out He.
  pose proof (spec_add_split t qty (abs_book V L)) as Hout. fold out in Hout.
  unfold exhausts. destruct (sweep_of t qty (abs_book V L)) as [[opp leaves] fs] eqn:Hsw.
  destruct (rested_book t leaves _) as [k' us'] eqn:Hk'. rewrite Hout in He |- *. simpl in He.
  rewrite length_app, (proj1 (fills_length t fs)), (proj2 (fills_length t fs)) in He.
  unfold sweep_of in Hsw. rewrite s_levels_abs in Hsw.
  rewrite add_unfold. apply wpn_bind, wp_on_book.
  unfold generateNewMarketOrderId. apply wp_bind, wp_gets, wp_bind, wp_modify, wp_ret.
  rewrite <- Hid.
  replace (MkTaker (t_client_id t) (t_client_order_id t) (t_ticker_id t) (t_side t) (t_price t)
    (t_market_order_id t)) with t by by destruct t.
  set (b0 := set_next_market_order_id _ b).
  assert (denotes b0 V (counters_of b0)) as Hb0.
  { destruct Hb as [? [] ?]. by split. }
  apply wpn_bind. eapply (wp_respond b0 e V _ (2 * length fs + nr) (2 * length fs + (length us' + nu))).
  { exact Hb0. }
  { replace (2 * length fs + (length us' + nu))%nat with (2 * length fs + length us' + nu)%nat by lia.
    exact He. }
  intros b1 e1 Hb1 He1.
  eapply wpn_bind_l; [by eapply checkForMatch_ok|].
  intros lv [b2 e2] (-> & V2 & L2 & Hb2 & Hinv2 & [Hsho Hshl] & He2 & Hopp & Hown).
  simpl in Hb2, He2.
  assert (abs_book V2 L2 = s_set_levels (negb (t_side t)) opp (abs_book V L)) as Habs.
  { rewrite (abs_book_eq V L V2 L2 (negb (t_side t))), Hopp; [done|].
    by rewrite negb_involutive. }
  rewrite <- Habs in Hk', Hnc.
  destruct (slots_stay_free b V V2 _ (dn_view _ _ _ Hb) (conj Hsho Hshl) eq_refl Hos Hls) as [Hos2 Hls2].
  assert (v_omap V2 (t_client_id t, t_client_order_id t) = None) as Hkey by (by eapply key_after_sweep).
  assert (0 ≤ leaves < 2 ^ 32) as Hlv by exact (leaves_bound _ _ _ _ _ _ _ Hinv Hsw Hqty).
  eapply wp_mono.
  { eapply (rest_leaves_ok t leaves b2 e2 V2 L2); try done.
    intros Hne. eapply no_collision_slot; [exact Hinv2|done|].
    apply orb_true_iff in Hnc as [?|?]; [lia|done]. }
  intros _ [b3 e3] (V3 & L3 & n3 & Hb3 & Hinv3 & Hid3 & Habs3 & He3). simpl in *.
  split_and!.
  - exists V3, L3. split_and!; [|done|done]. by rewrite (dn_counters _ _ _ Hb3).
  - rewrite <- (dn_counters _ _ _ Hb3) in Hid3. simpl in Hid3. rewrite Hid3. unfold b0. done.
  - by rewrite <- !(assoc_L (++)) in He3.
Qed.

Lemma cid_oid_at_ok c o b V n (Φ : option Z → MEOrderBook * E → Prop) e :
  denotes b V n → 0 ≤ c → (ME_MAX_NUM_CLIENTS ≤ c ∨ cid_oid_in_range c o = true) →
  (∀ p, p = (if c <? ME_MAX_NUM_CLIENTS then v_omap V (c, o) else None) → Φ p (b, e)) →
  wp (if c <? ME_MAX_NUM_CLIENTS then on_book (cid_oid_at c o) else mret None) (b, e) Φ.
Proof.
  intros Hb Hc Hr H. destruct (c <? ME_MAX_NUM_CLIENTS) eqn:Hlt; [|by apply H].
  destruct Hr as [?|Hr]; [lia|]. apply wp_on_book. eapply wp_cid_oid_at; [done|done|]. by apply H.
Qed.

Lemma cancel_ok c o tk b e k nr nu rs us :
  represents b k → 0 ≤ c → (ME_MAX_NUM_CLIENTS ≤ c ∨ cid_oid_in_range c o = true) →
  let out := spec_cancel c o tk k in
  sink_state e (length (out_responses out) + nr) (length (out_updates out) + nu) rs us →
  wp (MEOrderBook.cancel c o tk) (b, e)
    (λ _ s, represents s.1 (out_book out) ∧ next_market_order_id_ s.1 = next_market_order_id_ b ∧
       sink_state s.2 nr nu (rs ++ out_responses out) (us ++ out_updates out)).
Proof.
  intros (V & L & Hb & Hinv & <-) Hc Hr out He. pose proof (vi_wf _ _ Hinv) as Hwf.
  unfold MEOrderBook.cancel. apply wp_bind. eapply cid_oid_at_ok; [done..|]. intros q Hq.
  assert (q = v_omap V (c, o)) as ->.
  { destruct (c <? ME_MAX_NUM_CLIENTS) eqn:Hlt; [done|]. subst q. symmetry.
    destruct (v_omap V (c, o)) as [w|] eqn:Hw; [|done].
    apply (wf_omap _ _ _ Hwf) in Hw as [Hl Hk].
    destruct (vi_orders _ _ Hinv w Hl) as [_ Hr']. injection Hk as Hk1 Hk2.
    unfold cid_oid_in_range in Hr'. lia. }
  clear Hq. unfold out, spec_cancel in *. rewrite (omap_find V L _ Hinv) in He |- *.
  destruct (v_omap V (c, o)) as [w|] eqn:Hw; simpl in He |- *.
  - apply wp_bind, wp_on_book. eapply wp_get_order; [done|]. intros tk' d. unfold d. read_fields.
    apply wp_bind, wp_on_book, wp_modify. apply wp_bind, wp_on_book, wp_modify.
    match goal with |- wp _ (?b', _) _ => assert (denotes b' V (counters_of b)) as Hb1 end.
    { by apply denotes_set_update, denotes_set_response. }
    apply wp_bind, wp_on_book. eapply wp_mono.
    { by apply (heap_removeOrder_cancel priceToIndex order_ok (BookLaws0 := MEOrderBook_laws) _ V L
        (counters_of b) w (c, o)). }
    intros [] b2 (V2 & L2 & Hb2 & Hinv2 & Habs2).
    apply wp_bind, wp_on_engine. eapply wp_mono; [by apply sink_update_spec|]. intros [] e1 He1.
    apply wp_on_engine. eapply wp_mono; [by apply sink_response_spec|]. intros [] e2 He2.
    pose proof (dn_counters _ _ _ Hb2) as Hn2. split_and!; [|by injection Hn2|done].
    exists V2, L2. split_and!; [simpl; by rewrite Hn2|done|done].
  - apply wp_bind, wp_on_book, wp_modify, wp_on_engine.
    eapply wp_mono; [by apply sink_response_spec|]. intros [] e1 He1.
    split_and!; [|done|by rewrite app_nil_r].
    exists V, L. split_and!; [|done|done]. by apply denotes_set_response.
Qed.
End operations.
