(* ===== verification/MEOrderBookProps.v ===== *)
(** The properties of the exchange's order book: its operations refine the
    specification, every history of operations keeps the book uncrossed and its queues
    in time order, and the cases in which the code does not do what it means to. *)
From S2P Require Export MEOrderBookRefine MEOrderBookLaws.

(** ** A matching engine that only records what it is given *)
Record Recorder : Type := MkRecorder {
  rec_responses : list MEClientResponse;
  rec_updates : list MEMarketUpdate;
}.
#[export] Instance Recorder_sink : EngineSink Recorder := {|
  sink_response r := modify (λ e, MkRecorder (rec_responses e ++ [r]) (rec_updates e));
  sink_update u := modify (λ e, MkRecorder (rec_responses e) (rec_updates e ++ [u]));
|}.
#[export] Program Instance Recorder_laws : SinkLaws Recorder := {|
  sink_state e nr nu rs us := rec_responses e = rs ∧ rec_updates e = us;
|}.
Next Obligation. intros e _ _ rs us r [<- <-]. done. Qed.
Next Obligation. intros e _ _ rs us r [<- <-]. done. Qed.

(** ** The empty book *)
Definition book0 (ticker_id : Z) : MEOrderBook :=
  MkMEOrderBook ticker_id ∅ (empty_pool ME_MAX_PRICE_LEVELS) None None ∅
    (empty_pool ME_MAX_ORDER_IDS) MEClientResponse_default MEMarketUpdate_default 1.

Lemma MEOrderBook_new_ok ticker_id : MEOrderBook_new ticker_id ∅ ∅ = Ok (book0 ticker_id).
Proof. reflexivity. Qed.

Lemma book0_represents ticker_id : represents (book0 ticker_id) empty_book.
Proof.
  exists (view_of (book0 ticker_id)), (λ _, []). split_and!; [| |done].
  - split; [done| |done]. split; [apply (empty_pool_wf 20)|apply (empty_pool_wf 8)| |]; done.
  - by apply vinv_empty; try intros [].
Qed.

Lemma represents_sorted b k : represents b k → price_sorted k.
Proof.
  intros (V & L & _ & Hinv & <-) s. rewrite s_levels_abs.
  pose proof (sw_sorted _ _ _ (wf_sides _ _ _ (vi_wf _ _ Hinv) s)) as Hs.
  replace (abs V L s).*1 with (v_lprice V <$> lvls (L s)); [done|].
  unfold abs, absl, lvls. by rewrite <- !list_fmap_compose.
Qed.
Lemma represents_qty b k s : represents b k → qty_nonneg (s_levels s k).
Proof.
  intros (V & L & _ & Hinv & <-) r Hr. rewrite s_levels_abs, orders_of_abs in Hr.
  apply list_elem_of_fmap in Hr as (o & -> & Ho).
  apply (wf_order_live _ _ _ _ _ (vi_wf _ _ Hinv)) in Ho.
  by destruct (vi_orders _ _ Hinv o Ho) as [[? _] _].
Qed.
Lemma represents_prices b k s px rs r :
  represents b k → (px, rs) ∈ s_levels s k → r ∈ rs → r_price r = px.
Proof.
  intros (V & L & _ & Hinv & <-). rewrite s_levels_abs.
  intros ([p os] & E & Hin)%list_elem_of_fmap. simplify_eq/=.
  intros (o & -> & Ho)%list_elem_of_fmap.
  by destruct (lw_orders _ _ _ _ (wf_level _ _ _ _ _ _ (vi_wf _ _ Hinv) Hin) o Ho).
Qed.

(** ** Refinement *)
Section refinement.
Context {E : Type} `{!EngineSink E, !SinkLaws E}.

(** The call of [add] for a taker. *)
Definition add_taker (t : taker) (qty : Z) : M (MEOrderBook * E) unit :=
  add (t_client_id t) (t_client_order_id t) (t_ticker_id t) (to_side (t_side t)) (t_price t) qty.

(** C1: adding an order refines the specification. Let the book represent [k], and let the order be one
    it can take ([addable]): client below 256, order id below 2^20 and not that of a resting order of
    this client, quantity below 2^32, the next slot of both pools free, and, if part of it is left to
    rest, no other price of the book then in its price's slot of the table (prices equal modulo 256). If
    it does not consume the last resting order of the opposite side ([exhausts]), and the receiver has
    room for the responses and updates, [add] returns, leaves a book that represents the specified one,
    and has sent exactly the specified responses and market updates, in order; the order id counter
    moves by one. *)
Theorem add_refines t qty b e k nr nu rs us :
  represents b k → addable t qty b k → exhausts t qty k = false →
  sink_state e (length (out_responses (spec_add t qty k)) + nr)
    (length (out_updates (spec_add t qty k)) + nu) rs us →
  ∃ b' e', add_taker t qty (b, e) = Ok (tt, (b', e')) ∧
    represents b' (out_book (spec_add t qty k)) ∧
    next_market_order_id_ b' = u64 (next_market_order_id_ b + 1) ∧
    sink_state e' nr nu (rs ++ out_responses (spec_add t qty k))
      (us ++ out_updates (spec_add t qty k)).
Proof.
  intros Hb Ha Hx He. pose proof (add_ok t qty b e k nr nu rs us Hb Ha He) as H.
  rewrite Hx in H. apply wp_ok in H as ([] & [b' e'] & Hadd & H). eauto.
Qed.

(** C3: cancelling refines the specification, for order ids below 2^20 of clients below 256 (the range
    of the table: a larger order id of such a client ends the process, [cancel_order_id_out_of_range])
    and for any order id of a client of 256 or more, when the receiver has room. A known order is
    removed from its queue (its level goes with it when it was alone) and acknowledged to the client and
    the market; an order id in the range that is not in the book, or a client out of range, is answered
    by a rejection, and the book stays as it is. *)
Theorem cancel_refines c o tk b e k nr nu rs us :
  represents b k → 0 ≤ c → (ME_MAX_NUM_CLIENTS ≤ c ∨ cid_oid_in_range c o = true) →
  sink_state e (length (out_responses (spec_cancel c o tk k)) + nr)
    (length (out_updates (spec_cancel c o tk k)) + nu) rs us →
  ∃ b' e', MEOrderBook.cancel c o tk (b, e) = Ok (tt, (b', e')) ∧
    represents b' (out_book (spec_cancel c o tk k)) ∧
    sink_state e' nr nu (rs ++ out_responses (spec_cancel c o tk k))
      (us ++ out_updates (spec_cancel c o tk k)).
Proof.
  intros Hb Hc Hr He. pose proof (cancel_ok c o tk b e k nr nu rs us Hb Hc Hr He) as H.
  apply wp_ok in H as ([] & [b' e'] & Hcan & H & _ & He'). eauto.
Qed.

(** C2: price-time priority and conservation. For an order the book can take ([addable]: ids in range
    and fresh, quantity below 2^32, the next slots of both pools free, no other price in its price's
    slot of the table when it rests) that does not consume the last resting order of the opposite side,
    and a receiver with room: what [add] reports are fills of the opposite side's orders from the front
    of the book on, best level first and oldest order first, each complete except possibly the last;
    every fill is at the resting order's price, which the taker accepts; and the taker's quantity is the
    sum of the fills and of what it has left. *)
Theorem add_price_time_priority t qty b e k nr nu rs us :
  represents b k → addable t qty b k → exhausts t qty k = false →
  sink_state e (length (out_responses (spec_add t qty k)) + nr)
    (length (out_updates (spec_add t qty k)) + nu) rs us →
  ∃ b' e' k' fs leaves, add_taker t qty (b, e) = Ok (tt, (b', e')) ∧ represents b' k' ∧
    sink_state e' nr nu
      (rs ++ MkMEClientResponse ClientResponseType_ACCEPTED (t_client_id t) (t_ticker_id t)
               (t_client_order_id t) (t_market_order_id t) (to_side (t_side t)) (t_price t) 0 qty
          :: concat (fill_responses t <$> fs))
      (us ++ out_updates (spec_add t qty k)) ∧
    taken (orders_of (s_levels (negb (t_side t)) k)) qty fs
      (orders_of (s_levels (negb (t_side t)) k')) leaves ∧
    f_order <$> fs `prefix_of` orders_of (s_levels (negb (t_side t)) k) ∧
    Forall (λ f, crosses t (r_price (f_order f)) = true) fs ∧
    qty = leaves + zsum f_qty fs.
Proof.
  intros Hb Ha Hx He. pose proof (add_ok t qty b e k nr nu rs us Hb Ha He) as H.
  rewrite Hx in H. apply wp_ok in H as ([] & [b' e'] & Hadd & Hb' & _ & He').
  pose proof (spec_add_split t qty k) as Hout.
  destruct (sweep_of t qty k) as [[opp leaves] fs] eqn:Hsw.
  destruct (rested_book t leaves _) as [k' us'] eqn:Hk'.
  unfold sweep_of in Hsw. destruct Ha as [_ _ Hq _ _ _ _].
  pose proof (sweep_taken _ _ _ _ _ _ (represents_qty b k _ Hb) (proj1 Hq) Hsw) as Ht.
  exists b', e', k', fs, leaves. rewrite Hout in *. split_and!; try done.
  - replace (s_levels (negb (t_side t)) k') with opp; [done|].
    unfold rested_book in Hk'. destruct (leaves =? 0); simplify_eq.
    + by rewrite s_levels_set.
    + by rewrite s_levels_set_other, s_levels_set.
  - by eapply taken_prefix.
  - eapply sweep_crosses; [|exact Hsw]. intros px rs' r. by apply represents_prices with b.
  - by apply taken_conserves in Ht as [? _].
Qed.

(** C39: when the taker consumes the last resting order of the opposite side, the code
    reads the first order of the best level through a null pointer. *)
Theorem add_exhausting_faults t qty b e k nr nu rs us :
  represents b k → addable t qty b k → exhausts t qty k = true →
  sink_state e (length (out_responses (spec_add t qty k)) + nr)
    (length (out_updates (spec_add t qty k)) + nu) rs us →
  add_taker t qty (b, e) = Err NullDeref.
Proof.
  intros Hb Ha Hx He. pose proof (add_ok t qty b e k nr nu rs us Hb Ha He) as H.
  by rewrite Hx in H.
Qed.

(** ** Histories *)
(** The books reached from an empty one by additions and cancellations that return. *)
Inductive reachable (ticker_id : Z) : MEOrderBook * E → sbook → Prop :=
  | reach_init e : reachable ticker_id (book0 ticker_id, e) empty_book
  | reach_add b e k t qty nr nu rs us s' :
      reachable ticker_id (b, e) k → addable t qty b k → t_market_order_id t < 2 ^ 64 - 1 →
      sink_state e (length (out_responses (spec_add t qty k)) + nr)
        (length (out_updates (spec_add t qty k)) + nu) rs us →
      add_taker t qty (b, e) = Ok (tt, s') →
      reachable ticker_id s' (out_book (spec_add t qty k))
  | reach_cancel b e k c o tk nr nu rs us s' :
      reachable ticker_id (b, e) k →
      0 ≤ c → (ME_MAX_NUM_CLIENTS ≤ c ∨ cid_oid_in_range c o = true) →
      sink_state e (length (out_responses (spec_cancel c o tk k)) + nr)
        (length (out_updates (spec_cancel c o tk k)) + nu) rs us →
      MEOrderBook.cancel c o tk (b, e) = Ok (tt, s') →
      reachable ticker_id s' (out_book (spec_cancel c o tk k)).

(** C4: in every state reachable from the empty book (zeroed tables) by cancels with ids in range and by
    adding orders it can take ([addable]: ids in range and fresh, free pool slots, no other price in the
    slot of the table) that do not consume the last resting order of the opposite side, the heap
    represents the abstract book, no bid meets an ask, and within each level order ids and priorities
    increase from the front to the back of the queue, every priority being at most the order's id. *)
Theorem reachable_invariant ticker_id s k :
  reachable ticker_id s k →
  represents s.1 k ∧ uncrossed k ∧ time_ordered (next_market_order_id_ s.1) k ∧
  1 ≤ next_market_order_id_ s.1 < 2 ^ 64.
Proof.
  induction 1 as [e|b e k t qty nr nu rs us [b' e'] _ IH Ha Hid He Hadd
                 |b e k c o tk nr nu rs us [b' e'] _ IH Hc Hr He Hcan]; simpl in *.
  - split_and!; [apply book0_represents| | |done|done].
    + intros bid ask H. by apply not_elem_of_nil in H.
    + intros [] lv H; by apply not_elem_of_nil in H.
  - destruct IH as (Hb & Hu & Ht & Hn).
    pose proof (add_ok t qty b e k nr nu rs us Hb Ha He) as H.
    unfold add_taker in Hadd. unfold wpn in H. destruct (exhausts t qty k); [congruence|].
    unfold wp in H. rewrite Hadd in H. destruct H as (Hb' & Hid' & _). simpl in *.
    rewrite <- (ad_id _ _ _ _ Ha) in *. rewrite Hid', u64_id by lia.
    split_and!; [done| | |lia|lia].
    + by apply spec_add_uncrossed; [eapply represents_sorted|].
    + apply spec_add_time_ordered; [by eapply represents_sorted|done|lia].
  - destruct IH as (Hb & Hu & Ht & Hn).
    pose proof (cancel_ok c o tk b e k nr nu rs us Hb Hc Hr He) as H.
    unfold wp in H. rewrite Hcan in H. destruct H as (Hb' & Hid' & _). simpl in *.
    rewrite Hid'. split_and!; [done| | |lia|lia].
    + by apply spec_cancel_uncrossed.
    + by apply spec_cancel_time_ordered.
Qed.

(** A cancel request whose order id is not below the size of the order table makes
    [std::array::at] throw, for every book and every known client: the exception
    leaves a [noexcept] function and terminates the exchange. *)
Theorem cancel_order_id_out_of_range c o tk s :
  0 ≤ c < ME_MAX_NUM_CLIENTS → ME_MAX_ORDER_IDS ≤ o →
  MEOrderBook.cancel c o tk s = Err OutOfRange.
Proof.
  intros Hc Ho. unfold MEOrderBook.cancel. apply bind_Err.
  rewrite (proj2 (Z.ltb_lt _ _)) by lia. unfold on_book, zoom, cid_oid_at, cid_oid_in_range.
  rewrite (proj2 (Z.ltb_ge o _)) by lia. by rewrite !andb_false_r.
Qed.
End refinement.

(** ** A concrete history *)
Section example.
Definition step (t : taker) (qty : Z) (s : MEOrderBook * Recorder) : MEOrderBook * Recorder :=
  match add_taker t qty s with Ok (_, s') => s' | Err _ => s end.

Lemma step_represents t qty s k :
  represents s.1 k → addable t qty s.1 k → exhausts t qty k = false →
  add_taker t qty s = Ok (tt, step t qty s) ∧
  represents (step t qty s).1 (out_book (spec_add t qty k)).
Proof.
  intros Hb Ha Hx. destruct s as [b e].
  pose proof (add_ok t qty b e k 0 0 (rec_responses e) (rec_updates e) Hb Ha) as H.
  rewrite Hx in H. simpl in H. specialize (H (conj eq_refl eq_refl)).
  unfold wp in H. unfold step. unfold add_taker at 1 2 3.
  destruct (add _ _ _ _ _ _ _) as [[[] s']|]; [|done]. by destruct H as [H _].
Qed.

Definition s0 : MEOrderBook * Recorder := (book0 7, MkRecorder [] []).
(** Three sellers, then a buyer of 8 at 102. *)
Definition seller1 : taker := MkTaker 1 1 7 false 101 1.
Definition seller2 : taker := MkTaker 2 2 7 false 101 2.
Definition seller3 : taker := MkTaker 3 3 7 false 102 3.
Definition buyer : taker := MkTaker 4 4 7 true 102 4.
Definition s3 : MEOrderBook * Recorder := step seller3 10 (step seller2 7 (step seller1 5 s0)).
Definition k3 : sbook :=
  out_book (spec_add seller3 10 (out_book (spec_add seller2 7 (out_book (spec_add seller1 5 empty_book))))).

Ltac addable_tac :=
  split; [reflexivity
    |apply (Forall_forall (λ r, r_key r ≠ _)); apply (bool_decide_unpack _); vm_compute; exact I
    |vm_compute; split; congruence
    |vm_compute; reflexivity|vm_compute; reflexivity|vm_compute; reflexivity
    |vm_compute; reflexivity].

Lemma s3_represents : represents s3.1 k3.
Proof.
  apply step_represents; [|addable_tac|vm_compute; reflexivity].
  apply step_represents; [|addable_tac|vm_compute; reflexivity].
  apply step_represents; [|addable_tac|vm_compute; reflexivity].
  apply book0_represents.
Qed.
Lemma buyer_all_addable : addable buyer 40 s3.1 k3.
Proof. addable_tac. Qed.

Lemma add_refines_witness :
  ∃ b' e', add_taker buyer 8 (s3.1, s3.2) = Ok (tt, (b', e')) ∧
    represents b' (out_book (spec_add buyer 8 k3)) ∧
    next_market_order_id_ b' = u64 (next_market_order_id_ s3.1 + 1) ∧
    sink_state e' 0 0 (rec_responses s3.2 ++ out_responses (spec_add buyer 8 k3))
      (rec_updates s3.2 ++ out_updates (spec_add buyer 8 k3)).
Proof.
  apply (add_refines buyer 8 s3.1 s3.2 k3 0 0).
  - exact s3_represents.
  - addable_tac.
  - vm_compute; reflexivity.
  - split; reflexivity.
Defined.
Lemma add_price_time_priority_witness :
  ∃ b' e' k' fs leaves, add_taker buyer 8 (s3.1, s3.2) = Ok (tt, (b', e')) ∧ represents b' k' ∧
    sink_state e' 0 0
      (rec_responses s3.2 ++ MkMEClientResponse ClientResponseType_ACCEPTED 4 7 4 4 Side_BUY 102 0 8
          :: concat (fill_responses buyer <$> fs))
      (rec_updates s3.2 ++ out_updates (spec_add buyer 8 k3)) ∧
    taken (orders_of (s_levels false k3)) 8 fs (orders_of (s_levels false k')) leaves ∧
    f_order <$> fs `prefix_of` orders_of (s_levels false k3) ∧
    Forall (λ f, crosses buyer (r_price (f_order f)) = true) fs ∧ 8 = leaves + zsum f_qty fs.
Proof.
  apply (add_price_time_priority buyer 8 s3.1 s3.2 k3 0 0).
  - exact s3_represents.
  - addable_tac.
  - vm_compute; reflexivity.
  - split; reflexivity.
Defined.
Lemma add_exhausting_faults_witness : add_taker buyer 40 (s3.1, s3.2) = Err NullDeref.
Proof.
  apply (add_exhausting_faults buyer 40 s3.1 s3.2 k3 0 0 (rec_responses s3.2) (rec_updates s3.2)).
  - exact s3_represents.
  - exact buyer_all_addable.
  - vm_compute; reflexivity.
  - split; reflexivity.
Defined.
Lemma cancel_refines_witness :
  ∃ b' e', MEOrderBook.cancel 2 2 7 (s3.1, s3.2) = Ok (tt, (b', e')) ∧
    represents b' (out_book (spec_cancel 2 2 7 k3)) ∧
    sink_state e' 0 0 (rec_responses s3.2 ++ out_responses (spec_cancel 2 2 7 k3))
      (rec_updates s3.2 ++ out_updates (spec_cancel 2 2 7 k3)).
Proof.
  apply (cancel_refines 2 2 7 s3.1 s3.2 k3 0 0).
  - exact s3_represents.
  - lia.
  - right; reflexivity.
  - split; reflexivity.
Defined.
Lemma cancel_order_id_out_of_range_witness :
  MEOrderBook.cancel 1 (2 ^ 20) 7 s3 = Err OutOfRange.
Proof. apply (cancel_order_id_out_of_range 1 (2 ^ 20) 7 s3); vm_compute; intuition congruence. Defined.
Lemma reachable_invariant_witness :
  represents (step seller1 5 s0).1 (out_book (spec_add seller1 5 empty_book)) ∧
  uncrossed (out_book (spec_add seller1 5 empty_book)) ∧
  time_ordered (next_market_order_id_ (step seller1 5 s0).1) (out_book (spec_add seller1 5 empty_book)) ∧
  1 ≤ next_market_order_id_ (step seller1 5 s0).1 < 2 ^ 64.
Proof.
  apply (reachable_invariant 7 (step seller1 5 s0) (out_book (spec_add seller1 5 empty_book))).
  apply (reach_add 7 (book0 7) (MkRecorder [] []) empty_book seller1 5 0 0 [] []).
  - apply reach_init.
  - addable_tac.
  - vm_compute; reflexivity.
  - split; reflexivity.
  - vm_compute; reflexivity.
Defined.

(** Two prices that are equal modulo the number of price levels share a slot of the
    price table, and nothing compares the prices: a sell at 356 that finds a buy at 100
    joins the queue of that buy, and the ask side stays empty. *)
Theorem price_slot_shared :
  let s := step (MkTaker 1 1 7 true 100 1) 5 s0 in
  let s' := step (MkTaker 2 2 7 false 356 2) 9 s in
  asks_by_price_ s'.1 = None ∧
  (∃ p o o', bids_by_price_ s'.1 = Some p ∧
    oap_price_ (obj (orders_at_price_pool_ s'.1) p) = 100 ∧
    oap_first_me_order_ (obj (orders_at_price_pool_ s'.1) p) = Some o ∧
    ord_next_order_ (obj (order_pool_ s'.1) o) = Some o' ∧
    ord_side_ (obj (order_pool_ s'.1) o') = Side_SELL ∧
    ord_price_ (obj (order_pool_ s'.1) o') = 356).
Proof. vm_compute. split; [done|]. by exists 0, 0, 1. Qed.
End example.
