(* ===== verification/MEOrderBookText.v ===== *)
(** [MEOrderBook::toString]: the text of the exchange's order book.

    The function is the one of [BookText] over this book's accesses, so it prints the abstract book
    the heap represents. *)
From S2P Require Export BookText MEOrderBookProps.

(** One [printer] loop: the total quantity (32 bits) and the number of the orders of a level. *)
Fixpoint sum_orders_at (fuel : nat) (first o_itr : option Z) (qty num_orders : Z) :
    M MEOrderBook (Z * Z) :=
  match fuel with
  | O => raise OutOfFuel
  | S fuel =>
      o ← get_order o_itr;
      let qty := u32 (qty + ord_qty_ o) in
      let num_orders := u64 (num_orders + 1) in
      if decide (ord_next_order_ o = first) then mret (qty, num_orders)
      else sum_orders_at fuel first (ord_next_order_ o) qty num_orders
  end.

(** [p ? p->ord_market_order_id_ : OrderId_INVALID]. *)
Definition neighbour_id (p : option Z) : M MEOrderBook Z :=
  match p with
  | None => mret OrderId_INVALID
  | Some _ => o ← get_order p; mret (ord_market_order_id_ o)
  end.

(** The other loop of [printer]: the orders of a level. *)
Fixpoint print_orders_at (fuel : nat) (detailed : bool) (first o_itr : option Z) (ss : string) :
    M MEOrderBook string :=
  match fuel with
  | O => raise OutOfFuel
  | S fuel =>
      o ← get_order o_itr;
      ss ← (if detailed then
              prev ← neighbour_id (ord_prev_order_ o);
              next ← neighbour_id (ord_next_order_ o);
              mret (ss +:+ order_entry (ord_market_order_id_ o) (ord_qty_ o) prev next)
            else mret ss);
      if decide (ord_next_order_ o = first) then mret ss
      else print_orders_at fuel detailed first (ord_next_order_ o) ss
  end.

Definition printer (fuel : nat) (detailed sanity_check : bool) (itr : option Z) (side : Side)
    (last_price : Z) (ss : string) : M MEOrderBook (string * Z) :=
  l ← get_level itr;
  '(qty, num_orders) ← sum_orders_at fuel (oap_first_me_order_ l) (oap_first_me_order_ l) 0 0;
  prev ← get_level (oap_prev_entry_ l);
  next ← get_level (oap_next_entry_ l);
  let ss := ss +:+ level_header (oap_price_ l) (oap_price_ prev) (oap_price_ next) qty num_orders in
  ss ← print_orders_at fuel detailed (oap_first_me_order_ l) (oap_first_me_order_ l) ss;
  let ss := ss +:+ newline in
  if sanity_check then
    if (bool_decide (side = Side_SELL) && (oap_price_ l <=? last_price)) ||
       (bool_decide (side = Side_BUY) && (last_price <=? oap_price_ l))
    then FATAL
    else mret (ss, oap_price_ l)
  else mret (ss, last_price).

(** The levels of a side. *)
Fixpoint print_levels (fuel ofuel : nat) (detailed validity_check : bool) (side : Side)
    (best itr : option Z) (count last_price : Z) (ss : string) : M MEOrderBook string :=
  match fuel with
  | O => raise OutOfFuel
  | S fuel =>
      match itr with
      | None => mret ss
      | Some _ =>
          let ss := ss +:+ level_prefix side count in
          l ← get_level itr;
          let next_itr := if decide (oap_next_entry_ l = best) then None else oap_next_entry_ l in
          '(ss, last_price) ← printer ofuel detailed validity_check itr side last_price ss;
          print_levels fuel ofuel detailed validity_check side best next_itr (u64 (count + 1))
            last_price ss
      end
  end.

(** [toString]; the fuel is the number of blocks of each pool that were ever used. *)
Definition toString (detailed validity_check : bool) : M MEOrderBook string :=
  ticker_id ← gets ticker_id_;
  fuel ← gets (λ b, S (size (store_ (orders_at_price_pool_ b))));
  ofuel ← gets (λ b, size (store_ (order_pool_ b)));
  let ss := "Ticker:"%string +:+ tickerIdToString ticker_id +:+ newline in
  asks ← gets (best_by_price Side_SELL);
  ss ← print_levels fuel ofuel detailed validity_check Side_SELL asks asks 0 Price_MIN ss;
  let ss := ss +:+ book_middle in
  bids ← gets (best_by_price Side_BUY);
  print_levels fuel ofuel detailed validity_check Side_BUY bids bids 0 Price_INVALID ss.

Lemma toString_heap detailed validity_check b :
  toString detailed validity_check b =
    heap_toString (S (size (store_ (orders_at_price_pool_ b)))) (size (store_ (order_pool_ b)))
      (ticker_id_ b) detailed validity_check b.
Proof. reflexivity. Qed.

Lemma toString_text detailed validity_check b k :
  represents b k → (validity_check = true → ∀ s, best_within s k = true) →
  toString detailed validity_check b = Ok (book_text detailed (ticker_id_ b) k, b).
Proof.
  intros (V & L & Hb & Hinv & <-) Hck. rewrite toString_heap.
  pose proof (dn_view _ _ _ Hb) as HV.
  eapply heap_toString_ok; [exact Hb|exact Hinv|..|exact Hck].
  - intros s. apply Nat.lt_succ_r. eapply levels_counted; [exact Hinv|].
    intros q Hq. rewrite <- HV in Hq. simpl in Hq. unfold live. by destruct (is_free _ _).
  - intros s q qs. eapply orders_counted; [exact Hinv|].
    intros o Ho. rewrite <- HV in Ho. simpl in Ho. unfold live. by destruct (is_free _ _).
Qed.

(** Printing a book prints the abstract book.  [toString] of a book that represents [k] changes
    nothing and returns the text of [k]: the asks, then the bids, best level first, each with its
    price, the prices of its neighbours in the circle, its total quantity (32 bits) and number of
    orders, and if asked for the orders in time order with the ids of their neighbours.  The validity
    check passes: the levels are sorted, so it can only fail on a best ask at the smallest price or a
    best bid at [Price_INVALID]. *)
Theorem toString_prints detailed validity_check b k :
  represents b k →
  (validity_check = true → ∀ s, best_within s k = true) →
  toString detailed validity_check b = Ok (book_text detailed (ticker_id_ b) k, b).
Proof. apply toString_text. Qed.

Definition k3_text : string := book_text false 7 k3.
Lemma toString_prints_witness : toString false true s3.1 = Ok (k3_text, s3.1).
Proof.
  change 7 with (ticker_id_ s3.1).
  apply (toString_prints false true s3.1 k3 s3_represents).
  intros _ []; vm_compute; reflexivity.
Defined.
(** The levels of that text: 12 at 101 in two orders, 10 at 102 in one. *)
Example k3_text_lines :
  k3_text =
    ("Ticker:7" +:+ newline +:+
     "ASKS L:0 =>  <px:101 p:102 n:102> 101 @ 12   (2   )" +:+ newline +:+
     "ASKS L:1 =>  <px:102 p:101 n:101> 102 @ 10   (1   )" +:+ newline +:+
     newline +:+ "                          X" +:+ newline +:+ newline)%string.
Proof. vm_compute. reflexivity. Qed.
