(* ===== verification/MatchingEngine.v ===== *)
(** EXCHANGE/matcher/matching_engine.h and matching_engine.cpp: the matching engine, one
    order book per instrument between three lock-free queues.

    The outgoing pair of queues is the [EngineSink] the order books write to; the laws of
    the sink are discharged here, so the refinement of the books carries over to the
    engine.  [run_once] is one round of the thread's loop; logging and measurements are
    not modelled. *)
From S2P Require Export MEOrderBookProps LFQueue.

(** ** The two outgoing queues *)
Record OutQueues : Type := MkOutQueues {
  outgoing_ogw_responses_ : LFQueue MEClientResponse;
  outgoing_md_updates_ : LFQueue MEMarketUpdate;
}.
Definition set_ogw (q : LFQueue MEClientResponse) (e : OutQueues) : OutQueues :=
  MkOutQueues q (outgoing_md_updates_ e).
Definition set_md (q : LFQueue MEMarketUpdate) (e : OutQueues) : OutQueues :=
  MkOutQueues (outgoing_ogw_responses_ e) q.

Definition sendClientResponse (client_response : MEClientResponse) : M OutQueues unit :=
  zoom outgoing_ogw_responses_ set_ogw
    (next_write ← getNextToWriteTo;
     _ ← write_slot next_write client_response;
     _ ← updateWriteIndex;
     mret tt).
Definition sendMarketUpdate (market_update : MEMarketUpdate) : M OutQueues unit :=
  zoom outgoing_md_updates_ set_md
    (next_write ← getNextToWriteTo;
     _ ← write_slot next_write market_update;
     _ ← updateWriteIndex;
     mret tt).
#[export] Instance OutQueues_sink : EngineSink OutQueues :=
  {| sink_response := sendClientResponse; sink_update := sendMarketUpdate |}.

(** ** The engine *)
Record MatchingEngine : Type := MkMatchingEngine {
  ticker_order_book_ : list MEOrderBook;
  incoming_requests_ : LFQueue MEClientRequest;
  outgoing_ : OutQueues;
}.
Definition set_books (bs : list MEOrderBook) (m : MatchingEngine) : MatchingEngine :=
  MkMatchingEngine bs (incoming_requests_ m) (outgoing_ m).
Definition set_incoming (q : LFQueue MEClientRequest) (m : MatchingEngine) : MatchingEngine :=
  MkMatchingEngine (ticker_order_book_ m) q (outgoing_ m).
Definition set_outgoing (e : OutQueues) (m : MatchingEngine) : MatchingEngine :=
  MkMatchingEngine (ticker_order_book_ m) (incoming_requests_ m) e.

(** The constructor: book [i] is built for ticker [i].  [cid_mem] and [price_mem] are what
    the memory of the books' tables holds. *)
Definition MatchingEngine_new (client_requests : LFQueue MEClientRequest)
    (client_responses : LFQueue MEClientResponse) (market_updates : LFQueue MEMarketUpdate)
    (cid_mem : gmap (Z * Z) Z) (price_mem : gmap Z Z) : res MatchingEngine :=
  let fix books (n : nat) (i : Z) : res (list MEOrderBook) :=
    match n with
    | O => Ok []
    | S n => res_bind (MEOrderBook_new i cid_mem price_mem)
               (λ b, res_bind (books n (i + 1)) (λ bs, Ok (b :: bs)))
    end in
  res_bind (books (Z.to_nat ME_MAX_TICKERS) 0)
    (λ bs, Ok (MkMatchingEngine bs client_requests (MkOutQueues client_responses market_updates))).

(** [ticker_order_book_[ticker_id]]: the array has [ME_MAX_TICKERS] elements, and
    [operator[]] does not check. *)
Definition order_book (ticker_id : Z) : M MatchingEngine MEOrderBook :=
  bs ← gets ticker_order_book_;
  match bs !! Z.to_nat ticker_id with Some b => mret b | None => raise OutOfBounds end.
(** A member function of that book, which writes to the outgoing queues. *)
Definition on_order_book {A} (ticker_id : Z) (m : M (MEOrderBook * OutQueues) A) :
    M MatchingEngine A :=
  b ← order_book ticker_id;
  e ← gets outgoing_;
  r ← of_res (m (b, e));
  _ ← modify (λ s, set_books (<[Z.to_nat ticker_id := r.2.1]> (ticker_order_book_ s)) s);
  _ ← modify (set_outgoing r.2.2);
  mret r.1.

Definition processClientRequest (client_request : MEClientRequest) : M MatchingEngine unit :=
  _ ← order_book (req_ticker_id_ client_request);
  match req_type_ client_request with
  | ClientRequestType_NEW =>
    on_order_book (req_ticker_id_ client_request)
      (add (req_client_id_ client_request) (req_order_id_ client_request)
         (req_ticker_id_ client_request) (req_side_ client_request)
         (req_price_ client_request) (req_qty_ client_request))
  | ClientRequestType_CANCEL =>
    on_order_book (req_ticker_id_ client_request)
      (MEOrderBook.cancel (req_client_id_ client_request) (req_order_id_ client_request)
         (req_ticker_id_ client_request))
  | _ => FATAL
  end.

Definition on_incoming {A} : M (LFQueue MEClientRequest) A → M MatchingEngine A :=
  zoom incoming_requests_ set_incoming.

(** One round of the loop of [run]; the result says whether there was a request. *)
Definition run_once : M MatchingEngine bool :=
  me_client_request ← on_incoming getNextToRead;
  match me_client_request with
  | Some i =>
    r ← on_incoming (read_slot MEClientRequest_default (Some i));
    _ ← processClientRequest r;
    _ ← on_incoming updateReadIndex;
    mret true
  | None => mret false
  end.

(** ** The outgoing queues as a sink of the order books *)
#[export] Program Instance OutQueues_laws : SinkLaws OutQueues := {|
  sink_state e nr nu rs us :=
    queue_room MEClientResponse_default (outgoing_ogw_responses_ e) nr rs ∧
    queue_room MEMarketUpdate_default (outgoing_md_updates_ e) nu us;
|}.
Next Obligation.
  intros e nr nu rs us r [Hr Hu]. apply wp_zoom. eapply wp_mono; [by apply queue_room_push|].
  intros [] q [? _]. done.
Qed.
Next Obligation.
  intros e nr nu rs us u [Hr Hu]. apply wp_zoom. eapply wp_mono; [by apply queue_room_push|].
  intros [] q [? _]. done.
Qed.

(** ** What the engine promises *)
Definition taker_of (r : MEClientRequest) (s : bool) (id : Z) : taker :=
  MkTaker (req_client_id_ r) (req_order_id_ r) (req_ticker_id_ r) s (req_price_ r) id.
Definition spec_process (r : MEClientRequest) (id : Z) (k : sbook) : outcome :=
  match req_type_ r with
  | ClientRequestType_NEW =>
    spec_add (taker_of r (bool_decide (req_side_ r = Side_BUY)) id) (req_qty_ r) k
  | ClientRequestType_CANCEL => spec_cancel (req_client_id_ r) (req_order_id_ r) (req_ticker_id_ r) k
  | _ => MkOutcome k [] []
  end.

(** The order id counter of the book after the request. *)
Definition next_id_after (r : MEClientRequest) (id : Z) : Z :=
  match req_type_ r with ClientRequestType_NEW => u64 (id + 1) | _ => id end.

(** The requests the refinement speaks about. *)
Definition servable (r : MEClientRequest) (b : MEOrderBook) (k : sbook) : Prop :=
  match req_type_ r with
  | ClientRequestType_NEW =>
    let t := taker_of r (bool_decide (req_side_ r = Side_BUY)) (next_market_order_id_ b) in
    (req_side_ r = Side_BUY ∨ req_side_ r = Side_SELL) ∧ addable t (req_qty_ r) b k ∧
    exhausts t (req_qty_ r) k = false
  | ClientRequestType_CANCEL =>
    0 ≤ req_client_id_ r ∧
    (ME_MAX_NUM_CLIENTS ≤ req_client_id_ r ∨
     cid_oid_in_range (req_client_id_ r) (req_order_id_ r) = true)
  | _ => False
  end.

Section engine.
Implicit Types (m : MatchingEngine) (r : MEClientRequest).

(** The engine's books represent [ks], and its outgoing queues hold [rs] and [us], with
    room for [nr] and [nu] more. *)
Definition engine_state m (ks : list sbook) nr nu rs us : Prop :=
  Forall2 represents (ticker_order_book_ m) ks ∧ sink_state (outgoing_ m) nr nu rs us.

Lemma on_order_book_ok {A} i (f : M (MEOrderBook * OutQueues) A) m b (Φ : A → MatchingEngine → Prop) :
  ticker_order_book_ m !! Z.to_nat i = Some b →
  wp f (b, outgoing_ m) (λ a s, Φ a (MkMatchingEngine
    (<[Z.to_nat i := s.1]> (ticker_order_book_ m)) (incoming_requests_ m) s.2)) →
  wp (on_order_book i f) m Φ.
Proof.
  intros Hb Hf. unfold on_order_book, order_book.
  apply wp_bind, wp_bind, wp_gets. rewrite Hb. apply wp_ret, wp_bind, wp_gets, wp_bind.
  unfold wp in Hf |- *. unfold of_res. destruct (f (b, outgoing_ m)) as [[a s]|]; [|done].
  exact Hf.
Qed.

Lemma process_book_ok r b k e nr nu rs us :
  represents b k → servable r b k →
  let out := spec_process r (next_market_order_id_ b) k in
  sink_state e (length (out_responses out) + nr) (length (out_updates out) + nu) rs us →
  wp (match req_type_ r with
      | ClientRequestType_NEW =>
        add (req_client_id_ r) (req_order_id_ r) (req_ticker_id_ r) (req_side_ r) (req_price_ r) (req_qty_ r)
      | ClientRequestType_CANCEL =>
        MEOrderBook.cancel (req_client_id_ r) (req_order_id_ r) (req_ticker_id_ r)
      | _ => FATAL
      end) (b, e)
    (λ _ s, represents s.1 (out_book out) ∧
       next_market_order_id_ s.1 = next_id_after r (next_market_order_id_ b) ∧
       sink_state s.2 nr nu (rs ++ out_responses out) (us ++ out_updates out)).
Proof.
  intros Hb Hs out He. unfold servable in Hs. unfold out, spec_process, next_id_after in *.
  destruct (req_type_ r); try done.
  - destruct Hs as (Hside & Ha & Hx).
    pose proof (add_ok _ _ b e k nr nu rs us Hb Ha He) as H. rewrite Hx in H. simpl in H.
    replace (req_side_ r) with (to_side (bool_decide (req_side_ r = Side_BUY))) at 1
      by by destruct Hside as [-> | ->].
    exact H.
  - destruct Hs as [Hc Hr]. by apply (cancel_ok _ _ _ b e k nr nu rs us).
Qed.

Lemma processClientRequest_ok r m ks k b nr nu rs us :
  ticker_order_book_ m !! Z.to_nat (req_ticker_id_ r) = Some b →
  ks !! Z.to_nat (req_ticker_id_ r) = Some k → servable r b k →
  let out := spec_process r (next_market_order_id_ b) k in
  engine_state m ks (length (out_responses out) + nr) (length (out_updates out) + nu) rs us →
  wp (processClientRequest r) m (λ _ m',
    engine_state m' (<[Z.to_nat (req_ticker_id_ r) := out_book out]> ks) nr nu
      (rs ++ out_responses out) (us ++ out_updates out) ∧
    incoming_requests_ m' = incoming_requests_ m ∧
    next_market_order_id_ <$> ticker_order_book_ m' =
      <[Z.to_nat (req_ticker_id_ r) := next_id_after r (next_market_order_id_ b)]>
        (next_market_order_id_ <$> ticker_order_book_ m)).
Proof.
  intros Hb Hk Hs out [Hrep He]. unfold processClientRequest, order_book at 1.
  apply wp_bind, wp_bind, wp_gets. rewrite Hb. apply wp_ret.
  pose proof (Forall2_lookup_lr _ _ _ _ _ _ Hrep Hb Hk) as Hbk.
  pose proof (process_book_ok r b k (outgoing_ m) nr nu rs us Hbk Hs He) as H.
  unfold servable in Hs. destruct (req_type_ r) eqn:Hty; try done;
    (eapply on_order_book_ok; [done|]; eapply wp_mono; [exact H|];
     intros [] s (Hrep' & Hid & He'); split_and!; [split; [|done]|done|]; simpl;
     [by apply Forall2_insert|by rewrite list_fmap_insert, Hid]).
Qed.
Lemma run_once_ok r rest m ks k b nr nu rs us :
  queue_wf (incoming_requests_ m) →
  contents MEClientRequest_default (incoming_requests_ m) = r :: rest →
  ticker_order_book_ m !! Z.to_nat (req_ticker_id_ r) = Some b →
  ks !! Z.to_nat (req_ticker_id_ r) = Some k → servable r b k →
  let out := spec_process r (next_market_order_id_ b) k in
  engine_state m ks (length (out_responses out) + nr) (length (out_updates out) + nu) rs us →
  wp run_once m (λ a m', a = true ∧
    engine_state m' (<[Z.to_nat (req_ticker_id_ r) := out_book out]> ks)
      nr nu (rs ++ out_responses out) (us ++ out_updates out) ∧
    queue_wf (incoming_requests_ m') ∧
    contents MEClientRequest_default (incoming_requests_ m') = rest ∧
    next_market_order_id_ <$> ticker_order_book_ m' =
      <[Z.to_nat (req_ticker_id_ r) := next_id_after r (next_market_order_id_ b)]>
        (next_market_order_id_ <$> ticker_order_book_ m)).
Proof.
  intros Hwf Hc Hb Hk Hs out He. set (q := incoming_requests_ m) in *.
  destruct (read_cons _ q r rest Hwf Hc) as (Hget & Hread & Hupd & Hwf' & Hc').
  unfold run_once, on_incoming. assert (set_incoming q m = m) as Hid by by destruct m.
  apply wp_bind, wp_zoom. fold q. unfold wp at 1. rewrite Hget, Hid.
  apply wp_bind, wp_zoom. fold q. unfold wp at 1. rewrite Hread, Hid.
  apply wp_bind. eapply wp_mono; [by apply (processClientRequest_ok r m ks k b nr nu rs us)|].
  intros [] m1 (He1 & Hq1 & Hn). apply wp_bind, wp_zoom. rewrite Hq1. fold q. unfold wp at 1. rewrite Hupd.
  apply wp_ret. split_and!; try done.
Qed.
End engine.

(** ** Properties *)
Section properties.
Implicit Types (m : MatchingEngine) (r : MEClientRequest).

(** C5: one round of the engine's loop serves the oldest request of the incoming queue. Let the request
    be servable: a NEW with side BUY or SELL that the book of its instrument can take ([addable]: ids in
    range and fresh, free pool slots, no other price in its slot of the table) and that does not consume
    the last resting order of the opposite side, or a CANCEL with an order id below 2^20 or a client of
    256 or more; and let the outgoing queues have room for what it causes. Then the book of its
    instrument goes to the specified state, no other book changes, the specified responses and updates
    are appended to the outgoing queues, and the request leaves the incoming queue. (Any other type of
    request is FATAL.) *)
Theorem run_once_refines r rest m ks k b nr nu rs us :
  queue_wf (incoming_requests_ m) →
  contents MEClientRequest_default (incoming_requests_ m) = r :: rest →
  ticker_order_book_ m !! Z.to_nat (req_ticker_id_ r) = Some b →
  ks !! Z.to_nat (req_ticker_id_ r) = Some k → servable r b k →
  engine_state m ks (length (out_responses (spec_process r (next_market_order_id_ b) k)) + nr)
    (length (out_updates (spec_process r (next_market_order_id_ b) k)) + nu) rs us →
  ∃ m', run_once m = Ok (true, m') ∧
    engine_state m'
      (<[Z.to_nat (req_ticker_id_ r) := out_book (spec_process r (next_market_order_id_ b) k)]> ks)
      nr nu (rs ++ out_responses (spec_process r (next_market_order_id_ b) k))
      (us ++ out_updates (spec_process r (next_market_order_id_ b) k)) ∧
    queue_wf (incoming_requests_ m') ∧
    contents MEClientRequest_default (incoming_requests_ m') = rest.
Proof.
  intros Hwf Hc Hb Hk Hs He.
  pose proof (run_once_ok r rest m ks k b nr nu rs us Hwf Hc Hb Hk Hs He) as H.
  apply wp_ok in H as (a & m' & Hrun & -> & He' & Hwf' & Hc' & _). eauto 10.
Qed.

(** A request of any other type ends the process ([FATAL]), and a ticker id beyond the
    last instrument indexes the table of books out of bounds, which nothing checks. *)
Theorem processClientRequest_rejects r m :
  length (ticker_order_book_ m) = Z.to_nat ME_MAX_TICKERS → 0 ≤ req_ticker_id_ r →
  (req_ticker_id_ r < ME_MAX_TICKERS → req_type_ r ≠ ClientRequestType_NEW →
   req_type_ r ≠ ClientRequestType_CANCEL → processClientRequest r m = Err Exit) ∧
  (ME_MAX_TICKERS ≤ req_ticker_id_ r → processClientRequest r m = Err OutOfBounds).
Proof.
  intros Hlen H0. split.
  - intros Ht Hn Hc. unfold processClientRequest.
    destruct (lookup_lt_is_Some_2 (ticker_order_book_ m) (Z.to_nat (req_ticker_id_ r))) as [b Hb];
      [lia|].
    assert (order_book (req_ticker_id_ r) m = Ok (b, m)) as Hob.
    { unfold order_book, mbind, M_bind, gets. by rewrite Hb. }
    rewrite (bind_Ok _ _ _ _ _ Hob). by destruct (req_type_ r).
  - intros Ht. unfold processClientRequest. apply bind_Err.
    unfold order_book, mbind, M_bind, gets. by rewrite lookup_ge_None_2 by lia.
Qed.

(** The engine outlives its response queue by no request: once as many responses as
    the queue has slots have been written since it was made, every new order makes the
    engine write through a null pointer or past the end of the queue. *)
Theorem engine_response_lifetime r m b :
  ticker_order_book_ m !! Z.to_nat (req_ticker_id_ r) = Some b →
  req_type_ r = ClientRequestType_NEW → queue_wf (outgoing_ogw_responses_ (outgoing_ m)) →
  write_pos_ (outgoing_ogw_responses_ (outgoing_ m)) = q_size (outgoing_ogw_responses_ (outgoing_ m)) →
  processClientRequest r m = Err NullDeref ∨ processClientRequest r m = Err OutOfBounds.
Proof.
  intros Hb Hty Hwf Hfull.
  assert (order_book (req_ticker_id_ r) m = Ok (b, m)) as Hob.
  { unfold order_book, mbind, M_bind, gets. by rewrite Hb. }
  assert (∀ v, push v (outgoing_ogw_responses_ (outgoing_ m)) = Err NullDeref ∨
    push v (outgoing_ogw_responses_ (outgoing_ m)) = Err OutOfBounds) as Hpush.
  { intros v. rewrite push_fault; [|done|unfold can_push; lia]. case_match; auto. }
  assert (∀ v f, push v (outgoing_ogw_responses_ (outgoing_ m)) = Err f →
    processClientRequest r m = Err f) as Hproc.
  { intros v f Hv. unfold processClientRequest. rewrite (bind_Ok _ _ _ _ _ Hob), Hty.
    unfold on_order_book. rewrite (bind_Ok _ _ _ _ _ Hob), gets_bind. apply bind_Err.
    unfold of_res. enough (add (E := OutQueues) (req_client_id_ r) (req_order_id_ r) (req_ticker_id_ r)
      (req_side_ r) (req_price_ r) (req_qty_ r) (b, outgoing_ m) = Err f) as -> by done.
    unfold add. erewrite bind_Ok by reflexivity. apply bind_Err.
    unfold respond. erewrite bind_Ok by reflexivity. unfold on_engine, zoom. simpl.
    unfold sendClientResponse, zoom.
    assert (∀ v', push v' (outgoing_ogw_responses_ (outgoing_ m)) = Err f) as Hv'.
    { intros v'. revert Hv. rewrite !push_fault; [done|done|unfold can_push; lia|done|unfold can_push; lia]. }
    fold (push (MkMEClientResponse ClientResponseType_ACCEPTED (req_client_id_ r) (req_ticker_id_ r)
      (req_order_id_ r) (next_market_order_id_ b) (req_side_ r) (req_price_ r) 0 (req_qty_ r))).
    by rewrite Hv'. }
  destruct (Hpush MEClientResponse_default) as [Hf|Hf]; [left|right]; by eapply Hproc.
Qed.
End properties.

(** ** A concrete engine *)
Section example.
Definition books0 : list MEOrderBook := book0 <$> seqZ 0 ME_MAX_TICKERS.
Lemma MatchingEngine_new_ok qi qr qm :
  MatchingEngine_new qi qr qm ∅ ∅ = Ok (MkMatchingEngine books0 qi (MkOutQueues qr qm)).
Proof. reflexivity. Qed.

Definition sell_request : MEClientRequest :=
  MkMEClientRequest ClientRequestType_NEW 1 3 1 Side_SELL 101 5.
Definition engine0 : MatchingEngine :=
  MkMatchingEngine books0 (pushed sell_request new_queue) (MkOutQueues new_queue new_queue).
Definition ks0 : list sbook := replicate 8 empty_book.

Lemma engine0_state : engine_state engine0 ks0 2 2 [] [].
Proof.
  split.
  - repeat (constructor; [apply book0_represents|]). constructor.
  - split; (split; [apply new_queue_wf|split; [reflexivity|simpl; lia]]).
Qed.
Lemma sell_servable : servable sell_request (book0 3) empty_book.
Proof.
  split; [auto|]. split; [|reflexivity]. split; try reflexivity.
  - by intros r ?%not_elem_of_nil.
  - simpl. lia.
Qed.

Lemma run_once_refines_witness :
  ∃ m', run_once engine0 = Ok (true, m') ∧
    engine_state m' (<[3%nat := out_book (spec_process sell_request 1 empty_book)]> ks0)
      1 1 ([] ++ out_responses (spec_process sell_request 1 empty_book))
      ([] ++ out_updates (spec_process sell_request 1 empty_book)) ∧
    queue_wf (incoming_requests_ m') ∧
    contents MEClientRequest_default (incoming_requests_ m') = [].
Proof.
  apply (run_once_refines sell_request [] engine0 ks0 empty_book (book0 3) 1 1 [] []).
  - apply can_push_wf; [apply new_queue_wf|reflexivity].
  - vm_compute; reflexivity.
  - reflexivity.
  - reflexivity.
  - exact sell_servable.
  - exact engine0_state.
Defined.
Lemma processClientRequest_rejects_witness :
  (4 < ME_MAX_TICKERS → ClientRequestType_INVALID ≠ ClientRequestType_NEW →
   ClientRequestType_INVALID ≠ ClientRequestType_CANCEL →
   processClientRequest (MkMEClientRequest ClientRequestType_INVALID 1 4 1 Side_BUY 1 1) engine0 = Err Exit) ∧
  (ME_MAX_TICKERS ≤ 4 →
   processClientRequest (MkMEClientRequest ClientRequestType_INVALID 1 4 1 Side_BUY 1 1) engine0 = Err OutOfBounds).
Proof.
  apply (processClientRequest_rejects (MkMEClientRequest ClientRequestType_INVALID 1 4 1 Side_BUY 1 1) engine0).
  - reflexivity.
  - simpl; lia.
Defined.
Definition engine_spent : MatchingEngine :=
  MkMatchingEngine books0 (pushed sell_request new_queue)
    (MkOutQueues (MkLFQueue ∅ (2 ^ 18) (2 ^ 18) (2 ^ 18)) new_queue).
Lemma engine_response_lifetime_witness :
  processClientRequest sell_request engine_spent = Err NullDeref ∨
  processClientRequest sell_request engine_spent = Err OutOfBounds.
Proof.
  apply (engine_response_lifetime sell_request engine_spent (book0 3)).
  - reflexivity.
  - reflexivity.
  - split; simpl; [by exists 18|lia|lia].
  - reflexivity.
Defined.
End example.
