(* ===== verification/FIFOSequencer.v ===== *)
(** EXCHANGE/order_server/fifo_sequencer.h: requests read from all connections wait until
    the end of the read round, are sorted by receive time and handed to the matching
    engine through the lock-free queue.

    [std::sort] puts its range in non-descending order and says nothing about elements
    that compare equal; [StdSort] is that contract, and the theorems hold for every
    implementation of it. *)
From S2P Require Export MatchingEngine.

Class StdSort {A : Type} (lt : A → A → bool) := {
  std_sort : list A → list A;
  std_sort_perm l : std_sort l ≡ₚ l;
  std_sort_sorted l : StronglySorted (λ x y, lt y x = false) (std_sort l);
}.

Definition ME_MAX_PENDING_REQUESTS : Z := 1024.

Record RecvTimeClientRequest : Type := MkRecvTimeClientRequest {
  recv_time_ : Z;
  request_ : MEClientRequest;
}.
(** [operator<]. *)
Definition recv_lt (x y : RecvTimeClientRequest) : bool := recv_time_ x <? recv_time_ y.

Record FIFOSequencer : Type := MkFIFOSequencer {
  seq_incoming_requests_ : LFQueue MEClientRequest;
  pending_client_requests_ : list RecvTimeClientRequest;
  pending_size_ : Z;
}.
Definition FIFOSequencer_new (client_requests : LFQueue MEClientRequest) : FIFOSequencer :=
  MkFIFOSequencer client_requests
    (replicate (Z.to_nat ME_MAX_PENDING_REQUESTS) (MkRecvTimeClientRequest 0 MEClientRequest_default)) 0.
Definition set_pending (ps : list RecvTimeClientRequest) (s : FIFOSequencer) : FIFOSequencer :=
  MkFIFOSequencer (seq_incoming_requests_ s) ps (pending_size_ s).
Definition set_pending_size (n : Z) (s : FIFOSequencer) : FIFOSequencer :=
  MkFIFOSequencer (seq_incoming_requests_ s) (pending_client_requests_ s) n.
Definition set_seq_queue (q : LFQueue MEClientRequest) (s : FIFOSequencer) : FIFOSequencer :=
  MkFIFOSequencer q (pending_client_requests_ s) (pending_size_ s).

Definition addClientRequest (rx_time : Z) (request : MEClientRequest) : M FIFOSequencer unit :=
  pending_size ← gets pending_size_;
  ps ← gets pending_client_requests_;
  if Z.of_nat (length ps) <=? pending_size then FATAL
  else
    _ ← modify (set_pending_size (pending_size + 1));
    modify (set_pending (<[Z.to_nat pending_size := MkRecvTimeClientRequest rx_time request]> ps)).

Section sequencer.
Context `{!StdSort recv_lt}.

(** [for (i = 0; i < pending_size_; ++i)]: [n] elements from position [i] on. *)
Fixpoint publish_from (n : nat) (i : nat) : M FIFOSequencer unit :=
  match n with
  | O => mret tt
  | S n =>
    ps ← gets pending_client_requests_;
    match ps !! i with
    | Some client_request =>
      _ ← zoom seq_incoming_requests_ set_seq_queue (push (request_ client_request));
      publish_from n (S i)
    | None => raise OutOfRange
    end
  end.

Definition sequenceAndPublish : M FIFOSequencer unit :=
  pending_size ← gets pending_size_;
  if pending_size =? 0 then mret tt
  else
    ps ← gets pending_client_requests_;
    let n := Z.to_nat pending_size in
    _ ← modify (set_pending (std_sort (take n ps) ++ drop n ps));
    _ ← publish_from n 0;
    modify (set_pending_size 0).

(** Requests queued in arrival order. *)
Fixpoint add_all (rs : list RecvTimeClientRequest) : M FIFOSequencer unit :=
  match rs with
  | [] => mret tt
  | r :: rs => _ ← addClientRequest (recv_time_ r) (request_ r); add_all rs
  end.

(** ** Behaviour *)
(** The sequencer holds the requests [rs], in arrival order. *)
Definition holds (s : FIFOSequencer) (rs : list RecvTimeClientRequest) : Prop :=
  length (pending_client_requests_ s) = Z.to_nat ME_MAX_PENDING_REQUESTS ∧
  pending_size_ s = Z.of_nat (length rs) ∧
  take (length rs) (pending_client_requests_ s) = rs.

Lemma addClientRequest_ok s rs r :
  holds s rs → Z.of_nat (length rs) < ME_MAX_PENDING_REQUESTS →
  wp (addClientRequest (recv_time_ r) (request_ r)) s (λ _ s', holds s' (rs ++ [r]) ∧
    seq_incoming_requests_ s' = seq_incoming_requests_ s).
Proof.
  intros (Hl & Hn & Ht) Hlt. unfold addClientRequest.
  apply wp_bind, wp_gets, wp_bind, wp_gets. rewrite Hl, Hn.
  rewrite (proj2 (Z.leb_gt _ _)) by (unfold ME_MAX_PENDING_REQUESTS in *; lia).
  apply wp_bind, wp_modify, wp_modify. split; [|done].
  unfold holds. simpl. rewrite length_insert, length_app, Nat2Z.id.
  split_and!; [done|simpl; lia|].
  simpl. rewrite Nat.add_1_r, (take_S_r _ _ r).
  - rewrite take_insert_ge by lia. rewrite Ht. by destruct r.
  - rewrite list_lookup_insert_eq by (unfold ME_MAX_PENDING_REQUESTS in *; lia). by destruct r.
Qed.

Lemma add_all_ok s rs1 rs2 :
  holds s rs1 → Z.of_nat (length rs1 + length rs2) ≤ ME_MAX_PENDING_REQUESTS →
  wp (add_all rs2) s (λ _ s', holds s' (rs1 ++ rs2) ∧
    seq_incoming_requests_ s' = seq_incoming_requests_ s).
Proof.
  revert s rs1. induction rs2 as [|r rs2 IH]; intros s rs1 Hs Hl.
  { apply wp_ret. by rewrite app_nil_r. }
  simpl in *. apply wp_bind. eapply wp_mono; [apply (addClientRequest_ok s rs1 r Hs); lia|].
  intros [] s1 [Hs1 Hq]. eapply wp_mono; [apply (IH s1 (rs1 ++ [r]) Hs1)|].
  - rewrite length_app. simpl. lia.
  - intros [] s2 [Hs2 Hq2]. rewrite <- (assoc_L (++)) in Hs2. split; [done|congruence].
Qed.

Lemma publish_from_ok n : ∀ i s rs vs k,
  rs = take n (drop i (pending_client_requests_ s)) → length rs = n →
  queue_room MEClientRequest_default (seq_incoming_requests_ s) (n + k) vs →
  wp (publish_from n i) s (λ _ s',
    pending_client_requests_ s' = pending_client_requests_ s ∧ pending_size_ s' = pending_size_ s ∧
    queue_room MEClientRequest_default (seq_incoming_requests_ s') k (vs ++ (request_ <$> rs))).
Proof.
  induction n as [|n IH]; intros i s rs vs k Hrs Hl Hq.
  { apply nil_length_inv in Hl. subst. apply wp_ret. by rewrite Hl, app_nil_r. }
  simpl. apply wp_bind, wp_gets.
  destruct (drop i (pending_client_requests_ s)) as [|r ds] eqn:Hd; [by subst rs|].
  assert (pending_client_requests_ s !! i = Some r) as Hi.
  { rewrite <- (Nat.add_0_r i), <- lookup_drop, Hd. done. }
  assert (drop (S i) (pending_client_requests_ s) = ds) as Hds.
  { replace (S i) with (i + 1)%nat by lia. by rewrite <- drop_drop, Hd. }
  rewrite Hi. subst rs. simpl in Hl |- *.
  apply wp_bind, wp_zoom. eapply wp_mono; [by apply queue_room_push|].
  intros [] q [Hq' _]. eapply wp_mono.
  { apply (IH (S i) (set_seq_queue q s) (take n ds) (vs ++ [request_ r]) k); [cbn [pending_client_requests_ set_seq_queue]; by rewrite Hds|lia|done]. }
  intros [] s' (? & ? & Hr). by rewrite <- (assoc_L (++)) in Hr.
Qed.

Lemma sequenceAndPublish_ok s rs vs k :
  holds s rs → Z.of_nat (length rs) ≤ ME_MAX_PENDING_REQUESTS →
  queue_room MEClientRequest_default (seq_incoming_requests_ s) (length rs + k) vs →
  wp sequenceAndPublish s (λ _ s', holds s' [] ∧
    queue_room MEClientRequest_default (seq_incoming_requests_ s') k
      (vs ++ (request_ <$> std_sort rs))).
Proof.
  intros (Hl & Hn & Ht) Hle Hq. unfold sequenceAndPublish. apply wp_bind, wp_gets. rewrite Hn.
  destruct rs as [|r rs].
  { simpl. apply wp_ret. split.
    - by split_and!.
    - pose proof (std_sort_perm (lt := recv_lt) []) as Hp.
      apply Permutation_nil_r in Hp. rewrite Hp. by rewrite app_nil_r. }
  assert (Z.of_nat (length (r :: rs)) =? 0 = false) as -> by (simpl; lia).
  remember (r :: rs) as rs' eqn:Hrs. clear Hrs r rs. rename rs' into rs.
  rewrite Nat2Z.id. apply wp_bind, wp_gets, wp_bind, wp_modify, wp_bind. rewrite Ht.
  assert (length (std_sort rs) = length rs) as Hls by by rewrite (std_sort_perm rs).
  eapply wp_mono.
  { apply (publish_from_ok (length rs) 0 _ (std_sort rs) vs k); [|done|done].
    simpl. rewrite drop_0, take_app_length' by done. done. }
  intros [] s' (Hps & _ & Hq'). apply wp_modify. split; [|done].
  unfold holds. simpl. rewrite Hps. simpl. split_and!; [|done|done].
  rewrite length_app, length_drop, Hls, Hl. lia.
Qed.
(** One round from an empty sequencer. *)
Lemma round_ok q rs vs k :
  queue_room MEClientRequest_default q (length rs + k) vs →
  Z.of_nat (length rs) ≤ ME_MAX_PENDING_REQUESTS →
  ∃ s, (_ ← add_all rs; sequenceAndPublish) (FIFOSequencer_new q) = Ok (tt, s) ∧ holds s [] ∧
    queue_room MEClientRequest_default (seq_incoming_requests_ s) k (vs ++ (request_ <$> std_sort rs)).
Proof.
  intros Hq Hl. assert (holds (FIFOSequencer_new q) []) as H0.
  { split_and!; [apply length_replicate|done|done]. }
  assert (wp (_ ← add_all rs; sequenceAndPublish) (FIFOSequencer_new q) (λ _ s, holds s [] ∧
    queue_room MEClientRequest_default (seq_incoming_requests_ s) k (vs ++ (request_ <$> std_sort rs)))) as H.
  { apply wp_bind. eapply wp_mono; [by apply (add_all_ok _ [] rs)|].
    intros [] s [Hs Hsq]. apply sequenceAndPublish_ok; [done|done|by rewrite Hsq]. }
  apply wp_ok in H as ([] & s & Hrun & Hs). by exists s.
Qed.
End sequencer.

(** Two implementations of the contract of [std::sort]: a stable merge sort, and the same
    after reversing its input. *)
Definition recv_le (x y : RecvTimeClientRequest) : Prop := recv_time_ x ≤ recv_time_ y.
#[export] Instance recv_le_dec x y : Decision (recv_le x y).
Proof. unfold recv_le. apply _. Defined.
#[export] Instance recv_le_trans : Transitive recv_le.
Proof. intros x y z. unfold recv_le. lia. Qed.
#[export] Instance recv_le_total : Total recv_le.
Proof. intros x y. unfold recv_le. lia. Qed.
Lemma recv_sorted l :
  StronglySorted (λ x y, recv_lt y x = false) (merge_sort recv_le l).
Proof.
  eapply StronglySorted_weaken; [|apply StronglySorted_merge_sort; apply _].
  unfold recv_le, recv_lt. intros. lia.
Qed.
#[export] Program Instance stable_sort : StdSort recv_lt := {| std_sort := merge_sort recv_le |}.
Next Obligation. intros l. apply merge_sort_Permutation. Qed.
Next Obligation. apply recv_sorted. Qed.
Program Definition unstable_sort : StdSort recv_lt := {| std_sort l := merge_sort recv_le (reverse l) |}.
Next Obligation. intros l. simpl. rewrite merge_sort_Permutation. apply reverse_Permutation. Qed.
Next Obligation. intros l. apply recv_sorted. Qed.

(** ** Properties *)
Section properties.
Context `{!StdSort recv_lt}.

(** A round of the sequencer (requests queued in arrival order, then published) hands
    every request to the matching engine exactly once, in ascending receive time, and
    leaves nothing pending. *)
Theorem sequencer_round q rs vs k :
  queue_room MEClientRequest_default q (length rs + k) vs →
  Z.of_nat (length rs) ≤ ME_MAX_PENDING_REQUESTS →
  ∃ s sorted, (_ ← add_all rs; sequenceAndPublish) (FIFOSequencer_new q) = Ok (tt, s) ∧
    pending_size_ s = 0 ∧ sorted ≡ₚ rs ∧
    StronglySorted (λ x y, recv_time_ x ≤ recv_time_ y) sorted ∧
    queue_room MEClientRequest_default (seq_incoming_requests_ s) k (vs ++ (request_ <$> sorted)).
Proof.
  intros Hq Hl. destruct (round_ok q rs vs k Hq Hl) as (s & Hrun & (_ & Hn & _) & Hq').
  exists s, (std_sort rs).
  split_and!; [done|done|apply std_sort_perm| |done].
  eapply StronglySorted_weaken; [|apply std_sort_sorted]. unfold recv_lt. intros. lia.
Qed.

(** When the receive times are distinct the order is determined: requests that arrive
    in receive-time order are published in arrival order. *)
Theorem sequencer_fifo q rs vs k :
  queue_room MEClientRequest_default q (length rs + k) vs →
  Z.of_nat (length rs) ≤ ME_MAX_PENDING_REQUESTS →
  StronglySorted (λ x y, recv_time_ x < recv_time_ y) rs →
  ∃ s, (_ ← add_all rs; sequenceAndPublish) (FIFOSequencer_new q) = Ok (tt, s) ∧
    queue_room MEClientRequest_default (seq_incoming_requests_ s) k (vs ++ (request_ <$> rs)).
Proof.
  intros Hq Hl Hs.
  assert (std_sort rs = rs) as Hsort.
  { apply (StronglySorted_unique_strong (λ x y, recv_lt y x = false)).
    - intros x y Hx Hy H1 H2. unfold recv_lt in H1, H2. rewrite std_sort_perm in Hx.
      apply (StronglySorted_lt_inj recv_time_ rs); [done|done|done|lia].
    - apply std_sort_sorted.
    - eapply StronglySorted_weaken; [|exact Hs]. unfold recv_lt. intros. lia.
    - apply std_sort_perm. }
  destruct (round_ok q rs vs k Hq Hl) as (s & Hrun & _ & Hq'). rewrite Hsort in Hq'. eauto.
Qed.

(** The 1025th request that arrives in one round ends the process ([FATAL]). *)
Theorem sequencer_overflow s rs rx_time request :
  holds s rs → Z.of_nat (length rs) = ME_MAX_PENDING_REQUESTS →
  addClientRequest rx_time request s = Err Exit.
Proof.
  intros (Hl & Hn & _) Hlen. unfold addClientRequest. rewrite !gets_bind, Hl, Hn.
  by rewrite (proj2 (Z.leb_le _ _)) by (unfold ME_MAX_PENDING_REQUESTS in *; lia).
Qed.
End properties.

(** ** A concrete round: three requests, the second received first *)
Definition request_at (t order : Z) : RecvTimeClientRequest :=
  MkRecvTimeClientRequest t (MkMEClientRequest ClientRequestType_NEW 1 3 order Side_BUY 100 10).
Lemma sequencer_round_witness :
  ∃ s sorted, (_ ← add_all [request_at 7 1; request_at 4 2; request_at 9 3]; sequenceAndPublish)
      (FIFOSequencer_new new_queue) = Ok (tt, s) ∧
    pending_size_ s = 0 ∧ sorted ≡ₚ [request_at 7 1; request_at 4 2; request_at 9 3] ∧
    StronglySorted (λ x y, recv_time_ x ≤ recv_time_ y) sorted ∧
    queue_room MEClientRequest_default (seq_incoming_requests_ s) 5 ([] ++ (request_ <$> sorted)).
Proof.
  apply (sequencer_round new_queue [request_at 7 1; request_at 4 2; request_at 9 3] [] 5); [|done].
  split_and!; [apply new_queue_wf|reflexivity|simpl; lia].
Defined.
Lemma sequencer_fifo_witness :
  ∃ s, (_ ← add_all [request_at 4 1; request_at 7 2]; sequenceAndPublish)
      (FIFOSequencer_new new_queue) = Ok (tt, s) ∧
    queue_room MEClientRequest_default (seq_incoming_requests_ s) 5
      ([] ++ (request_ <$> [request_at 4 1; request_at 7 2])).
Proof.
  apply (sequencer_fifo new_queue [request_at 4 1; request_at 7 2] [] 5).
  - split_and!; [apply new_queue_wf|reflexivity|simpl; lia].
  - done.
  - repeat constructor; simpl; lia.
Defined.
Definition full_sequencer : FIFOSequencer :=
  MkFIFOSequencer new_queue (replicate 1024 (request_at 7 1)) 1024.
Lemma sequencer_overflow_witness :
  addClientRequest 7 MEClientRequest_default full_sequencer = Err Exit.
Proof.
  apply (sequencer_overflow full_sequencer (replicate 1024 (request_at 7 1))).
  - split_and!; reflexivity.
  - reflexivity.
Defined.

(** ** Requests received at the same time *)
Definition new_and_cancel : list RecvTimeClientRequest :=
  [MkRecvTimeClientRequest 5 (MkMEClientRequest ClientRequestType_NEW 1 3 1 Side_BUY 100 10);
   MkRecvTimeClientRequest 5 (MkMEClientRequest ClientRequestType_CANCEL 1 3 1 Side_BUY 100 10)].

(** The contract of [std::sort] does not make the sequencer first-in-first-out: all
    requests of one read carry the same receive time, and there is an implementation of
    the contract under which a new order and its cancellation, received in this order
    from one client, reach the matching engine in the opposite order. *)
Theorem equal_times_may_reorder :
  ∃ sort : StdSort recv_lt,
    (_ ← add_all new_and_cancel; sequenceAndPublish (StdSort0 := sort)) (FIFOSequencer_new new_queue) ≠ Err Exit ∧
    match (_ ← add_all new_and_cancel; sequenceAndPublish (StdSort0 := sort)) (FIFOSequencer_new new_queue) with
    | Ok (_, s) => contents MEClientRequest_default (seq_incoming_requests_ s)
                     = reverse (request_ <$> new_and_cancel)
    | Err _ => False
    end.
Proof. exists unstable_sort. vm_compute. done. Qed.
