(* ===== verification/Sockets.v ===== *)
(** Common/tcp_socket.{h,cpp} and Common/mcast_socket.{h,cpp}: the buffers of a TCP
    connection and of a multicast socket.

    A buffer is modelled by its valid part: [inbound_data_] is the first
    [next_rcv_valid_index_] bytes, [outbound_data_] the first [next_send_valid_index_].
    The kernel is a parameter: a [kernel_event] says which bytes are waiting to be read
    (with the receive time) and how many bytes of the send buffer it takes.  The bytes it
    took are recorded in [transmitted_].  How sockets are created is in
    [SocketUtils]. *)
From coqutil Require Import Byte.
From S2P Require Export Wire.

Definition TCPBufferSize : Z := 64 * 1024 * 1024.
Definition McastBufferSize : Z := 64 * 1024 * 1024.

Record Socket : Type := MkSocket {
  inbound_data_ : list byte;
  outbound_data_ : list byte;
  transmitted_ : list byte;
}.
Definition Socket_new : Socket := MkSocket [] [] [].
Definition set_inbound (bs : list byte) (s : Socket) : Socket :=
  MkSocket bs (outbound_data_ s) (transmitted_ s).
Definition set_outbound (bs : list byte) (s : Socket) : Socket :=
  MkSocket (inbound_data_ s) bs (transmitted_ s).
Definition set_transmitted (bs : list byte) (s : Socket) : Socket :=
  MkSocket (inbound_data_ s) (outbound_data_ s) bs.

Record kernel_event : Type := MkKernelEvent {
  k_data : list byte;
  k_time : Z;
  k_accepts : nat;
}.
(** What [recvmsg] copies into a buffer with [room] bytes left. *)
Definition kernel_copy (room : Z) (bytes : list byte) : list byte :=
  if Z.of_nat (length bytes) <=? room then bytes else take (Z.to_nat room) bytes.

(** [TCPSocket::send]. *)
Definition tcp_send (data : list byte) : M Socket unit :=
  out ← gets outbound_data_;
  if Z.of_nat (length out + length data) <=? TCPBufferSize
  then modify (set_outbound (out ++ data)) else raise OutOfBounds.
(** [McastSocket::send]: asserts, after the copy, that the buffer is not full. *)
Definition mcast_send (data : list byte) : M Socket unit :=
  out ← gets outbound_data_;
  if Z.of_nat (length out + length data) <=? McastBufferSize
  then
    _ ← modify (set_outbound (out ++ data));
    ASSERT (Z.of_nat (length out + length data) <? McastBufferSize)
  else raise OutOfBounds.

(** [sendAndRecv] of both kinds of socket, in the object [S] that owns the callback: [sock]
    reads the socket, [upd] assigns to it. *)
Section send_and_recv.
Context {S : Type} (sock : M S Socket) (upd : (Socket → Socket) → M S unit)
  (recv_callback_ : Z → M S unit) (buffer_size : Z).

Definition transmit (ev : kernel_event) (s : Socket) : Socket :=
  set_outbound [] (set_transmitted (transmitted_ s ++ take (k_accepts ev) (outbound_data_ s)) s).

Definition sendAndRecv (ev : kernel_event) : M S bool :=
  s ← sock;
  let data := kernel_copy (buffer_size - Z.of_nat (length (inbound_data_ s))) (k_data ev) in
  _ ← (match data with
       | [] => mret tt
       | _ =>
         _ ← upd (λ s, set_inbound (inbound_data_ s ++ data) s);
         recv_callback_ (k_time ev)
       end);
  _ ← upd (transmit ev);
  mret (negb (bool_decide (data = []))).
End send_and_recv.
(** [McastSocket::sendAndRecv]: its callback gets no time. *)
Definition mcast_sendAndRecv {S : Type} (sock : M S Socket) (upd : (Socket → Socket) → M S unit)
    (recv_callback_ : M S unit) (ev : kernel_event) : M S bool :=
  sendAndRecv sock upd (λ _, recv_callback_) McastBufferSize ev.

(** ** What is sent *)
Lemma tcp_send_ok data s :
  Z.of_nat (length (outbound_data_ s) + length data) ≤ TCPBufferSize →
  tcp_send data s = Ok (tt, set_outbound (outbound_data_ s ++ data) s).
Proof. intros H. unfold tcp_send. mrun. by rewrite (proj2 (Z.leb_le _ _) H). Qed.
(** Two writes that make one message. *)
Lemma tcp_send_twice d1 d2 s :
  Z.of_nat (length (outbound_data_ s) + length d1 + length d2) ≤ TCPBufferSize →
  (_ ← tcp_send d1; tcp_send d2) s = Ok (tt, set_outbound (outbound_data_ s ++ d1 ++ d2) s).
Proof.
  intros H. rewrite (bind_Ok _ _ _ _ _ (tcp_send_ok d1 s ltac:(lia))).
  rewrite tcp_send_ok by (simpl; rewrite length_app; lia). simpl. by rewrite <- (assoc_L (++)).
Qed.
Lemma mcast_send_ok data s :
  Z.of_nat (length (outbound_data_ s) + length data) < McastBufferSize →
  mcast_send data s = Ok (tt, set_outbound (outbound_data_ s ++ data) s).
Proof.
  intros H. unfold mcast_send. mrun. rewrite (proj2 (Z.leb_le _ _)) by lia.
  by rewrite (proj2 (Z.ltb_lt _ _) H).
Qed.

(** When the kernel takes the whole send buffer nothing is lost or reordered. *)
Lemma transmit_all ev s :
  (length (outbound_data_ s) ≤ k_accepts ev)%nat →
  transmit ev s = set_outbound [] (set_transmitted (transmitted_ s ++ outbound_data_ s) s).
Proof. intros H. unfold transmit. by rewrite take_ge. Qed.
Lemma kernel_copy_nil n : kernel_copy n [] = [].
Proof. unfold kernel_copy. rewrite take_nil. by case_match. Qed.
