(* ===== verification/SocketUtils.v ===== *)
(** Common/socket_utils.h: how sockets are created, and the set-up functions of tcp_socket.cpp and
    mcast_socket.cpp that go through it.

    The operating system is a parameter: [kernel tr c] is the result of the system call [c] made after
    the calls [tr] (newest last), [getaddrinfo] resolves a numeric address, [getifaddrs] lists the
    interfaces.  The functions thread the trace of the calls they made.  The constants are those of
    Linux.  Log lines and the texts of failed assertions are not modelled. *)
From S2P Require Export Types.

Definition AF_INET : Z := 2.
Definition SOCK_STREAM : Z := 1.
Definition SOCK_DGRAM : Z := 2.
Definition IPPROTO_TCP : Z := 6.
Definition IPPROTO_UDP : Z := 17.
Definition O_NONBLOCK : Z := 2048.
Definition AI_PASSIVE : Z := 1.
Definition AI_NUMERICHOST : Z := 4.
Definition AI_NUMERICSERV : Z := 1024.
Definition MaxTCPServerBacklog : Z := 1024.

Record SocketCfg : Type := MkSocketCfg {
  ip_ : string;
  iface_ : string;
  port_ : Z;
  is_udp_ : bool;
  is_listening_ : bool;
  needs_so_timestamp_ : bool;
}.
(** A stream prints a [bool] as 0 or 1. *)
Definition print_bool (b : bool) : string := if b then "1" else "0".
Definition SocketCfg_toString (c : SocketCfg) : string :=
  ("SocketCfg[ip:" +:+ ip_ c +:+ " iface:" +:+ iface_ c +:+ " port:" +:+ pretty (port_ c) +:+
   " is_udp:" +:+ print_bool (is_udp_ c) +:+ " is_listening:" +:+ print_bool (is_listening_ c) +:+
   " needs_SO_timestamp:" +:+ print_bool (needs_so_timestamp_ c) +:+ "]")%string.

(** ** What the operating system answers *)
(** An element of the list of [getifaddrs]; [ifa_family] is [None] without an address,
    [ifa_host] is what [getnameinfo] writes for it. *)
Record ifaddr : Type := MkIfaddr { ifa_name : string; ifa_family : option Z; ifa_host : string }.
Record addrinfo_hints : Type := MkHints {
  hint_flags : Z;
  hint_family : Z;
  hint_socktype : Z;
  hint_protocol : Z;
}.
(** An element of the list of [getaddrinfo]; [ai_addr] is the resolved address. *)
Record addrinfo : Type := MkAddrinfo {
  ai_family : Z;
  ai_socktype : Z;
  ai_protocol : Z;
  ai_addr : string;
}.
Inductive sockaddr : Type :=
  | Resolved (addr : string)
  | AnyAddress (sin_port : Z).
Inductive syscall : Type :=
  | Sys_socket (family type protocol : Z)
  | Sys_getfl (fd : Z)
  | Sys_setfl (fd flags : Z)
  | Sys_nodelay (fd : Z)
  | Sys_connect (fd : Z) (addr : sockaddr)
  | Sys_reuseaddr (fd : Z)
  | Sys_bind (fd : Z) (addr : sockaddr)
  | Sys_listen (fd backlog : Z)
  | Sys_timestamp (fd : Z)
  | Sys_membership (fd : Z) (multiaddr : string)
  | Sys_accept (fd : Z)
  | Sys_epoll_create
  | Sys_epoll_add (epfd fd events : Z)
  | Sys_kqueue
  | Sys_kevent_add (kq fd filter flags : Z)
  | Sys_close (fd : Z).
#[export] Instance sockaddr_eq_dec : EqDecision sockaddr.
Proof. solve_decision. Defined.
#[export] Instance syscall_eq_dec : EqDecision syscall.
Proof. solve_decision. Defined.
Abbreviation trace := (list syscall).

(** [htons]: the two bytes of a port in network order. *)
Definition htons (port : Z) : Z :=
  Z.lor (Z.shiftl (Z.land port 255) 8) (Z.land (Z.shiftr port 8) 255).

Definition getIfaceIP (ifaddrs : option (list ifaddr)) (iface : string) : string :=
  let fix find (ifas : list ifaddr) : string :=
    match ifas with
    | [] => EmptyString
    | ifa :: ifas =>
        if bool_decide (ifa_family ifa = Some AF_INET) && String.eqb iface (ifa_name ifa)
        then ifa_host ifa else find ifas
    end in
  match ifaddrs with Some ifas => find ifas | None => EmptyString end.

Section system.
Context (kernel : trace → syscall → Z).
Context (getifaddrs : option (list ifaddr)).
Context (getaddrinfo : string → string → addrinfo_hints → option (list addrinfo)).

Definition sys (c : syscall) : M trace Z := λ tr, Ok (kernel tr c, tr ++ [c]).

Definition setNonBlocking (fd : Z) : M trace bool :=
  flags ← sys (Sys_getfl fd);
  if negb (Z.land flags O_NONBLOCK =? 0) then mret true
  else r ← sys (Sys_setfl fd (Z.lor flags O_NONBLOCK)); mret (negb (r =? -1)).
Definition disableNagle (fd : Z) : M trace bool := r ← sys (Sys_nodelay fd); mret (negb (r =? -1)).
Definition setSOTimestamp (fd : Z) : M trace bool := r ← sys (Sys_timestamp fd); mret (negb (r =? -1)).
Definition join (fd : Z) (ip : string) : M trace bool :=
  r ← sys (Sys_membership fd ip); mret (negb (r =? -1)).

(** [if (cond) { ASSERT(check, ...); }]. *)
Definition assert_if (cond : bool) (check : M trace bool) : M trace unit :=
  if cond then ok ← check; ASSERT ok else mret tt.
Definition returns (expected : Z) (c : syscall) : M trace bool := r ← sys c; mret (r =? expected).

(** The body of the loop of [createSocket]. *)
Definition setup_socket (cfg : SocketCfg) (rp : addrinfo) : M trace Z :=
  socket_fd ← sys (Sys_socket (ai_family rp) (ai_socktype rp) (ai_protocol rp));
  _ ← ASSERT (negb (socket_fd =? -1));
  _ ← assert_if true (setNonBlocking socket_fd);
  _ ← assert_if (negb (is_udp_ cfg)) (disableNagle socket_fd);
  _ ← assert_if (negb (is_listening_ cfg))
        (r ← sys (Sys_connect socket_fd (Resolved (ai_addr rp))); mret (negb (r =? 1)));
  _ ← assert_if (is_listening_ cfg) (returns 0 (Sys_reuseaddr socket_fd));
  _ ← assert_if (is_listening_ cfg)
        (returns 0 (Sys_bind socket_fd
           (if is_udp_ cfg then AnyAddress (htons (port_ cfg)) else Resolved (ai_addr rp))));
  _ ← assert_if (negb (is_udp_ cfg) && is_listening_ cfg)
        (returns 0 (Sys_listen socket_fd MaxTCPServerBacklog));
  _ ← assert_if (needs_so_timestamp_ cfg) (setSOTimestamp socket_fd);
  mret socket_fd.
Fixpoint setup_sockets (cfg : SocketCfg) (result : list addrinfo) (socket_fd : Z) : M trace Z :=
  match result with
  | [] => mret socket_fd
  | rp :: result => socket_fd ← setup_socket cfg rp; setup_sockets cfg result socket_fd
  end.
Definition createSocket (cfg : SocketCfg) : M trace Z :=
  let ip := if String.eqb (ip_ cfg) EmptyString then getIfaceIP getifaddrs (iface_ cfg) else ip_ cfg in
  let input_flags :=
    Z.lor (if is_listening_ cfg then AI_PASSIVE else 0) (Z.lor AI_NUMERICHOST AI_NUMERICSERV) in
  let hints := MkHints input_flags AF_INET (if is_udp_ cfg then SOCK_DGRAM else SOCK_STREAM)
    (if is_udp_ cfg then IPPROTO_UDP else IPPROTO_TCP) in
  match getaddrinfo ip (pretty (port_ cfg)) hints with
  | Some result => setup_sockets cfg result (-1)
  | None => raise Exit
  end.

(** [TCPSocket::connect]: the result is also the member [socket_fd_]; so it is for [McastSocket::init]. *)
Definition tcp_connect (ip iface : string) (port : Z) (is_listening : bool) : M trace Z :=
  createSocket (MkSocketCfg ip iface port false is_listening true).
Definition mcast_init (ip iface : string) (port : Z) (is_listening : bool) : M trace Z :=
  createSocket (MkSocketCfg ip iface port true is_listening false).
(** [McastSocket::join]. *)
Definition mcast_join (socket_fd : Z) (ip : string) : M trace bool := join socket_fd ip.
(** [McastSocket::leave]: the new [socket_fd_]. *)
Definition mcast_leave (socket_fd : Z) : M trace Z := _ ← sys (Sys_close socket_fd); mret (-1).
End system.

(** * What the set-up does *)
Lemma bind_same {S A B} (m1 m2 : M S A) (k1 k2 : A → M S B) s :
  (∀ s, m1 s = m2 s) → (∀ a s, k1 a s = k2 a s) → (m1 ≫= k1) s = (m2 ≫= k2) s.
Proof. intros Hm Hk. unfold mbind, M_bind. rewrite Hm. by destruct (m2 s) as [[a s']|]. Qed.

(** The answers after which the code goes on: any answer to [F_GETFL], everything but 1 from
    [connect]. *)
Definition passed (c : syscall) (r : Z) : bool :=
  match c with
  | Sys_getfl _ => true
  | Sys_connect _ _ => negb (r =? 1)
  | Sys_reuseaddr _ | Sys_bind _ _ | Sys_listen _ _ => r =? 0
  | _ => negb (r =? -1)
  end.
Definition is_setfl (c : syscall) : bool := match c with Sys_setfl _ _ => true | _ => false end.
Definition is_connect (c : syscall) : bool := match c with Sys_connect _ _ => true | _ => false end.

(** The calls for one address, in order, apart from [F_SETFL]. *)
Definition setup_calls (cfg : SocketCfg) (rp : addrinfo) (fd : Z) : list syscall :=
  [Sys_socket (ai_family rp) (ai_socktype rp) (ai_protocol rp); Sys_getfl fd] ++
  (if negb (is_udp_ cfg) then [Sys_nodelay fd] else []) ++
  (if negb (is_listening_ cfg) then [Sys_connect fd (Resolved (ai_addr rp))] else []) ++
  (if is_listening_ cfg then [Sys_reuseaddr fd] else []) ++
  (if is_listening_ cfg then
     [Sys_bind fd (if is_udp_ cfg then AnyAddress (htons (port_ cfg)) else Resolved (ai_addr rp))]
   else []) ++
  (if negb (is_udp_ cfg) && is_listening_ cfg then [Sys_listen fd MaxTCPServerBacklog] else []) ++
  (if needs_so_timestamp_ cfg then [Sys_timestamp fd] else []).

Section calls.
Context (kernel : trace → syscall → Z).

Fixpoint all_passed (tr calls : trace) : Prop :=
  match calls with
  | [] => True
  | c :: calls => passed c (kernel tr c) = true ∧ all_passed (tr ++ [c]) calls
  end.
(** From [tr] to [tr'] only calls that passed were made, [es] without the [F_SETFL]s. *)
Definition did (tr tr' es : trace) : Prop :=
  ∃ calls, tr' = tr ++ calls ∧ all_passed tr calls ∧ filter (λ c, is_setfl c = false) calls = es.
Definition obliging : Prop := ∀ tr c, passed c (kernel tr c) = true.
(** The computation ends the process because a call did not pass, or returns with [Q]. *)
Definition returns_or_exits {A} (m : M trace A) (tr : trace) (Q : A → trace → Prop) : Prop :=
  (m tr = Err Exit ∧ ¬ obliging) ∨ ∃ a tr', m tr = Ok (a, tr') ∧ Q a tr'.

Lemma all_passed_app tr c1 c2 :
  all_passed tr (c1 ++ c2) ↔ all_passed tr c1 ∧ all_passed (tr ++ c1) c2.
Proof.
  revert tr. induction c1 as [|c c1 IH]; intros tr.
  - rewrite (right_id_L [] (++)). simpl. tauto.
  - simpl. rewrite IH, <- (assoc_L (++)). simpl. tauto.
Qed.
Lemma did_nil tr : did tr tr [].
Proof. exists []. by rewrite (right_id_L [] (++)). Qed.
Lemma did_trans tr1 tr2 tr3 e1 e2 : did tr1 tr2 e1 → did tr2 tr3 e2 → did tr1 tr3 (e1 ++ e2).
Proof.
  intros (c1 & -> & H1 & <-) (c2 & -> & H2 & <-). exists (c1 ++ c2).
  rewrite (assoc_L (++)), all_passed_app, filter_app. done.
Qed.
Lemma did_call tr c : passed c (kernel tr c) = true → is_setfl c = false → did tr (tr ++ [c]) [c].
Proof. intros Hp Hc. exists [c]. by rewrite filter_cons_True. Qed.

Lemma roe_ret {A} (a : A) tr (Q : A → trace → Prop) : Q a tr → returns_or_exits (mret a) tr Q.
Proof. right. by eexists _, _. Qed.
Lemma roe_bind {A B} (m : M trace A) (k : A → M trace B) tr (Q : A → trace → Prop) R :
  returns_or_exits m tr Q → (∀ a tr', Q a tr' → returns_or_exits (k a) tr' R) →
  returns_or_exits (m ≫= k) tr R.
Proof.
  intros [[E Hn]|(a & tr' & E & HQ)] Hk.
  - left. split; [|done]. by apply bind_Err.
  - unfold returns_or_exits. rewrite (bind_Ok _ _ _ _ _ E). by apply Hk.
Qed.
Lemma roe_ASSERT c tr : returns_or_exits (ASSERT (passed c (kernel tr c))) (tr ++ [c])
  (λ _ tr', tr' = tr ++ [c] ∧ passed c (kernel tr c) = true).
Proof.
  destruct (passed c (kernel tr c)) eqn:E; simpl; [by apply roe_ret|].
  left. split; [done|]. intros Hk. by rewrite Hk in E.
Qed.
(** A checked call. *)
Lemma roe_call {A} (b : bool) c (chk : M trace bool) tr tr0 es (k : unit → M trace A) R :
  is_setfl c = false →
  (chk tr = Ok (passed c (kernel tr c), tr ++ [c])) →
  did tr0 tr es →
  (∀ tr', did tr0 tr' (es ++ if b then [c] else []) → returns_or_exits (k tt) tr' R) →
  returns_or_exits (assert_if b chk ≫= k) tr R.
Proof.
  intros Hc Hchk Hdid Hk. destruct b; simpl.
  - eapply roe_bind with (Q := λ _ tr', did tr0 tr' (es ++ [c])); [|intros [] ? ?; by apply Hk].
    unfold returns_or_exits. rewrite (bind_Ok _ _ _ _ _ Hchk).
    destruct (roe_ASSERT c tr) as [?|(a & tr' & E & -> & Hp)]; [by left|].
    right. exists a, (tr ++ [c]). split; [exact E|]. eapply did_trans; [done|]. by apply did_call.
  - change (returns_or_exits (k tt) tr R). apply Hk. by rewrite (right_id_L [] (++)).
Qed.
Lemma setNonBlocking_ok fd tr tr0 es :
  did tr0 tr es →
  returns_or_exits (assert_if true (setNonBlocking kernel fd)) tr
    (λ _ tr', did tr0 tr' (es ++ [Sys_getfl fd])).
Proof.
  intros Hdid. set (g := Sys_getfl fd).
  assert (did tr0 (tr ++ [g]) (es ++ [g])) as Hg by (eapply did_trans; [done|]; by apply did_call).
  set (c := Sys_setfl fd (Z.lor (kernel tr g) O_NONBLOCK)).
  assert (setNonBlocking kernel fd tr =
    if negb (Z.land (kernel tr g) O_NONBLOCK =? 0) then Ok (true, tr ++ [g])
    else Ok (passed c (kernel (tr ++ [g]) c), (tr ++ [g]) ++ [c])) as E.
  { unfold setNonBlocking, mbind, M_bind, sys. fold g. by destruct (negb _). }
  unfold assert_if, returns_or_exits.
  destruct (negb _); rewrite (bind_Ok _ _ _ _ _ E); [right; by exists tt, (tr ++ [g])|].
  destruct (roe_ASSERT c (tr ++ [g])) as [?|(a & tr' & Ea & -> & Hp)]; [by left|].
  right. exists a, ((tr ++ [g]) ++ [c]). split; [exact Ea|].
  destruct Hg as (calls & E' & Hcalls & Hes). exists (calls ++ [c]).
  rewrite E', (assoc_L (++)), all_passed_app, <- E', filter_app. split_and!; [done|done|by split|].
  rewrite Hes. apply (right_id_L [] (++)).
Qed.

(** The next checked call is [c]; [H] describes the calls so far. *)
Ltac call_step c H :=
  eapply (roe_call _ c); [reflexivity|reflexivity|exact H|];
  clear H; intros ? H.
Lemma setup_socket_ok cfg rp tr :
  returns_or_exits (setup_socket kernel cfg rp) tr (λ fd tr', did tr tr' (setup_calls cfg rp fd)).
Proof.
  unfold setup_socket, setup_calls.
  set (c := Sys_socket (ai_family rp) (ai_socktype rp) (ai_protocol rp)).
  eapply roe_bind with (Q := λ fd tr', fd = kernel tr c ∧ tr' = tr ++ [c]); [right; by eexists _, _|].
  intros fd ? [Hfd ->].
  eapply roe_bind; [subst fd; apply (roe_ASSERT c)|]. intros _ ? [-> Hp].
  eapply roe_bind; [apply setNonBlocking_ok, (did_call tr c Hp eq_refl)|]. intros [] tr1 H1.
  call_step (Sys_nodelay fd) H1.
  call_step (Sys_connect fd (Resolved (ai_addr rp))) H1.
  call_step (Sys_reuseaddr fd) H1.
  call_step (Sys_bind fd
    (if is_udp_ cfg then AnyAddress (htons (port_ cfg)) else Resolved (ai_addr rp))) H1.
  call_step (Sys_listen fd MaxTCPServerBacklog) H1.
  call_step (Sys_timestamp fd) H1.
  apply roe_ret. rewrite <- !(assoc_L (++)) in H1. exact H1.
Qed.
Lemma setup_sockets_ok cfg rps fd0 tr :
  returns_or_exits (setup_sockets kernel cfg rps fd0) tr (λ fd tr', ∃ fds,
    length fds = length rps ∧ fd = default fd0 (last fds) ∧
    did tr tr' (mjoin (zip_with (setup_calls cfg) rps fds))).
Proof.
  revert fd0 tr. induction rps as [|rp rps IH]; intros fd0 tr.
  - apply roe_ret. exists []. split_and!; [done|done|apply did_nil].
  - eapply roe_bind; [apply setup_socket_ok|]. intros fd1 tr1 H1.
    destruct (IH fd1 tr1) as [?|(fd & tr' & E & fds & Hl & -> & H2)]; [by left|].
    right. exists (default fd0 (last (fd1 :: fds))), tr'. split.
    + etrans; [exact E|]. rewrite last_cons. by destruct (last fds).
    + exists (fd1 :: fds). split_and!; [simpl; lia|done|]. by apply (did_trans _ _ _ _ _ H1).
Qed.
End calls.

(** Two systems that differ only in the connections they establish. *)
Section same.
Context (kernel1 kernel2 : trace → syscall → Z).
Hypothesis Hsame : ∀ tr c, is_connect c = false → kernel1 tr c = kernel2 tr c.
Hypothesis Hconn : ∀ tr c, is_connect c = true → kernel1 tr c ≤ 0 ∧ kernel2 tr c ≤ 0.

Lemma sys_same c tr : is_connect c = false → sys kernel1 c tr = sys kernel2 c tr.
Proof. intros Hc. unfold sys. by rewrite Hsame. Qed.
Lemma checked_same (p : Z → bool) c tr :
  is_connect c = false →
  (r ← sys kernel1 c; mret (p r)) tr = (r ← sys kernel2 c; mret (p r)) tr.
Proof. intros Hc. apply bind_same; [|done]. intros. by apply sys_same. Qed.
Lemma assert_same b chk1 chk2 tr :
  (∀ tr, chk1 tr = chk2 tr) → assert_if b chk1 tr = assert_if b chk2 tr.
Proof. intros H. destruct b; [|done]. by apply bind_same. Qed.
Lemma setNonBlocking_same fd tr : setNonBlocking kernel1 fd tr = setNonBlocking kernel2 fd tr.
Proof.
  apply bind_same; [intros; by apply sys_same|]. intros flags s. case_match; [done|].
  by apply (checked_same (λ r, negb (r =? -1))).
Qed.
Lemma connect_same fd addr tr :
  (r ← sys kernel1 (Sys_connect fd addr); mret (negb (r =? 1))) tr =
  (r ← sys kernel2 (Sys_connect fd addr); mret (negb (r =? 1))) tr.
Proof.
  unfold mbind, M_bind, sys. destruct (Hconn tr (Sys_connect fd addr) eq_refl).
  by rewrite !(proj2 (Z.eqb_neq _ _)) by lia.
Qed.
Lemma setup_socket_same cfg rp tr : setup_socket kernel1 cfg rp tr = setup_socket kernel2 cfg rp tr.
Proof.
  apply bind_same; [intros; by apply sys_same|]. intros fd s1.
  apply bind_same; [done|]. intros _ s2.
  apply bind_same; [intros; apply assert_same, setNonBlocking_same|]. intros _ s3.
  apply bind_same; [intros; apply assert_same; intros; by apply checked_same|]. intros _ s4.
  apply bind_same; [intros; apply assert_same; intros; apply connect_same|]. intros _ s5.
  repeat (apply bind_same;
    [intros; apply assert_same; intros; by apply (checked_same _)|intros _ ?]).
  done.
Qed.
End same.

Section kernels.
Context (getifaddrs : option (list ifaddr)).
Context (getaddrinfo : string → string → addrinfo_hints → option (list addrinfo)).
(** The address and the hints [createSocket] asks for. *)
Definition asked_ip (cfg : SocketCfg) : string :=
  if String.eqb (ip_ cfg) EmptyString then getIfaceIP getifaddrs (iface_ cfg) else ip_ cfg.
Definition asked_hints (cfg : SocketCfg) : addrinfo_hints :=
  MkHints (1024 + 4 + (if is_listening_ cfg then 1 else 0)) AF_INET
    (if is_udp_ cfg then SOCK_DGRAM else SOCK_STREAM) (if is_udp_ cfg then IPPROTO_UDP else IPPROTO_TCP).


(** A refused connection goes unnoticed.  [connect] reports failure with -1 and [createSocket]
    compares its result with 1, so two systems that differ only in whether connections are established
    (0 or -1) give the same outcome: the same descriptor and the same calls. *)
Theorem createSocket_ignores_connect kernel1 kernel2 cfg tr :
  (∀ tr c, is_connect c = false → kernel1 tr c = kernel2 tr c) →
  (∀ tr c, is_connect c = true → kernel1 tr c ≤ 0 ∧ kernel2 tr c ≤ 0) →
  createSocket kernel1 getifaddrs getaddrinfo cfg tr =
  createSocket kernel2 getifaddrs getaddrinfo cfg tr.
Proof.
  intros Hsame Hconn. unfold createSocket. destruct (getaddrinfo _ _ _) as [rps|]; [|done].
  generalize (-1). revert tr. induction rps as [|rp rps IH]; intros tr fd0; [done|].
  apply bind_same; [|intros fd s; apply IH].
  clear IH tr. intros tr. by apply setup_socket_same.
Qed.
End kernels.

(** ** Examples: the order gateway's connection and the exchange's listening socket *)
(** Descriptors count up from 3, sockets start in blocking mode; [connects] is what [connect] returns. *)
Definition linux_like (connects : Z) (tr : trace) (c : syscall) : Z :=
  match c with
  | Sys_socket _ _ _ => 3 + Z.of_nat (length (filter (λ c, is_setfl c = true) tr))
  | Sys_getfl _ => 2
  | Sys_connect _ _ => connects
  | _ => 0
  end.
Definition numeric_host (ip service : string) (hints : addrinfo_hints) : option (list addrinfo) :=
  Some [MkAddrinfo (hint_family hints) (hint_socktype hints) (hint_protocol hints) (ip +:+ ":" +:+ service)].
Definition interfaces : option (list ifaddr) :=
  Some [MkIfaddr "eth0" (Some 10) "fe80::1"; MkIfaddr "lo" (Some AF_INET) "127.0.0.1"]%string.

Lemma createSocket_ignores_connect_witness :
  tcp_connect (linux_like (-1)) interfaces numeric_host "127.0.0.1" "lo" 12345 false [] =
    tcp_connect (linux_like 0) interfaces numeric_host "127.0.0.1" "lo" 12345 false [] ∧
  tcp_connect (linux_like 0) interfaces numeric_host "127.0.0.1" "lo" 12345 false [] =
    Ok (3, [Sys_socket 2 1 6; Sys_getfl 3; Sys_setfl 3 2050; Sys_nodelay 3;
            Sys_connect 3 (Resolved "127.0.0.1:12345"); Sys_timestamp 3]).
Proof.
  split; [|vm_compute; reflexivity].
  apply createSocket_ignores_connect; intros tr [] H; try done; split; done.
Defined.
Example exchange_listens :
  tcp_connect (linux_like 0) interfaces numeric_host "" "lo" 12345 true [] =
    Ok (3, [Sys_socket 2 1 6; Sys_getfl 3; Sys_setfl 3 2050; Sys_nodelay 3; Sys_reuseaddr 3;
            Sys_bind 3 (Resolved "127.0.0.1:12345"); Sys_listen 3 1024; Sys_timestamp 3]).
Proof. vm_compute. reflexivity. Qed.
Example consumer_subscribes :
  (fd ← mcast_init (linux_like 0) interfaces numeric_host "233.252.14.3" "lo" 20001 true;
   join (linux_like 0) fd "233.252.14.3") [] =
    Ok (true, [Sys_socket 2 2 17; Sys_getfl 3; Sys_setfl 3 2050; Sys_reuseaddr 3;
               Sys_bind 3 (AnyAddress 8526); Sys_membership 3 "233.252.14.3"]).
Proof. vm_compute. reflexivity. Qed.
