(* ===== verification/OrderServer.v ===== *)
(** EXCHANGE/order_server/order_server.{h,cpp} and Common/tcp_server.{h,cpp}: the order
    server between the clients' TCP connections and the matching engine.

    A [TCPSocket *] is [None] or a key of [tcp_sockets_], the connections that were
    accepted.  The three tables of the class are [std::array]s of [ME_MAX_NUM_CLIENTS]
    elements accessed with [operator[]], which does not check ([OutOfBounds]).  [epoll]
    is a parameter of the model: the sockets a round of [TCPServer::sendAndRecv] visits are
    in [receive_sockets_] and [send_sockets_], the kernel's part in each visit is a
    [kernel_event].  Logging and measurements are not modelled. *)
From coqutil Require Import Byte Word.LittleEndianList.
From S2P Require Export FIFOSequencer Sockets.

Record OrderServer : Type := MkOrderServer {
  outgoing_responses_ : LFQueue MEClientResponse;
  cid_next_outgoing_seq_num_ : list Z;
  cid_next_exp_seq_num_ : list Z;
  cid_tcp_socket_ : list (option Z);
  fifo_sequencer_ : FIFOSequencer;
  receive_sockets_ : list Z;
  send_sockets_ : list Z;
  tcp_sockets_ : gmap Z Socket;
}.

Definition OrderServer_new (client_requests : LFQueue MEClientRequest)
    (client_responses : LFQueue MEClientResponse) : OrderServer :=
  MkOrderServer client_responses
    (replicate (Z.to_nat ME_MAX_NUM_CLIENTS) 1) (replicate (Z.to_nat ME_MAX_NUM_CLIENTS) 1)
    (replicate (Z.to_nat ME_MAX_NUM_CLIENTS) None) (FIFOSequencer_new client_requests) [] [] ∅.

(** ** Assignments to members *)
Section setters.
Implicit Types s : OrderServer.
Definition set_outgoing_responses (q : LFQueue MEClientResponse) s : OrderServer :=
  MkOrderServer q (cid_next_outgoing_seq_num_ s) (cid_next_exp_seq_num_ s) (cid_tcp_socket_ s)
    (fifo_sequencer_ s) (receive_sockets_ s) (send_sockets_ s) (tcp_sockets_ s).
Definition set_next_outgoing (l : list Z) s : OrderServer :=
  MkOrderServer (outgoing_responses_ s) l (cid_next_exp_seq_num_ s) (cid_tcp_socket_ s)
    (fifo_sequencer_ s) (receive_sockets_ s) (send_sockets_ s) (tcp_sockets_ s).
Definition set_next_exp (l : list Z) s : OrderServer :=
  MkOrderServer (outgoing_responses_ s) (cid_next_outgoing_seq_num_ s) l (cid_tcp_socket_ s)
    (fifo_sequencer_ s) (receive_sockets_ s) (send_sockets_ s) (tcp_sockets_ s).
Definition set_cid_socket (l : list (option Z)) s : OrderServer :=
  MkOrderServer (outgoing_responses_ s) (cid_next_outgoing_seq_num_ s) (cid_next_exp_seq_num_ s) l
    (fifo_sequencer_ s) (receive_sockets_ s) (send_sockets_ s) (tcp_sockets_ s).
Definition set_sequencer (f : FIFOSequencer) s : OrderServer :=
  MkOrderServer (outgoing_responses_ s) (cid_next_outgoing_seq_num_ s) (cid_next_exp_seq_num_ s)
    (cid_tcp_socket_ s) f (receive_sockets_ s) (send_sockets_ s) (tcp_sockets_ s).
Definition set_tcp_sockets (m : gmap Z Socket) s : OrderServer :=
  MkOrderServer (outgoing_responses_ s) (cid_next_outgoing_seq_num_ s) (cid_next_exp_seq_num_ s)
    (cid_tcp_socket_ s) (fifo_sequencer_ s) (receive_sockets_ s) (send_sockets_ s) m.
End setters.

(** [table[i]], read. *)
Definition array_at {A} (table : OrderServer → list A) (i : Z) : M OrderServer A :=
  l ← gets table;
  match l !! Z.to_nat i with Some a => mret a | None => raise OutOfBounds end.
(** The socket a pointer points to, read and assigned. *)
Definition socket_at (k : Z) : M OrderServer Socket :=
  m ← gets tcp_sockets_;
  match m !! k with Some sk => mret sk | None => raise OutOfBounds end.
Definition socket_upd (k : Z) (f : Socket → Socket) : M OrderServer unit :=
  modify (λ s, set_tcp_sockets (alter f k (tcp_sockets_ s)) s).
Definition on_socket (k : Z) (m : M Socket unit) : M OrderServer unit :=
  sk ← socket_at k;
  r ← of_res (m sk);
  socket_upd k (λ _, r.2).

(** ** Receiving *)
(** The body of the loop of [recvCallback]; [mret tt] is [continue]. *)
Definition recvRequest (socket : Z) (rx_time : Z) (request : OMClientRequest) : M OrderServer unit :=
  let client_id := req_client_id_ (me_client_request_ request) in
  bound ← array_at cid_tcp_socket_ client_id;
  _ ← (match bound with
       | None =>
         modify (λ s, set_cid_socket (<[Z.to_nat client_id := Some socket]> (cid_tcp_socket_ s)) s)
       | Some _ => mret tt
       end);
  bound ← array_at cid_tcp_socket_ client_id;
  if decide (bound = Some socket) then
    next_exp_seq_num ← array_at cid_next_exp_seq_num_ client_id;
    if omreq_seq_num_ request =? next_exp_seq_num then
      _ ← modify (λ s, set_next_exp
            (<[Z.to_nat client_id := u64 (next_exp_seq_num + 1)]> (cid_next_exp_seq_num_ s)) s);
      zoom fifo_sequencer_ set_sequencer (addClientRequest rx_time (me_client_request_ request))
    else mret tt
  else mret tt.

Definition recvCallback (socket : Z) (rx_time : Z) : M OrderServer unit :=
  sk ← socket_at socket;
  rest ← recv_messages (recvRequest socket rx_time) (inbound_data_ sk);
  socket_upd socket (set_inbound rest).

Section server.
Context `{!StdSort recv_lt}.

Definition recvFinishedCallback : M OrderServer unit :=
  zoom fifo_sequencer_ set_sequencer sequenceAndPublish.

(** ** Sending *)
(** The body of the loop over the matching engine's responses. *)
Definition send_response (client_response : MEClientResponse) : M OrderServer unit :=
  let client_id := resp_client_id_ client_response in
  next_outgoing_seq_num ← array_at cid_next_outgoing_seq_num_ client_id;
  socket ← array_at cid_tcp_socket_ client_id;
  _ ← ASSERT (bool_decide (is_Some socket));
  k ← deref socket;
  _ ← on_socket k (tcp_send (le_split 8 next_outgoing_seq_num));
  _ ← on_socket k (tcp_send (put_MEClientResponse client_response));
  _ ← zoom outgoing_responses_ set_outgoing_responses updateReadIndex;
  modify (λ s, set_next_outgoing
    (<[Z.to_nat client_id := u64 (next_outgoing_seq_num + 1)]> (cid_next_outgoing_seq_num_ s)) s).

(** [for (r = getNextToRead(); size() && r; r = getNextToRead())]. *)
Fixpoint send_responses (fuel : nat) : M OrderServer unit :=
  match fuel with
  | O => raise OutOfFuel
  | S fuel =>
    client_response ← zoom outgoing_responses_ set_outgoing_responses getNextToRead;
    n ← zoom outgoing_responses_ set_outgoing_responses queue_size;
    match client_response with
    | Some i =>
      if n =? 0 then mret tt
      else
        r ← zoom outgoing_responses_ set_outgoing_responses
              (read_slot MEClientResponse_default (Some i));
        _ ← send_response r;
        send_responses fuel
    | None => mret tt
    end
  end.

(** ** One round of [run] *)
(** [std::for_each] over [sockets]; [io] is the kernel's part in each visit. *)
Fixpoint sockets_sendAndRecv (sockets : list Z) (io : Z → kernel_event) : M OrderServer bool :=
  match sockets with
  | [] => mret false
  | k :: sockets =>
    recv ← sendAndRecv (socket_at k) (socket_upd k) (recvCallback k) TCPBufferSize (io k);
    recv' ← sockets_sendAndRecv sockets io;
    mret (recv || recv')
  end.
(** [TCPServer::sendAndRecv]. *)
Definition tcp_server_sendAndRecv (io : Z → kernel_event) : M OrderServer unit :=
  receive_sockets ← gets receive_sockets_;
  recv ← sockets_sendAndRecv receive_sockets io;
  _ ← (if recv : bool then recvFinishedCallback else mret tt);
  send_sockets ← gets send_sockets_;
  _ ← sockets_sendAndRecv send_sockets io;
  mret tt.
Definition server_round (io : Z → kernel_event) : M OrderServer unit :=
  _ ← tcp_server_sendAndRecv io;
  n ← gets (λ s, length (contents MEClientResponse_default (outgoing_responses_ s)));
  send_responses (S n).
End server.
