(* ===== verification/OrderServerProps.v ===== *)
(** What the order server promises: the sessions of the clients.

    A session is a socket and a next sequence number per client.  [accept] is the specification
    of what the server does with a request, [number] of what it does with a response;
    the receive callback and the response loop are shown to implement them. *)
From coqutil Require Import Byte Word.LittleEndianList.
From S2P Require Export OrderServer.

(** ** Specification *)
Definition req_client (m : OMClientRequest) : Z := req_client_id_ (me_client_request_ m).

Record session : Type := MkSession { se_socket : Z → option Z; se_next : Z → Z }.
Definition session0 : session := MkSession (λ _, None) (λ _, 1).

(** A request that arrives on [socket]: the client is bound to the socket of its first request;
    the request is accepted if it is on that socket and carries the expected number. *)
Definition bind (socket : Z) (c : Z) (se : session) : session :=
  MkSession (λ c', if decide (c' = c) then Some (default socket (se_socket se c)) else se_socket se c')
    (se_next se).
Definition accepts (socket : Z) (m : OMClientRequest) (se : session) : bool :=
  bool_decide (default socket (se_socket se (req_client m)) = socket) &&
  (omreq_seq_num_ m =? se_next se (req_client m)).
Definition accept (socket : Z) (m : OMClientRequest) (se : session) : session :=
  let se' := bind socket (req_client m) se in
  if accepts socket m se then
    MkSession (se_socket se')
      (λ c', if decide (c' = req_client m) then u64 (se_next se (req_client m) + 1) else se_next se c')
  else se'.

(** A history of requests, each with the socket and the time it arrived on: the session it
    leads to and the requests accepted. *)
Record arrival : Type := MkArrival { a_socket : Z; a_time : Z; a_request : OMClientRequest }.
Definition a_client (a : arrival) : Z := req_client (a_request a).
Definition a_seq (a : arrival) : Z := omreq_seq_num_ (a_request a).
Fixpoint accept_all (ms : list arrival) (se : session) : session * list arrival :=
  match ms with
  | [] => (se, [])
  | a :: ms =>
    let '(se', acc) := accept_all ms (accept (a_socket a) (a_request a) se) in
    (se', if accepts (a_socket a) (a_request a) se then a :: acc else acc)
  end.

Lemma accept_all_sublist ms se : sublist (accept_all ms se).2 ms.
Proof.
  revert se. induction ms as [|a ms IH]; intros se; [done|]. cbn [accept_all].
  specialize (IH (accept (a_socket a) (a_request a) se)).
  destruct (accept_all ms _) as [se' acc]. simpl in *. destruct (accepts _ _ _); by constructor.
Qed.

Definition of_client (c : Z) (a : arrival) : Prop := a_client a = c.
#[export] Instance of_client_dec c a : Decision (of_client c a).
Proof. unfold of_client. apply _. Defined.

(** The requests accepted from one client are numbered without gaps and all arrived on one
    socket, the one the client is bound to. *)
Lemma accept_all_client c ms se :
  0 ≤ se_next se c → se_next se c + Z.of_nat (length ms) < 2 ^ 64 →
  let acc := filter (of_client c) (accept_all ms se).2 in
  a_seq <$> acc = seqZ (se_next se c) (Z.of_nat (length acc)) ∧
  (∃ k, Forall (λ a, a_socket a = k) acc) ∧
  (∀ k, se_socket se c = Some k → Forall (λ a, a_socket a = k) acc).
Proof.
  revert se. induction ms as [|a ms IH]; intros se H0 Hlt.
  { simpl. split_and!; try done. by exists 0. }
  simpl in Hlt. set (k := a_socket a). set (m := a_request a). specialize (IH (accept k m se)).
  cbn [accept_all]. fold k m.
  assert (se_next (accept k m se) c = if accepts k m se && bool_decide (c = req_client m)
          then se_next se c + 1 else se_next se c) as Hnext.
  { unfold accept. destruct (accepts k m se); [|done]. simpl. case_decide; case_bool_decide; try done.
    subst. apply u64_id. lia. }
  assert (se_socket (accept k m se) c =
          if decide (c = req_client m) then Some (default k (se_socket se c)) else se_socket se c) as Hsock.
  { unfold accept, bind. destruct (accepts k m se); simpl; case_decide; by subst. }
  rewrite Hnext in IH. destruct (accept_all ms (accept k m se)) as [se' acc] eqn:E. simpl in IH |- *.
  destruct (accepts k m se) eqn:Ha; simpl in IH |- *.
  - case_bool_decide as Hc.
    + destruct IH as (IH1 & _ & IH3); [lia|lia|]. rewrite Hsock, decide_True in IH3 by done.
      rewrite filter_cons_True by by unfold of_client. cbn [length]. rewrite fmap_cons, IH1.
      unfold accepts in Ha. apply andb_true_iff in Ha as [Hk%bool_decide_eq_true Hs%Z.eqb_eq].
      rewrite <- Hc in Hk, Hs. rewrite Hk in IH3. specialize (IH3 k eq_refl).
      rewrite Nat2Z.inj_succ, (seqZ_cons (se_next se c)) by lia. split_and!.
      * f_equal; [done|]. f_equal; lia.
      * exists k. by constructor.
      * intros k' Hk'. rewrite Hk' in Hk. simpl in Hk. subst k'. by constructor.
    + destruct IH as (IH1 & IH2 & IH3); [lia|lia|]. rewrite Hsock, decide_False in IH3 by done.
      rewrite filter_cons_False by by unfold of_client. done.
  - destruct IH as (IH1 & IH2 & IH3); [lia|lia|]. split_and!; try done.
    intros k' Hk'. apply IH3. rewrite Hsock. case_decide; [|done]. by rewrite Hk'.
Qed.

(** ** The receive path implements the specification *)
Record sessions (s : OrderServer) (se : session) : Prop := {
  ss_socket c : 0 ≤ c < ME_MAX_NUM_CLIENTS → cid_tcp_socket_ s !! Z.to_nat c = Some (se_socket se c);
  ss_next c : 0 ≤ c < ME_MAX_NUM_CLIENTS → cid_next_exp_seq_num_ s !! Z.to_nat c = Some (se_next se c);
}.

Lemma replicate_at {A} n (x : A) c : 0 ≤ c < n → replicate (Z.to_nat n) x !! Z.to_nat c = Some x.
Proof. intros. apply lookup_replicate_2. lia. Qed.
Lemma sessions_new q r : sessions (OrderServer_new q r) session0.
Proof. split; intros c Hc; simpl; apply (replicate_at ME_MAX_NUM_CLIENTS); lia. Qed.

(** What receiving leaves alone. *)
Record recv_frame (s s' : OrderServer) : Prop := {
  rf_sockets : tcp_sockets_ s' = tcp_sockets_ s;
  rf_responses : outgoing_responses_ s' = outgoing_responses_ s;
  rf_next : cid_next_outgoing_seq_num_ s' = cid_next_outgoing_seq_num_ s;
  rf_queue : seq_incoming_requests_ (fifo_sequencer_ s') = seq_incoming_requests_ (fifo_sequencer_ s);
  rf_visits : receive_sockets_ s' = receive_sockets_ s ∧ send_sockets_ s' = send_sockets_ s;
}.
#[export] Instance recv_frame_preorder : PreOrder recv_frame.
Proof.
  split.
  - by intros s.
  - intros s1 s2 s3 [? ? ? ? [? ?]] [? ? ? ? [? ?]]. split; [..|split]; etrans; eassumption.
Qed.

Lemma array_at_ok {A} (table : OrderServer → list A) i a s (Φ : A → OrderServer → Prop) :
  table s !! Z.to_nat i = Some a → Φ a s → wp (array_at table i) s Φ.
Proof. intros Ha HΦ. unfold array_at. apply wp_bind, wp_gets. by rewrite Ha. Qed.

(** [T[c] = a] in a table that represents a function. *)
Lemma insert_at {A} (l : list A) (f : Z → A) n c a c' :
  (∀ c, 0 ≤ c < n → l !! Z.to_nat c = Some (f c)) → 0 ≤ c < n → 0 ≤ c' < n →
  <[Z.to_nat c := a]> l !! Z.to_nat c' = Some (if decide (c' = c) then a else f c').
Proof.
  intros Hl Hc Hc'. case_decide as E.
  - subst. apply list_lookup_insert_eq. eapply lookup_lt_Some. by apply Hl.
  - rewrite list_lookup_insert_ne by lia. by apply Hl.
Qed.

Definition stamp (a : arrival) : RecvTimeClientRequest :=
  MkRecvTimeClientRequest (a_time a) (me_client_request_ (a_request a)).
Definition recvArrival (a : arrival) : M OrderServer unit :=
  recvRequest (a_socket a) (a_time a) (a_request a).

Lemma recvRequest_ok k t m s se ps :
  sessions s se → holds (fifo_sequencer_ s) ps → 0 ≤ req_client m < ME_MAX_NUM_CLIENTS →
  (accepts k m se = true → Z.of_nat (length ps) < ME_MAX_PENDING_REQUESTS) →
  wp (recvRequest k t m) s (λ _ s', sessions s' (accept k m se) ∧ recv_frame s s' ∧
    holds (fifo_sequencer_ s') (ps ++ if accepts k m se then [stamp (MkArrival k t m)] else [])).
Proof.
  intros [Hs Hn] Hps Hc Hroom. set (c := req_client m) in *.
  unfold recvRequest. fold (req_client m). fold c.
  apply wp_bind, (array_at_ok _ _ (se_socket se c)); [by apply Hs|]. apply wp_bind.
  set (s1 := set_cid_socket
    (<[Z.to_nat c := Some (default k (se_socket se c))]> (cid_tcp_socket_ s)) s).
  assert (sessions s1 (bind k c se)) as [Hs1 Hn1].
  { split; intros c' Hc'; simpl; [by apply (insert_at _ _ ME_MAX_NUM_CLIENTS)|by apply Hn]. }
  eapply (wp_mono _ _ (λ _ s', s' = s1)).
  { destruct (se_socket se c) as [k'|] eqn:Ek; [|by apply wp_modify].
    apply wp_ret. unfold s1. simpl. rewrite list_insert_id by (rewrite Hs by done; congruence).
    by destruct s. }
  intros [] ? ->. apply wp_bind, (array_at_ok _ _ (Some (default k (se_socket se c)))).
  { rewrite (Hs1 c Hc). simpl. by rewrite decide_True. }
  unfold accept, accepts. fold c. case_bool_decide as Ek; simpl.
  - rewrite decide_True by congruence. apply wp_bind, (array_at_ok _ _ (se_next se c)); [by apply Hn1|].
    destruct (omreq_seq_num_ m =? se_next se c) eqn:Eq.
    + apply wp_bind, wp_modify, wp_zoom. eapply wp_mono.
      { apply (addClientRequest_ok _ ps (stamp (MkArrival k t m))); [done|]. apply Hroom.
        unfold accepts. fold c. by rewrite bool_decide_eq_true_2, Eq by done. }
      intros [] f [Hf Hfq]. split_and!; [|by split|done].
      split; intros c' Hc'; simpl; [by apply Hs1|]. by apply (insert_at _ (se_next se) ME_MAX_NUM_CLIENTS).
    + apply wp_ret. rewrite app_nil_r. by split_and!.
  - rewrite decide_False by congruence. apply wp_ret. rewrite app_nil_r. by split_and!.
Qed.

Lemma recv_history_ok ms s se ps :
  sessions s se → holds (fifo_sequencer_ s) ps →
  Forall (λ a, 0 ≤ a_client a < ME_MAX_NUM_CLIENTS) ms →
  let r := accept_all ms se in
  Z.of_nat (length ps + length r.2) ≤ ME_MAX_PENDING_REQUESTS →
  wp (each recvArrival ms) s (λ _ s', sessions s' r.1 ∧ recv_frame s s' ∧
    holds (fifo_sequencer_ s') (ps ++ (stamp <$> r.2))).
Proof.
  revert s se ps. induction ms as [|a ms IH]; intros s se ps Hse Hps Hms r Hroom.
  { apply wp_ret. simpl. by rewrite app_nil_r. }
  apply Forall_cons in Hms as [Hm Hms]. unfold r in *. cbn [accept_all] in *.
  set (k := a_socket a) in *. set (m := a_request a) in *.
  destruct (accept_all ms (accept k m se)) as [se' acc] eqn:E.
  simpl in Hroom |- *. apply wp_bind. eapply wp_mono.
  { apply (recvRequest_ok k (a_time a) m s se ps); [done|done|done|].
    intros Ha. rewrite Ha in Hroom. simpl in Hroom. lia. }
  intros [] s1 (Hse1 & Hf1 & Hps1). eapply wp_mono.
  { apply (IH s1 _ _ Hse1 Hps1 Hms). rewrite E, length_app. simpl.
    destruct (accepts k m se); simpl in *; lia. }
  intros [] s2 (Hse2 & Hf2 & Hps2). rewrite E in Hse2, Hps2. split_and!; [done|by etrans|].
  rewrite <- (assoc_L (++)) in Hps2. destruct (accepts k m se); by destruct a.
Qed.
Lemma each_arrivals k t ms s :
  each (recvRequest k t) ms s = each recvArrival (MkArrival k t <$> ms) s.
Proof.
  revert s. induction ms as [|m ms IH]; intros s; [done|]. simpl. unfold mbind, M_bind.
  unfold recvArrival at 1. simpl. destruct (recvRequest k t m s) as [[[] s']|]; [apply IH|done].
Qed.

(** ** The receive callback *)
(** Receiving does not look at the connections' buffers. *)
Definition with_sockets {A} (g : gmap Z Socket) (r : res (A * OrderServer)) : res (A * OrderServer) :=
  res_map (λ r, (r.1, set_tcp_sockets g r.2)) r.

Lemma recvRequest_sockets g k t m s :
  recvRequest k t m (set_tcp_sockets g s) = with_sockets g (recvRequest k t m s).
Proof.
  unfold recvRequest, array_at, with_sockets. mrun. cbn [set_tcp_sockets cid_tcp_socket_].
  destruct (cid_tcp_socket_ s !! _) as [b|]; [|done].
  destruct b as [k'|]; simpl.
  - destruct (cid_tcp_socket_ s !! _) as [b|]; [|done]. case_decide; [|done]. simpl.
    destruct (cid_next_exp_seq_num_ s !! _); [|done]. case_match; [|done]. simpl.
    by destruct (addClientRequest _ _ _) as [[[] f]|].
  - destruct (<[_ := _]> (cid_tcp_socket_ s) !! _) as [b|]; [|done]. case_decide; [|done]. simpl.
    destruct (cid_next_exp_seq_num_ s !! _); [|done]. case_match; [|done]. simpl.
    by destruct (addClientRequest _ _ _) as [[[] f]|].
Qed.
Lemma each_sockets g k t ms s :
  each (recvRequest k t) ms (set_tcp_sockets g s) = with_sockets g (each (recvRequest k t) ms s).
Proof.
  revert s. induction ms as [|m ms IH]; intros s; [done|]. simpl.
  unfold mbind, M_bind at 1 2. rewrite recvRequest_sockets.
  destruct (recvRequest k t m s) as [[[] s']|]; [|done]. apply IH.
Qed.
Lemma set_tcp_sockets_id s : set_tcp_sockets (tcp_sockets_ s) s = s.
Proof. by destruct s. Qed.
Lemma each_keeps_sockets k t ms s s' :
  each (recvRequest k t) ms s = Ok (tt, s') → tcp_sockets_ s' = tcp_sockets_ s.
Proof.
  intros H. pose proof (each_sockets (tcp_sockets_ s) k t ms s) as Hs.
  rewrite set_tcp_sockets_id, H in Hs. simpl in Hs. injection Hs as Hs. by rewrite Hs.
Qed.

Lemma recvCallback_eq k t s sk :
  tcp_sockets_ s !! k = Some sk →
  recvCallback k t s =
    (_ ← each (recvRequest k t) (drain (inbound_data_ sk)).1;
     socket_upd k (set_inbound (drain (A := OMClientRequest) (inbound_data_ sk)).2)) s.
Proof.
  intros Hk. unfold recvCallback, socket_at. rewrite (bind_Ok _ _ s sk s).
  2: { unfold mbind, M_bind, gets. by rewrite Hk. }
  unfold mbind, M_bind at 1. rewrite (recv_messages_drain _ OMClientRequest_ok).
  unfold mbind, M_bind. destruct (each _ _ s) as [[[] s']|]; reflexivity.
Qed.

(** Bytes that arrive on a connection. *)
Definition arrive (k : Z) (bytes : list byte) : M OrderServer unit :=
  socket_upd k (λ sk, set_inbound (inbound_data_ sk ++ bytes) sk).

(** ** Sending *)
(** The numbered messages for responses [rs], with the client of each: [next c] is the
    next number of client [c]. *)
Definition bump (c : Z) (next : Z → Z) : Z → Z :=
  λ c', if decide (c' = c) then u64 (next c + 1) else next c'.
Fixpoint number (rs : list MEClientResponse) (next : Z → Z) : list (Z * OMClientResponse) :=
  match rs with
  | [] => []
  | r :: rs =>
    let c := resp_client_id_ r in
    (c, MkOMClientResponse (next c) r) ::
      number rs (bump c next)
  end.

Definition to_client (c : Z) (x : Z * OMClientResponse) : Prop := x.1 = c.
#[export] Instance to_client_dec c x : Decision (to_client c x).
Proof. unfold to_client. apply _. Defined.

(** Each client sees its own responses, in order, numbered without gaps. *)
Lemma number_client rs next c :
  0 ≤ next c → next c + Z.of_nat (length rs) < 2 ^ 64 →
  let out := filter (to_client c) (number rs next) in
  omresp_seq_num_ ∘ snd <$> out = seqZ (next c) (Z.of_nat (length out)) ∧
  me_client_response_ ∘ snd <$> out = filter (λ r, resp_client_id_ r = c) rs.
Proof.
  revert next. induction rs as [|r rs IH]; intros next H0 Hlt; [done|].
  cbn [length] in Hlt. cbn [number]. unfold to_client. specialize (IH (bump (resp_client_id_ r) next)).
  unfold bump in IH at 1 2 4.
  destruct (decide (resp_client_id_ r = c)) as [<-|Hc].
  - rewrite decide_True in IH by done. rewrite u64_id in IH by lia.
    destruct IH as [IH1 IH2]; [lia|lia|].
    rewrite !filter_cons_True by done. rewrite !fmap_cons. cbn [length].
    rewrite Nat2Z.inj_succ, (seqZ_cons (next _)) by lia. rewrite Z.pred_succ, <- Z.add_1_r.
    split; f_equal; done.
  - rewrite decide_False in IH by done. rewrite !filter_cons_False by done. apply IH; lia.
Qed.

(** The socket of a client, and the messages that go to socket [k]. *)
Definition socket_of (s : OrderServer) (c : Z) : option Z := mjoin (cid_tcp_socket_ s !! Z.to_nat c).
Definition stream (sock : Z → option Z) (k : Z) (msgs : list (Z * OMClientResponse)) : list OMClientResponse :=
  (filter (λ x, sock x.1 = Some k) msgs).*2.
Lemma stream_ok sock k msgs :
  forallb OMClientResponse_ok msgs.*2 = true → forallb OMClientResponse_ok (stream sock k msgs) = true.
Proof.
  rewrite !forallb_forall. intros Hok x Hx. apply Hok. revert Hx.
  rewrite <- !list_elem_of_In. unfold stream. rewrite !list_elem_of_fmap.
  intros (y & -> & [_ Hy]%list_elem_of_filter). by exists y.
Qed.
Definition next_numbers (s : OrderServer) (next : Z → Z) : Prop :=
  ∀ c, 0 ≤ c < ME_MAX_NUM_CLIENTS → cid_next_outgoing_seq_num_ s !! Z.to_nat c = Some (next c).
(** A response can be delivered: its client has a live connection. *)
Definition deliverable (s : OrderServer) (r : MEClientResponse) : Prop :=
  0 ≤ resp_client_id_ r < ME_MAX_NUM_CLIENTS ∧
  ∃ k, socket_of s (resp_client_id_ r) = Some k ∧ is_Some (tcp_sockets_ s !! k).

(** Two writes make one message. *)
Lemma tcp_send_message n r sk :
  Z.of_nat (length (outbound_data_ sk) + 50) ≤ TCPBufferSize →
  (_ ← tcp_send (le_split 8 n); tcp_send (put_MEClientResponse r)) sk =
    Ok (tt, set_outbound (outbound_data_ sk ++ wire_enc (MkOMClientResponse n r)) sk).
Proof.
  intros H. pose proof (wire_enc_length (MkOMClientResponse n r)) as Hl. cbn [wire_size OMClientResponse_wire] in Hl.
  change (wire_enc (MkOMClientResponse n r)) with (le_split 8 n ++ put_MEClientResponse r) in *.
  rewrite length_app, length_le_split in Hl.
  rewrite (bind_Ok _ _ _ _ _ (tcp_send_ok (le_split 8 n) sk ltac:(rewrite length_le_split; lia))).
  rewrite tcp_send_ok by (simpl; rewrite length_app, length_le_split; lia).
  simpl. by rewrite <- (assoc_L (++)).
Qed.
Lemma on_socket_ok k m sk r s :
  tcp_sockets_ s !! k = Some sk → m sk = Ok (tt, r) →
  on_socket k m s = Ok (tt, set_tcp_sockets (<[k := r]> (tcp_sockets_ s)) s).
Proof.
  intros Hk Hm. unfold on_socket, socket_at, socket_upd. mrun. rewrite Hk, Hm.
  by rewrite (alter_alt_Some _ _ _ _ Hk).
Qed.

Definition delivered (r : MEClientResponse) (k : Z) (sk : Socket) (n : Z) (s : OrderServer) : OrderServer :=
  set_next_outgoing (<[Z.to_nat (resp_client_id_ r) := u64 (n + 1)]> (cid_next_outgoing_seq_num_ s))
    (set_outgoing_responses (popped (outgoing_responses_ s))
      (set_tcp_sockets (<[k := set_outbound (outbound_data_ sk ++ wire_enc (MkOMClientResponse n r)) sk]>
        (tcp_sockets_ s)) s)).
Lemma delivered_sockets r k sk n s :
  tcp_sockets_ (delivered r k sk n s) =
    <[k := set_outbound (outbound_data_ sk ++ wire_enc (MkOMClientResponse n r)) sk]> (tcp_sockets_ s).
Proof. done. Qed.

Lemma send_response_ok r k sk s next :
  next_numbers s next → 0 ≤ resp_client_id_ r < ME_MAX_NUM_CLIENTS →
  socket_of s (resp_client_id_ r) = Some k → tcp_sockets_ s !! k = Some sk →
  Z.of_nat (length (outbound_data_ sk) + 50) ≤ TCPBufferSize →
  queue_wf (outgoing_responses_ s) →
  read_pos_ (outgoing_responses_ s) < write_pos_ (outgoing_responses_ s) →
  send_response r s = Ok (tt, delivered r k sk (next (resp_client_id_ r)) s).
Proof.
  intros Hn Hc Hk Hsk Hcap Hwf Hlt. unfold send_response, array_at.
  assert (cid_tcp_socket_ s !! Z.to_nat (resp_client_id_ r) = Some (Some k)) as Hs.
  { unfold socket_of in Hk. by destruct (_ !! _) as [[]|]; simplify_eq/=. }
  set (c := resp_client_id_ r) in *. specialize (Hn c Hc).
  pose proof (tcp_send_message (next c) r sk Hcap) as Hm.
  unfold mbind, M_bind, gets. rewrite Hn. unfold mret, M_ret. rewrite Hs. simpl.
  unfold mbind, M_bind in Hm. destruct (tcp_send (le_split 8 (next c)) sk) as [[[] sk1]|] eqn:E1; [|done].
  rewrite (on_socket_ok k _ sk sk1 s Hsk E1).
  rewrite (on_socket_ok k _ sk1 _ _ (lookup_insert_eq _ _ _) Hm).
  unfold zoom, updateReadIndex. mrun. cbn [outgoing_responses_ set_tcp_sockets].
  rewrite (proj2 (Z.eqb_neq _ _)) by lia. simpl. rewrite add_read_eq by (done || lia).
  unfold delivered. fold c. do 3 f_equal. unfold set_outgoing_responses, set_tcp_sockets. simpl.
  by rewrite insert_insert_eq.
Qed.

(** The next numbers after responses [rs]. *)
Definition numbers_after (rs : list MEClientResponse) (next : Z → Z) : Z → Z :=
  foldl (λ next r, bump (resp_client_id_ r) next) next rs.

(** The state after the response loop: the queue is empty and each connection's send buffer
    has grown by the messages of its clients. *)
Record responses_sent (s s' : OrderServer) (msgs : list (Z * OMClientResponse)) : Prop := {
  rs_wf : queue_wf (outgoing_responses_ s');
  rs_empty : contents MEClientResponse_default (outgoing_responses_ s') = [];
  rs_bound : cid_tcp_socket_ s' = cid_tcp_socket_ s;
  rs_exp : cid_next_exp_seq_num_ s' = cid_next_exp_seq_num_ s;
  rs_fifo : fifo_sequencer_ s' = fifo_sequencer_ s;
  rs_visits : receive_sockets_ s' = receive_sockets_ s ∧ send_sockets_ s' = send_sockets_ s;
  rs_dead k : tcp_sockets_ s !! k = None → tcp_sockets_ s' !! k = None;
  rs_stream k sk : tcp_sockets_ s !! k = Some sk →
    tcp_sockets_ s' !! k = Some (set_outbound
      (outbound_data_ sk ++ concat (wire_enc <$> stream (socket_of s) k msgs)) sk);
}.

Lemma bump_next_numbers r k sk s next :
  next_numbers s next → 0 ≤ resp_client_id_ r < ME_MAX_NUM_CLIENTS →
  next_numbers (delivered r k sk (next (resp_client_id_ r)) s) (bump (resp_client_id_ r) next).
Proof.
  intros Hn Hc c' Hc'. unfold bump. simpl.
  rewrite (insert_at _ next ME_MAX_NUM_CLIENTS) by done. done.
Qed.

Lemma deliverable_delivered r k sk n s r' :
  deliverable s r' → deliverable (delivered r k sk n s) r'.
Proof.
  intros [Hc (k' & Hk' & Hs)]. split; [done|]. exists k'. split; [done|]. simpl.
  by apply lookup_insert_is_Some'; right.
Qed.

Lemma responses_sent_step s r k sk next msgs s' :
  socket_of s (resp_client_id_ r) = Some k → tcp_sockets_ s !! k = Some sk →
  responses_sent (delivered r k sk (next (resp_client_id_ r)) s) s' msgs →
  responses_sent s s' ((resp_client_id_ r, MkOMClientResponse (next (resp_client_id_ r)) r) :: msgs).
Proof.
  intros Hk Hsk [Hwf He Hb Hx Hf Hv Hd Hs]. split; [done..| |].
  { intros k' Hk'. apply Hd. rewrite delivered_sockets, lookup_insert_ne; congruence. }
  intros k' sk' Hk'. unfold stream. simpl.
  destruct (decide (k' = k)) as [->|Hne].
  - rewrite filter_cons_True by done. simplify_eq.
    rewrite (Hs k _ (lookup_insert_eq _ _ _)). f_equal. unfold set_outbound. simpl. f_equal.
    by rewrite <- (assoc_L (++)).
  - rewrite filter_cons_False by (simpl; congruence).
    apply Hs. simpl. by rewrite lookup_insert_ne.
Qed.

Lemma send_responses_ok `{!StdSort recv_lt} rs fuel s next :
  queue_wf (outgoing_responses_ s) →
  contents MEClientResponse_default (outgoing_responses_ s) = rs →
  next_numbers s next → Forall (deliverable s) rs →
  map_Forall (λ _ sk, Z.of_nat (length (outbound_data_ sk) + 50 * length rs) ≤ TCPBufferSize)
    (tcp_sockets_ s) →
  (length rs < fuel)%nat →
  wp (send_responses fuel) s (λ _ s', responses_sent s s' (number rs next) ∧
    next_numbers s' (numbers_after rs next)).
Proof.
  revert fuel s next. induction rs as [|r rs IH]; intros fuel s next Hwf Hc Hn Hd Hcap Hf;
    (destruct fuel as [|fuel]; [simpl in Hf; lia|]); cbn [send_responses];
    set (q := outgoing_responses_ s) in *;
    pose proof (contents_length MEClientResponse_default q Hwf) as Hl; rewrite Hc in Hl; simpl in Hl;
    assert (set_outgoing_responses q s = s) as Hid by (by destruct s);
    pose proof (queue_size_ok MEClientResponse_default q Hwf) as Hsz; rewrite Hc in Hsz;
    unfold wp, mbind, M_bind at 1, zoom at 1; fold q; unfold getNextToRead; mrun; fold q.
  - rewrite (proj2 (Z.eqb_eq _ _)) by lia. rewrite Hid. fold q. rewrite Hsz, Hid.
    split; [|done]. split; try done. intros k sk Hk. simpl. by rewrite app_nil_r, Hk; destruct sk.
  - rewrite (proj2 (Z.eqb_neq _ _)) by lia. rewrite Hid. fold q. rewrite Hsz, Hid. cbn [length].
    rewrite (proj2 (Z.eqb_neq _ _)) by lia. fold q.
    pose proof (queue_size_lt _ Hwf) as Hsize. pose proof Hwf as [_ Hp Hr].
    unfold read_slot. mrun. rewrite (proj2 (andb_true_iff _ _)) by lia. rewrite Hid.
    destruct (pop_ok MEClientResponse_default r rs q Hwf Hc) as (_ & Hwf' & Hc').
    rewrite (contents_popped _ q) in Hc by (done || lia). injection Hc as -> Hc.
    apply Forall_cons in Hd as [[Hcl (k & Hk & [sk Hsk])] Hd].
    pose proof (Hcap k sk Hsk) as Hck. cbn [length] in Hck.
    rewrite (send_response_ok r k sk s next) by (done || fold q; lia).
    set (s1 := delivered _ _ _ _ _).
    assert (wp (send_responses fuel) s1
      (λ _ s', responses_sent s1 s' (number rs (bump (resp_client_id_ r) next)) ∧
         next_numbers s' (numbers_after rs (bump (resp_client_id_ r) next)))) as H.
    { apply IH; [done|done|by apply bump_next_numbers| | |simpl in Hf; lia].
      - eapply Forall_impl; [exact Hd|]. intros r'. apply deliverable_delivered.
      - intros k' sk' Hk'. unfold s1 in Hk'. rewrite delivered_sockets in Hk'.
        apply lookup_insert_Some in Hk' as [[<- <-]|[_ Hk']].
        + pose proof (wire_enc_length (MkOMClientResponse (next (resp_client_id_ r)) r)) as Hw.
          cbn [outbound_data_ set_outbound]. rewrite length_app, Hw. cbn [wire_size OMClientResponse_wire]. lia.
        + pose proof (Hcap k' sk' Hk') as H'. cbn [length] in H'. lia. }
    unfold wp in H. destruct (send_responses fuel s1) as [[[] s']|]; [|done]. destruct H as [H ?].
    split; [|done]. by apply (responses_sent_step _ _ k sk).
Qed.

(** The receive callback, as a whole: the connection keeps the unfinished bytes and the rest of the
    server is what receiving leaves alone. *)
Lemma recvCallback_frame k t s se ps sk reqs rest :
  sessions s se → holds (fifo_sequencer_ s) ps → tcp_sockets_ s !! k = Some sk →
  drain (A := OMClientRequest) (inbound_data_ sk) = (reqs, rest) →
  Forall (λ m, 0 ≤ req_client m < ME_MAX_NUM_CLIENTS) reqs →
  Z.of_nat (length ps + length (accept_all (MkArrival k t <$> reqs) se).2) ≤ ME_MAX_PENDING_REQUESTS →
  wp (recvCallback k t) s (λ _ s',
    sessions s' (accept_all (MkArrival k t <$> reqs) se).1 ∧
    holds (fifo_sequencer_ s') (ps ++ (stamp <$> (accept_all (MkArrival k t <$> reqs) se).2)) ∧
    recv_frame (set_tcp_sockets (<[k := set_inbound rest sk]> (tcp_sockets_ s)) s) s').
Proof.
  intros Hse Hps Hk Hd Hms Hroom.
  assert (wp (each recvArrival (MkArrival k t <$> reqs)) s (λ _ s', sessions s' (accept_all (MkArrival k t <$> reqs) se).1 ∧
    recv_frame s s' ∧ holds (fifo_sequencer_ s') (ps ++ (stamp <$> (accept_all (MkArrival k t <$> reqs) se).2)))) as H.
  { apply recv_history_ok; [done|done| |done]. by apply Forall_fmap. }
  eapply wp_eq; [by apply (recvCallback_eq k t s sk)|]. rewrite Hd. apply wp_bind. cbn [fst snd].
  eapply wp_eq; [apply each_arrivals|]. eapply wp_mono; [exact H|].
  intros [] s1 ([Hs1 Hn1] & [Ht Hr Hn Hq Hv] & Hh). apply wp_modify.
  split_and!; [by split|done|]. split; [|done..]. simpl. by rewrite Ht, (alter_alt_Some _ _ _ _ Hk).
Qed.
Lemma recvCallback_ok k t s se ps sk reqs rest :
  sessions s se → holds (fifo_sequencer_ s) ps → tcp_sockets_ s !! k = Some sk →
  drain (A := OMClientRequest) (inbound_data_ sk) = (reqs, rest) →
  Forall (λ m, 0 ≤ req_client m < ME_MAX_NUM_CLIENTS) reqs →
  Z.of_nat (length ps + length (accept_all (MkArrival k t <$> reqs) se).2) ≤ ME_MAX_PENDING_REQUESTS →
  ∃ s', recvCallback k t s = Ok (tt, s') ∧
    sessions s' (accept_all (MkArrival k t <$> reqs) se).1 ∧
    holds (fifo_sequencer_ s') (ps ++ (stamp <$> (accept_all (MkArrival k t <$> reqs) se).2)) ∧
    tcp_sockets_ s' = <[k := set_inbound rest sk]> (tcp_sockets_ s) ∧
    outgoing_responses_ s' = outgoing_responses_ s.
Proof.
  intros Hse Hps Hk Hd Hms Hroom.
  destruct (proj1 (wp_ok _ _ _) (recvCallback_frame k t s se ps sk reqs rest Hse Hps Hk Hd Hms Hroom))
    as ([] & s' & Hrun & ? & ? & [? ? _ _ _]). eauto 10.
Qed.

(** ** Properties *)
Section properties.
Context `{!StdSort recv_lt}.

(** C7: the receive callback implements the session specification. Let all requests in the buffer of the
    connection name clients below 256 (a larger id indexes the tables out of bounds), and let no more
    than 1024 requests wait for the sequencer with those accepted (one more is FATAL). Of the whole
    requests in the buffer the callback queues for the sequencer, in order, exactly those the
    specification accepts (right connection, expected sequence number), binds new clients to the
    connection, and keeps the bytes of an unfinished request. *)
Theorem recvCallback_refines k t s se ps sk reqs rest :
  sessions s se → holds (fifo_sequencer_ s) ps → tcp_sockets_ s !! k = Some sk →
  drain (A := OMClientRequest) (inbound_data_ sk) = (reqs, rest) →
  Forall (λ m, 0 ≤ req_client m < ME_MAX_NUM_CLIENTS) reqs →
  Z.of_nat (length ps + length (accept_all (MkArrival k t <$> reqs) se).2) ≤ ME_MAX_PENDING_REQUESTS →
  ∃ s', recvCallback k t s = Ok (tt, s') ∧
    sessions s' (accept_all (MkArrival k t <$> reqs) se).1 ∧
    holds (fifo_sequencer_ s') (ps ++ (stamp <$> (accept_all (MkArrival k t <$> reqs) se).2)) ∧
    tcp_sockets_ s' = <[k := set_inbound rest sk]> (tcp_sockets_ s) ∧
    outgoing_responses_ s' = outgoing_responses_ s.
Proof. apply recvCallback_ok. Qed.


(** C8: sequence numbers keep the order of a client. Of at most 1024 requests of clients below 256 that
    arrive in a round at a new server, on whatever connections and with whatever sequence numbers, those
    that are queued for the sequencer from any one client are numbered 1, 2, 3, ... without gap or
    repetition, in arrival order, and all come from one connection. (A larger client id is out of
    bounds, a 1025th queued request FATAL.) *)
Theorem accepted_in_order ms q r :
  Forall (λ a, 0 ≤ a_client a < ME_MAX_NUM_CLIENTS) ms →
  Z.of_nat (length ms) ≤ ME_MAX_PENDING_REQUESTS →
  ∃ s acc, each recvArrival ms (OrderServer_new q r) = Ok (tt, s) ∧
    holds (fifo_sequencer_ s) (stamp <$> acc) ∧ sublist acc ms ∧
    ∀ c, a_seq <$> filter (of_client c) acc = seqZ 1 (Z.of_nat (length (filter (of_client c) acc))) ∧
      ∃ k, Forall (λ a, a_socket a = k) (filter (of_client c) acc).
Proof.
  intros Hms Hlen. pose proof (accept_all_sublist ms session0) as Hsub.
  pose proof (sublist_length _ _ Hsub) as Hl.
  assert (holds (fifo_sequencer_ (OrderServer_new q r)) []) as H0.
  { split_and!; [apply length_replicate|done|done]. }
  assert (wp (each recvArrival ms) (OrderServer_new q r) (λ _ s', sessions s' (accept_all ms session0).1 ∧
    recv_frame (OrderServer_new q r) s' ∧
    holds (fifo_sequencer_ s') ([] ++ (stamp <$> (accept_all ms session0).2)))) as H.
  { apply recv_history_ok; [apply sessions_new|done|done|simpl; lia]. }
  apply wp_ok in H as ([] & s & Hrun & _ & _ & Hh). exists s, (accept_all ms session0).2.
  split_and!; [done|done|done|]. intros c.
  destruct (accept_all_client c ms session0) as (Hseq & Hk & _).
  - done.
  - simpl. unfold ME_MAX_PENDING_REQUESTS in Hlen. lia.
  - done.
Qed.

(** The response loop empties the queue from the matching engine: every connection whose send
    buffer was empty then holds exactly the messages for its clients, which the framing reads
    back whole; each client's messages are its responses in order, numbered without gaps. *)
Theorem responses_sequenced rs s next :
  queue_wf (outgoing_responses_ s) →
  contents MEClientResponse_default (outgoing_responses_ s) = rs →
  next_numbers s next → Forall (deliverable s) rs →
  map_Forall (λ _ sk, Z.of_nat (length (outbound_data_ sk) + 50 * length rs) ≤ TCPBufferSize)
    (tcp_sockets_ s) →
  forallb OMClientResponse_ok ((number rs next).*2) = true →
  ∃ s', send_responses (S (length rs)) s = Ok (tt, s') ∧
    contents MEClientResponse_default (outgoing_responses_ s') = [] ∧
    (∀ k sk, tcp_sockets_ s !! k = Some sk → outbound_data_ sk = [] →
       ∃ sk', tcp_sockets_ s' !! k = Some sk' ∧
         drain (A := OMClientResponse) (outbound_data_ sk') = (stream (socket_of s) k (number rs next), [])) ∧
    (∀ c, 0 ≤ next c → next c + Z.of_nat (length rs) < 2 ^ 64 →
       omresp_seq_num_ ∘ snd <$> filter (to_client c) (number rs next)
         = seqZ (next c) (Z.of_nat (length (filter (to_client c) (number rs next)))) ∧
       me_client_response_ ∘ snd <$> filter (to_client c) (number rs next)
         = filter (λ r, resp_client_id_ r = c) rs).
Proof.
  intros Hwf Hc Hn Hd Hcap Hok.
  destruct (proj1 (wp_ok _ _ _) (send_responses_ok rs (S (length rs)) s next Hwf Hc Hn Hd Hcap
    ltac:(lia))) as ([] & s' & Hrun & Hs' & _).
  exists s'. split_and!; [done|by destruct Hs'| |].
  - intros k sk Hk He. eexists. split; [by apply Hs'|]. rewrite He.
    cbn [outbound_data_ set_outbound app]. rewrite <- (app_nil_r (concat _)).
    apply (drain_encoded OMClientResponse_ok); [by apply stream_ok|simpl; lia].
  - intros c H0 Hlt. by apply number_client.
Qed.

(** A response to a client that has no connection ends the process (the [ASSERT]), and a
    request that names a client id of 256 or more indexes the tables out of bounds. *)
Theorem server_rejects s se :
  sessions s se → length (cid_tcp_socket_ s) = Z.to_nat ME_MAX_NUM_CLIENTS →
  (∀ r next, next_numbers s next → 0 ≤ resp_client_id_ r < ME_MAX_NUM_CLIENTS →
     se_socket se (resp_client_id_ r) = None → send_response r s = Err Exit) ∧
  (∀ k t m, ME_MAX_NUM_CLIENTS ≤ req_client m → recvRequest k t m s = Err OutOfBounds).
Proof.
  intros [Hs _] Hlen. split.
  - intros r next Hn Hc Hnone. unfold send_response, array_at. mrun.
    rewrite (Hn _ Hc). unfold mret, M_ret. rewrite (Hs _ Hc), Hnone. done.
  - intros k t m Hc. unfold recvRequest, array_at. apply bind_Err. mrun.
    by rewrite lookup_ge_None_2 by (unfold req_client in Hc; lia).
Qed.

(** Bytes the kernel does not take in a visit are gone: the send buffer is emptied whatever
    [send] returned, so a connection whose kernel buffer was short by some bytes continues
    with the next message right after the cut. *)
Theorem unsent_bytes_lost k io s sk data :
  tcp_sockets_ s !! k = Some sk → (k_accepts io < length (outbound_data_ sk))%nat →
  k_data io = [] → Z.of_nat (length data) ≤ TCPBufferSize →
  ∃ s', (_ ← sendAndRecv (socket_at k) (socket_upd k) (recvCallback k) TCPBufferSize io;
         _ ← on_socket k (tcp_send data);
         sendAndRecv (socket_at k) (socket_upd k) (recvCallback k) TCPBufferSize
           (MkKernelEvent [] 0 (length data))) s = Ok (false, s') ∧
    ∃ sk', tcp_sockets_ s' !! k = Some sk' ∧ outbound_data_ sk' = [] ∧
      transmitted_ sk' = transmitted_ sk ++ take (k_accepts io) (outbound_data_ sk) ++ data ∧
      transmitted_ sk' ≠ transmitted_ sk ++ outbound_data_ sk ++ data.
Proof.
  intros Hk Hlt Hd Hlen.
  assert (∀ io s sk, tcp_sockets_ s !! k = Some sk → k_data io = [] →
    sendAndRecv (socket_at k) (socket_upd k) (recvCallback k) TCPBufferSize io s =
      Ok (false, set_tcp_sockets (alter (transmit io) k (tcp_sockets_ s)) s)) as Hvisit.
  { clear. intros io s sk Hk Hd. unfold sendAndRecv, socket_at. mrun. rewrite Hk, Hd.
    by rewrite kernel_copy_nil. }
  rewrite (bind_Ok _ _ _ _ _ (Hvisit io s sk Hk Hd)).
  set (s1 := set_tcp_sockets _ s).
  assert (tcp_sockets_ s1 !! k = Some (transmit io sk)) as Hk1 by by (simpl; rewrite lookup_alter_eq, Hk).
  rewrite (bind_Ok _ _ _ _ _ (on_socket_ok k _ _ _ _ Hk1 (tcp_send_ok data (transmit io sk) Hlen))).
  eexists. split; [eapply Hvisit; [apply lookup_insert_eq|done]|].
  eexists. split; [simpl; rewrite lookup_alter_eq, lookup_insert_eq; done|].
  simpl. rewrite (take_ge data), <- (assoc_L (++)) by done. split_and!; [done|done|].
  intros E. apply (f_equal length) in E. rewrite !length_app, length_take in E. lia.
Qed.
End properties.

(** ** A concrete server *)
Section example.
Definition om_new (client seq order : Z) : OMClientRequest :=
  MkOMClientRequest seq (MkMEClientRequest ClientRequestType_NEW client 3 order Side_BUY 100 10).
(** Client 5's first two requests and the start of a third have been read on connection 10. *)
Definition conn10 : Socket :=
  MkSocket (wire_enc (om_new 5 1 1) ++ wire_enc (om_new 5 2 2) ++ [Byte.x03; Byte.x00]) [] [].
Definition server0 : OrderServer :=
  set_tcp_sockets {[10 := conn10; 11 := Socket_new]} (OrderServer_new new_queue new_queue).
Lemma server0_sessions : sessions server0 session0.
Proof. split; intros c Hc; simpl; apply (replicate_at ME_MAX_NUM_CLIENTS); lia. Qed.
Lemma new_sequencer_holds q : holds (FIFOSequencer_new q) [].
Proof. split_and!; [apply length_replicate|done|done]. Qed.

Lemma recvCallback_refines_witness :
  ∃ s', recvCallback 10 7 server0 = Ok (tt, s') ∧
    sessions s' (accept_all (MkArrival 10 7 <$> [om_new 5 1 1; om_new 5 2 2]) session0).1 ∧
    holds (fifo_sequencer_ s') ([] ++ (stamp <$>
      (accept_all (MkArrival 10 7 <$> [om_new 5 1 1; om_new 5 2 2]) session0).2)) ∧
    tcp_sockets_ s' = <[10 := set_inbound [Byte.x03; Byte.x00] conn10]> (tcp_sockets_ server0) ∧
    outgoing_responses_ s' = outgoing_responses_ server0.
Proof.
  apply (recvCallback_refines 10 7 server0 session0 []).
  - exact server0_sessions.
  - apply new_sequencer_holds.
  - reflexivity.
  - vm_compute. reflexivity.
  - repeat constructor; simpl; done.
  - vm_compute. discriminate.
Defined.


(** The second request repeats a number, the third is on the wrong connection. *)
Definition round_of_4 : list arrival :=
  [MkArrival 10 7 (om_new 5 1 1); MkArrival 10 7 (om_new 5 1 2);
   MkArrival 11 8 (om_new 5 2 2); MkArrival 10 9 (om_new 5 2 3)].
Lemma accepted_in_order_witness :
  ∃ s acc, each recvArrival round_of_4 (OrderServer_new new_queue new_queue) = Ok (tt, s) ∧
    holds (fifo_sequencer_ s) (stamp <$> acc) ∧ sublist acc round_of_4 ∧
    ∀ c, a_seq <$> filter (of_client c) acc = seqZ 1 (Z.of_nat (length (filter (of_client c) acc))) ∧
      ∃ k, Forall (λ a, a_socket a = k) (filter (of_client c) acc).
Proof. apply accepted_in_order; [repeat constructor; simpl; done|done]. Defined.

Definition accepted_response (client : Z) : MEClientResponse :=
  MkMEClientResponse ClientResponseType_ACCEPTED client 3 1 1 Side_BUY 100 0 10.
(** Client 5 is bound to connection 10, and the engine has answered it twice. *)
Definition server1 : OrderServer :=
  set_outgoing_responses (pushed (accepted_response 5) (pushed (accepted_response 5) new_queue))
    (set_cid_socket (<[5%nat := Some 10]> (cid_tcp_socket_ server0)) server0).
Lemma server1_numbers : next_numbers server1 (λ _, 1).
Proof. intros c Hc. simpl. apply (replicate_at ME_MAX_NUM_CLIENTS). lia. Qed.

Lemma responses_sequenced_witness :
  ∃ s', send_responses 3 server1 = Ok (tt, s') ∧
    contents MEClientResponse_default (outgoing_responses_ s') = [] ∧
    (∀ k sk, tcp_sockets_ server1 !! k = Some sk → outbound_data_ sk = [] →
       ∃ sk', tcp_sockets_ s' !! k = Some sk' ∧
         drain (A := OMClientResponse) (outbound_data_ sk')
           = (stream (socket_of server1) k
                (number [accepted_response 5; accepted_response 5] (λ _, 1)), [])) ∧
    (∀ c, 0 ≤ 1 → 1 + Z.of_nat 2 < 2 ^ 64 →
       omresp_seq_num_ ∘ snd <$>
           filter (to_client c) (number [accepted_response 5; accepted_response 5] (λ _, 1))
         = seqZ 1 (Z.of_nat (length
             (filter (to_client c) (number [accepted_response 5; accepted_response 5] (λ _, 1))))) ∧
       me_client_response_ ∘ snd <$>
           filter (to_client c) (number [accepted_response 5; accepted_response 5] (λ _, 1))
         = filter (λ r, resp_client_id_ r = c) [accepted_response 5; accepted_response 5]).
Proof.
  apply (responses_sequenced [accepted_response 5; accepted_response 5] server1 (λ _, 1)).
  - apply can_push_wf; [|reflexivity]. apply can_push_wf; [apply new_queue_wf|reflexivity].
  - vm_compute; reflexivity.
  - exact server1_numbers.
  - repeat constructor; simpl; try done; exists 10; (split; [reflexivity|by eexists]).
  - intros k sk Hk. change (tcp_sockets_ server1) with (<[10 := conn10]> {[11 := Socket_new]} : gmap Z Socket) in Hk.
    apply lookup_insert_Some in Hk as [[_ <-]|[_ Hk]]; [done|].
    apply lookup_singleton_Some in Hk as [_ <-]. done.
  - reflexivity.
Defined.

Lemma server_rejects_witness :
  (∀ r next, next_numbers server0 next → 0 ≤ resp_client_id_ r < ME_MAX_NUM_CLIENTS →
     se_socket session0 (resp_client_id_ r) = None → send_response r server0 = Err Exit) ∧
  (∀ k t m, ME_MAX_NUM_CLIENTS ≤ req_client m → recvRequest k t m server0 = Err OutOfBounds).
Proof. apply (server_rejects server0 session0 server0_sessions). reflexivity. Defined.

(** The kernel takes 4 of 6 bytes. *)
Definition conn_full : Socket := MkSocket [] (replicate 6 Byte.x07) [].
Definition server2 : OrderServer := set_tcp_sockets {[10 := conn_full]} server0.
Lemma unsent_bytes_lost_witness :
  ∃ s', (_ ← sendAndRecv (socket_at 10) (socket_upd 10) (recvCallback 10) TCPBufferSize (MkKernelEvent [] 0 4);
         _ ← on_socket 10 (tcp_send [Byte.x01]);
         sendAndRecv (socket_at 10) (socket_upd 10) (recvCallback 10) TCPBufferSize
           (MkKernelEvent [] 0 1)) server2 = Ok (false, s') ∧
    ∃ sk', tcp_sockets_ s' !! 10 = Some sk' ∧ outbound_data_ sk' = [] ∧
      transmitted_ sk' = [] ++ take 4 (replicate 6 Byte.x07) ++ [Byte.x01] ∧
      transmitted_ sk' ≠ [] ++ replicate 6 Byte.x07 ++ [Byte.x01].
Proof.
  apply (unsent_bytes_lost 10 (MkKernelEvent [] 0 4) server2 conn_full [Byte.x01]);
    [reflexivity|simpl; lia|reflexivity|done].
Defined.
End example.
