(* ===== verification/TCPServer.v ===== *)
(** Common/tcp_server.cpp: how connections reach the order server, with [epoll].

    [listen] and [poll] work on the order server's [TCPServer] (its sockets are part of
    [OrderServer]) and on the trace of system calls.  A [TCPSocket *] is the descriptor of its socket:
    sockets are never closed, so descriptors are distinct; the listening socket is a socket like the
    others, [listener].  What [epoll_wait] reports is an argument of [poll]. *)
From S2P Require Export OrderServerProps SocketUtils.

Definition EPOLLIN : Z := 1.
Definition EPOLLOUT : Z := 4.
Definition EPOLLERR : Z := 8.
Definition EPOLLHUP : Z := 16.
Definition EPOLLET : Z := 2 ^ 31.
Record epoll_event : Type := MkEpollEvent { ev_events : Z; ev_ptr : Z }.
(** [event.events & mask]. *)
Definition has (mask : Z) (event : epoll_event) : bool := negb (Z.land (ev_events event) mask =? 0).

Definition set_receive_sockets (l : list Z) (s : OrderServer) : OrderServer :=
  MkOrderServer (outgoing_responses_ s) (cid_next_outgoing_seq_num_ s) (cid_next_exp_seq_num_ s)
    (cid_tcp_socket_ s) (fifo_sequencer_ s) l (send_sockets_ s) (tcp_sockets_ s).
Definition set_send_sockets (l : list Z) (s : OrderServer) : OrderServer :=
  MkOrderServer (outgoing_responses_ s) (cid_next_outgoing_seq_num_ s) (cid_next_exp_seq_num_ s)
    (cid_tcp_socket_ s) (fifo_sequencer_ s) (receive_sockets_ s) l (tcp_sockets_ s).

(** [if (std::find(...) == end()) push_back(socket)]. *)
Definition add_socket (socket : Z) (sockets : list Z) : list Z :=
  if decide (socket ∈ sockets) then sockets else sockets ++ [socket].
Definition add_receive (socket : Z) : M OrderServer unit :=
  modify (λ s, set_receive_sockets (add_socket socket (receive_sockets_ s)) s).
Definition add_send (socket : Z) : M OrderServer unit :=
  modify (λ s, set_send_sockets (add_socket socket (send_sockets_ s)) s).

(** The body of the loop over the events: is there a new connection? *)
Definition poll_event (listener : Z) (event : epoll_event) : M OrderServer bool :=
  let socket := ev_ptr event in
  if has EPOLLIN event && (socket =? listener) then mret true
  else
    _ ← (if has EPOLLIN event then add_receive socket else mret tt);
    _ ← (if has EPOLLOUT event then add_send socket else mret tt);
    _ ← (if has (Z.lor EPOLLERR EPOLLHUP) event then add_receive socket else mret tt);
    mret false.
Fixpoint poll_events (listener : Z) (events : list epoll_event) (have_new_connection : bool) :
    M OrderServer bool :=
  match events with
  | [] => mret have_new_connection
  | event :: events =>
      new ← poll_event listener event;
      poll_events listener events (have_new_connection || new)
  end.

Section epoll.
Context (kernel : trace → syscall → Z).
Context (getifaddrs : option (list ifaddr)).
Context (getaddrinfo : string → string → addrinfo_hints → option (list addrinfo)).

Definition addToEpollList (epoll_fd socket : Z) : M trace bool :=
  r ← sys kernel (Sys_epoll_add epoll_fd socket (Z.lor EPOLLET EPOLLIN)); mret (r =? 0).
(** The new [epoll_fd_] and the descriptor of [listener_socket_]. *)
Definition listen (iface : string) (port : Z) : M trace (Z * Z) :=
  epoll_fd ← sys kernel Sys_epoll_create;
  _ ← ASSERT (0 <=? epoll_fd);
  socket_fd ← tcp_connect kernel getifaddrs getaddrinfo EmptyString iface port true;
  _ ← ASSERT (0 <=? socket_fd);
  added ← addToEpollList epoll_fd socket_fd;
  _ ← ASSERT added;
  mret (epoll_fd, socket_fd).

Definition on_server {A} : M OrderServer A → M (OrderServer * trace) A :=
  zoom fst (λ s st, (s, st.2)).
Definition on_system {A} : M trace A → M (OrderServer * trace) A := zoom snd (λ tr st, (st.1, tr)).

(** The options of an accepted socket. *)
Definition accepted_options (fd : Z) : M trace bool :=
  nonblocking ← setNonBlocking kernel fd;
  if nonblocking : bool then disableNagle kernel fd else mret false.
(** The loop that accepts. *)
Fixpoint accept_loop (fuel : nat) (epoll_fd listener : Z) : M (OrderServer * trace) unit :=
  match fuel with
  | O => raise OutOfFuel
  | S fuel =>
      fd ← on_system (sys kernel (Sys_accept listener));
      if fd =? -1 then mret tt
      else
        options ← on_system (accepted_options fd);
        _ ← ASSERT options;
        _ ← on_server (modify (λ s, set_tcp_sockets (<[fd := Socket_new]> (tcp_sockets_ s)) s));
        added ← on_system (addToEpollList epoll_fd fd);
        _ ← ASSERT added;
        _ ← on_server (add_receive fd);
        accept_loop fuel epoll_fd listener
  end.
(** [poll]; [ready] is what has happened on the sockets of the epoll list.  [epoll_wait] writes at most
    [max_events] events to [events_], an array of 1024. *)
Definition poll (fuel : nat) (epoll_fd listener : Z) (ready : list epoll_event) :
    M (OrderServer * trace) unit :=
  st ← gets id;
  let max_events :=
    i32 (1 + Z.of_nat (length (send_sockets_ st.1)) + Z.of_nat (length (receive_sockets_ st.1))) in
  let events := take (Z.to_nat max_events) ready in
  if 1024 <? Z.of_nat (length events) then raise OutOfBounds
  else
    have_new_connection ← on_server (poll_events listener events false);
    if have_new_connection : bool then accept_loop fuel epoll_fd listener else mret tt.
End epoll.

(** * What [poll] does to the connections *)

(** The connections of a server between two rounds: each in [receive_sockets_] once, none in
    [send_sockets_]. *)
Record connected (listener : Z) (s : OrderServer) : Prop := {
  cn_nodup : NoDup (listener :: receive_sockets_ s);
  cn_send : send_sockets_ s = [];
  cn_sockets : ∀ k, is_Some (tcp_sockets_ s !! k) ↔ k ∈ listener :: receive_sockets_ s;
}.
(** What [epoll] promises of the events it reports: for [addToEpollList]'s mask only input, error and
    hang-up, only for sockets that were added, input on the listening socket, one event a socket. *)
Definition epoll_reports (listener : Z) (s : OrderServer) (event : epoll_event) : Prop :=
  Z.land (ev_events event) (Z.lor EPOLLIN (Z.lor EPOLLERR EPOLLHUP)) = ev_events event ∧
  (ev_ptr event = listener ∧ has EPOLLIN event = true ∨ ev_ptr event ∈ receive_sockets_ s).
Definition new_connection (listener : Z) (ready : list epoll_event) : bool :=
  existsb (λ event, ev_ptr event =? listener) ready.

(** From [tr] on the system has exactly the connections [fds] waiting and sets each of them up. *)
Fixpoint backlog (kernel : trace → syscall → Z) (epoll_fd listener : Z) (tr : trace) (fds : list Z)
    (tr' : trace) : Prop :=
  match fds with
  | [] => kernel tr (Sys_accept listener) = -1 ∧ tr' = tr ++ [Sys_accept listener]
  | fd :: fds =>
      kernel tr (Sys_accept listener) = fd ∧ fd ≠ -1 ∧
      ∃ tr1 tr2, accepted_options kernel fd (tr ++ [Sys_accept listener]) = Ok (true, tr1) ∧
        addToEpollList kernel epoll_fd fd tr1 = Ok (true, tr2) ∧
        backlog kernel epoll_fd listener tr2 fds tr'
  end.
(** The server with new connections. *)
Definition open_connection (s : OrderServer) (fd : Z) : OrderServer :=
  set_receive_sockets (receive_sockets_ s ++ [fd])
    (set_tcp_sockets (<[fd := Socket_new]> (tcp_sockets_ s)) s).
Definition open_connections : list Z → OrderServer → OrderServer := λ fds s, foldl open_connection s fds.

Lemma add_socket_in k l : k ∈ l → add_socket k l = l.
Proof. unfold add_socket. by case_decide. Qed.
Lemma set_receive_sockets_id s : set_receive_sockets (receive_sockets_ s) s = s.
Proof. by destruct s. Qed.
Lemma add_receive_in k s : k ∈ receive_sockets_ s → add_receive k s = Ok (tt, s).
Proof.
  intros Hk. unfold add_receive, modify. by rewrite add_socket_in, set_receive_sockets_id by done.
Qed.
Lemma no_output event listener s : epoll_reports listener s event → has EPOLLOUT event = false.
Proof. intros [E _]. unfold has. rewrite <- E, <- Z.land_assoc. by rewrite Z.land_0_r. Qed.

Lemma poll_event_ok listener s event :
  connected listener s → epoll_reports listener s event →
  poll_event listener event s = Ok (ev_ptr event =? listener, s).
Proof.
  intros Hs Hev. unfold poll_event. rewrite (no_output _ _ _ Hev).
  destruct Hev as [_ [[Ep Ei]|Hk]]; [by rewrite Ep, Ei, Z.eqb_refl|].
  assert (ev_ptr event =? listener = false) as ->.
  { apply Z.eqb_neq. intros E. rewrite E in Hk. by apply (NoDup_cons_1_1 _ _ (cn_nodup _ _ Hs)). }
  rewrite andb_false_r.
  assert (∀ b : bool, (if b then add_receive (ev_ptr event) else mret tt) s = Ok (tt, s)) as Hadd
    by (intros []; [by apply add_receive_in|done]).
  rewrite (bind_Ok _ _ _ _ _ (Hadd _)). rewrite (bind_Ok (mret tt) _ s tt s) by done.
  by rewrite (bind_Ok _ _ _ _ _ (Hadd _)).
Qed.
Lemma poll_events_ok listener s ready have :
  connected listener s → Forall (epoll_reports listener s) ready →
  poll_events listener ready have s = Ok (have || new_connection listener ready, s).
Proof.
  intros Hs Hready. revert have. induction Hready as [|event ready Hev _ IH]; intros have.
  - by rewrite orb_false_r.
  - cbn [poll_events]. rewrite (bind_Ok _ _ _ _ _ (poll_event_ok _ _ _ Hs Hev)), IH.
    unfold new_connection. cbn [existsb]. by rewrite orb_assoc.
Qed.

Lemma open_connection_connected listener s fd :
  connected listener s → tcp_sockets_ s !! fd = None → connected listener (open_connection s fd).
Proof.
  intros [Hnd Hsend Hsock] Hfd.
  assert (fd ∉ listener :: receive_sockets_ s) as Hnew.
  { rewrite <- Hsock, Hfd. by intros []. }
  split; simpl; [|done|].
  - rewrite app_comm_cons. apply NoDup_app. split_and!; [done| |apply NoDup_singleton].
    intros k Hk ->%list_elem_of_singleton. done.
  - intros k. rewrite app_comm_cons, elem_of_app, <- Hsock, list_elem_of_singleton.
    destruct (decide (k = fd)) as [->|Hne].
    + rewrite lookup_insert_eq. naive_solver.
    + rewrite lookup_insert_ne by done. naive_solver.
Qed.
Lemma add_receive_new listener s fd :
  connected listener s → tcp_sockets_ s !! fd = None →
  add_receive fd (set_tcp_sockets (<[fd := Socket_new]> (tcp_sockets_ s)) s) =
    Ok (tt, open_connection s fd).
Proof.
  intros Hs Hfd. unfold add_receive, modify, add_socket, open_connection. simpl.
  rewrite decide_False; [done|]. intros Hin.
  assert (is_Some (tcp_sockets_ s !! fd)) as [? E] by (apply (cn_sockets _ _ Hs); by right). congruence.
Qed.

Section polling.
Context (kernel : trace → syscall → Z) (epoll_fd listener : Z).

Lemma on_server_Ok {A} (m : M OrderServer A) s tr a s' :
  m s = Ok (a, s') → on_server m (s, tr) = Ok (a, (s', tr)).
Proof. intros E. unfold on_server, zoom. simpl. by rewrite E. Qed.
Lemma on_system_Ok {A} (m : M trace A) s tr a tr' :
  m tr = Ok (a, tr') → on_system m (s, tr) = Ok (a, (s, tr')).
Proof. intros E. unfold on_system, zoom. simpl. by rewrite E. Qed.

Lemma accept_loop_ok fuel fds s tr tr' :
  connected listener s → NoDup fds → (∀ fd, fd ∈ fds → tcp_sockets_ s !! fd = None) →
  backlog kernel epoll_fd listener tr fds tr' → (length fds < fuel)%nat →
  accept_loop kernel fuel epoll_fd listener (s, tr) = Ok (tt, (open_connections fds s, tr')) ∧
  connected listener (open_connections fds s).
Proof.
  revert fuel s tr. induction fds as [|fd fds IH]; intros [|fuel] s tr Hs Hnd Hnew Hlog Hfuel;
    simpl in Hfuel; try lia.
  - destruct Hlog as [E ->]. split; [|done]. cbn [accept_loop].
    rewrite (bind_Ok _ _ _ _ _ (on_system_Ok (sys kernel _) s tr _ _ eq_refl)). by rewrite E.
  - destruct Hlog as (Efd & Hfd & tr1 & tr2 & Eopt & Eadd & Hlog).
    apply NoDup_cons in Hnd as [Hfds Hnd].
    assert (tcp_sockets_ s !! fd = None) as Hnone by (apply Hnew; left).
    pose proof (open_connection_connected _ _ _ Hs Hnone) as Hs'.
    cbn [accept_loop].
    rewrite (bind_Ok _ _ _ _ _ (on_system_Ok (sys kernel _) s tr _ _ eq_refl)), Efd.
    rewrite (proj2 (Z.eqb_neq fd (-1)) Hfd).
    rewrite (bind_Ok _ _ _ _ _ (on_system_Ok _ s _ _ _ Eopt)), (bind_Ok (ASSERT true) _ _ tt _ eq_refl).
    rewrite (bind_Ok _ _ _ _ _ (on_server_Ok (modify _) s tr1 tt _ eq_refl)).
    rewrite (bind_Ok _ _ _ _ _ (on_system_Ok _ _ _ _ _ Eadd)), (bind_Ok (ASSERT true) _ _ tt _ eq_refl).
    rewrite (bind_Ok _ _ _ _ _ (on_server_Ok _ _ _ _ _ (add_receive_new _ _ _ Hs Hnone))).
    apply (IH fuel (open_connection s fd) tr2); [done|done| |done|lia].
    intros k Hk. simpl. rewrite lookup_insert_ne by (intros ->; done). apply Hnew. by right.
Qed.
End polling.

Lemma ready_bounded listener s ready :
  connected listener s → Forall (epoll_reports listener s) ready → NoDup (ev_ptr <$> ready) →
  (length ready ≤ S (length (receive_sockets_ s)))%nat.
Proof.
  intros Hs Hready Hnd. rewrite <- (length_fmap ev_ptr ready).
  change (S (length (receive_sockets_ s))) with (length (listener :: receive_sockets_ s)).
  apply submseteq_length, NoDup_submseteq; [done|].
  intros k (event & -> & Hin)%list_elem_of_fmap.
  rewrite Forall_forall in Hready. destruct (Hready _ Hin) as [_ [[-> _]|?]]; [left|by right].
Qed.

Lemma poll_ok kernel fuel epoll_fd listener ready s tr fds tr' :
  connected listener s →
  Forall (epoll_reports listener s) ready → NoDup (ev_ptr <$> ready) →
  (length (receive_sockets_ s) < 1024)%nat →
  NoDup fds → (∀ fd, fd ∈ fds → tcp_sockets_ s !! fd = None) →
  backlog kernel epoll_fd listener tr fds tr' → (length fds < fuel)%nat →
  let '(s', tr') :=
    if new_connection listener ready then (open_connections fds s, tr') else (s, tr) in
  poll kernel fuel epoll_fd listener ready (s, tr) = Ok (tt, (s', tr')) ∧ connected listener s' ∧
  receive_sockets_ s' = receive_sockets_ s ++ (if new_connection listener ready then fds else []).
Proof.
  intros Hs Hready Hnd Hlen Hfds Hnew Hlog Hfuel.
  pose proof (ready_bounded _ _ _ Hs Hready Hnd) as Hb.
  assert (∀ st, st = (s, tr) → poll kernel fuel epoll_fd listener ready st =
    (if new_connection listener ready then accept_loop kernel fuel epoll_fd listener else mret tt) st)
    as Hpoll.
  { intros ? ->. unfold poll. rewrite gets_bind. cbn [fst id]. rewrite (cn_send _ _ Hs).
    unfold i32. rewrite swrap_id by (simpl; lia). rewrite take_ge by (simpl; lia).
    rewrite (proj2 (Z.ltb_ge _ _)) by lia.
    by rewrite (bind_Ok _ _ _ _ _ (on_server_Ok _ s tr _ _ (poll_events_ok _ _ _ false Hs Hready))). }
  rewrite (Hpoll _ eq_refl). destruct (new_connection listener ready).
  - destruct (accept_loop_ok kernel epoll_fd listener fuel fds s tr tr') as [-> ?]; [done..|].
    split_and!; [done|done|]. clear. revert s. induction fds as [|fd fds IH]; intros s; simpl.
    + by rewrite (right_id_L [] (++)).
    + change (receive_sockets_ (open_connections fds (open_connection s fd)) =
        receive_sockets_ s ++ fd :: fds). rewrite IH. simpl. by rewrite <- (assoc_L (++)).
  - split_and!; [done|done|]. by rewrite (right_id_L [] (++)).
Qed.

(** C27: [poll] takes in every waiting connection and disturbs no other. Let each connection of the
    server be in [receive_sockets_] once and none in [send_sockets_], with fewer than 1024 of them
    ([events_] has 1024 entries and [poll] overruns it beyond, [poll_overruns]), and let [epoll] report
    what it was asked for, once a socket. If the listening socket is reported and the connections [fds],
    new and distinct descriptors, are waiting and the system calls that set them up succeed, [poll]
    returns with [fds] appended in order, each with empty buffers and all options set; otherwise nothing
    changes. Events of the other sockets have no effect (they are read in every round), and the
    connections are again as before. *)
Theorem poll_accepts kernel fuel epoll_fd listener ready s tr fds tr' :
  connected listener s →
  Forall (epoll_reports listener s) ready → NoDup (ev_ptr <$> ready) →
  (length (receive_sockets_ s) < 1024)%nat →
  NoDup fds → (∀ fd, fd ∈ fds → tcp_sockets_ s !! fd = None) →
  backlog kernel epoll_fd listener tr fds tr' → (length fds < fuel)%nat →
  let '(s', tr') :=
    if new_connection listener ready then (open_connections fds s, tr') else (s, tr) in
  poll kernel fuel epoll_fd listener ready (s, tr) = Ok (tt, (s', tr')) ∧ connected listener s' ∧
  receive_sockets_ s' = receive_sockets_ s ++ (if new_connection listener ready then fds else []).
Proof. apply poll_ok. Qed.

(** The 1024 events of [events_] are fewer than [poll] asks for: once 1024 connections are open and
    more than 1024 sockets have something to report, [epoll_wait] writes past the end of the array. *)
Theorem poll_overruns kernel fuel epoll_fd listener ready s tr :
  send_sockets_ s = [] → (1024 ≤ length (receive_sockets_ s))%nat →
  Z.of_nat (length (receive_sockets_ s)) < 2 ^ 31 - 1 → (1024 < length ready)%nat →
  poll kernel fuel epoll_fd listener ready (s, tr) = Err OutOfBounds.
Proof.
  intros Hsend Hrecv Hmax Hready. unfold poll. rewrite gets_bind. cbn [fst id]. rewrite Hsend.
  unfold i32. rewrite swrap_id by (simpl; lia). rewrite length_take.
  by rewrite (proj2 (Z.ltb_lt _ _)) by (simpl; lia).
Qed.

(** ** The rounds of the server *)
Section rounds.
Context `{!StdSort recv_lt}.

(** The body of the loop of [OrderServer::run]. *)
Definition run_round (kernel : trace → syscall → Z) (fuel : nat) (epoll_fd listener : Z)
    (ready : list epoll_event) (io : Z → kernel_event) : M (OrderServer * trace) unit :=
  _ ← poll kernel fuel epoll_fd listener ready;
  on_server (server_round io).

(** Which sockets there are. *)
Definition links (s : OrderServer) : list Z * list Z * gset Z :=
  (receive_sockets_ s, send_sockets_ s, dom (tcp_sockets_ s)).

Lemma keeps_array_at {A} (table : OrderServer → list A) i : keeps links (array_at table i).
Proof. unfold array_at. keeps_tac. Qed.
Lemma keeps_socket_at k : keeps links (socket_at k).
Proof. unfold socket_at. keeps_tac. Qed.
Lemma keeps_socket_upd k f : keeps links (socket_upd k f).
Proof. apply keeps_modify. intros s. unfold links. simpl. by rewrite dom_alter_L. Qed.
#[local] Hint Resolve keeps_array_at keeps_socket_at keeps_socket_upd : keeps.
Lemma keeps_on_socket k m : keeps links (on_socket k m).
Proof. unfold on_socket. keeps_tac. Qed.
Lemma keeps_sequencer {A} (m : M FIFOSequencer A) :
  keeps links (zoom fifo_sequencer_ set_sequencer m).
Proof. by apply keeps_zoom. Qed.
Lemma keeps_responses {A} (m : M (LFQueue MEClientResponse) A) :
  keeps links (zoom outgoing_responses_ set_outgoing_responses m).
Proof. by apply keeps_zoom. Qed.
#[local] Hint Resolve keeps_on_socket keeps_sequencer keeps_responses : keeps.
Lemma keeps_recvRequest k t r : keeps links (recvRequest k t r).
Proof. unfold recvRequest. keeps_tac. Qed.
Lemma keeps_recv_messages k t buf : keeps links (recv_messages (recvRequest k t) buf).
Proof.
  intros s. unfold wlp. rewrite (recv_messages_drain _ OMClientRequest_ok).
  apply keeps_bind; [|intros; apply keeps_ret].
  generalize (drain (A := OMClientRequest) buf).1. intros rs.
  induction rs as [|r rs IH]; [apply keeps_ret|]. apply keeps_bind; [apply keeps_recvRequest|done].
Qed.
#[local] Hint Resolve keeps_recv_messages : keeps.
Lemma keeps_sendAndRecv k ev :
  keeps links (sendAndRecv (socket_at k) (socket_upd k) (recvCallback k) TCPBufferSize ev).
Proof. unfold sendAndRecv, recvCallback. keeps_tac. Qed.
#[local] Hint Resolve keeps_sendAndRecv : keeps.
Lemma keeps_sockets sockets io : keeps links (sockets_sendAndRecv sockets io).
Proof. induction sockets as [|k sockets IH]; simpl; [apply keeps_ret|]. keeps_tac. Qed.
#[local] Hint Resolve keeps_sockets : keeps.
Lemma keeps_send_responses fuel : keeps links (send_responses fuel).
Proof.
  induction fuel as [|fuel IH]; simpl; [apply keeps_raise|].
  repeat (apply keeps_bind; [apply keeps_responses|intros]). unfold send_response.
  keeps_tac.
Qed.
#[local] Hint Resolve keeps_send_responses : keeps.
Lemma keeps_server_round io : keeps links (server_round io).
Proof. unfold server_round, tcp_server_sendAndRecv, recvFinishedCallback. keeps_tac. Qed.

Lemma connected_links listener s s' : links s' = links s → connected listener s → connected listener s'.
Proof.
  unfold links. intros E [Hnd Hsend Hsock]. injection E as Er Es Ed.
  split; [by rewrite Er|by rewrite Es|]. intros k.
  rewrite Er, <- Hsock, <- !elem_of_dom. by rewrite Ed.
Qed.

(** Connections are never given up.  A round of the server keeps every connection it has, in order,
    and adds those that were waiting when the listening socket was reported; whatever its sockets
    deliver or report, errors and hang-ups included, none is removed. *)
Theorem round_keeps_connections kernel fuel epoll_fd listener ready io s tr fds tr' :
  connected listener s →
  Forall (epoll_reports listener s) ready → NoDup (ev_ptr <$> ready) →
  (length (receive_sockets_ s) < 1024)%nat →
  NoDup fds → (∀ fd, fd ∈ fds → tcp_sockets_ s !! fd = None) →
  backlog kernel epoll_fd listener tr fds tr' → (length fds < fuel)%nat →
  wlp (run_round kernel fuel epoll_fd listener ready io) (s, tr) (λ _ st,
    connected listener st.1 ∧
    receive_sockets_ st.1 = receive_sockets_ s ++ (if new_connection listener ready then fds else [])).
Proof.
  intros Hs Hready Hnd Hlen Hfds Hnew Hlog Hfuel.
  pose proof (poll_ok kernel fuel epoll_fd listener ready s tr fds tr' Hs Hready Hnd Hlen Hfds Hnew
    Hlog Hfuel) as H.
  destruct (if new_connection listener ready then _ else _) as [s' tr''].
  destruct H as (Hpoll & Hs' & Hr).
  apply wlp_bind. intros [] st E. rewrite Hpoll in E. injection E as <-.
  apply wlp_zoom. intros [] s'' E. pose proof (keeps_server_round io s' _ _ E) as Hl.
  simpl. split; [exact (connected_links _ _ _ Hl Hs')|]. rewrite <- Hr. unfold links in Hl. congruence.
Qed.
End rounds.

(** * A server and its first connections *)
(** The server after [listen], with its listening socket. *)
Definition listening_server (listener : Z) (q : LFQueue MEClientRequest) (r : LFQueue MEClientResponse) :
    OrderServer :=
  set_tcp_sockets {[listener := Socket_new]} (OrderServer_new q r).
Lemma listening_connected listener q r : connected listener (listening_server listener q r).
Proof.
  split; [apply NoDup_singleton|done|]. intros k. simpl.
  rewrite lookup_singleton_is_Some, list_elem_of_singleton. naive_solver.
Qed.

(** A system with the connections [fds] waiting at the start. *)
Definition accepting (fds : list Z) (tr : trace) (c : syscall) : Z :=
  match c with
  | Sys_accept fd => nth (length (filter (λ c, c = Sys_accept fd) tr)) fds (-1)
  | _ => linux_like 0 tr c
  end.
Definition listener_input : list epoll_event := [MkEpollEvent EPOLLIN 3].
Definition server3 : OrderServer := listening_server 3 new_queue new_queue.
Definition accept_calls (fd : Z) : trace :=
  [Sys_accept 3; Sys_getfl fd; Sys_setfl fd 2050; Sys_nodelay fd; Sys_epoll_add 4 fd (2 ^ 31 + 1)].

Lemma two_waiting :
  backlog (accepting [20; 21]) 4 3 [] [20; 21] (accept_calls 20 ++ accept_calls 21 ++ [Sys_accept 3]).
Proof.
  split; [reflexivity|]. split; [done|]. eexists _, _. split; [reflexivity|]. split; [reflexivity|].
  split; [reflexivity|]. split; [done|]. eexists _, _. split; [reflexivity|]. split; [reflexivity|].
  split; reflexivity.
Qed.
Lemma listener_reported s : Forall (epoll_reports 3 s) listener_input.
Proof. apply Forall_singleton. split; [done|]. left. done. Qed.

Lemma two_nodup : NoDup [20; 21].
Proof. by apply (bool_decide_unpack _). Qed.
Lemma two_new fd : fd ∈ [20; 21] → tcp_sockets_ server3 !! fd = None.
Proof. intros [-> | [-> | []%not_elem_of_nil]%elem_of_cons]%elem_of_cons; reflexivity. Qed.

Lemma poll_accepts_witness :
  poll (accepting [20; 21]) 3 4 3 listener_input (server3, []) =
    Ok (tt, (open_connections [20; 21] server3,
             accept_calls 20 ++ accept_calls 21 ++ [Sys_accept 3])) ∧
  receive_sockets_ (open_connections [20; 21] server3) = [20; 21].
Proof.
  destruct (poll_accepts (accepting [20; 21]) 3 4 3 listener_input server3 [] [20; 21]
    (accept_calls 20 ++ accept_calls 21 ++ [Sys_accept 3])
    (listening_connected 3 new_queue new_queue) (listener_reported _)
    (NoDup_singleton _) ltac:(simpl; lia) two_nodup two_new two_waiting ltac:(simpl; lia))
    as (H1 & _ & H2).
  split; [exact H1|exact H2].
Defined.
Lemma round_keeps_connections_witness :
  wlp (run_round (accepting [20; 21]) 3 4 3 listener_input (λ _, MkKernelEvent [] 0 0)) (server3, [])
    (λ _ st, connected 3 st.1 ∧ receive_sockets_ st.1 = [20; 21]) ∧
  match run_round (accepting [20; 21]) 3 4 3 listener_input (λ _, MkKernelEvent [] 0 0) (server3, []) with
  | Ok _ => True | Err _ => False end.
Proof.
  split; [|vm_compute; exact I].
  exact (round_keeps_connections (accepting [20; 21]) 3 4 3 listener_input (λ _, MkKernelEvent [] 0 0)
    server3 [] [20; 21] (accept_calls 20 ++ accept_calls 21 ++ [Sys_accept 3])
    (listening_connected 3 new_queue new_queue) (listener_reported _)
    (NoDup_singleton _) ltac:(simpl; lia) two_nodup two_new two_waiting ltac:(simpl; lia)).
Defined.
Lemma poll_overruns_witness :
  poll (linux_like 0) 1 4 3 (replicate 1025 (MkEpollEvent EPOLLIN 10))
    (set_receive_sockets (seqZ 10 1024) server3, []) = Err OutOfBounds.
Proof.
  apply poll_overruns; simpl; [reflexivity|..]; rewrite ?length_seqZ, ?length_replicate; lia.
Defined.
