(* ===== verification/TCPServerKqueue.v ===== *)
(** Common/tcp_server.cpp: the branch for macOS, with [kqueue] in place of [epoll].

    [listen], [addToEpollList] and [poll] again, with the calls and the events of that branch; what
    follows the conditional code is the same in both.  The two branches do the same to the server and
    make corresponding system calls. *)
From S2P Require Export TCPServer.

Definition EVFILT_READ : Z := -1.
Definition EVFILT_WRITE : Z := -2.
Definition EV_ADD : Z := 1.
Definition EV_ENABLE : Z := 4.
Definition EV_EOF : Z := 2 ^ 15.
Definition EV_ERROR : Z := 2 ^ 14.
Record kevent : Type := MkKevent { ke_filter : Z; ke_flags : Z; ke_udata : Z }.

(** The body of the loop over the events: is there a new connection? *)
Definition kq_poll_event (listener : Z) (event : kevent) : M OrderServer bool :=
  let socket := ke_udata event in
  if (ke_filter event =? EVFILT_READ) && (socket =? listener) then mret true
  else
    _ ← (if ke_filter event =? EVFILT_READ then add_receive socket else mret tt);
    _ ← (if ke_filter event =? EVFILT_WRITE then add_send socket else mret tt);
    _ ← (if negb (Z.land (ke_flags event) (Z.lor EV_EOF EV_ERROR) =? 0) then add_receive socket else mret tt);
    mret false.
Fixpoint kq_poll_events (listener : Z) (events : list kevent) (have_new_connection : bool) :
    M OrderServer bool :=
  match events with
  | [] => mret have_new_connection
  | event :: events =>
      new ← kq_poll_event listener event;
      kq_poll_events listener events (have_new_connection || new)
  end.

Section kqueue.
Context (kernel : trace → syscall → Z).
Context (getifaddrs : option (list ifaddr)).
Context (getaddrinfo : string → string → addrinfo_hints → option (list addrinfo)).

Definition kq_addToEpollList (kqueue_fd socket : Z) : M trace bool :=
  r ← sys kernel (Sys_kevent_add kqueue_fd socket EVFILT_READ (Z.lor EV_ADD EV_ENABLE));
  mret (negb (r =? -1)).
(** The new [kqueue_fd_] and the descriptor of [listener_socket_]. *)
Definition kq_listen (iface : string) (port : Z) : M trace (Z * Z) :=
  kqueue_fd ← sys kernel Sys_kqueue;
  _ ← ASSERT (0 <=? kqueue_fd);
  socket_fd ← tcp_connect kernel getifaddrs getaddrinfo EmptyString iface port true;
  _ ← ASSERT (0 <=? socket_fd);
  added ← kq_addToEpollList kqueue_fd socket_fd;
  _ ← ASSERT added;
  mret (kqueue_fd, socket_fd).

Fixpoint kq_accept_loop (fuel : nat) (kqueue_fd listener : Z) : M (OrderServer * trace) unit :=
  match fuel with
  | O => raise OutOfFuel
  | S fuel =>
      fd ← on_system (sys kernel (Sys_accept listener));
      if fd =? -1 then mret tt
      else
        options ← on_system (accepted_options kernel fd);
        _ ← ASSERT options;
        _ ← on_server (modify (λ s, set_tcp_sockets (<[fd := Socket_new]> (tcp_sockets_ s)) s));
        added ← on_system (kq_addToEpollList kqueue_fd fd);
        _ ← ASSERT added;
        _ ← on_server (add_receive fd);
        kq_accept_loop fuel kqueue_fd listener
  end.
(** [poll]; [ready] is what [kevent] has to report.  The array [events_] has [MAX_EVENTS] elements, 1024. *)
Definition kq_poll (fuel : nat) (kqueue_fd listener : Z) (ready : list kevent) :
    M (OrderServer * trace) unit :=
  st ← gets id;
  let max_events :=
    i32 (1 + Z.of_nat (length (send_sockets_ st.1)) + Z.of_nat (length (receive_sockets_ st.1))) in
  let events := take (Z.to_nat max_events) ready in
  if 1024 <? Z.of_nat (length events) then raise OutOfBounds
  else
    have_new_connection ← on_server (kq_poll_events listener events false);
    if have_new_connection : bool then kq_accept_loop fuel kqueue_fd listener else mret tt.
End kqueue.

(** * The two branches agree *)

(** [m1] does on the image of a state under [f] what [m2] does on the state. *)
Definition sim {S T A} (f : S → T) (m1 : M T A) (m2 : M S A) : Prop :=
  ∀ s, m1 (f s) = res_map (λ r, (r.1, f r.2)) (m2 s).
Section sim.
Context {S T A B : Type} (f : S → T).
Lemma sim_ret (a : A) : sim f (mret a) (mret a).
Proof. by intros s. Qed.
Lemma sim_raise e : sim f (raise (A := A) e) (raise e).
Proof. by intros s. Qed.
Lemma sim_bind (m1 : M T A) (m2 : M S A) (k1 : A → M T B) (k2 : A → M S B) :
  sim f m1 m2 → (∀ a, sim f (k1 a) (k2 a)) → sim f (m1 ≫= k1) (m2 ≫= k2).
Proof.
  intros Hm Hk s. unfold mbind, M_bind. rewrite (Hm s). destruct (m2 s) as [[a s']|]; [|done]. apply Hk.
Qed.
Lemma sim_ASSERT b : sim f (ASSERT b) (ASSERT b).
Proof. by destruct b. Qed.
Lemma sim_zoom {S' T'} (g : S' → T') (gets : S → S') (sets : S' → S → S) (gett : T → T') (sett : T' → T → T)
    (m1 : M T' A) (m2 : M S' A) :
  (∀ s, gett (f s) = g (gets s)) → (∀ x s, sett (g x) (f s) = f (sets x s)) →
  sim g m1 m2 → sim f (zoom gett sett m1) (zoom gets sets m2).
Proof.
  intros Hget Hset Hm s. unfold zoom. rewrite Hget, (Hm (gets s)).
  destruct (m2 (gets s)) as [[a x]|]; [|done]. simpl. by rewrite Hset.
Qed.
End sim.
Create HintDb sim.
#[export] Hint Resolve sim_ret sim_raise sim_ASSERT : sim.
(** [sim] of two programs of the same structure. *)
Ltac sim_tac :=
  repeat (intros; cbv beta; lazymatch goal with
    | |- sim _ (_ ≫= _) (_ ≫= _) => apply sim_bind
    | |- sim _ (if ?b then _ else _) _ => destruct b
    | |- sim _ _ _ => solve [auto with sim]
    end).

(** The corresponding call of the other branch. *)
Definition as_epoll_call (c : syscall) : syscall :=
  match c with
  | Sys_kqueue => Sys_epoll_create
  | Sys_kevent_add kq fd _ _ => Sys_epoll_add kq fd (Z.lor EPOLLET EPOLLIN)
  | c => c
  end.
Abbreviation as_epoll := (λ tr : trace, as_epoll_call <$> tr).
Definition as_epoll_event (e : kevent) : epoll_event :=
  MkEpollEvent
    (Z.lor (if ke_filter e =? EVFILT_READ then EPOLLIN else if ke_filter e =? EVFILT_WRITE then EPOLLOUT else 0)
       (if negb (Z.land (ke_flags e) (Z.lor EV_EOF EV_ERROR) =? 0) then EPOLLERR else 0))
    (ke_udata e).
(** Two systems that answer alike; [kevent] succeeds unless it returns -1, [epoll_ctl] if it returns 0. *)
Definition is_kevent_add (c : syscall) : bool := match c with Sys_kevent_add _ _ _ _ => true | _ => false end.
Record answer_alike (epoll kqueue : trace → syscall → Z) : Prop := {
  aa_call tr c : is_kevent_add c = false → epoll (as_epoll tr) (as_epoll_call c) = kqueue tr c;
  aa_add tr kq fd filter flags :
    (epoll (as_epoll tr) (Sys_epoll_add kq fd (Z.lor EPOLLET EPOLLIN)) =? 0) =
    negb (kqueue tr (Sys_kevent_add kq fd filter flags) =? -1);
}.

Section alike.
Context (epoll kqueue : trace → syscall → Z) (Hk : answer_alike epoll kqueue).
Context (getifaddrs : option (list ifaddr)).
Context (getaddrinfo : string → string → addrinfo_hints → option (list addrinfo)).

Lemma sim_sys c c' :
  is_kevent_add c = false → as_epoll_call c = c' → sim as_epoll (sys epoll c') (sys kqueue c).
Proof.
  intros Hc <- tr. unfold sys. rewrite (aa_call _ _ Hk) by done. simpl. by rewrite fmap_app.
Qed.
#[local] Hint Extern 1 (sim _ (sys _ _) (sys _ _)) => apply sim_sys; reflexivity : sim.
Lemma sim_add fd socket :
  sim as_epoll (addToEpollList epoll fd socket) (kq_addToEpollList kqueue fd socket).
Proof.
  intros tr. unfold addToEpollList, kq_addToEpollList, sys, mbind, M_bind. cbn.
  rewrite <- (aa_add _ _ Hk tr fd socket EVFILT_READ (Z.lor EV_ADD EV_ENABLE)). by rewrite fmap_app.
Qed.
Lemma sim_nonblocking fd : sim as_epoll (setNonBlocking epoll fd) (setNonBlocking kqueue fd).
Proof. unfold setNonBlocking. sim_tac. Qed.
#[local] Hint Resolve sim_add sim_nonblocking : sim.
Lemma sim_options fd : sim as_epoll (accepted_options epoll fd) (accepted_options kqueue fd).
Proof. unfold accepted_options, disableNagle. sim_tac. Qed.
#[local] Hint Resolve sim_options : sim.
Lemma sim_setup_socket cfg rp : sim as_epoll (setup_socket epoll cfg rp) (setup_socket kqueue cfg rp).
Proof. unfold setup_socket, assert_if, returns, disableNagle, setSOTimestamp. sim_tac. Qed.
#[local] Hint Resolve sim_setup_socket : sim.
Lemma sim_setup_sockets cfg rps fd :
  sim as_epoll (setup_sockets epoll cfg rps fd) (setup_sockets kqueue cfg rps fd).
Proof. revert fd. induction rps as [|rp rps IH]; intros fd; simpl; sim_tac. Qed.
Lemma sim_connect ip iface port listening :
  sim as_epoll (tcp_connect epoll getifaddrs getaddrinfo ip iface port listening)
    (tcp_connect kqueue getifaddrs getaddrinfo ip iface port listening).
Proof. unfold tcp_connect, createSocket. case_match; [apply sim_setup_sockets|apply sim_raise]. Qed.
#[local] Hint Resolve sim_connect : sim.
Lemma sim_listen iface port :
  sim as_epoll (listen epoll getifaddrs getaddrinfo iface port)
    (kq_listen kqueue getifaddrs getaddrinfo iface port).
Proof. unfold listen, kq_listen. sim_tac. Qed.

(** On the server and the trace. *)
Abbreviation as_epoll_state := (λ st : OrderServer * trace, (st.1, as_epoll st.2)).
Lemma sim_on_server {A} (m : M OrderServer A) : sim as_epoll_state (on_server m) (on_server m).
Proof. apply (sim_zoom _ id); [done..|]. intros s. simpl. by destruct (m s) as [[]|]. Qed.
Lemma sim_on_system {A} (m1 m2 : M trace A) :
  sim as_epoll m1 m2 → sim as_epoll_state (on_system m1) (on_system m2).
Proof. by apply sim_zoom. Qed.
#[local] Hint Resolve sim_on_server sim_on_system : sim.
Lemma sim_accept_loop fuel fd listener :
  sim as_epoll_state (accept_loop epoll fuel fd listener) (kq_accept_loop kqueue fuel fd listener).
Proof. induction fuel as [|fuel IH]; simpl; sim_tac. Qed.
End alike.

Lemma poll_event_alike listener e : poll_event listener (as_epoll_event e) = kq_poll_event listener e.
Proof.
  assert (has EPOLLIN (as_epoll_event e) = (ke_filter e =? EVFILT_READ) ∧
    has EPOLLOUT (as_epoll_event e) = (ke_filter e =? EVFILT_WRITE) ∧
    has (Z.lor EPOLLERR EPOLLHUP) (as_epoll_event e) =
      negb (Z.land (ke_flags e) (Z.lor EV_EOF EV_ERROR) =? 0)) as (Ei & Eo & Ee).
  { unfold has, as_epoll_event. cbn [ev_events].
    generalize (negb (Z.land (ke_flags e) (Z.lor EV_EOF EV_ERROR) =? 0)). intros failed.
    destruct (ke_filter e =? EVFILT_READ) eqn:Er.
    - apply Z.eqb_eq in Er. rewrite Er. by destruct failed.
    - by destruct (ke_filter e =? EVFILT_WRITE), failed. }
  unfold poll_event, kq_poll_event. by rewrite Ei, Eo, Ee.
Qed.
Lemma poll_events_alike listener events have s :
  poll_events listener (as_epoll_event <$> events) have s = kq_poll_events listener events have s.
Proof.
  revert have s. induction events as [|e events IH]; intros have s; [done|].
  rewrite fmap_cons. cbn [poll_events kq_poll_events]. rewrite poll_event_alike. by apply bind_same.
Qed.

(** C28: the two branches of the TCP server behave alike.  On two systems that answer corresponding calls
    alike and report corresponding events, [listen] and [poll] with [kqueue] do to the server what they
    do with [epoll], faults included, and make the corresponding calls in the same order. *)
Theorem event_loops_alike epoll kqueue getifaddrs getaddrinfo fuel fd listener iface port ready s tr :
  answer_alike epoll kqueue →
  listen epoll getifaddrs getaddrinfo iface port (as_epoll tr) =
    res_map (λ r, (r.1, as_epoll r.2)) (kq_listen kqueue getifaddrs getaddrinfo iface port tr) ∧
  poll epoll fuel fd listener (as_epoll_event <$> ready) (s, as_epoll tr) =
    res_map (λ r, (r.1, (r.2.1, as_epoll r.2.2))) (kq_poll kqueue fuel fd listener ready (s, tr)).
Proof.
  intros Hk. split; [by apply sim_listen|].
  unfold poll, kq_poll. rewrite !gets_bind. cbn [id fst]. rewrite <- fmap_take, length_fmap.
  case_match; [done|].
  refine (sim_bind (λ st : OrderServer * trace, (st.1, as_epoll st.2)) _ (on_server _) _ _ _ _ (s, tr)).
  - intros st. unfold on_server, zoom. simpl. rewrite poll_events_alike.
    by destruct (kq_poll_events _ _ _ _) as [[]|].
  - intros [|]; [by apply sim_accept_loop|apply sim_ret].
Qed.

(** A system of each kind with two connections waiting. *)
Definition kq_accepting (tr : trace) (c : syscall) : Z :=
  match c with Sys_kevent_add _ _ _ _ => 0 | c => accepting [20; 21] (as_epoll tr) (as_epoll_call c) end.
Lemma accepting_alike : answer_alike (accepting [20; 21]) kq_accepting.
Proof. split; [intros tr c Hc; by destruct c|done]. Qed.
Lemma event_loops_alike_witness :
  let ready := [MkKevent EVFILT_READ 0 3] in
  poll (accepting [20; 21]) 3 4 3 (as_epoll_event <$> ready) (server3, []) =
    res_map (λ r, (r.1, (r.2.1, as_epoll r.2.2))) (kq_poll kq_accepting 3 4 3 ready (server3, [])) ∧
  match kq_poll kq_accepting 3 4 3 ready (server3, []) with
  | Ok (_, (s, tr)) => receive_sockets_ s = [20; 21] ∧ length tr = 11%nat
  | Err _ => False
  end.
Proof.
  split; [|vm_compute; done].
  exact (proj2 (event_loops_alike _ _ interfaces numeric_host 3 4 3 "lo" 12345 [MkKevent EVFILT_READ 0 3]
    server3 [] accepting_alike)).
Defined.
