(* ===== verification/OrderServerRound.v ===== *)
(** A whole round of the order server's thread, over all its connections.

    A round visits every connection once ([visit_data] is what its visit reads, [visit_arrivals] the whole
    requests in its buffer then), publishes what the sessions accept and empties the
    queue of responses into the connections' send buffers. *)
From coqutil Require Import Byte Word.LittleEndianList.
From S2P Require Export TCPServer.

Section visits.
Context (io : Z → kernel_event).

Definition visit_data (sk : Socket) (k : Z) : list byte :=
  kernel_copy (TCPBufferSize - Z.of_nat (length (inbound_data_ sk))) (k_data (io k)).
Definition visit_messages (sk : Socket) (k : Z) : list OMClientRequest * list byte :=
  drain (inbound_data_ sk ++ visit_data sk k).
Definition visit_arrivals (s : OrderServer) (k : Z) : list arrival :=
  match tcp_sockets_ s !! k with
  | Some sk => MkArrival k (k_time (io k)) <$> (visit_messages sk k).1
  | None => []
  end.
Definition after_visit (k : Z) (sk : Socket) : Socket :=
  transmit (io k) (set_inbound (visit_messages sk k).2 sk).

(** Between two visits a connection holds less than one request. *)
Definition unfinished (s : OrderServer) (k : Z) : Prop :=
  ∃ sk, tcp_sockets_ s !! k = Some sk ∧ (length (inbound_data_ sk) < 38)%nat.

Lemma accept_all_app ms1 ms2 se :
  accept_all (ms1 ++ ms2) se =
    ((accept_all ms2 (accept_all ms1 se).1).1,
     (accept_all ms1 se).2 ++ (accept_all ms2 (accept_all ms1 se).1).2).
Proof.
  revert se. induction ms1 as [|a ms1 IH]; intros se; simpl.
  { by destruct (accept_all ms2 se). }
  rewrite IH. destruct (accept_all ms1 _) as [se1 acc1]. simpl.
  by destruct (accepts _ _ _).
Qed.

(** Two visits one after the other. *)
Lemma frame_trans g g' s s1 s2 :
  recv_frame (set_tcp_sockets g s) s1 → recv_frame (set_tcp_sockets g' s1) s2 →
  recv_frame (set_tcp_sockets g' s) s2.
Proof.
  intros [_ ? ? ? [? ?]] Hf. transitivity (set_tcp_sockets g' s1); [|exact Hf]. by repeat split.
Qed.

Lemma visit_ok k s se ps sk :
  sessions s se → holds (fifo_sequencer_ s) ps → tcp_sockets_ s !! k = Some sk →
  (length (inbound_data_ sk) < 38)%nat →
  Forall (λ a, 0 ≤ a_client a < ME_MAX_NUM_CLIENTS) (visit_arrivals s k) →
  Z.of_nat (length ps + length (accept_all (visit_arrivals s k) se).2) ≤ ME_MAX_PENDING_REQUESTS →
  wp (sendAndRecv (socket_at k) (socket_upd k) (recvCallback k) TCPBufferSize (io k)) s (λ recv s',
    sessions s' (accept_all (visit_arrivals s k) se).1 ∧
    holds (fifo_sequencer_ s') (ps ++ (stamp <$> (accept_all (visit_arrivals s k) se).2)) ∧
    recv_frame (set_tcp_sockets (<[k := after_visit k sk]> (tcp_sockets_ s)) s) s' ∧
    (recv = false → visit_arrivals s k = [])).
Proof.
  intros Hse Hps Hk Hin Hcl Hroom. unfold sendAndRecv.
  assert (visit_arrivals s k = MkArrival k (k_time (io k)) <$> (visit_messages sk k).1) as Earr
    by (unfold visit_arrivals; by rewrite Hk).
  rewrite Earr in *. eapply wp_bind_Ok; [unfold socket_at; rewrite gets_bind, Hk; done|].
  fold (visit_data sk k). destruct (visit_messages sk k) as [reqs rest] eqn:Hm. cbn [fst] in *.
  assert (∀ s1 : OrderServer, recv_frame (set_tcp_sockets (<[k := set_inbound rest sk]> (tcp_sockets_ s)) s) s1 →
    recv_frame (set_tcp_sockets (<[k := after_visit k sk]> (tcp_sockets_ s)) s)
      (set_tcp_sockets (alter (transmit (io k)) k (tcp_sockets_ s1)) s1)) as Hupd.
  { intros s1 [E ? ? ? ?]. split; [|done..]. simpl in *.
    rewrite E, (alter_alt_Some _ _ _ _ (lookup_insert_eq _ _ _)), insert_insert_eq. unfold after_visit.
    by rewrite Hm. }
  apply wp_bind. destruct (visit_data sk k) as [|b bs] eqn:Hd.
  - unfold visit_messages in Hm. rewrite Hd, app_nil_r, drain_short in Hm by done. injection Hm as <- <-.
    apply wp_ret, wp_bind, wp_modify, wp_ret. cbn. rewrite app_nil_r. split_and!; [by destruct Hse|done| |done].
    apply Hupd. assert (set_inbound (inbound_data_ sk) sk = sk) as -> by by destruct sk.
    rewrite insert_id by done. by rewrite set_tcp_sockets_id.
  - apply wp_bind, wp_modify. set (data := b :: bs) in *. rewrite (alter_alt_Some _ _ _ _ Hk).
    set (sk1 := set_inbound (inbound_data_ sk ++ data) sk).
    set (s1 := set_tcp_sockets (<[k := sk1]> (tcp_sockets_ s)) s).
    eapply wp_mono.
    { apply (recvCallback_frame k (k_time (io k)) s1 se ps sk1 reqs rest); [by destruct Hse|done|by apply lookup_insert_eq| | |done].
      - unfold visit_messages in Hm. by rewrite Hd in Hm.
      - by apply (Forall_fmap (MkArrival k (k_time (io k))) (λ a, 0 ≤ a_client a < ME_MAX_NUM_CLIENTS)) in Hcl. }
    intros [] s2 (Hse2 & Hh2 & Hf2). apply wp_bind, wp_modify, wp_ret. split_and!; [by destruct Hse2|done| |done].
    apply Hupd. destruct Hf2 as [E ? ? ? ?]. split; [|done..]. simpl in *. by rewrite E, insert_insert_eq.
Qed.

Lemma sockets_sendAndRecv_ok ks : ∀ s se ps,
  sessions s se → holds (fifo_sequencer_ s) ps → NoDup ks → Forall (unfinished s) ks →
  let arrivals := concat (visit_arrivals s <$> ks) in
  Forall (λ a, 0 ≤ a_client a < ME_MAX_NUM_CLIENTS) arrivals →
  Z.of_nat (length ps + length (accept_all arrivals se).2) ≤ ME_MAX_PENDING_REQUESTS →
  wp (sockets_sendAndRecv ks io) s (λ recv s',
    sessions s' (accept_all arrivals se).1 ∧
    holds (fifo_sequencer_ s') (ps ++ (stamp <$> (accept_all arrivals se).2)) ∧
    (∃ g, recv_frame (set_tcp_sockets g s) s' ∧ ∀ k, g !! k =
       if decide (k ∈ ks) then after_visit k <$> tcp_sockets_ s !! k else tcp_sockets_ s !! k) ∧
    (recv = false → arrivals = [])).
Proof.
  induction ks as [|k ks IH]; intros s se ps Hse Hps Hnd Hks arrivals Hcl Hroom; unfold arrivals in *.
  { apply wp_ret. rewrite app_nil_r. split_and!; [done|done| |done]. exists (tcp_sockets_ s).
    rewrite set_tcp_sockets_id. split; [done|]. intros k. by rewrite decide_False by apply not_elem_of_nil. }
  apply NoDup_cons in Hnd as [Hk Hnd]. apply Forall_cons in Hks as [(sk & Hsk & Hin) Hks].
  rewrite fmap_cons in *. cbn [concat] in *. rewrite accept_all_app in *. cbn [fst snd] in *.
  apply Forall_app in Hcl as [Hcl1 Hcl2]. rewrite length_app in Hroom.
  apply wp_bind. eapply wp_mono; [apply (visit_ok k s se ps sk); try done; lia|].
  intros recv s1 (Hse1 & Hps1 & Hf1 & Hr1).
  set (se1 := (accept_all (visit_arrivals s k) se).1) in *. set (acc1 := (accept_all (visit_arrivals s k) se).2) in *.
  pose proof (rf_sockets _ _ Hf1) as Ht. cbn [tcp_sockets_ set_tcp_sockets] in Ht.
  assert (visit_arrivals s1 <$> ks = visit_arrivals s <$> ks) as Earr.
  { apply list_fmap_ext. intros i k' Hk'%list_elem_of_lookup_2. unfold visit_arrivals.
    by rewrite Ht, lookup_insert_ne by set_solver. }
  specialize (IH s1 se1 (ps ++ (stamp <$> acc1)) Hse1 Hps1 Hnd). cbv zeta in IH. rewrite Earr in IH.
  apply wp_bind. eapply wp_mono; [apply IH; [|done|]|].
  - rewrite Forall_forall in Hks |- *. intros k' Hk'. destruct (Hks k' Hk') as (sk' & Hsk' & ?).
    exists sk'. by rewrite Ht, lookup_insert_ne by set_solver.
  - rewrite length_app, length_fmap. lia.
  - intros recv' s2 (Hse2 & Hps2 & (g & Hf2 & Hg) & Hr2). apply wp_ret. rewrite fmap_app, (assoc_L (++)).
    split_and!; [done|done| |].
    + exists g. split.
      * by eapply frame_trans.
      * intros k'. rewrite (Hg k'), Ht. destruct (decide (k' = k)) as [->|Hne].
        { rewrite decide_False, decide_True, lookup_insert_eq, Hsk by (done || by left). done. }
        rewrite lookup_insert_ne by done. by rewrite (decide_ext (k' ∈ k :: ks) (k' ∈ ks)) by set_solver.
    + intros [? ?]%orb_false_iff. by rewrite Hr1, Hr2.
Qed.
End visits.

(** ** The round *)
(** The server between two rounds: the sequencer is empty, no connection holds a whole request, the clients that
    are bound are bound to live connections; [rs] waits in the queue of responses. *)
Record server_ready (listener : Z) (s : OrderServer) (se : session) (next : Z → Z)
    (rs : list MEClientResponse) : Prop := {
  sr_connected : connected listener s;
  sr_unfinished : Forall (unfinished s) (receive_sockets_ s);
  sr_listener sk : tcp_sockets_ s !! listener = Some sk → outbound_data_ sk = [];
  sr_sessions : sessions s se;
  sr_holds : holds (fifo_sequencer_ s) [];
  sr_next : next_numbers s next;
  sr_bound c k : se_socket se c = Some k → k ∈ receive_sockets_ s;
  sr_responses : queue_wf (outgoing_responses_ s) ∧
    contents MEClientResponse_default (outgoing_responses_ s) = rs;
}.

Lemma open_connection_ready listener s se next rs fd :
  server_ready listener s se next rs → tcp_sockets_ s !! fd = None →
  server_ready listener (open_connection s fd) se next rs.
Proof.
  intros [Hcn Hun Hlis Hse Hh Hn Hb Hr] Hfd.
  assert (∀ k', k' ∈ listener :: receive_sockets_ s → fd ≠ k') as Hne.
  { intros k' [sk Hsk]%(cn_sockets _ _ Hcn) <-. congruence. }
  split; cbn; try done.
  - by apply open_connection_connected.
  - apply Forall_app. split.
    + rewrite Forall_forall in Hun |- *. intros k' Hk'. destruct (Hun k' Hk') as (sk & Hsk & Hl).
      exists sk. split; [|done]. cbn. rewrite lookup_insert_ne; [done|]. apply Hne. by right.
    + apply Forall_singleton. exists Socket_new. cbn. by rewrite lookup_insert_eq; split; [|lia].
  - intros sk. rewrite lookup_insert_ne; [apply Hlis|]. apply Hne. left.
  - by destruct Hse.
  - intros c' k' Hk'. apply elem_of_app. left. by eapply Hb.
Qed.

Lemma accept_all_bound ms se c k :
  se_socket se c = Some k → se_socket (accept_all ms se).1 c = Some k.
Proof.
  revert se. induction ms as [|a ms IH]; intros se H; [done|]. simpl.
  specialize (IH (accept (a_socket a) (a_request a) se)). destruct (accept_all ms _) as [se' acc]. apply IH.
  unfold accept, bind. destruct (accepts _ _ _); simpl; case_decide; subst; by rewrite ?H.
Qed.
(** Only the connections requests arrive on become bound. *)
Lemma accept_all_socket ms se c k :
  se_socket (accept_all ms se).1 c = Some k → se_socket se c = Some k ∨ k ∈ a_socket <$> ms.
Proof.
  revert se. induction ms as [|a ms IH]; intros se H; [by left|]. rewrite fmap_cons, elem_of_cons.
  simpl in H. specialize (IH (accept (a_socket a) (a_request a) se)).
  destruct (accept_all ms _) as [se' acc]. destruct (IH H) as [H'|?]; [|tauto]. clear IH H.
  assert (se_socket (accept (a_socket a) (a_request a) se) c = Some k →
    se_socket se c = Some k ∨ k = a_socket a) as E; [|naive_solver].
  unfold accept, bind. destruct (accepts _ _ _); simpl; case_decide; subst; try tauto;
    destruct (se_socket se _); simpl; intros [= <-]; tauto.
Qed.
Lemma drained_short bs : (length (drain (A := OMClientRequest) bs).2 < 38)%nat.
Proof.
  destruct (drain bs) as [ms rest] eqn:E. by apply (drain_rest OMClientRequest_ok) in E.
Qed.
Lemma socket_of_session s se c : sessions s se → 0 ≤ c < ME_MAX_NUM_CLIENTS → socket_of s c = se_socket se c.
Proof. intros [Hs _] Hc. unfold socket_of. by rewrite Hs. Qed.

Section round.
Context `{!StdSort recv_lt}.

Definition round_arrivals (io : Z → kernel_event) (s : OrderServer) : list arrival :=
  concat (visit_arrivals io s <$> receive_sockets_ s).
Lemma round_arrivals_socket io s k :
  k ∈ a_socket <$> round_arrivals io s → k ∈ receive_sockets_ s.
Proof.
  unfold round_arrivals. induction (receive_sockets_ s) as [|k' ks IH]; [done|].
  rewrite fmap_cons. cbn [concat]. rewrite fmap_app, elem_of_app. intros [H|H]; [|right; auto].
  unfold visit_arrivals in H. destruct (tcp_sockets_ s !! k') as [sk|]; [|by apply not_elem_of_nil in H].
  rewrite <- list_fmap_compose in H. apply list_elem_of_fmap in H as (? & -> & _). left.
Qed.

(** The first half of a round: the visits and the sequencer. *)
Lemma tcp_server_sendAndRecv_ok io listener s se next rs vs n :
  server_ready listener s se next rs →
  Forall (λ a, 0 ≤ a_client a < ME_MAX_NUM_CLIENTS) (round_arrivals io s) →
  let r := accept_all (round_arrivals io s) se in
  Z.of_nat (length r.2) ≤ ME_MAX_PENDING_REQUESTS →
  queue_room MEClientRequest_default (seq_incoming_requests_ (fifo_sequencer_ s)) (length r.2 + n) vs →
  wp (tcp_server_sendAndRecv io) s (λ _ s', server_ready listener s' r.1 next rs ∧
    queue_room MEClientRequest_default (seq_incoming_requests_ (fifo_sequencer_ s')) n
      (vs ++ (request_ <$> std_sort (stamp <$> r.2))) ∧
    receive_sockets_ s' = receive_sockets_ s ∧
    ∀ k sk, k ∈ receive_sockets_ s → tcp_sockets_ s !! k = Some sk →
      tcp_sockets_ s' !! k = Some (after_visit io k sk)).
Proof.
  intros [Hcn Hun Hlis Hse Hh Hnx Hbd Hrs] Hcl r Hroom Hq. unfold tcp_server_sendAndRecv.
  pose proof (cn_nodup _ _ Hcn) as [Hl Hnd]%NoDup_cons.
  apply wp_bind, wp_gets, wp_bind. eapply wp_mono; [by apply (sockets_sendAndRecv_ok io _ s se [])|].
  intros recv s1 (Hse1 & Hh1 & (g & Hf1 & Hg) & Hrecv). fold (round_arrivals io s) in Hse1, Hh1, Hrecv. fold r in Hse1, Hh1.
  apply wp_bind. destruct Hf1 as [Et Er En Eq [Ev1 Ev2]]. cbn in Et, Er, En, Eq, Ev1, Ev2.
  assert (∀ f, holds f [] → queue_room MEClientRequest_default (seq_incoming_requests_ f) n
    (vs ++ (request_ <$> std_sort (stamp <$> r.2))) →
    wp (send_sockets ← gets send_sockets_; _ ← sockets_sendAndRecv send_sockets io; mret tt) (set_sequencer f s1)
      (λ _ s', server_ready listener s' r.1 next rs ∧
        queue_room MEClientRequest_default (seq_incoming_requests_ (fifo_sequencer_ s')) n
          (vs ++ (request_ <$> std_sort (stamp <$> r.2))) ∧
        receive_sockets_ s' = receive_sockets_ s ∧
        ∀ k sk, k ∈ receive_sockets_ s → tcp_sockets_ s !! k = Some sk →
          tcp_sockets_ s' !! k = Some (after_visit io k sk))) as Hrest.
  { intros f Hf Hqf. apply wp_bind, wp_gets. cbn. rewrite Ev2, (cn_send _ _ Hcn).
    apply wp_ret. split_and!; [|done|done|]; cycle 1.
    { intros k sk Hk Hsk. cbn. by rewrite Et, Hg, decide_True, Hsk. }
    split; cbn; rewrite ?Ev1, ?Er, ?En; try done.
    - split; cbn; rewrite ?Ev1, ?Ev2; [by apply NoDup_cons|by apply (cn_send _ _ Hcn)|].
      intros k. rewrite <- (cn_sockets _ _ Hcn), Et, Hg. case_decide; [|done]. apply fmap_is_Some.
    - rewrite Forall_forall in Hun |- *. intros k Hk. destruct (Hun k Hk) as (sk & Hsk & _).
      exists (after_visit io k sk). cbn. rewrite Et, Hg, decide_True, Hsk by done. split; [done|]. apply drained_short.
    - intros sk. rewrite Et, Hg, decide_False by done. apply Hlis.
    - by destruct Hse1.
    - intros c Hc. cbn. rewrite En. by apply Hnx.
    - intros c k [?|?%round_arrivals_socket]%accept_all_socket; eauto. }
  destruct recv.
  - unfold recvFinishedCallback. apply wp_zoom. eapply wp_mono.
    { apply (sequenceAndPublish_ok _ (stamp <$> r.2) vs n); [done|by rewrite length_fmap|].
      by rewrite Eq, length_fmap. }
    intros [] f [Hf Hqf]. by apply Hrest.
  - assert (r.2 = []) as E0 by (unfold r; by rewrite Hrecv).
    assert (set_sequencer (fifo_sequencer_ s1) s1 = s1) as <- by by destruct s1.
    apply wp_ret, Hrest.
    + by rewrite E0 in Hh1.
    + rewrite E0 in *. cbn [fmap list_fmap]. rewrite (proj1 (Permutation_nil_r _) (std_sort_perm (lt := recv_lt) [])). cbn.
      rewrite app_nil_r. by rewrite Eq.
Qed.

(** The clients of [number rs next] are those of [rs]. *)
Lemma number_clients rs next : (number rs next).*1 = resp_client_id_ <$> rs.
Proof. revert next. induction rs as [|r rs IH]; intros next; [done|]. simpl. by rewrite IH. Qed.
Lemma stream_ext (sock sock' : Z → option Z) k rs next :
  Forall (λ r, sock (resp_client_id_ r) = sock' (resp_client_id_ r)) rs →
  stream sock k (number rs next) = stream sock' k (number rs next).
Proof.
  intros H. unfold stream. f_equal. apply filter_Forall_iff.
  apply (Forall_fmap fst (λ c, sock c = Some k ↔ sock' c = Some k)). rewrite number_clients.
  apply Forall_fmap. eapply Forall_impl; [exact H|]. simpl. by intros r ->.
Qed.
Lemma stream_none (sock : Z → option Z) k rs next :
  Forall (λ r, sock (resp_client_id_ r) ≠ Some k) rs → stream sock k (number rs next) = [].
Proof.
  revert next. induction rs as [|r rs IH]; intros next H; [done|]. apply Forall_cons in H as [Hr H].
  unfold stream in *. cbn [number]. rewrite filter_cons_False by done. by apply IH.
Qed.

(** A response goes to a client that is bound. *)
Definition addressed (se : session) (r : MEClientResponse) : Prop :=
  0 ≤ resp_client_id_ r < ME_MAX_NUM_CLIENTS ∧ is_Some (se_socket se (resp_client_id_ r)).

Lemma server_round_ok io listener s se next rs vs n :
  server_ready listener s se next rs →
  Forall (λ a, 0 ≤ a_client a < ME_MAX_NUM_CLIENTS) (round_arrivals io s) →
  let r := accept_all (round_arrivals io s) se in
  Z.of_nat (length r.2) ≤ ME_MAX_PENDING_REQUESTS →
  queue_room MEClientRequest_default (seq_incoming_requests_ (fifo_sequencer_ s)) (length r.2 + n) vs →
  Forall (addressed se) rs → Z.of_nat (50 * length rs) ≤ TCPBufferSize →
  wp (server_round io) s (λ _ s', server_ready listener s' r.1 (numbers_after rs next) [] ∧
    queue_room MEClientRequest_default (seq_incoming_requests_ (fifo_sequencer_ s')) n
      (vs ++ (request_ <$> std_sort (stamp <$> r.2))) ∧
    receive_sockets_ s' = receive_sockets_ s ∧
    ∀ k sk, k ∈ receive_sockets_ s → tcp_sockets_ s !! k = Some sk →
      tcp_sockets_ s' !! k = Some (set_outbound
        (concat (wire_enc <$> stream (se_socket r.1) k (number rs next))) (after_visit io k sk))).
Proof.
  intros Hs Hcl r Hroom Hq Hrs Hcap. unfold server_round.
  apply wp_bind. eapply wp_mono; [by eapply tcp_server_sendAndRecv_ok|].
  intros [] s1 (Hs1 & Hq1 & Ev1 & Hsk1). fold r in Hs1, Hq1. destruct Hs1 as [Hcn Hun Hlis Hse Hh Hnx Hbd [Hwf Hc]].
  assert (Forall (addressed r.1) rs) as Had.
  { eapply Forall_impl; [exact Hrs|]. intros x [? [k Hk]]. split; [done|]. exists k. by apply accept_all_bound. }
  assert (Forall (deliverable s1) rs) as Hd.
  { eapply Forall_impl; [exact Had|]. intros x [Hx [k Hk]]. split; [done|]. exists k.
    rewrite (socket_of_session _ _ _ Hse) by done. split; [done|]. apply (cn_sockets _ _ Hcn). right. eauto. }
  assert (map_Forall (λ _ sk, Z.of_nat (length (outbound_data_ sk) + 50 * length rs) ≤ TCPBufferSize)
    (tcp_sockets_ s1)) as Hcap1.
  { intros k sk Hk. assert (outbound_data_ sk = []) as ->; [|simpl; lia].
    assert (k ∈ listener :: receive_sockets_ s1) as [->|Hin]%elem_of_cons
      by (apply (cn_sockets _ _ Hcn); eauto); [by apply Hlis|].
    rewrite Ev1 in Hin. assert (is_Some (tcp_sockets_ s !! k)) as [sk0 Hk0].
    { apply (cn_sockets _ _ (sr_connected _ _ _ _ _ Hs)). by right. }
    rewrite (Hsk1 k sk0 Hin Hk0) in Hk. by injection Hk as <-. }
  apply wp_bind, wp_gets. rewrite Hc. eapply wp_mono.
  { apply (send_responses_ok rs (S (length rs)) s1 next); try done. lia. }
  intros [] s2 ([Hwf2 Hc2 Hb2 Hx2 Hf2 [Hv2 Hw2] Hdead Hst] & Hn2).
  assert (∀ k sk, tcp_sockets_ s1 !! k = Some sk → outbound_data_ sk = [] →
    tcp_sockets_ s2 !! k = Some (set_outbound
      (concat (wire_enc <$> stream (se_socket r.1) k (number rs next))) sk)) as Hst2.
  { intros k sk Hk Ho. rewrite (Hst k sk Hk), Ho, (stream_ext _ (se_socket r.1)); [done|].
    eapply Forall_impl; [exact Had|]. intros x [Hx _]. by apply socket_of_session. }
  rewrite Hf2, Hv2, Ev1. split_and!; [|done|done|]; cycle 1.
  { intros k sk Hk Hsk. by apply Hst2; [apply Hsk1|]. }
  assert (∀ k, is_Some (tcp_sockets_ s2 !! k) ↔ is_Some (tcp_sockets_ s1 !! k)) as Hdom.
  { intros k. destruct (tcp_sockets_ s1 !! k) as [sk|] eqn:E.
    - rewrite (Hst k sk E). naive_solver.
    - by rewrite Hdead. }
  split; rewrite ?Hf2; try done.
  - split; rewrite ?Hv2, ?Hw2; [apply Hcn|apply Hcn|]. intros k. rewrite Hdom. apply Hcn.
  - rewrite Hv2. eapply Forall_impl; [exact Hun|]. intros k (sk & Hk & Hl). eexists. by rewrite (Hst k sk Hk).
  - intros sk Hk. assert (is_Some (tcp_sockets_ s1 !! listener)) as [sk1 Hk1] by (apply Hdom; eauto).
    rewrite (Hst _ _ Hk1) in Hk. injection Hk as <-. cbn. rewrite (Hlis _ Hk1). cbn.
    rewrite stream_none; [done|]. eapply Forall_impl; [exact Had|]. intros x [Hx _].
    rewrite (socket_of_session _ _ _ Hse) by done. intros Hk%Hbd. by apply (NoDup_cons_1_1 _ _ (cn_nodup _ _ Hcn)).
  - by destruct Hse; split; rewrite ?Hb2, ?Hx2.
  - rewrite Hv2. apply Hbd.
Qed.
End round.
