(* ===== verification/Threads.v ===== *)
(** Common/thread_utils.h and the functions that start and stop the threads of the components.

    A [std::thread] is the one thing its owner can observe of it: whether it is joinable.  Destroying a
    joinable thread, or assigning to it, calls [std::terminate].  [setThreadCore] is what the attempt to
    pin a thread to a core returns; [createAndStartThread] sleeps for a second, during which a thread
    that could not be pinned has ended the process.  The bodies of the threads are the rounds modelled in
    the other files. *)
From S2P Require Export TCPServer.

Record thread : Type := MkThread { joinable : bool }.
(** [~thread]. *)
Definition thread_destroy {S} (t : thread) : M S unit :=
  if joinable t then raise Terminate else mret tt.
(** [join]: throws, here in a [noexcept] destructor, if the thread is not joinable. *)
Definition thread_join {S} (t : thread) : M S thread :=
  if joinable t then mret (MkThread false) else raise Terminate.
(** [~unique_ptr]. *)
Definition unique_ptr_destroy {S} (p : option thread) : M S unit :=
  match p with Some t => thread_destroy t | None => mret tt end.

Section threads.
Context (setThreadCore : Z → bool).

Definition createAndStartThread {S} (core_id : Z) : M S (option thread) :=
  if (0 <=? core_id) && negb (setThreadCore core_id) then raise Exit
  else mret (Some (MkThread true)).

(** ** Threads nobody keeps
    [ASSERT(createAndStartThread(...) != nullptr, ...)]: the pointer is a temporary, destroyed when the
    check is done. *)
Definition start_thread {S} : M S unit :=
  t ← createAndStartThread (-1);
  _ ← ASSERT (bool_decide (is_Some t));
  unique_ptr_destroy t.

(** [start] of [MatchingEngine], [SnapshotSynthesizer], [TradeEngine] and [MarketDataConsumer]; the state
    is the flag [run_]. *)
Definition start : M bool unit :=
  _ ← modify (λ _, true);
  start_thread.
Definition stop : M bool unit := modify (λ _, false).
(** [MarketDataPublisher::start] and [stop]; the second flag is the snapshot synthesizer's. *)
Definition MarketDataPublisher_start : M (bool * bool) unit :=
  _ ← modify (λ s, (true, s.2));
  _ ← start_thread;
  zoom snd (λ run s, (s.1, run)) start.
Definition MarketDataPublisher_stop : M (bool * bool) unit :=
  _ ← modify (λ s, (false, s.2));
  zoom snd (λ run s, (s.1, run)) stop.

Section system.
Context (kernel : trace → syscall → Z).
Context (getifaddrs : option (list ifaddr)).
Context (getaddrinfo : string → string → addrinfo_hints → option (list addrinfo)).

Definition OrderServer_start (iface : string) (port : Z) : M (bool * trace) unit :=
  _ ← modify (λ s, (true, s.2));
  _ ← zoom snd (λ tr s, (s.1, tr)) (listen kernel getifaddrs getaddrinfo iface port);
  start_thread.
Definition OrderGateway_start (ip iface : string) (port : Z) : M (bool * trace) unit :=
  _ ← modify (λ s, (true, s.2));
  fd ← zoom snd (λ tr s, (s.1, tr)) (tcp_connect kernel getifaddrs getaddrinfo ip iface port false);
  _ ← ASSERT (0 <=? fd);
  start_thread.
End system.

(** ** Threads that are kept *)
(** [Logger::Logger] and [~Logger]: the flag [running_] and [logger_thread_].  The destructor waits until
    the queue is empty; here it is. *)
Record LoggerThread : Type := MkLoggerThread {
  lt_running_ : bool;
  logger_thread_ : option thread;
}.
Definition Logger_open (file_opens : bool) : M LoggerThread unit :=
  _ ← ASSERT file_opens;
  t ← createAndStartThread (-1);
  old ← gets logger_thread_;
  _ ← modify (λ s, MkLoggerThread (lt_running_ s) t);
  _ ← unique_ptr_destroy old;
  ASSERT (bool_decide (is_Some t)).
Definition Logger_close : M LoggerThread unit :=
  _ ← modify (λ s, MkLoggerThread false (logger_thread_ s));
  p ← gets logger_thread_;
  t ← deref p;
  t ← thread_join t;
  _ ← modify (λ s, MkLoggerThread (lt_running_ s) (Some t));
  unique_ptr_destroy (Some t).

(** [PerformanceDashboard::start] and [stop]: [running_] and [reporter_thread_]. *)
Record Reporter : Type := MkReporter { rp_running_ : bool; reporter_thread_ : thread }.
Definition Reporter_new : Reporter := MkReporter false (MkThread false).
Definition dashboard_start : M Reporter unit :=
  _ ← modify (λ s, MkReporter true (reporter_thread_ s));
  old ← gets reporter_thread_;
  _ ← thread_destroy old;
  modify (λ s, MkReporter (rp_running_ s) (MkThread true)).
Definition dashboard_stop : M Reporter unit :=
  _ ← modify (λ s, MkReporter false (reporter_thread_ s));
  t ← gets reporter_thread_;
  if joinable t then t ← thread_join t; modify (λ s, MkReporter (rp_running_ s) t)
  else mret tt.

Lemma start_thread_terminates {S} (s : S) : start_thread s = Err Terminate.
Proof. done. Qed.
Lemma wlp_no_thread {S A} (m : M S A) (k : A → M S unit) s :
  (∀ a s', k a s' = Err Terminate ∨ k a s' = Err Exit) →
  wlp (m ≫= k) s (λ _ _, False).
Proof.
  intros Hk. apply wlp_bind. intros a s' _ b s'' E. by destruct (Hk a s') as [E'|E']; rewrite E' in E.
Qed.

(** No component survives its start.  [createAndStartThread] returns the thread in a [unique_ptr],
    every [start] compares it with null and drops it, and the destructor of the running thread calls
    [std::terminate]; the order server and the gateway may exit before that if their socket cannot be set
    up. *)
Theorem start_never_returns kernel getifaddrs getaddrinfo :
  (∀ run, start run = Err Terminate) ∧
  (∀ run, MarketDataPublisher_start run = Err Terminate) ∧
  (∀ iface port st, wlp (OrderServer_start kernel getifaddrs getaddrinfo iface port) st (λ _ _, False)) ∧
  (∀ ip iface port st,
    wlp (OrderGateway_start kernel getifaddrs getaddrinfo ip iface port) st (λ _ _, False)).
Proof.
  split_and!; [done|done| |].
  - intros iface port st. apply wlp_bind. intros _ s1 _.
    apply wlp_no_thread. intros a s'. by left.
  - intros ip iface port st. apply wlp_bind. intros _ s1 _. apply wlp_no_thread. intros fd s'.
    destruct (0 <=? fd) eqn:E; [by left|by right].
Qed.

(** The threads that are kept are stopped properly.  A logger whose file opens starts one thread and
    its destructor joins it; the dashboard can be started and stopped again and again, [stop] does
    nothing to a dashboard that does not run, and a second [start] without a [stop] ends the process. *)
Theorem kept_threads_joined (lt : LoggerThread) (r : Reporter) :
  logger_thread_ lt = None → joinable (reporter_thread_ r) = false →
  (_ ← Logger_open true; Logger_close) lt = Ok (tt, MkLoggerThread false (Some (MkThread false))) ∧
  (_ ← dashboard_start; dashboard_stop) r = Ok (tt, Reporter_new) ∧
  dashboard_stop r = Ok (tt, MkReporter false (reporter_thread_ r)) ∧
  (_ ← dashboard_start; dashboard_start) r = Err Terminate.
Proof.
  intros Hlt Hr. destruct lt as [run p], r as [run' [j]]. simpl in *. subst. done.
Qed.
End threads.

Lemma kept_threads_joined_witness :
  (_ ← Logger_open (λ _, true) true; Logger_close) (MkLoggerThread true None) =
    Ok (tt, MkLoggerThread false (Some (MkThread false))).
Proof. apply (kept_threads_joined (λ _, true) (MkLoggerThread true None) Reporter_new); reflexivity. Defined.
