(* ===== verification/Feed.v ===== *)
(** The market data feed: what a sequence of market updates says.

    A feed state maps an instrument and an order id to the update that describes the live
    order.  [apply_update] is the specification shared by the two sides of the feed: the
    snapshot synthesizer of the exchange keeps such a state, a snapshot cycle is the
    enumeration of one, and the consumer of the trading client rebuilds one. *)
From S2P Require Export Messages.

Abbreviation feed := (gmap (Z * Z) MEMarketUpdate).
Definition upd_key (u : MEMarketUpdate) : Z * Z := (upd_ticker_id_ u, upd_order_id_ u).
(** The order [o] after a MODIFY with the quantity and the price of [u]. *)
Definition modified (u o : MEMarketUpdate) : MEMarketUpdate :=
  MkMEMarketUpdate (upd_type_ o) (upd_order_id_ o) (upd_ticker_id_ o) (upd_side_ o)
    (upd_price_ u) (upd_qty_ u) (upd_priority_ o).
Definition clear_ticker (t : Z) (f : feed) : feed := filter (λ kv, kv.1.1 ≠ t) f.

Definition apply_update (u : MEMarketUpdate) (f : feed) : feed :=
  match upd_type_ u with
  | MarketUpdateType_ADD => <[upd_key u := u]> f
  | MarketUpdateType_MODIFY => alter (modified u) (upd_key u) f
  | MarketUpdateType_CANCEL => delete (upd_key u) f
  | MarketUpdateType_CLEAR => clear_ticker (upd_ticker_id_ u) f
  | _ => f
  end.
Definition apply_all (us : list MEMarketUpdate) (f : feed) : feed :=
  foldl (λ f u, apply_update u f) f us.

Lemma apply_all_cons u us f : apply_all (u :: us) f = apply_all us (apply_update u f).
Proof. done. Qed.
Lemma apply_all_app us1 us2 f : apply_all (us1 ++ us2) f = apply_all us2 (apply_all us1 f).
Proof. apply foldl_app. Qed.

(** Every entry is the ADD of the order it describes, within the bounds of the tables. *)
Definition key_ok (k : Z * Z) : Prop :=
  0 ≤ k.1 < ME_MAX_TICKERS ∧ 0 ≤ k.2 < ME_MAX_ORDER_IDS.
Definition feed_ok (f : feed) : Prop :=
  map_Forall (λ k u, upd_type_ u = MarketUpdateType_ADD ∧ upd_key u = k ∧ key_ok k) f.
(** The updates an exchange sends for a feed in state [f]: no ADD for a live order, no
    MODIFY or CANCEL of one that is not live or is on the other side. *)
Definition update_ok (u : MEMarketUpdate) (f : feed) : Prop :=
  0 ≤ upd_ticker_id_ u < ME_MAX_TICKERS ∧
  match upd_type_ u with
  | MarketUpdateType_ADD => key_ok (upd_key u) ∧ f !! upd_key u = None
  | MarketUpdateType_MODIFY | MarketUpdateType_CANCEL =>
    ∃ o, f !! upd_key u = Some o ∧ upd_side_ o = upd_side_ u
  | MarketUpdateType_CLEAR => False
  | _ => True
  end.

Lemma lookup_clear t f k : clear_ticker t f !! k = if decide (k.1 = t) then None else f !! k.
Proof.
  unfold clear_ticker. case_decide as E.
  - apply map_lookup_filter_None. right. intros u _ ?. done.
  - destruct (f !! k) as [u|] eqn:Ef.
    + by apply map_lookup_filter_Some.
    + apply map_lookup_filter_None. by left.
Qed.
Lemma feed_ok_empty : feed_ok ∅.
Proof. apply map_Forall_empty. Qed.
Lemma feed_ok_update u f : feed_ok f → update_ok u f → feed_ok (apply_update u f).
Proof.
  intros Hf [_ Hu] k o. unfold apply_update. destruct (upd_type_ u) eqn:Ht; try apply Hf; try done.
  - intros [[<- <-]|[_ Hk]]%lookup_insert_Some; [|by apply Hf]. by destruct Hu.
  - intros [[<- (o' & Ho & ->)]|[_ Hk]]%lookup_alter_Some; [exact (Hf _ _ Ho)|by apply Hf].
  - intros [_ Hk]%lookup_delete_Some. by apply Hf.
Qed.

(** ** Snapshots *)
(** The live orders of instrument [t] with ids [oids], in this order. *)
Definition live_orders (f : feed) (t : Z) (oids : list Z) : list MEMarketUpdate :=
  omap (λ oid, f !! (t, oid)) oids.
Definition clear_message (t : Z) : MEMarketUpdate :=
  MkMEMarketUpdate MarketUpdateType_CLEAR OrderId_INVALID t Side_INVALID Price_INVALID
    Qty_INVALID Priority_INVALID.
(** Every slot of a table indexed by order id; a million elements, never evaluated in a proof. *)
Definition all_oids : list Z := seqZ 0 ME_MAX_ORDER_IDS.
Lemma elem_of_all_oids oid : oid ∈ all_oids ↔ 0 ≤ oid < ME_MAX_ORDER_IDS.
Proof. apply elem_of_seqZ. Qed.
Lemma NoDup_all_oids : NoDup all_oids.
Proof. apply NoDup_seqZ. Qed.
Lemma length_all_oids : Z.of_nat (length all_oids) = ME_MAX_ORDER_IDS.
Proof. unfold all_oids. rewrite length_seqZ. apply Z2Nat.id. by compute. Qed.
#[global] Opaque all_oids.
Definition ticker_events (f : feed) (t : Z) : list MEMarketUpdate :=
  clear_message t :: live_orders f t all_oids.
#[global] Arguments ticker_events : simpl never.
(** For each instrument a CLEAR and then its live orders in ascending id. *)
Definition snapshot_events (f : feed) : list MEMarketUpdate :=
  concat (ticker_events f <$> seqZ 0 ME_MAX_TICKERS).
Definition bracket (type : MarketUpdateType) (last_seq : Z) : MEMarketUpdate :=
  MkMEMarketUpdate type last_seq TickerId_INVALID Side_INVALID Price_INVALID Qty_INVALID
    Priority_INVALID.
(** The cycle published for the feed [f] reached by the first [last_seq] updates. *)
Definition cycle (last_seq : Z) (f : feed) : list MEMarketUpdate :=
  [bracket MarketUpdateType_SNAPSHOT_START last_seq] ++ snapshot_events f ++
  [bracket MarketUpdateType_SNAPSHOT_END last_seq].
(** Messages numbered from [n]. *)
Definition numbered (n : Z) (us : list MEMarketUpdate) : list MDPMarketUpdate :=
  zip_with MkMDPMarketUpdate (seqZ n (Z.of_nat (length us))) us.

Lemma numbered_cons n u us : numbered n (u :: us) = MkMDPMarketUpdate n u :: numbered (n + 1) us.
Proof.
  unfold numbered. cbn [length]. rewrite Nat2Z.inj_succ, seqZ_cons by lia.
  by rewrite Z.pred_succ, <- Z.add_1_r.
Qed.
Lemma numbered_app n us1 us2 :
  numbered n (us1 ++ us2) = numbered n us1 ++ numbered (n + Z.of_nat (length us1)) us2.
Proof.
  revert n. induction us1 as [|u us1 IH]; intros n; simpl; [by rewrite Z.add_0_r|].
  rewrite !numbered_cons, IH. simpl. do 3 f_equal. lia.
Qed.

Lemma apply_live_orders f t oids g k :
  feed_ok f → NoDup oids →
  apply_all (live_orders f t oids) g !! k =
    if decide (k.1 = t ∧ k.2 ∈ oids ∧ is_Some (f !! k)) then f !! k else g !! k.
Proof.
  intros Hf. revert g. induction oids as [|oid oids IH]; intros g Hnd; csimpl.
  { rewrite decide_False; [done|]. intros (_ & H & _). by apply not_elem_of_nil in H. }
  apply NoDup_cons in Hnd as [Hnin Hnd].
  destruct (f !! (t, oid)) as [u|] eqn:Eu; csimpl; rewrite IH by done.
  - destruct (Hf _ _ Eu) as (Hty & Hkey & _).
    assert (apply_update u g = <[(t, oid) := u]> g) as -> by (unfold apply_update; by rewrite Hty, Hkey).
    destruct (decide (k = (t, oid))) as [->|Hne].
    + rewrite decide_False by (simpl; tauto). rewrite decide_True by (rewrite Eu; simpl; set_solver).
      by rewrite lookup_insert_eq.
    + rewrite lookup_insert_ne by done. apply decide_ext. destruct k as [t' oid']. simpl in *.
      rewrite elem_of_cons. split; intros (? & ? & ?); split_and!; try done; [tauto|].
      destruct_or?; [congruence|done].
  - apply decide_ext. destruct k as [t' oid']. simpl. rewrite elem_of_cons.
    split; intros (? & ? & Hs); split_and!; try done; [tauto|].
    destruct_or?; [|done]. subst. rewrite Eu in Hs. by destruct Hs.
Qed.

Lemma apply_ticker_events f t g k :
  feed_ok f → apply_all (ticker_events f t) g !! k = if decide (k.1 = t) then f !! k else g !! k.
Proof.
  intros Hf. unfold ticker_events. rewrite apply_all_cons.
  rewrite apply_live_orders by (done || apply NoDup_all_oids). unfold apply_update. cbn [clear_message upd_type_ upd_ticker_id_].
  rewrite lookup_clear. destruct (decide (k.1 = t)) as [Ht|Ht].
  - case_decide as Hd; [done|]. destruct (f !! k) as [u|] eqn:Eu; [|done].
    exfalso. apply Hd. destruct (Hf _ _ Eu) as (_ & _ & _ & Hk). split_and!; [done| |by eexists].
    by apply elem_of_all_oids.
  - by rewrite decide_False by tauto.
Qed.

Lemma apply_tickers f ts g k :
  feed_ok f → apply_all (concat (ticker_events f <$> ts)) g !! k =
    if decide (k.1 ∈ ts) then f !! k else g !! k.
Proof.
  intros Hf. revert g. induction ts as [|t ts IH]; intros g.
  { done. }
  rewrite fmap_cons. cbn [concat]. rewrite apply_all_app, IH, apply_ticker_events by done.
  repeat case_decide; try done; set_solver.
Qed.

(** A snapshot replaces whatever was known before by the feed it was taken of. *)
Lemma apply_snapshot f g :
  feed_ok f → map_Forall (λ k _, 0 ≤ k.1 < ME_MAX_TICKERS) g → apply_all (snapshot_events f) g = f.
Proof.
  intros Hf Hg. apply map_eq. intros k. unfold snapshot_events. rewrite apply_tickers by done.
  case_decide as Hk; [done|]. rewrite elem_of_seqZ in Hk.
  destruct (g !! k) as [u|] eqn:Eg; [specialize (Hg _ _ Eg); simpl in Hg; lia|].
  destruct (f !! k) as [u|] eqn:Ef; [|done]. destruct (Hf _ _ Ef) as (_ & _ & ? & _). lia.
Qed.

(** The brackets of a cycle say nothing. *)
Lemma apply_cycle n f g : apply_all (cycle n f) g = apply_all (snapshot_events f) g.
Proof.
  unfold cycle. generalize (snapshot_events f). intros us. by rewrite !apply_all_app.
Qed.
Lemma numbered_cycle n f :
  numbered 0 (cycle n f) =
    [MkMDPMarketUpdate 0 (bracket MarketUpdateType_SNAPSHOT_START n)] ++ numbered 1 (snapshot_events f) ++
    [MkMDPMarketUpdate (1 + Z.of_nat (length (snapshot_events f))) (bracket MarketUpdateType_SNAPSHOT_END n)].
Proof.
  unfold cycle. generalize (snapshot_events f). intros us. rewrite numbered_app. f_equal.
  cbn [length]. replace (0 + Z.of_nat 1) with 1 by lia. rewrite numbered_app. done.
Qed.

(** ** Small feeds *)
Lemma live_orders_none f t oids : (∀ oid, f !! (t, oid) = None) → live_orders f t oids = [].
Proof. intros Hf. induction oids as [|oid oids IH]; [done|]. unfold live_orders in *. csimpl. by rewrite Hf. Qed.
Lemma live_orders_singleton t oid u oids :
  NoDup oids → oid ∈ oids → live_orders {[(t, oid) := u]} t oids = [u].
Proof.
  induction 1 as [|oid' oids Hnin _ IH]; [by intros ?%not_elem_of_nil|].
  unfold live_orders in *. csimpl. intros [<-|Hin]%elem_of_cons.
  - rewrite lookup_singleton_eq. f_equal. clear IH. induction oids as [|o oids IH]; [done|]. csimpl.
    rewrite not_elem_of_cons in Hnin. rewrite lookup_singleton_ne by naive_solver. apply IH. tauto.
  - rewrite lookup_singleton_ne by (intros E; by simplify_eq). by apply IH.
Qed.
Lemma cycle_empty n :
  cycle n ∅ = [bracket MarketUpdateType_SNAPSHOT_START n] ++ (clear_message <$> seqZ 0 ME_MAX_TICKERS) ++
    [bracket MarketUpdateType_SNAPSHOT_END n].
Proof.
  assert (∀ ts, concat (ticker_events ∅ <$> ts) = clear_message <$> ts) as H.
  { induction ts as [|t ts IH]; [done|]. rewrite !fmap_cons. cbn [concat]. rewrite IH.
    unfold ticker_events. by rewrite live_orders_none. }
  unfold cycle, snapshot_events. by rewrite H.
Qed.

(** A cycle is short enough for its numbers not to wrap, and only its last message is an END. *)
Lemma length_omap {A B} (g : A → option B) l : (length (omap g l) ≤ length l)%nat.
Proof. induction l as [|a l IH]; csimpl; [done|]. destruct (g a); simpl; lia. Qed.
Lemma length_cycle n f : Z.of_nat (length (cycle n f)) ≤ 2 ^ 24.
Proof.
  unfold cycle. rewrite !length_app. unfold snapshot_events.
  assert (∀ ts, Z.of_nat (length (concat (ticker_events f <$> ts)))
    ≤ Z.of_nat (length ts) * (1 + ME_MAX_ORDER_IDS)) as H.
  { induction ts as [|t ts IH]; [done|]. rewrite fmap_cons. cbn [concat length]. rewrite length_app.
    assert (length (ticker_events f t) = S (length (live_orders f t all_oids))) as -> by done.
    pose proof (length_omap (λ oid, f !! (t, oid)) all_oids) as Hl. fold (live_orders f t all_oids) in Hl.
    rewrite <- length_all_oids in *. lia. }
  specialize (H (seqZ 0 ME_MAX_TICKERS)). rewrite length_seqZ in H. cbn [length].
  unfold ME_MAX_TICKERS, ME_MAX_ORDER_IDS in *. lia.
Qed.
Lemma length_cycle_S n f : ∃ l, length (cycle n f) = S l.
Proof. unfold cycle. generalize (snapshot_events f). intros us. by eexists. Qed.
Lemma snapshot_events_type f u :
  feed_ok f → u ∈ snapshot_events f → upd_type_ u = MarketUpdateType_CLEAR ∨ upd_type_ u = MarketUpdateType_ADD.
Proof.
  intros Hf Hu. unfold snapshot_events in Hu. apply list_elem_of_In, in_concat in Hu as (l & Hl & Hu).
  apply list_elem_of_In, list_elem_of_fmap in Hl as (t & -> & _). apply list_elem_of_In in Hu.
  unfold ticker_events in Hu. apply elem_of_cons in Hu as [->|Hu]; [by left|right].
  apply list_elem_of_omap in Hu as (oid & _ & Hu). by destruct (Hf _ _ Hu).
Qed.
Lemma cycle_end n f i u :
  feed_ok f → cycle n f !! i = Some u → upd_type_ u = MarketUpdateType_SNAPSHOT_END →
  S i = length (cycle n f) ∧ u = bracket MarketUpdateType_SNAPSHOT_END n.
Proof.
  intros Hf Hi Hu. unfold cycle in *. revert Hi. rewrite !length_app.
  generalize (snapshot_events_type f u Hf). generalize (snapshot_events f). intros us Hus Hi.
  destruct i as [|i]; simpl in Hi; [by simplify_eq|].
  apply lookup_app_Some in Hi as [Hi|[Hl Hi]].
  - apply list_elem_of_lookup_2, Hus in Hi. destruct Hi; congruence.
  - apply list_lookup_singleton_Some in Hi as [Hi <-]. split; [simpl; lia|done].
Qed.
