(* ===== verification/EngineFeed.v ===== *)
(** The market updates of the engine describe its books.

    [shows t f rs]: the part of the feed [f] for instrument [t] is the orders [rs].  Every update an
    order book sends is one the feed accepts, and after the updates of a request the feed shows
    the book after it, so the feed of everything the engine has published shows all its books. *)
From S2P Require Export MatchingEngine Feed.

(** The ADD that describes a resting order. *)
Definition order_entry (t : Z) (r : resting) : MEMarketUpdate :=
  MkMEMarketUpdate MarketUpdateType_ADD (r_market_order_id r) t (r_side r) (r_price r) (r_qty r)
    (r_priority r).
Definition shows (t : Z) (f : feed) (rs : list resting) : Prop :=
  ∀ oid u, f !! (t, oid) = Some u ↔ ∃ r, r ∈ rs ∧ r_market_order_id r = oid ∧ u = order_entry t r.
#[export] Instance shows_perm t f : Proper ((≡ₚ) ==> iff) (shows t f).
Proof. intros rs rs' E. unfold shows. by setoid_rewrite E. Qed.

(** Resting orders with different keys and different market order ids below [n]. *)
Record listed (n : Z) (rs : list resting) : Prop := {
  listed_keys : NoDup (r_key <$> rs);
  listed_ids : NoDup (r_market_order_id <$> rs);
  listed_range : Forall (λ r, 0 ≤ r_market_order_id r < n) rs;
}.
#[export] Instance listed_perm n : Proper ((≡ₚ) ==> iff) (listed n).
Proof.
  assert (∀ rs rs', rs ≡ₚ rs' → listed n rs → listed n rs') as H.
  { intros rs rs' E [H1 H2 H3]. split; by rewrite <- E. }
  intros rs rs' E. split; by apply H.
Qed.
Lemma listed_cons n r rs :
  listed n (r :: rs) → listed n rs ∧ (∀ r', r' ∈ rs → r_market_order_id r' ≠ r_market_order_id r) ∧
    (∀ r', r' ∈ rs → r_key r' ≠ r_key r) ∧ 0 ≤ r_market_order_id r < n.
Proof.
  intros [[Hk ?]%NoDup_cons [Hi ?]%NoDup_cons [? ?]%Forall_cons]. split_and!; [done| | |lia|lia].
  - intros r' Hr' E. apply Hi. rewrite <- E. by apply list_elem_of_fmap_2.
  - intros r' Hr' E. apply Hk. rewrite <- E. by apply list_elem_of_fmap_2.
Qed.
Lemma listed_mono n n' rs : n ≤ n' → listed n rs → listed n' rs.
Proof. intros Hn [? ? H]. split; try done. eapply Forall_impl; [exact H|]. simpl. lia. Qed.
Lemma listed_new n r rs :
  listed n rs → 0 ≤ n → r_market_order_id r = n → (∀ r', r' ∈ rs → r_key r' ≠ r_key r) →
  listed (n + 1) (r :: rs).
Proof.
  intros [Hk Hi Hr] Hn Hid Hf. rewrite Forall_forall in Hr. split.
  - simpl. apply NoDup_cons. split; [|done]. intros (r' & E & Hr')%list_elem_of_fmap. by apply (Hf r').
  - simpl. apply NoDup_cons. split; [|done]. intros (r' & E & Hr')%list_elem_of_fmap.
    specialize (Hr r' Hr'). simpl in Hr. lia.
  - constructor; [lia|]. apply Forall_forall. intros r' Hr'. specialize (Hr r' Hr'). simpl in Hr. lia.
Qed.

(** ** One update *)
Lemma shows_add t f r rs :
  shows t f rs → (∀ r', r' ∈ rs → r_market_order_id r' ≠ r_market_order_id r) →
  shows t (apply_update (order_entry t r) f) (r :: rs).
Proof.
  intros H Hid oid u. unfold apply_update. simpl. unfold upd_key. simpl. rewrite lookup_insert_Some.
  setoid_rewrite elem_of_cons. rewrite (H oid u). split.
  - intros [[[= <-] <-]|[Hne (r' & ? & ? & ?)]]; eauto 10.
  - intros (r' & [->|Hr'] & Hid' & ->); [left; by subst|right].
    split; [|eauto]. intros [= E]. apply (Hid r' Hr'). congruence.
Qed.
Lemma shows_cancel t f n r rs u :
  shows t f (r :: rs) → listed n (r :: rs) → upd_type_ u = MarketUpdateType_CANCEL →
  upd_key u = (t, r_market_order_id r) → shows t (apply_update u f) rs.
Proof.
  intros H (_ & Hid & _)%listed_cons Ht Hk oid u'. unfold apply_update. rewrite Ht, Hk.
  rewrite lookup_delete_Some, (H oid u'). setoid_rewrite elem_of_cons. split.
  - intros (Hne & r' & [->|Hr'] & <- & ->); [done|]. eauto.
  - intros (r' & Hr' & <- & ->). split; [|eauto]. intros [= E]. by apply (Hid r').
Qed.
Lemma shows_modify t f n r rs q u :
  shows t f (r :: rs) → listed n (r :: rs) → upd_type_ u = MarketUpdateType_MODIFY →
  upd_key u = (t, r_market_order_id r) → upd_price_ u = r_price r → upd_qty_ u = q →
  shows t (apply_update u f) (set_r_qty q r :: rs).
Proof.
  intros H (_ & Hid & _)%listed_cons Ht Hk Hp Hq oid u'. unfold apply_update. rewrite Ht, Hk.
  setoid_rewrite elem_of_cons.
  assert (f !! (t, r_market_order_id r) = Some (order_entry t r)) as Hr.
  { apply H. exists r. split_and!; [left|done..]. }
  destruct (decide (oid = r_market_order_id r)) as [->|Hne].
  - rewrite lookup_alter_eq, Hr. simpl. unfold modified. simpl. rewrite Hp, Hq. split.
    + intros [= <-]. exists (set_r_qty q r). auto.
    + intros (r' & [->|Hr'] & E & ->); [done|]. by destruct (Hid r' Hr').
  - rewrite lookup_alter_ne by congruence. rewrite (H oid u'). setoid_rewrite elem_of_cons.
    split; intros (r' & [->|Hr'] & E & ->); simpl in *; naive_solver.
Qed.
Lemma shows_other t f rs u :
  shows t f rs → upd_type_ u = MarketUpdateType_TRADE ∨
    (upd_ticker_id_ u ≠ t ∧ upd_type_ u ≠ MarketUpdateType_CLEAR) → shows t (apply_update u f) rs.
Proof.
  intros H Hu oid u'. rewrite <- (H oid u'). f_equiv. unfold apply_update.
  destruct Hu as [->|[Hne Hc]]; [done|]. assert (upd_key u ≠ (t, oid)) by (unfold upd_key; congruence).
  destruct (upd_type_ u); try done;
    by rewrite ?lookup_insert_ne, ?lookup_alter_ne, ?lookup_delete_ne.
Qed.

(** ** Sequences of updates *)
Fixpoint updates_ok (us : list MEMarketUpdate) (f : feed) : Prop :=
  match us with
  | [] => True
  | u :: us => update_ok u f ∧ updates_ok us (apply_update u f)
  end.
Lemma updates_ok_app us1 us2 f :
  updates_ok (us1 ++ us2) f ↔ updates_ok us1 f ∧ updates_ok us2 (apply_all us1 f).
Proof.
  revert f. induction us1 as [|u us1 IH]; intros f; simpl; [tauto|]. rewrite IH. tauto.
Qed.

(** ** The fills of a sweep *)
Lemma set_r_qty_listed n r q rs : listed n (set_r_qty q r :: rs) ↔ listed n (r :: rs).
Proof.
  split; intros [H1 H2 [H3 ?]%Forall_cons]; (split; [exact H1|exact H2|apply Forall_cons; split; [exact H3|done]]).
Qed.
Lemma shows_entry t f r rs : shows t f (r :: rs) → f !! (t, r_market_order_id r) = Some (order_entry t r).
Proof. intros H. apply H. exists r. split_and!; [left|done..]. Qed.
(** The two updates of a fill of the first of the orders. *)
Lemma fill_shows tk f n r rs leaves :
  0 ≤ t_ticker_id tk < ME_MAX_TICKERS → 0 < leaves →
  shows (t_ticker_id tk) f (r :: rs) → listed n (r :: rs) →
  let us := fill_updates tk (MkFill r leaves) in
  updates_ok us f ∧
  shows (t_ticker_id tk) (apply_all us f)
    (if r_qty r <=? leaves then rs else set_r_qty (r_qty r - leaves) r :: rs).
Proof.
  intros Ht Hl H Hn us. unfold us, fill_updates, f_qty. simpl. set (trade := MkMEMarketUpdate MarketUpdateType_TRADE _ _ _ _ _ _).
  assert (apply_update trade f = f) as Htrade by done. rewrite Htrade.
  pose proof (shows_entry _ _ _ _ H) as Hr.
  assert (∀ u, upd_key u = (t_ticker_id tk, r_market_order_id r) → upd_side_ u = r_side r →
    (upd_type_ u = MarketUpdateType_MODIFY ∨ upd_type_ u = MarketUpdateType_CANCEL) → update_ok u f) as Hok.
  { intros u Hk Hs Hu. unfold update_ok. rewrite Hk.
    split; [by injection Hk as -> _|].
    destruct Hu as [-> | ->]; by exists (order_entry (t_ticker_id tk) r). }
  bdestruct (r_qty r <=? leaves).
  - rewrite Z.min_r, (proj2 (Z.eqb_eq _ _)) by lia.
    split; [|by eapply shows_cancel]. split; [done|]. split; [apply Hok; auto|done].
  - rewrite Z.min_l, (proj2 (Z.eqb_neq _ _)) by lia.
    split; [|by eapply shows_modify]. split; [done|]. split; [apply Hok; auto|done].
Qed.
Lemma taken_shows tk n rs leaves fs rest leaves' others f :
  0 ≤ t_ticker_id tk < ME_MAX_TICKERS → taken rs leaves fs rest leaves' →
  shows (t_ticker_id tk) f (rs ++ others) → listed n (rs ++ others) →
  updates_ok (concat (fill_updates tk <$> fs)) f ∧
  shows (t_ticker_id tk) (apply_all (concat (fill_updates tk <$> fs)) f) (rest ++ others) ∧
  listed n (rest ++ others).
Proof.
  intros Ht H. revert f.
  induction H as [rs leaves|r rs leaves fs rest leaves' Hl Hq Hrest IH|r rs leaves Hl Hq];
    intros f Hf Hn; rewrite ?fmap_cons, ?concat_cons, <- ?app_comm_cons in *; [done| |].
  - destruct (fill_shows tk f n r (rs ++ others) leaves Ht Hl Hf Hn) as [Hok Hs].
    rewrite (proj2 (Z.leb_le _ _)) in Hs by done. apply listed_cons in Hn as (Hn & _).
    rewrite updates_ok_app, apply_all_app. destruct (IH _ Hs Hn) as (? & ? & ?). auto.
  - destruct (fill_shows tk f n r (rs ++ others) leaves Ht Hl Hf Hn) as [Hok Hs].
    rewrite (proj2 (Z.leb_gt _ _)) in Hs by done.
    cbn [fmap list_fmap concat]. rewrite app_nil_r. split_and!; [done|done|]. by apply set_r_qty_listed.
Qed.

(** Updates of another instrument do not concern this one. *)
Definition about (t : Z) (u : MEMarketUpdate) : Prop :=
  upd_ticker_id_ u = t ∧ upd_type_ u ≠ MarketUpdateType_CLEAR.
Lemma shows_others t t' f rs us :
  shows t f rs → t ≠ t' → Forall (about t') us → shows t (apply_all us f) rs.
Proof.
  intros H Hne Hus. revert f H. induction Hus as [|u us [Hu Hc] _ IH]; intros f H; [done|].
  apply IH, shows_other; [done|]. right. split; [congruence|done].
Qed.

(** ** The operations of a book *)
Lemma rest_order_perm s r ls : orders_of (rest_order s r ls) ≡ₚ r :: orders_of ls.
Proof.
  induction ls as [|[px rs] ls IH]; simpl; [done|].
  destruct (px =? r_price r); [|case_decide]; rewrite !orders_of_cons.
  - rewrite <- (app_assoc rs [r]). symmetry. apply Permutation_middle.
  - done.
  - rewrite IH. symmetry. apply Permutation_middle.
Qed.
Lemma cancel_order_orders key ls :
  orders_of (cancel_order key ls) = filter (λ r, r_key r ≠ key) (orders_of ls).
Proof.
  induction ls as [|[px rs] ls IH]; simpl; [done|]. rewrite orders_of_cons, filter_app, <- IH.
  by destruct (filter _ rs).
Qed.
Lemma all_orders_side s k :
  all_orders k ≡ₚ orders_of (s_levels s k) ++ orders_of (s_levels (negb s) k).
Proof. unfold all_orders. destruct s; simpl; [done|]. by rewrite Permutation_app_comm. Qed.
Lemma all_orders_rest s r k :
  all_orders (s_set_levels s (rest_order s r (s_levels s k)) k) ≡ₚ r :: all_orders k.
Proof.
  rewrite !(all_orders_side s), s_levels_set, s_levels_set_other, rest_order_perm. done.
Qed.

Definition book_shown (t : Z) (f : feed) (n : Z) (k : sbook) : Prop :=
  shows t f (all_orders k) ∧ listed n (all_orders k).

Lemma spec_add_shown t qty k f :
  0 ≤ t_ticker_id t < ME_MAX_TICKERS → 0 ≤ t_market_order_id t < ME_MAX_ORDER_IDS → 0 ≤ qty →
  qty_nonneg (s_levels (negb (t_side t)) k) →
  (∀ r, r ∈ all_orders k → r_key r ≠ (t_client_id t, t_client_order_id t)) →
  book_shown (t_ticker_id t) f (t_market_order_id t) k →
  let o := spec_add t qty k in
  updates_ok (out_updates o) f ∧
  book_shown (t_ticker_id t) (apply_all (out_updates o) f) (t_market_order_id t + 1) (out_book o).
Proof.
  intros Ht Hid Hqty Hnn Hfresh [Hf Hn]. unfold spec_add.
  destruct (sweep _ _ _) as [[opp leaves] fs] eqn:Hsw.
  set (n := t_market_order_id t) in *. set (s := negb (t_side t)) in *.
  pose proof (sweep_taken _ _ _ _ _ _ Hnn Hqty Hsw) as Htk.
  rewrite (all_orders_side s) in Hf, Hn.
  destruct (taken_shows t n _ _ _ _ _ _ f Ht Htk Hf Hn) as (Hok & Hf1 & Hn1).
  assert (all_orders (s_set_levels s opp k) ≡ₚ orders_of opp ++ orders_of (s_levels (negb s) k)) as E.
  { by rewrite (all_orders_side s), s_levels_set, s_levels_set_other. }
  rewrite <- E in Hf1, Hn1. set (k1 := s_set_levels s opp k) in *.
  destruct (leaves =? 0); simpl.
  { split; [done|]. split; [done|]. apply (listed_mono n); [lia|done]. }
  set (r := MkResting _ _ _ _ _ _ _).
  assert (∀ r', r' ∈ all_orders k1 → r_market_order_id r' ≠ r_market_order_id r) as Hids.
  { intros r' Hr'. destruct Hn1 as [_ _ Hr]. rewrite Forall_forall in Hr.
    specialize (Hr r' Hr'). simpl in *. lia. }
  rewrite updates_ok_app, apply_all_app. unfold book_shown. rewrite all_orders_rest.
  split_and!; [done| |by apply (shows_add (t_ticker_id t) _ r)|].
  - split; [|done]. split; [done|]. split; [split; simpl; lia|]. destruct (_ !! _) as [u|] eqn:Hu; [|done].
    apply Hf1 in Hu as (r' & Hr' & Hr'' & _). by apply Hids in Hr'.
  - apply listed_new; [done|lia|done|]. intros r' Hr' Hk.
    assert (r_key r' ∈ r_key <$> all_orders k) as (r0 & Hk0 & Hr0)%list_elem_of_fmap.
    { rewrite E, elem_of_app in Hr'. rewrite (all_orders_side s), fmap_app, elem_of_app.
      destruct Hr' as [Hr'|Hr']; [left; eapply sweep_keys; [exact Hsw|]|right]; by apply list_elem_of_fmap_2. }
    apply (Hfresh r0 Hr0). rewrite <- Hk0. exact Hk.
Qed.

Lemma spec_cancel_shown c o t k n f :
  0 ≤ t < ME_MAX_TICKERS → book_shown t f n k →
  let out := spec_cancel c o t k in
  updates_ok (out_updates out) f ∧ book_shown t (apply_all (out_updates out) f) n (out_book out).
Proof.
  intros Ht [Hf Hn]. unfold spec_cancel, find_order.
  destruct (list_find _ _) as [[i r]|] eqn:Hfind; [|done]. simpl.
  apply list_find_Some in Hfind as (Hr & Hk & _). apply list_elem_of_lookup_2 in Hr.
  apply elem_of_Permutation in Hr as [rs E].
  assert (all_orders (MkSBook (cancel_order (c, o) (s_bids k)) (cancel_order (c, o) (s_asks k))) ≡ₚ rs) as E'.
  { unfold all_orders in *. simpl. rewrite !cancel_order_orders, <- filter_app, E.
    rewrite filter_cons_False by (intros []; done). rewrite filter_all; [done|].
    rewrite E in Hn. apply listed_cons in Hn as (_ & _ & Hkeys & _). intros r' Hr'. rewrite <- Hk. by apply Hkeys. }
  unfold book_shown. rewrite E'. rewrite E in Hf, Hn. split_and!.
  - split; [done|]. exists (order_entry t r). split; [|done]. by apply shows_entry in Hf.
  - done.
  - by eapply shows_cancel.
  - by apply listed_cons in Hn as [? _].
Qed.

(** ** The engine *)
(** The engine from its constructor on: the other threads do what they like with the queues, and the
    engine serves requests.  [us] is everything it has published.  The order ids stay within the
    tables of those who read the feed. *)
Inductive engine_run : MatchingEngine → list sbook → list MEMarketUpdate → Prop :=
  | engine_run_new qi qr qm m :
      MatchingEngine_new qi qr qm ∅ ∅ = Ok m → engine_run m (replicate 8 empty_book) []
  | engine_run_queues m ks us m' :
      engine_run m ks us → ticker_order_book_ m' = ticker_order_book_ m → engine_run m' ks us
  | engine_run_serve m ks us r rest b k m' nr nu rs0 us0 :
      engine_run m ks us →
      queue_wf (incoming_requests_ m) →
      contents MEClientRequest_default (incoming_requests_ m) = r :: rest →
      0 ≤ req_ticker_id_ r → ticker_order_book_ m !! Z.to_nat (req_ticker_id_ r) = Some b →
      ks !! Z.to_nat (req_ticker_id_ r) = Some k → servable r b k →
      next_market_order_id_ b < ME_MAX_ORDER_IDS →
      let out := spec_process r (next_market_order_id_ b) k in
      sink_state (outgoing_ m) (length (out_responses out) + nr) (length (out_updates out) + nu) rs0 us0 →
      run_once m = Ok (true, m') →
      engine_run m' (<[Z.to_nat (req_ticker_id_ r) := out_book out]> ks) (us ++ out_updates out).

Lemma spec_process_about r n k :
  Forall (about (req_ticker_id_ r)) (out_updates (spec_process r n k)).
Proof.
  unfold spec_process. destruct (req_type_ r); simpl; [constructor| | |constructor].
  - unfold spec_add. destruct (sweep _ _ _) as [[opp leaves] fs].
    assert (Forall (about (req_ticker_id_ r))
      (concat (fill_updates (taker_of r (bool_decide (req_side_ r = Side_BUY)) n) <$> fs))) as H.
    { induction fs as [|f fs IH]; [constructor|]. rewrite fmap_cons, concat_cons. apply Forall_app. split; [|done].
      unfold fill_updates. repeat apply Forall_cons_2; [done|by destruct (_ =? _)|constructor]. }
    simpl. destruct (leaves =? 0); simpl; [done|]. apply Forall_app. split; [done|]. by apply Forall_singleton.
  - unfold spec_cancel. destruct (find_order _ _); simpl; [by apply Forall_singleton|constructor].
Qed.
Lemma spec_process_shown r b k f :
  represents b k → servable r b k → 0 ≤ req_ticker_id_ r < ME_MAX_TICKERS →
  0 ≤ next_market_order_id_ b < ME_MAX_ORDER_IDS →
  book_shown (req_ticker_id_ r) f (next_market_order_id_ b) k →
  let o := spec_process r (next_market_order_id_ b) k in
  updates_ok (out_updates o) f ∧
  book_shown (req_ticker_id_ r) (apply_all (out_updates o) f)
    (next_id_after r (next_market_order_id_ b)) (out_book o).
Proof.
  intros Hb Hs Ht Hid Hf. unfold spec_process, servable, next_id_after in *.
  destruct (req_type_ r); try done.
  - destruct Hs as (_ & [] & _). unfold taker_of in *. simpl in *.
    rewrite u64_id by (unfold ME_MAX_ORDER_IDS in Hid; lia).
    apply (spec_add_shown (taker_of r (bool_decide (req_side_ r = Side_BUY)) (next_market_order_id_ b)));
      try done; [lia|]. by eapply represents_qty.
  - by apply spec_cancel_shown.
Qed.

(** Every book is shown by the feed of what has been published. *)
Record engine_shown (m : MatchingEngine) (ks : list sbook) (us : list MEMarketUpdate) : Prop := {
  es_books : Forall2 represents (ticker_order_book_ m) ks;
  es_length : Z.of_nat (length ks) = ME_MAX_TICKERS;
  es_shown i k b : ks !! i = Some k → ticker_order_book_ m !! i = Some b →
    0 ≤ next_market_order_id_ b ∧
    book_shown (Z.of_nat i) (apply_all us ∅) (next_market_order_id_ b) k;
  es_updates : updates_ok us ∅;
}.
Lemma engine_run_shown m ks us : engine_run m ks us → engine_shown m ks us.
Proof.
  induction 1 as [qi qr qm m Hm|m ks us m' _ [Hb Hl Hs Hu] E
    |m ks us r rest b k m' nr nu rs0 us0 _ [Hb Hl Hs Hu] Hwf Hc Ht Hbk Hk Hserv Hid out Hsink Hrun].
  - rewrite MatchingEngine_new_ok in Hm. injection Hm as <-. split; [|done| |done].
    + simpl. unfold books0. repeat (constructor; [apply book0_represents|]). constructor.
    + intros i k b [-> Hi]%lookup_replicate Hb.
      apply list_lookup_fmap_Some in Hb as (t & -> & _). split; [done|]. split.
      * intros oid u. change (apply_all [] ∅) with (∅ : feed). rewrite lookup_empty. split; [done|]. intros (r & Hr & _). by apply not_elem_of_nil in Hr.
      * split; constructor.
  - split; rewrite ?E; done.
  - pose proof (run_once_ok r rest m ks k b nr nu rs0 us0 Hwf Hc Hbk Hk Hserv (conj Hb Hsink)) as H.
    unfold wp in H. rewrite Hrun in H. destruct H as (_ & [Hb' _] & _ & _ & Hn). fold out in Hb'.
    pose proof (lookup_lt_Some _ _ _ Hk) as Hlt. destruct (Hs _ _ _ Hk Hbk) as [Hid0 Hshown].
    rewrite Z2Nat.id in Hshown by done.
    destruct (spec_process_shown r b k _ (Forall2_lookup_lr _ _ _ _ _ _ Hb Hbk Hk) Hserv
      ltac:(lia) (conj Hid0 Hid) Hshown) as [Hok Hshown'].
    split; [done|by rewrite length_insert| |by apply updates_ok_app].
    intros i k' b' Hk' Hb''. rewrite apply_all_app.
    assert ((next_market_order_id_ <$> ticker_order_book_ m') !! i = Some (next_market_order_id_ b')) as Hnb
      by by rewrite list_lookup_fmap, Hb''.
    rewrite Hn in Hnb. destruct (decide (i = Z.to_nat (req_ticker_id_ r))) as [->|Hne].
    + rewrite list_lookup_insert_eq in Hnb
        by (rewrite length_fmap; by eapply lookup_lt_Some). injection Hnb as Hnb.
      rewrite list_lookup_insert_eq in Hk' by done. injection Hk' as <-.
      rewrite Z2Nat.id, <- Hnb by done. split; [|done]. unfold next_id_after.
      destruct (req_type_ r); [done|apply u64_range|done..].
    + rewrite list_lookup_insert_ne, list_lookup_fmap in Hnb by done.
      rewrite list_lookup_insert_ne in Hk' by done.
      destruct (ticker_order_book_ m !! i) as [b0|] eqn:Hb0; simplify_eq/=.
      destruct (Hs _ _ _ Hk' Hb0) as [? [? ?]]. rewrite <- Hnb. split; [done|]. split; [|done].
      eapply (shows_others _ (req_ticker_id_ r)); [done|lia|]. by apply spec_process_about.
Qed.

Lemma engine_shown_lookup m ks us t k :
  engine_shown m ks us → 0 ≤ t → ks !! Z.to_nat t = Some k → shows t (apply_all us ∅) (all_orders k).
Proof.
  intros [Hb Hl Hs Hu] Ht Hk. destruct (Forall2_lookup_r _ _ _ _ _ Hb Hk) as (b & Hbk & _).
  destruct (Hs _ _ _ Hk Hbk) as [_ [Hsh _]]. by rewrite Z2Nat.id in Hsh.
Qed.


(** ** A run *)
Definition engine1 : MatchingEngine :=
  match run_once engine0 with Ok (_, m) => m | Err _ => engine0 end.
Definition sell_outcome : outcome := spec_process sell_request 1 empty_book.
Lemma engine1_run :
  engine_run engine1 (<[3%nat := out_book sell_outcome]> ks0) (out_updates sell_outcome).
Proof.
  apply (engine_run_serve engine0 ks0 [] sell_request [] (book0 3) empty_book engine1 1 1 [] []).
  - apply (engine_run_new (incoming_requests_ engine0) new_queue new_queue). reflexivity.
  - apply can_push_wf; [apply new_queue_wf|reflexivity].
  - vm_compute; reflexivity.
  - simpl. lia.
  - reflexivity.
  - reflexivity.
  - exact sell_servable.
  - reflexivity.
  - apply engine0_state.
  - vm_compute. reflexivity.
Qed.
