(* ===== verification/EngineTypes.v ===== *)
(** The types of what flows through the exchange.

    The C++ types bound every field of a message and of a resting order by the width of its type.  The
    model's fields are unbounded, so this is a theorem: whatever bytes a client sends, the requests
    read from them are well typed; from well-typed requests the engine keeps well-typed books and
    sends well-typed responses and updates, which is what makes them survive the wire. *)
From coqutil Require Import Byte Word.LittleEndianList.
From S2P Require Export EngineFeed.

(** ** What is read from bytes *)
Lemma get_u_range n bs : in_u (8 * Z.of_nat n) (get_u n bs).1 = true.
Proof.
  unfold get_u, in_u. simpl. pose proof (le_combine_bound (take n bs)) as [H0 H].
  assert (2 ^ (8 * Z.of_nat (length (take n bs))) ≤ 2 ^ (8 * Z.of_nat n)).
  { apply Z.pow_le_mono_r; [lia|]. rewrite length_take. lia. }
  apply andb_true_iff. lia.
Qed.
Lemma get_i_range n bs : (0 < n)%nat → in_i (8 * Z.of_nat n) (get_i n bs).1 = true.
Proof.
  intros Hn. unfold get_i, in_i. simpl.
  pose proof (swrap_range (8 * Z.of_nat n) (le_combine (take n bs)) ltac:(lia)). apply andb_true_iff. lia.
Qed.
(** Replaces the fields read from a buffer by variables in the range of their types. *)
Ltac wire_range :=
  repeat match goal with
  | |- context [get_u ?n ?bs] =>
    let z := fresh "z" in let r := fresh "rest" in let H := fresh "Hz" in
    pose proof (get_u_range n bs) as H; destruct (get_u n bs) as [z r]; cbn [fst] in H
  | |- context [get_i ?n ?bs] =>
    let z := fresh "z" in let r := fresh "rest" in let H := fresh "Hz" in
    pose proof (get_i_range n bs ltac:(lia)) as H; destruct (get_i n bs) as [z r]; cbn [fst] in H
  end.

Lemma get_MEClientRequest_ok bs : MEClientRequest_ok (get_MEClientRequest bs).1 = true.
Proof.
  unfold get_MEClientRequest. wire_range. unfold MEClientRequest_ok, ClientRequestType_ok, Side_ok. simpl.
  rewrite ClientRequestType_to_of_int, Side_to_of_int, !bool_decide_eq_true_2 by done.
  rewrite !andb_true_iff. split_and!; first [assumption|done].
Qed.
Lemma OMClientRequest_dec_ok bs : OMClientRequest_ok (wire_dec bs) = true.
Proof.
  simpl. unfold get_seq. pose proof (get_u_range 8 bs) as H. destruct (get_u 8 bs) as [n bs']. simpl in H.
  apply andb_true_iff. split; [exact H|apply get_MEClientRequest_ok].
Qed.
Lemma drained_requests_ok bs : forallb OMClientRequest_ok (drain bs).1 = true.
Proof.
  remember (length bs) as n eqn:E. revert bs E. induction n as [n IH] using lt_wf_ind. intros bs ->.
  destruct (decide (wire_size (A := OMClientRequest) ≤ length bs)%nat) as [Hb|Hb].
  - rewrite (drain_long OMClientRequest_ok) by done.
    specialize (IH (length (drop (wire_size (A := OMClientRequest)) bs))).
    destruct (drain (drop _ bs)) as [ms rest] eqn:Hd. cbn [fst forallb]. rewrite OMClientRequest_dec_ok.
    replace ms with (drain (A := OMClientRequest) (drop (wire_size (A := OMClientRequest)) bs)).1 by by rewrite Hd.
    apply IH; [|done]. rewrite length_drop. simpl in *. lia.
  - by rewrite (drain_short (A := OMClientRequest)) by lia.
Qed.

Lemma next_priority_range px ls : in_u 64 (next_priority px ls) = true.
Proof.
  induction ls as [|[px' rs] ls IH]; [done|]. simpl. destruct (px' =? px); [|done].
  destruct (last rs) as [r|]; [|done]. pose proof (u64_range (r_priority r + 1)). unfold in_u. lia.
Qed.

(** ** What the engine's specification does to orders and messages
    [P] holds of every order of the book, and whatever it says is not about quantities above those
    it has seen. *)
Section orders.
Context (P : resting → Prop).
Hypothesis P_less : ∀ r q, P r → 0 ≤ q < r_qty r → P (set_r_qty q r).

Lemma taken_Forall rs leaves fs rest leaves' :
  taken rs leaves fs rest leaves' → Forall (λ r, 0 ≤ r_qty r) rs → Forall P rs →
  Forall P rest ∧ Forall (λ f, P (f_order f) ∧ 0 ≤ r_qty (f_order f) ∧ 0 < f_leaves f ≤ leaves) fs ∧
  leaves' ≤ leaves.
Proof.
  induction 1 as [rs leaves|r rs leaves fs rest leaves' Hl Hq _ IH|r rs leaves Hl Hq];
    intros Hn HP; [done| |]; apply Forall_cons in Hn as [Hn Hns]; apply Forall_cons in HP as [HP HPs].
  - destruct (IH Hns HPs) as (IH1 & IH2 & IH3). split_and!; [done| |lia].
    constructor; [simpl; auto with lia|]. eapply Forall_impl; [exact IH2|]. simpl. intros f (? & ? & ?). auto with lia.
  - split_and!; [|by repeat constructor|lia]. constructor; [|done]. apply P_less; [done|]. lia.
Qed.

Lemma spec_add_Forall t qty k :
  0 ≤ qty → Forall (λ r, 0 ≤ r_qty r) (all_orders k) → Forall P (all_orders k) →
  (∀ leaves prio, 0 < leaves ≤ qty → in_u 64 prio = true →
     P (MkResting (t_client_id t) (t_client_order_id t) (t_market_order_id t) (to_side (t_side t))
          (t_price t) leaves prio)) →
  ∃ fs us, Forall P (all_orders (out_book (spec_add t qty k))) ∧
    Forall (λ f, P (f_order f) ∧ 0 ≤ r_qty (f_order f) ∧ 0 < f_leaves f ≤ qty) fs ∧
    out_responses (spec_add t qty k) =
      MkMEClientResponse ClientResponseType_ACCEPTED (t_client_id t) (t_ticker_id t)
        (t_client_order_id t) (t_market_order_id t) (to_side (t_side t)) (t_price t) 0 qty
      :: concat (fill_responses t <$> fs) ∧
    out_updates (spec_add t qty k) = concat (fill_updates t <$> fs) ++ us ∧
    (us = [] ∨ ∃ r, P r ∧ us = [order_entry (t_ticker_id t) r]).
Proof.
  intros Hq Hn HP Hnew. set (s := negb (t_side t)).
  rewrite (all_orders_side s), Forall_app in Hn, HP. destruct Hn as [Hn _], HP as [HP HP'].
  pose proof (spec_add_split t qty k) as Hout. destruct (sweep_of t qty k) as [[opp leaves] fs] eqn:Hsw.
  destruct (rested_book t leaves _) as [k' us] eqn:Hk. rewrite Hout. unfold sweep_of in Hsw. fold s in Hsw, Hk.
  pose proof (sweep_taken _ _ _ _ _ _ (proj1 (Forall_forall _ _) Hn) Hq Hsw) as Ht.
  pose proof (taken_nonneg _ _ _ _ _ Ht Hq) as Hl0.
  destruct (taken_Forall _ _ _ _ _ Ht Hn HP) as (HPo & Hfs & Hl).
  assert (Forall P (all_orders (s_set_levels s opp k))) as HPk.
  { rewrite (all_orders_side s), s_levels_set, s_levels_set_other. by apply Forall_app. }
  exists fs, us. unfold rested_book in Hk. destruct (leaves =? 0) eqn:Hz.
  { injection Hk as <- <-. by split_and!; [..|left]. }
  set (r := MkResting _ _ _ _ _ _ _) in Hk. injection Hk as <- <-.
  assert (P r) as Hr.
  { apply Hnew; [lia|apply next_priority_range]. }
  split_and!; [|done..|by right; exists r]. cbn [out_book]. rewrite all_orders_rest. by constructor.
Qed.

Lemma cancel_Forall key k :
  Forall P (all_orders k) →
  Forall P (all_orders (MkSBook (cancel_order key (s_bids k)) (cancel_order key (s_asks k)))).
Proof.
  intros H. unfold all_orders in *. simpl. rewrite !cancel_order_orders, <- filter_app. by apply Forall_filter_keep.
Qed.
Lemma find_order_P key k r : Forall P (all_orders k) → find_order key k = Some r → P r ∧ r_key r = key.
Proof.
  intros HP. unfold find_order. destruct (list_find _ _) as [[i r']|] eqn:Hf; [|done]. intros [= <-].
  apply list_find_Some in Hf as (Hr & Hk & _). apply list_elem_of_lookup_2 in Hr.
  rewrite Forall_forall in HP. auto.
Qed.
End orders.

(** ** Well-typed orders *)
Definition resting_ok (r : resting) : bool :=
  in_u 32 (r_client_id r) && in_u 64 (r_client_order_id r) && in_u 64 (r_market_order_id r) &&
  Side_ok (r_side r) && in_i 64 (r_price r) && in_u 32 (r_qty r) && in_u 64 (r_priority r).
Definition book_typed (k : sbook) : Prop := Forall (λ r, resting_ok r = true) (all_orders k).

(** [typed_tac]: the fields of well-typed data, and arithmetic. *)
Ltac typed_tac :=
  unfold resting_ok, MEClientRequest_ok, MEClientResponse_ok, MEMarketUpdate_ok in *;
  repeat match goal with H : _ && _ = true |- _ => apply andb_true_iff in H as [H ?] end;
  rewrite ?andb_true_iff; split_and?; first [assumption|reflexivity|unfold in_u, in_i in *; simpl in *; lia].

Lemma resting_ok_less r q : resting_ok r = true → 0 ≤ q < r_qty r → resting_ok (set_r_qty q r) = true.
Proof. intros H Hq. cbv [set_r_qty]. destruct r; simpl in *. typed_tac. Qed.
Lemma book_typed_qty k : book_typed k → Forall (λ r, 0 ≤ r_qty r) (all_orders k).
Proof.
  intros H. eapply Forall_impl; [exact H|]. simpl. intros r Hr. unfold resting_ok in Hr.
  rewrite !andb_true_iff in Hr. destruct Hr as [[_ Hr] _]. unfold in_u in Hr. lia.
Qed.

Lemma fill_typed t f :
  in_u 32 (t_client_id t) = true → in_u 32 (t_ticker_id t) = true → in_u 64 (t_client_order_id t) = true →
  resting_ok (f_order f) = true → in_u 32 (f_leaves f) = true →
  forallb MEClientResponse_ok (fill_responses t f) = true ∧
  forallb MEMarketUpdate_ok (fill_updates t f) = true.
Proof.
  destruct f as [r leaves]. intros Hc Ht Ho Hr Hl.
  unfold fill_responses, fill_updates, f_qty. simpl in *. pose proof (u32_range (t_market_order_id t)).
  assert (Side_ok (to_side (t_side t)) = true) as Hs by by destruct (t_side t).
  assert (0 ≤ r_qty r < 2 ^ 32) as Hq by (unfold resting_ok in Hr; rewrite !andb_true_iff in Hr;
    destruct Hr as [[_ Hr] _]; unfold in_u in Hr; lia).
  rewrite !andb_true_r. split; rewrite andb_true_iff; split; [typed_tac..|].
  bdestruct (r_qty r - Z.min leaves (r_qty r) =? 0); typed_tac.
Qed.
Lemma concat_typed {A B} (ok : B → bool) (g : A → list B) (Q : A → Prop) l :
  (∀ a, Q a → forallb ok (g a) = true) → Forall Q l → forallb ok (concat (g <$> l)) = true.
Proof.
  intros Hg. induction 1 as [|a l Ha _ IH]; [done|]. rewrite fmap_cons, concat_cons, forallb_app, IH, Hg by done. done.
Qed.

Lemma spec_add_typed t qty k :
  in_u 32 (t_client_id t) = true → in_u 32 (t_ticker_id t) = true → in_u 64 (t_client_order_id t) = true →
  in_u 64 (t_market_order_id t) = true → in_i 64 (t_price t) = true → in_u 32 qty = true → book_typed k →
  book_typed (out_book (spec_add t qty k)) ∧
  forallb MEClientResponse_ok (out_responses (spec_add t qty k)) = true ∧
  forallb MEMarketUpdate_ok (out_updates (spec_add t qty k)) = true.
Proof.
  intros Hc Ht Ho Hm Hp Hq Hk. assert (Side_ok (to_side (t_side t)) = true) as Hs by by destruct (t_side t).
  destruct (spec_add_Forall (λ r, resting_ok r = true) resting_ok_less t qty k)
    as (fs & us & Hb & Hfs & -> & -> & Hus).
  { unfold in_u in Hq. lia. }
  { by apply book_typed_qty. }
  { done. }
  { intros leaves prio Hl Hprio. assert (in_u 32 leaves = true) by (unfold in_u in *; lia). typed_tac. }
  split; [done|]. assert (Forall (λ f, resting_ok (f_order f) = true ∧ in_u 32 (f_leaves f) = true) fs) as Hf.
  { eapply Forall_impl; [exact Hfs|]. simpl. intros f (? & ? & ?). split; [done|]. unfold in_u in *. lia. }
  split.
  - cbn [forallb]. apply andb_true_iff. split; [typed_tac|].
    eapply concat_typed; [|exact Hf]. intros f [? ?]. by apply fill_typed.
  - rewrite forallb_app. apply andb_true_iff. split.
    + eapply concat_typed; [|exact Hf]. intros f [? ?]. by apply fill_typed.
    + destruct Hus as [->|(r & Hr & ->)]; [done|]. unfold order_entry. simpl. rewrite andb_true_r. typed_tac.
Qed.
Lemma spec_cancel_typed c o t k :
  in_u 32 c = true → in_u 32 t = true → in_u 64 o = true → book_typed k →
  book_typed (out_book (spec_cancel c o t k)) ∧
  forallb MEClientResponse_ok (out_responses (spec_cancel c o t k)) = true ∧
  forallb MEMarketUpdate_ok (out_updates (spec_cancel c o t k)) = true.
Proof.
  intros Hc Ht Ho Hk. unfold spec_cancel. destruct (find_order (c, o) k) as [r|] eqn:Hf; simpl.
  - destruct (find_order_P _ _ _ _ Hk Hf) as [Hr _]. simpl in Hr. split; [by apply cancel_Forall|].
    rewrite !andb_true_r. split; typed_tac.
  - split; [done|]. rewrite !andb_true_r. split; [typed_tac|done].
Qed.
Lemma spec_process_typed r id k :
  MEClientRequest_ok r = true → in_u 64 id = true → book_typed k →
  book_typed (out_book (spec_process r id k)) ∧
  forallb MEClientResponse_ok (out_responses (spec_process r id k)) = true ∧
  forallb MEMarketUpdate_ok (out_updates (spec_process r id k)) = true.
Proof.
  intros Hr Hid Hk. unfold MEClientRequest_ok in Hr. rewrite !andb_true_iff in Hr.
  destruct Hr as ((((((_ & ?) & ?) & ?) & _) & ?) & ?).
  unfold spec_process. destruct (req_type_ r); [done|by apply spec_add_typed|by apply spec_cancel_typed|done].
Qed.

(** ** The engine *)
Record engine_typed (m : MatchingEngine) (ks : list sbook) : Prop := {
  et_books : Forall book_typed ks;
  et_ids : Forall (λ b, in_u 64 (next_market_order_id_ b) = true) (ticker_order_book_ m);
  et_requests : forallb MEClientRequest_ok (contents MEClientRequest_default (incoming_requests_ m)) = true;
  et_responses : forallb MEClientResponse_ok
    (contents MEClientResponse_default (outgoing_ogw_responses_ (outgoing_ m))) = true;
  et_updates : forallb MEMarketUpdate_ok
    (contents MEMarketUpdate_default (outgoing_md_updates_ (outgoing_ m))) = true;
}.

(** C10: types are preserved. Whatever bytes a connection delivers, the requests the receive loop reads
    from them are well typed; and a round of the engine that starts with well-typed requests, books,
    responses and updates and a servable request (as for [run_once_refines]) ends with well-typed ones:
    every field of every order and of every message fits the C++ type it is stored in, so nothing is
    truncated on the wire. *)
Theorem engine_preserves_types :
  (∀ bytes, forallb OMClientRequest_ok (drain bytes).1 = true) ∧
  ∀ r rest m ks k b nr nu rs us,
    engine_typed m ks → queue_wf (incoming_requests_ m) →
    contents MEClientRequest_default (incoming_requests_ m) = r :: rest →
    ticker_order_book_ m !! Z.to_nat (req_ticker_id_ r) = Some b →
    ks !! Z.to_nat (req_ticker_id_ r) = Some k → servable r b k →
    let out := spec_process r (next_market_order_id_ b) k in
    engine_state m ks (length (out_responses out) + nr) (length (out_updates out) + nu) rs us →
    ∃ m', run_once m = Ok (true, m') ∧
      engine_typed m' (<[Z.to_nat (req_ticker_id_ r) := out_book out]> ks).
Proof.
  split; [apply drained_requests_ok|]. intros r rest m ks k b nr nu rs us [Hks Hids Hq Hrs Hus] Hwf Hc Hb Hk Hs out He.
  pose proof He as [_ [(_ & Ers & _) (_ & Eus & _)]].
  pose proof (run_once_ok r rest m ks k b nr nu rs us Hwf Hc Hb Hk Hs He) as H. fold out in H.
  apply wp_ok in H as (a & m' & Hrun & -> & [_ [(_ & Er & _) (_ & Eu & _)]] & _ & Hc' & Hn).
  rewrite Hc in Hq. simpl in Hq. apply andb_true_iff in Hq as [Hr Hrest].
  destruct (spec_process_typed r (next_market_order_id_ b) k) as (Hbk & Hr' & Hu'); [done| |by eapply Forall_lookup_1|].
  { rewrite Forall_lookup in Hids. by apply (Hids (Z.to_nat (req_ticker_id_ r))). }
  exists m'. split; [done|]. split.
  - by apply Forall_insert.
  - rewrite <- (Forall_fmap next_market_order_id_ (λ i, in_u 64 i = true)) in Hids |- *. rewrite Hn.
    apply Forall_insert; [done|]. unfold next_id_after. rewrite Forall_fmap, Forall_lookup in Hids.
    pose proof (Hids _ _ Hb) as Hi. simpl in Hi. destruct (req_type_ r); try done.
    pose proof (u64_range (next_market_order_id_ b + 1)). unfold in_u. lia.
  - by rewrite Hc'.
  - rewrite Er, forallb_app, <- Ers, Hrs. done.
  - rewrite Eu, forallb_app, <- Eus, Hus. done.
Qed.

(** ** A concrete round *)
Lemma engine0_typed : engine_typed engine0 ks0.
Proof.
  split; [repeat constructor| |vm_compute; reflexivity..].
  repeat (constructor; [reflexivity|]). constructor.
Qed.
Lemma engine_preserves_types_witness :
  forallb OMClientRequest_ok (drain (repeat Byte.xff 77)).1 = true ∧
  ∃ m', run_once engine0 = Ok (true, m') ∧ engine_typed m' (<[3%nat := out_book sell_outcome]> ks0).
Proof.
  split; [apply (proj1 engine_preserves_types)|].
  apply (proj2 engine_preserves_types sell_request [] engine0 ks0 empty_book (book0 3) 1%nat 1%nat [] []).
  - exact engine0_typed.
  - apply can_push_wf; [apply new_queue_wf|reflexivity].
  - vm_compute; reflexivity.
  - reflexivity.
  - reflexivity.
  - exact sell_servable.
  - exact engine0_state.
Defined.
