(* ===== verification/EngineDestroy.v ===== *)
(** The destructors of [MEOrderBook] and [MatchingEngine] (me_order_book.cpp, matching_engine.cpp): what the
    engine logs of its books when it ends.

    A destructor is a computation whose result is the text it logs.  The pointers it sets to null are
    those the model has: a book's back pointer and the engine's pointers to its queues are not in it, and
    an engine whose array holds null pointers has no books.  A book keeps the instrument it was built
    for, which is the first line of its text. *)
From S2P Require Export MEOrderBookText EngineFeed.

Definition MEOrderBook_destroy : M MEOrderBook string :=
  text ← toString false true;
  _ ← modify (set_best_by_price Side_SELL None);
  _ ← modify (set_best_by_price Side_BUY None);
  _ ← modify (set_cid_oid ∅);
  mret text.
Fixpoint destroy_books (bs : list MEOrderBook) : res (list string) :=
  match bs with
  | [] => Ok []
  | order_book :: bs =>
      res_bind (MEOrderBook_destroy order_book) (λ r,
        res_bind (destroy_books bs) (λ texts, Ok (r.1 :: texts)))
  end.
(** The second part of the state is [run_]. *)
Definition MatchingEngine_destroy : M (MatchingEngine * bool) (list string) :=
  _ ← modify (λ s, (s.1, false));
  s ← gets id;
  texts ← of_res (destroy_books (ticker_order_book_ s.1));
  _ ← modify (λ s, (set_books [] s.1, s.2));
  mret texts.

(** * The instrument of a book *)
Section ticker.
Abbreviation same_book := (keeps ticker_id_).
Lemma tk_get_order p : same_book (get_order p).
Proof. unfold get_order. keeps_tac. Qed.
Lemma tk_put_order p f : same_book (put_order p f).
Proof. unfold put_order. keeps_tac. Qed.
Lemma tk_get_level p : same_book (get_level p).
Proof. unfold get_level. keeps_tac. Qed.
Lemma tk_put_level p f : same_book (put_level p f).
Proof. unfold put_level. keeps_tac. Qed.
Lemma tk_set_best s p : same_book (modify (set_best_by_price s p)).
Proof. apply keeps_modify. intros b. unfold set_best_by_price. by case_decide. Qed.
Lemma tk_order_pool {A} (m : M (MemPool MEOrder) A) : same_book (on_order_pool m).
Proof. by apply keeps_zoom. Qed.
Lemma tk_level_pool {A} (m : M (MemPool MEOrdersAtPrice) A) : same_book (on_level_pool m).
Proof. by apply keeps_zoom. Qed.
#[local] Hint Resolve tk_get_order tk_put_order tk_get_level tk_put_level tk_set_best tk_order_pool
  tk_level_pool : keeps.
Lemma tk_cid_oid_at c o : same_book (cid_oid_at c o).
Proof. unfold cid_oid_at. keeps_tac. Qed.
Lemma tk_cid_oid_assign c o p : same_book (cid_oid_assign c o p).
Proof. unfold cid_oid_assign. keeps_tac. Qed.
Lemma tk_price_map_assign i p : same_book (price_map_assign i p).
Proof. unfold price_map_assign. keeps_tac. Qed.
Lemma tk_getOrdersAtPrice px : same_book (getOrdersAtPrice px).
Proof. unfold getOrdersAtPrice, price_map_at. keeps_tac. Qed.
Lemma tk_find_target fuel s px best t : same_book (find_target fuel s px best t).
Proof. revert t. induction fuel; intros; cbn [find_target]; keeps_tac. Qed.
#[local] Hint Resolve tk_cid_oid_at tk_cid_oid_assign tk_price_map_assign tk_getOrdersAtPrice
  tk_find_target : keeps.
Lemma tk_addOrdersAtPrice p : same_book (addOrdersAtPrice p).
Proof. unfold addOrdersAtPrice. keeps_tac. Qed.
Lemma tk_removeOrdersAtPrice s px : same_book (removeOrdersAtPrice s px).
Proof. unfold removeOrdersAtPrice. keeps_tac. Qed.
#[local] Hint Resolve tk_addOrdersAtPrice tk_removeOrdersAtPrice : keeps.
Lemma tk_addOrder p : same_book (addOrder p).
Proof. unfold addOrder. keeps_tac. Qed.
Lemma tk_removeOrder p : same_book (removeOrder p).
Proof. unfold removeOrder. keeps_tac. Qed.
Lemma tk_getNextPriority px : same_book (getNextPriority px).
Proof. unfold getNextPriority. keeps_tac. Qed.
Lemma tk_generateNewMarketOrderId : same_book generateNewMarketOrderId.
Proof. unfold generateNewMarketOrderId. keeps_tac. Qed.
#[local] Hint Resolve tk_addOrder tk_removeOrder tk_getNextPriority tk_generateNewMarketOrderId : keeps.

Context {E : Type} `{!EngineSink E}.
Abbreviation same_books := (keeps (λ st : MEOrderBook * E, ticker_id_ st.1)).
Lemma tk_on_book {A} (m : M MEOrderBook A) : same_book m → same_books (on_book m).
Proof. intros H s. apply wlp_zoom. intros a b. apply H. Qed.
Lemma tk_on_engine {A} (m : M E A) : same_books (on_engine m).
Proof. by apply keeps_zoom. Qed.
#[local] Hint Resolve tk_on_book tk_on_engine : keeps.
Lemma tk_set_message (f : MEOrderBook → MEOrderBook) :
  (∀ b, ticker_id_ (f b) = ticker_id_ b) → same_books (on_book (modify f)).
Proof. intros H. by apply tk_on_book, keeps_modify. Qed.
Lemma tk_respond r : same_books (respond r).
Proof. unfold respond. apply keeps_bind; [by apply tk_set_message|]. keeps_tac. Qed.
Lemma tk_publish u : same_books (publish u).
Proof. unfold publish. apply keeps_bind; [by apply tk_set_message|]. keeps_tac. Qed.
#[local] Hint Resolve tk_respond tk_publish : keeps.
Lemma tk_match_order t c s o m itr q : same_books (match_order t c s o m itr q).
Proof. unfold match_order. keeps_tac. Qed.
#[local] Hint Resolve tk_match_order : keeps.
Lemma tk_match_loop fuel c o t s opp px m q : same_books (match_loop fuel c o t s opp px m q).
Proof. revert q. induction fuel; intros; cbn [match_loop]; keeps_tac. Qed.
#[local] Hint Resolve tk_match_loop : keeps.
Lemma tk_checkForMatch c o t s px q m : same_books (checkForMatch c o t s px q m).
Proof. unfold checkForMatch. keeps_tac. Qed.
#[local] Hint Resolve tk_checkForMatch : keeps.
Lemma tk_add c o t s px q : same_books (add c o t s px q).
Proof. unfold add. keeps_tac. Qed.
Lemma tk_cancel c o t : same_books (MEOrderBook.cancel c o t).
Proof.
  unfold MEOrderBook.cancel. apply keeps_bind; [keeps_tac|]. intros [i|]; [|].
  - apply keeps_bind; [keeps_tac|]. intros order.
    repeat (apply keeps_bind; [first [by apply tk_set_message|keeps_tac]|intros ?]). keeps_tac.
  - apply keeps_bind; [by apply tk_set_message|]. keeps_tac.
Qed.
End ticker.

(** The instruments of an engine's books. *)
Definition instruments (m : MatchingEngine) : list Z := ticker_id_ <$> ticker_order_book_ m.
Lemma keeps_on_order_book {A} t (op : M (MEOrderBook * OutQueues) A) :
  keeps (λ st, ticker_id_ st.1) op → keeps instruments (on_order_book t op).
Proof.
  intros Hop s. unfold on_order_book, order_book. apply wlp_bind, wlp_bind, wlp_gets.
  destruct (ticker_order_book_ s !! Z.to_nat t) as [b|] eqn:Hb; [|apply wlp_raise].
  apply wlp_ret, wlp_bind, wlp_gets, wlp_bind, wlp_of_res. intros [a [b' e']] E.
  apply Hop in E. simpl in E.
  apply wlp_bind, wlp_modify, wlp_bind, wlp_modify, wlp_ret. unfold instruments. simpl.
  rewrite list_fmap_insert. apply list_insert_id. by rewrite list_lookup_fmap, Hb, E.
Qed.
Lemma keeps_run_once : keeps instruments run_once.
Proof.
  unfold run_once, on_incoming. apply keeps_bind; [by apply keeps_zoom|]. intros [i|]; [|apply keeps_ret].
  apply keeps_bind; [by apply keeps_zoom|]. intros r. apply keeps_bind.
  - unfold processClientRequest. apply keeps_bind; [unfold order_book; keeps_tac|]. intros _.
    case_match; try apply keeps_raise; apply keeps_on_order_book; [apply tk_add|apply tk_cancel].
  - intros _. apply keeps_bind; [by apply keeps_zoom|]. intros _. apply keeps_ret.
Qed.
Lemma engine_run_instruments m ks us : engine_run m ks us → instruments m = seqZ 0 8.
Proof.
  induction 1 as [qi qr qm m E|m ks us m' _ IH E|]; [by injection E as <-| |].
  - unfold instruments in *. by rewrite E.
  - etransitivity; [|eassumption]. by eapply keeps_run_once.
Qed.

(** * What is logged *)
Lemma destroy_books_text bs ks i :
  Forall2 represents bs ks → Forall (λ k, ∀ s, best_within s k = true) ks →
  ticker_id_ <$> bs = seqZ i (Z.of_nat (length bs)) →
  destroy_books bs = Ok (imap (λ n k, book_text false (i + Z.of_nat n) k) ks).
Proof.
  intros Hbs. revert i. induction Hbs as [|b k bs ks Hb _ IH]; intros i Hks Hi; [done|].
  apply Forall_cons in Hks as [Hk Hks]. rewrite fmap_cons, seqZ_cons in Hi by (simpl; lia).
  injection Hi as Hi Hrest. cbn [destroy_books]. unfold MEOrderBook_destroy.
  rewrite (bind_Ok _ _ _ _ _ (toString_text false true b k Hb (λ _, Hk))).
  simpl. rewrite (IH (Z.succ i)); [|done|rewrite Hrest; f_equal; simpl; lia].
  simpl. rewrite Z.add_0_r, Hi. do 2 f_equal. apply imap_ext. intros n k' _. simpl. f_equal. lia.
Qed.
Lemma MatchingEngine_destroy_text m ks us run :
  engine_run m ks us → Forall (λ k, ∀ s, best_within s k = true) ks →
  MatchingEngine_destroy (m, run) =
    Ok (imap (λ n k, book_text false (Z.of_nat n) k) ks, (set_books [] m, false)).
Proof.
  intros Hrun Hks. unfold MatchingEngine_destroy. mrun. simpl.
  pose proof (engine_run_instruments _ _ _ Hrun) as Hi.
  assert (length (ticker_order_book_ m) = 8%nat) as Hlen
    by (apply (f_equal length) in Hi; unfold instruments in Hi; by rewrite length_fmap in Hi).
  rewrite (destroy_books_text _ ks 0 (es_books _ _ _ (engine_run_shown _ _ _ Hrun)) Hks); [done|].
  by rewrite Hlen.
Qed.
