(* ===== verification/SnapshotSynthesizer.v ===== *)
(** EXCHANGE/market_data/snapshot_synthesizer.{h,cpp}: the copy of all live orders that the
    exchange publishes once a minute for clients that lost updates.

    [ticker_orders_[t][oid]] is a pointer into the pool of updates.  The refinement: the
    state is a [Feed], [addToSnapshot] is [apply_update] on it, and [publishSnapshot] writes
    its [cycle].  The clock and the kernel's part in sending are parameters. *)
From S2P Require Export Feed MemPool LFQueue Sockets.

#[export] Instance MEMarketUpdate_init : ValueInit MEMarketUpdate := MEMarketUpdate_default.

Record SnapshotSynthesizer : Type := MkSnapshotSynthesizer {
  syn_md_updates_ : LFQueue MDPMarketUpdate;
  snapshot_socket_ : Socket;
  ticker_orders_ : gmap (Z * Z) Z;
  last_inc_seq_num_ : Z;
  last_snapshot_time_ : Z;
  syn_order_pool_ : MemPool MEMarketUpdate;
}.

Definition SnapshotSynthesizer_new (market_updates : LFQueue MDPMarketUpdate) : res SnapshotSynthesizer :=
  res_bind (MemPool_new ME_MAX_ORDER_IDS) (λ pool,
  Ok (MkSnapshotSynthesizer market_updates Socket_new ∅ 0 0 pool)).

(** ** Assignments to members *)
Section setters.
Implicit Types s : SnapshotSynthesizer.
Definition set_syn_queue (q : LFQueue MDPMarketUpdate) s : SnapshotSynthesizer :=
  MkSnapshotSynthesizer q (snapshot_socket_ s) (ticker_orders_ s) (last_inc_seq_num_ s)
    (last_snapshot_time_ s) (syn_order_pool_ s).
Definition set_snapshot_socket (sk : Socket) s : SnapshotSynthesizer :=
  MkSnapshotSynthesizer (syn_md_updates_ s) sk (ticker_orders_ s) (last_inc_seq_num_ s)
    (last_snapshot_time_ s) (syn_order_pool_ s).
Definition set_ticker_orders (m : gmap (Z * Z) Z) s : SnapshotSynthesizer :=
  MkSnapshotSynthesizer (syn_md_updates_ s) (snapshot_socket_ s) m (last_inc_seq_num_ s)
    (last_snapshot_time_ s) (syn_order_pool_ s).
Definition set_last_inc_seq_num (n : Z) s : SnapshotSynthesizer :=
  MkSnapshotSynthesizer (syn_md_updates_ s) (snapshot_socket_ s) (ticker_orders_ s) n
    (last_snapshot_time_ s) (syn_order_pool_ s).
Definition set_last_snapshot_time (t : Z) s : SnapshotSynthesizer :=
  MkSnapshotSynthesizer (syn_md_updates_ s) (snapshot_socket_ s) (ticker_orders_ s)
    (last_inc_seq_num_ s) t (syn_order_pool_ s).
Definition set_syn_pool (p : MemPool MEMarketUpdate) s : SnapshotSynthesizer :=
  MkSnapshotSynthesizer (syn_md_updates_ s) (snapshot_socket_ s) (ticker_orders_ s)
    (last_inc_seq_num_ s) (last_snapshot_time_ s) p.
End setters.

(** [ticker_orders_.at(t).at(oid)], read and assigned. *)
Definition oid_in_range (oid : Z) : bool := (0 <=? oid) && (oid <? ME_MAX_ORDER_IDS).
Definition snap_at (t oid : Z) : M SnapshotSynthesizer (option Z) :=
  if oid_in_range oid then gets (λ s, ticker_orders_ s !! (t, oid)) else raise OutOfRange.
Definition snap_assign (t oid : Z) (p : option Z) : M SnapshotSynthesizer unit :=
  if oid_in_range oid
  then modify (λ s, set_ticker_orders (partial_alter (λ _, p) (t, oid) (ticker_orders_ s)) s)
  else raise OutOfRange.
Definition get_snap (p : option Z) : M SnapshotSynthesizer MEMarketUpdate :=
  i ← deref p; gets (λ s, obj (syn_order_pool_ s) i).
Definition put_snap (p : option Z) (f : MEMarketUpdate → MEMarketUpdate) : M SnapshotSynthesizer unit :=
  i ← deref p;
  modify (λ s, set_syn_pool (set_obj i (f (obj (syn_order_pool_ s) i)) (syn_order_pool_ s)) s).
Definition on_syn_pool {A} : M (MemPool MEMarketUpdate) A → M SnapshotSynthesizer A :=
  zoom syn_order_pool_ set_syn_pool.

Definition set_upd_qty (q : Z) (u : MEMarketUpdate) : MEMarketUpdate :=
  MkMEMarketUpdate (upd_type_ u) (upd_order_id_ u) (upd_ticker_id_ u) (upd_side_ u)
    (upd_price_ u) q (upd_priority_ u).
Definition set_upd_price (px : Z) (u : MEMarketUpdate) : MEMarketUpdate :=
  MkMEMarketUpdate (upd_type_ u) (upd_order_id_ u) (upd_ticker_id_ u) (upd_side_ u)
    px (upd_qty_ u) (upd_priority_ u).

(** The existing order a MODIFY or CANCEL is about, after the three [ASSERT]s. *)
Definition existing_order (u : MEMarketUpdate) : M SnapshotSynthesizer (option Z) :=
  order ← snap_at (upd_ticker_id_ u) (upd_order_id_ u);
  _ ← ASSERT (bool_decide (is_Some order));
  o ← get_snap order;
  _ ← ASSERT (upd_order_id_ o =? upd_order_id_ u);
  _ ← ASSERT (bool_decide (upd_side_ o = upd_side_ u));
  mret order.

(** The [switch] on the type of the update. *)
Definition updateOrders (u : MEMarketUpdate) : M SnapshotSynthesizer unit :=
  match upd_type_ u with
  | MarketUpdateType_ADD =>
    order ← snap_at (upd_ticker_id_ u) (upd_order_id_ u);
    _ ← ASSERT (bool_decide (order = None));
    p ← on_syn_pool (allocate u);
    snap_assign (upd_ticker_id_ u) (upd_order_id_ u) p
  | MarketUpdateType_MODIFY =>
    order ← existing_order u;
    _ ← put_snap order (set_upd_qty (upd_qty_ u));
    put_snap order (set_upd_price (upd_price_ u))
  | MarketUpdateType_CANCEL =>
    order ← existing_order u;
    i ← deref order;
    _ ← on_syn_pool (deallocate i);
    snap_assign (upd_ticker_id_ u) (upd_order_id_ u) None
  | _ => mret tt
  end.
Definition addToSnapshot (market_update : MDPMarketUpdate) : M SnapshotSynthesizer unit :=
  let u := me_market_update_ market_update in
  _ ← (if (0 <=? upd_ticker_id_ u) && (upd_ticker_id_ u <? ME_MAX_TICKERS)
       then mret tt else raise OutOfRange);
  _ ← updateOrders u;
  last ← gets last_inc_seq_num_;
  _ ← ASSERT (mdp_seq_num_ market_update =? u64 (last + 1));
  modify (set_last_inc_seq_num (mdp_seq_num_ market_update)).

(** ** Publishing *)
Section publish.
(** How many bytes the kernel takes when the [n]-th message has just been written. *)
Context (accepts : Z → nat).

Definition snapshot_send (msg : MDPMarketUpdate) : M SnapshotSynthesizer unit :=
  zoom snapshot_socket_ set_snapshot_socket (mcast_send (wire_enc msg)).
(** [snapshot_socket_.sendAndRecv()]: nothing is received on this socket. *)
Definition snapshot_flush (n : Z) : M SnapshotSynthesizer unit :=
  zoom snapshot_socket_ set_snapshot_socket
    (_ ← mcast_sendAndRecv (gets id) modify (mret tt) (MkKernelEvent [] 0 (accepts n));
     mret tt).

(** The orders of one instrument; the result is the next [snapshot_size]. *)
Fixpoint publish_orders (t : Z) (oids : list Z) (snapshot_size : Z) : M SnapshotSynthesizer Z :=
  match oids with
  | [] => mret snapshot_size
  | oid :: oids =>
    order ← gets (λ s, ticker_orders_ s !! (t, oid));
    match order with
    | None => publish_orders t oids snapshot_size
    | Some i =>
      o ← gets (λ s, obj (syn_order_pool_ s) i);
      _ ← snapshot_send (MkMDPMarketUpdate snapshot_size o);
      _ ← snapshot_flush snapshot_size;
      publish_orders t oids (snapshot_size + 1)
    end
  end.
Fixpoint publish_tickers (ts : list Z) (snapshot_size : Z) : M SnapshotSynthesizer Z :=
  match ts with
  | [] => mret snapshot_size
  | t :: ts =>
    _ ← snapshot_send (MkMDPMarketUpdate snapshot_size (clear_message t));
    n ← publish_orders t all_oids (snapshot_size + 1);
    publish_tickers ts n
  end.
Definition publishSnapshot : M SnapshotSynthesizer unit :=
  last ← gets last_inc_seq_num_;
  _ ← snapshot_send (MkMDPMarketUpdate 0 (bracket MarketUpdateType_SNAPSHOT_START last));
  n ← publish_tickers (seqZ 0 ME_MAX_TICKERS) 1;
  last ← gets last_inc_seq_num_;
  _ ← snapshot_send (MkMDPMarketUpdate n (bracket MarketUpdateType_SNAPSHOT_END last));
  snapshot_flush n.

(** The queue loop of [run]. *)
Fixpoint synthesize (fuel : nat) : M SnapshotSynthesizer unit :=
  match fuel with
  | O => raise OutOfFuel
  | S fuel =>
    market_update ← zoom syn_md_updates_ set_syn_queue getNextToRead;
    n ← zoom syn_md_updates_ set_syn_queue queue_size;
    match market_update with
    | Some i =>
      if n =? 0 then mret tt
      else
        u ← zoom syn_md_updates_ set_syn_queue (read_slot MDPMarketUpdate_default (Some i));
        _ ← addToSnapshot u;
        _ ← zoom syn_md_updates_ set_syn_queue updateReadIndex;
        synthesize fuel
    | None => mret tt
    end
  end.
(** One round of [run]; [now] and [now'] are the two readings of the clock. *)
Definition synthesizer_round (now now' : Z) : M SnapshotSynthesizer unit :=
  n ← gets (λ s, length (contents MDPMarketUpdate_default (syn_md_updates_ s)));
  _ ← synthesize (S n);
  last_time ← gets last_snapshot_time_;
  if 60 * 1000000000 <? now - last_time then
    _ ← modify (set_last_snapshot_time now');
    publishSnapshot
  else mret tt.
End publish.

(** ** The state as a feed *)
Record syn_ok (s : SnapshotSynthesizer) (f : feed) : Prop := {
  so_feed : feed_ok f;
  so_pool : pool_wf (syn_order_pool_ s);
  so_map k : obj (syn_order_pool_ s) <$> ticker_orders_ s !! k = f !! k;
  so_live k i : ticker_orders_ s !! k = Some i →
    live (syn_order_pool_ s) i ∧ in_store (syn_order_pool_ s) i = true;
  so_inj k k' i : ticker_orders_ s !! k = Some i → ticker_orders_ s !! k' = Some i → k = k';
}.
(** What [addToSnapshot] leaves alone. *)
Record syn_frame (s s' : SnapshotSynthesizer) : Prop := {
  sf_queue : syn_md_updates_ s' = syn_md_updates_ s;
  sf_socket : snapshot_socket_ s' = snapshot_socket_ s;
  sf_time : last_snapshot_time_ s' = last_snapshot_time_ s;
}.
#[export] Instance syn_frame_preorder : PreOrder syn_frame.
Proof.
  split.
  - by intros s.
  - intros s1 s2 s3 [? ? ?] [? ? ?]. split; etrans; eassumption.
Qed.

Lemma syn_ok_entry s f k u :
  syn_ok s f → f !! k = Some u →
  ∃ i, ticker_orders_ s !! k = Some i ∧ obj (syn_order_pool_ s) i = u.
Proof.
  intros H Hk. rewrite <- (so_map _ _ H k) in Hk. apply fmap_Some in Hk as (i & Hi & ->). eauto.
Qed.
Lemma syn_ok_no_entry s f k : syn_ok s f → f !! k = None → ticker_orders_ s !! k = None.
Proof. intros H Hk. rewrite <- (so_map _ _ H k) in Hk. by apply fmap_None in Hk. Qed.

(** The three changes of the state. *)
Lemma syn_ok_add s f u :
  syn_ok s f → key_ok (upd_key u) → upd_type_ u = MarketUpdateType_ADD →
  is_free (syn_order_pool_ s) (next_free_ (syn_order_pool_ s)) = true →
  let i := next_free_ (syn_order_pool_ s) in
  syn_ok (set_ticker_orders (<[upd_key u := i]> (ticker_orders_ s))
    (set_syn_pool (allocated u (syn_order_pool_ s)) s)) (<[upd_key u := u]> f).
Proof.
  intros [Hf Hp Hm Hl Hi] Hk Hty Hfree i.
  assert (∀ k j, ticker_orders_ s !! k = Some j → i ≠ j) as Hfresh.
  { intros k j [Hj _]%Hl <-. unfold live in Hj. unfold i in Hj. congruence. }
  split; simpl.
  - by apply map_Forall_insert_2.
  - auto with hft.
  - intros k. destruct (decide (k = upd_key u)) as [->|].
    + rewrite !lookup_insert_eq. simpl. by rewrite obj_allocated, decide_True.
    + rewrite !lookup_insert_ne by done. rewrite <- Hm.
      destruct (ticker_orders_ s !! k) as [j|] eqn:E; [|done]. simpl.
      by rewrite obj_allocated, decide_False by by eapply Hfresh.
  - intros k j [[_ <-]|[_ Hj]]%lookup_insert_Some.
    + split; [unfold live; by rewrite is_free_allocated, decide_True|].
      unfold in_store. simpl. by apply in_store_next.
    + destruct (Hl _ _ Hj) as [? ?]. split; [|done]. unfold live.
      by rewrite is_free_allocated, decide_False by by eapply Hfresh.
  - intros k k' j [[<- <-]|[_ Hj]]%lookup_insert_Some [[<- E]|[_ Hj']]%lookup_insert_Some; try done.
    + by destruct (Hfresh _ _ Hj').
    + subst. by destruct (Hfresh _ _ Hj).
    + by eapply Hi.
Qed.

Lemma syn_ok_put s f k i g :
  syn_ok s f → ticker_orders_ s !! k = Some i →
  (∀ u, upd_type_ (g u) = upd_type_ u ∧ upd_key (g u) = upd_key u) →
  syn_ok (set_syn_pool (set_obj i (g (obj (syn_order_pool_ s) i)) (syn_order_pool_ s)) s) (alter g k f).
Proof.
  intros [Hf Hp Hm Hl Hi] Hk Hg. split; simpl.
  - intros k' u [[<- (u' & Hu & ->)]|[_ Hu]]%lookup_alter_Some; [|by apply Hf].
    destruct (Hg u') as [-> ->]. exact (Hf _ _ Hu).
  - auto with hft.
  - intros k'. destruct (decide (k' = k)) as [->|].
    + rewrite lookup_alter_eq, <- Hm, Hk. simpl. by rewrite obj_set_obj, decide_True.
    + rewrite lookup_alter_ne, <- Hm by done. destruct (ticker_orders_ s !! k') as [j|] eqn:E; [|done].
      simpl. rewrite obj_set_obj, decide_False; [done|]. intros <-. by pose proof (Hi _ _ _ Hk E).
  - intros k' j Hj. unfold live. rewrite is_free_set_obj. by apply (Hl k').
  - exact Hi.
Qed.

Lemma syn_ok_remove s f k i :
  syn_ok s f → ticker_orders_ s !! k = Some i →
  syn_ok (set_ticker_orders (delete k (ticker_orders_ s))
    (set_syn_pool (set_free i true (syn_order_pool_ s)) s)) (delete k f).
Proof.
  intros [Hf Hp Hm Hl Hi] Hk. split; simpl.
  - by apply map_Forall_delete.
  - auto with hft.
  - intros k'. destruct (decide (k' = k)) as [->|].
    + by rewrite !lookup_delete_eq.
    + rewrite !lookup_delete_ne, <- Hm by done. destruct (ticker_orders_ s !! k') as [j|]; [|done].
      simpl. by rewrite obj_set_free.
  - intros k' j [Hne Hj]%lookup_delete_Some. destruct (Hl _ _ Hj) as [? ?]. split; [|done].
    unfold live. rewrite is_free_set_free, decide_False; [done|]. intros <-.
    by pose proof (Hi _ _ _ Hk Hj).
  - intros k1 k2 j [_ H1]%lookup_delete_Some [_ H2]%lookup_delete_Some. by eapply Hi.
Qed.

(** ** [addToSnapshot] is [apply_update] *)
Lemma snap_at_ok t oid s (Φ : option Z → SnapshotSynthesizer → Prop) :
  0 ≤ oid < ME_MAX_ORDER_IDS → Φ (ticker_orders_ s !! (t, oid)) s → wp (snap_at t oid) s Φ.
Proof.
  intros Ho HΦ. unfold snap_at, oid_in_range. rewrite (proj2 (andb_true_iff _ _)) by lia. by apply wp_gets.
Qed.
Lemma snap_assign_ok t oid p s (Φ : () → SnapshotSynthesizer → Prop) :
  0 ≤ oid < ME_MAX_ORDER_IDS →
  Φ tt (set_ticker_orders (partial_alter (λ _, p) (t, oid) (ticker_orders_ s)) s) →
  wp (snap_assign t oid p) s Φ.
Proof.
  intros Ho HΦ. unfold snap_assign, oid_in_range. rewrite (proj2 (andb_true_iff _ _)) by lia. by apply wp_modify.
Qed.
Lemma wp_ASSERT {S} b (s : S) (Φ : () → S → Prop) : b = true → Φ tt s → wp (ASSERT b) s Φ.
Proof. by intros ->. Qed.

Lemma existing_order_ok u o s f (Φ : option Z → SnapshotSynthesizer → Prop) :
  syn_ok s f → f !! upd_key u = Some o → upd_side_ o = upd_side_ u →
  (∀ i, ticker_orders_ s !! upd_key u = Some i → Φ (Some i) s) →
  wp (existing_order u) s Φ.
Proof.
  intros Hs Ho Hside HΦ. destruct (so_feed _ _ Hs _ _ Ho) as (_ & Hkey & [_ Hoid]).
  destruct (syn_ok_entry _ _ _ _ Hs Ho) as (i & Hi & Hobj).
  unfold existing_order. apply wp_bind, snap_at_ok; [done|]. fold (upd_key u). rewrite Hi.
  apply wp_bind, wp_ASSERT; [done|]. apply wp_bind, wp_bind, wp_deref, wp_gets. rewrite Hobj.
  apply wp_bind, wp_ASSERT; [injection Hkey; lia|].
  apply wp_bind, wp_ASSERT; [by apply bool_decide_eq_true|]. apply wp_ret. auto.
Qed.

Lemma addToSnapshot_ok m s f :
  syn_ok s f → update_ok (me_market_update_ m) f →
  mdp_seq_num_ m = u64 (last_inc_seq_num_ s + 1) →
  (upd_type_ (me_market_update_ m) = MarketUpdateType_ADD →
   is_free (syn_order_pool_ s) (next_free_ (syn_order_pool_ s)) = true) →
  wp (addToSnapshot m) s (λ _ s', syn_ok s' (apply_update (me_market_update_ m) f) ∧
    syn_frame s s' ∧ last_inc_seq_num_ s' = mdp_seq_num_ m).
Proof.
  intros Hs Hu Hseq Hfree. set (u := me_market_update_ m) in *. unfold addToSnapshot. fold u.
  pose proof Hu as [Ht Hty]. rewrite (proj2 (andb_true_iff _ _)) by lia. apply wp_bind, wp_ret, wp_bind.
  eapply (wp_mono _ _ (λ _ s', syn_ok s' (apply_update u f) ∧ syn_frame s s' ∧
    last_inc_seq_num_ s' = last_inc_seq_num_ s)).
  2: { intros [] s' (Hs' & Hf' & Hl). apply wp_bind, wp_gets. rewrite Hl.
    apply wp_bind, wp_ASSERT; [lia|]. apply wp_modify. split_and!; [|by destruct Hf'|done].
    by destruct Hs'. }
  unfold apply_update, updateOrders. destruct (upd_type_ u) eqn:Hut; try (by apply wp_ret); try done.
  - destruct Hty as [Hk Hnone]. pose proof (syn_ok_no_entry _ _ _ Hs Hnone) as Hn.
    pose proof Hk as [_ Hoid].
    apply wp_bind, snap_at_ok; [done|]. fold (upd_key u). rewrite Hn.
    apply wp_bind, wp_ASSERT; [done|]. apply wp_bind, wp_zoom. unfold wp at 1.
    rewrite allocate_free by (by apply (so_pool _ _ Hs) || by apply Hfree).
    apply snap_assign_ok; [done|]. split_and!; [|by split|done]. exact (syn_ok_add s f u Hs Hk Hut (Hfree eq_refl)).
  - destruct Hty as (o & Ho & Hside). apply wp_bind, (existing_order_ok u o s f); [done..|].
    intros i Hi. apply wp_bind, wp_bind, wp_deref, wp_modify, wp_bind, wp_deref, wp_modify.
    split_and!; [|by split|done].
    pose proof (syn_ok_put s f (upd_key u) i (modified u) Hs Hi ltac:(done)) as H.
    cbn [syn_order_pool_ set_syn_pool]. rewrite set_obj_set_obj, obj_set_obj, decide_True by done.
    exact H.
  - destruct Hty as (o & Ho & Hside). apply wp_bind, (existing_order_ok u o s f); [done..|].
    intros i Hi. destruct (so_live _ _ Hs _ _ Hi) as [_ Hin].
    destruct (so_feed _ _ Hs _ _ Ho) as (_ & _ & [_ Hoid]).
    apply wp_bind, wp_deref, wp_bind, wp_zoom. unfold wp at 1. rewrite deallocate_ok by done.
    apply snap_assign_ok; [done|]. split_and!; [|by split|done].
    exact (syn_ok_remove s f (upd_key u) i Hs Hi).
Qed.

(** ** [publishSnapshot] writes the cycle of the feed *)
Definition sent_bytes (s : SnapshotSynthesizer) : list Byte.byte :=
  transmitted_ (snapshot_socket_ s) ++ outbound_data_ (snapshot_socket_ s).
Definition pending (s : SnapshotSynthesizer) : nat := length (outbound_data_ (snapshot_socket_ s)).
(** Only the socket changes, and [msgs] are written to it. *)
Definition wrote (s s' : SnapshotSynthesizer) (msgs : list MDPMarketUpdate) : Prop :=
  (∃ sk, s' = set_snapshot_socket sk s) ∧
  sent_bytes s' = sent_bytes s ++ concat (wire_enc <$> msgs).

Lemma wrote_trans s1 s2 s3 ms1 ms2 : wrote s1 s2 ms1 → wrote s2 s3 ms2 → wrote s1 s3 (ms1 ++ ms2).
Proof.
  intros [[sk ->] H1] [[sk' ->] H2]. split; [by exists sk'|].
  by rewrite H2, H1, fmap_app, concat_app, (assoc_L (++)).
Qed.
Lemma wrote_nil s : wrote s s [].
Proof. split; [exists (snapshot_socket_ s); by destruct s|]. by rewrite app_nil_r. Qed.
Lemma wrote_feed s s' ms f : wrote s s' ms → syn_ok s f → syn_ok s' f.
Proof. by intros [[sk ->] _] []. Qed.

Section publishing.
Context (accepts : Z → nat) (Haccepts : ∀ n, (420 ≤ accepts n)%nat).

Lemma snapshot_send_ok m s (Φ : () → SnapshotSynthesizer → Prop) :
  (pending s ≤ 378)%nat →
  (∀ s', wrote s s' [m] → pending s' = (pending s + 42)%nat → Φ tt s') →
  wp (snapshot_send m) s Φ.
Proof.
  intros Hp HΦ. pose proof (wire_enc_length m) as Hl. cbn [wire_size MDPMarketUpdate_wire] in Hl.
  unfold pending in *. apply wp_zoom. unfold wp.
  rewrite mcast_send_ok by (rewrite Hl; unfold McastBufferSize; lia). apply HΦ.
  - split; [by eexists|]. unfold sent_bytes. cbn. by rewrite app_nil_r, (assoc_L (++)).
  - cbn [snapshot_socket_ set_snapshot_socket outbound_data_ set_outbound]. by rewrite length_app, Hl.
Qed.
Lemma snapshot_flush_ok n s (Φ : () → SnapshotSynthesizer → Prop) :
  (pending s ≤ 420)%nat →
  (∀ s', wrote s s' [] → pending s' = 0%nat → Φ tt s') → wp (snapshot_flush accepts n) s Φ.
Proof.
  intros Hp HΦ. unfold snapshot_flush, mcast_sendAndRecv, sendAndRecv. apply wp_zoom. unfold wp. mrun. cbn [k_data].
  rewrite kernel_copy_nil.
  specialize (Haccepts n). unfold pending in Hp. rewrite transmit_all by (simpl; lia). apply HΦ.
  - split; [by eexists|]. unfold sent_bytes. simpl. by rewrite !app_nil_r.
  - done.
Qed.

Lemma publish_orders_ok t oids : ∀ n s f,
  syn_ok s f → (pending s ≤ 378)%nat →
  wp (publish_orders accepts t oids n) s (λ n' s',
    n' = n + Z.of_nat (length (live_orders f t oids)) ∧
    wrote s s' (numbered n (live_orders f t oids)) ∧ (pending s' ≤ pending s)%nat).
Proof.
  induction oids as [|oid oids IH]; intros n s f Hs Hp.
  { apply wp_ret. split_and!; [simpl; lia|apply wrote_nil|done]. }
  cbn [publish_orders]. unfold live_orders. csimpl. fold (live_orders f t oids).
  apply wp_bind, wp_gets. rewrite <- (so_map _ _ Hs (t, oid)).
  destruct (ticker_orders_ s !! (t, oid)) as [i|]; [|by apply IH]. cbn [fmap option_fmap option_map].
  apply wp_bind, wp_gets, wp_bind, snapshot_send_ok; [done|]. intros s1 Hw1 Hp1.
  apply wp_bind, snapshot_flush_ok; [lia|]. intros s2 Hw2 Hp2.
  pose proof (wrote_trans _ _ _ _ _ Hw1 Hw2) as Hw. rewrite app_nil_r in Hw.
  eapply wp_mono; [apply (IH (n + 1) s2 f); [by eapply wrote_feed|lia]|].
  intros n' s3 (-> & Hw3 & Hp3). rewrite numbered_cons. cbn [length].
  split_and!; [lia| |lia]. exact (wrote_trans _ _ _ _ _ Hw Hw3).
Qed.

Lemma publish_tickers_ok ts : ∀ n s f,
  syn_ok s f → (pending s + 42 * length ts ≤ 378)%nat →
  wp (publish_tickers accepts ts n) s (λ n' s',
    n' = n + Z.of_nat (length (concat (ticker_events f <$> ts))) ∧
    wrote s s' (numbered n (concat (ticker_events f <$> ts))) ∧ (pending s' ≤ 378)%nat).
Proof.
  induction ts as [|t ts IH]; intros n s f Hs Hp.
  { apply wp_ret. split_and!; [simpl; lia|apply wrote_nil|simpl in Hp; lia]. }
  cbn [publish_tickers length] in *. apply wp_bind, snapshot_send_ok; [lia|]. intros s1 Hw1 Hp1.
  assert (syn_ok s1 f) as Hs1 by by eapply wrote_feed.
  apply wp_bind. eapply wp_mono; [apply (publish_orders_ok t all_oids (n + 1) s1 f); [done|lia]|].
  intros n2 s2 (-> & Hw2 & Hp2).
  eapply wp_mono; [apply (IH _ s2 f); [by eapply wrote_feed|lia]|].
  intros n3 s3 (-> & Hw3 & Hp3). rewrite fmap_cons. cbn [concat].
  assert (length (ticker_events f t) = S (length (live_orders f t all_oids))) as Hlen by done.
  rewrite length_app, Hlen. split_and!; [lia| |done].
  pose proof (wrote_trans _ _ _ _ _ (wrote_trans _ _ _ _ _ Hw1 Hw2) Hw3) as Hw.
  rewrite numbered_app, Hlen. unfold ticker_events at 1. rewrite numbered_cons.
  replace (n + Z.of_nat (S (length (live_orders f t all_oids))))
    with (n + 1 + Z.of_nat (length (live_orders f t all_oids))) by lia.
  exact Hw.
Qed.

Lemma publishSnapshot_ok s f :
  syn_ok s f → pending s = 0%nat →
  wp (publishSnapshot accepts) s (λ _ s',
    wrote s s' (numbered 0 (cycle (last_inc_seq_num_ s) f)) ∧ pending s' = 0%nat).
Proof.
  intros Hs Hp. unfold publishSnapshot. apply wp_bind, wp_gets, wp_bind, snapshot_send_ok; [lia|].
  intros s1 Hw1 Hp1. apply wp_bind. eapply wp_mono.
  { apply (publish_tickers_ok _ 1 s1 f); [by eapply wrote_feed|]. rewrite length_seqZ.
    unfold ME_MAX_TICKERS. lia. }
  intros n s2 (-> & Hw2 & Hp2). apply wp_bind, wp_gets.
  assert (last_inc_seq_num_ s2 = last_inc_seq_num_ s) as ->.
  { destruct Hw1 as [[? ->] _], Hw2 as [[? ->] _]. done. }
  fold (snapshot_events f) in Hw2 |- *.
  apply wp_bind, snapshot_send_ok; [lia|]. intros s3 Hw3 Hp3.
  apply snapshot_flush_ok; [lia|]. intros s4 Hw4 Hp4. split; [|done].
  pose proof (wrote_trans _ _ _ _ _ (wrote_trans _ _ _ _ _ Hw1 Hw2) (wrote_trans _ _ _ _ _ Hw3 Hw4)) as Hw.
  rewrite numbered_cycle. rewrite <- (assoc_L (++)), app_nil_r in Hw. exact Hw.
Qed.
End publishing.

(** ** Properties *)
Section properties.
(** C21: an update of the incremental stream with the next sequence number brings the synthesizer's
    tables, and the pool its pointers lead into, to the feed with that update applied; ADD needs
    the pool's next slot to be free. *)
Theorem addToSnapshot_refines m s f :
  syn_ok s f → update_ok (me_market_update_ m) f →
  mdp_seq_num_ m = u64 (last_inc_seq_num_ s + 1) →
  (upd_type_ (me_market_update_ m) = MarketUpdateType_ADD →
   is_free (syn_order_pool_ s) (next_free_ (syn_order_pool_ s)) = true) →
  ∃ s', addToSnapshot m s = Ok (tt, s') ∧ syn_ok s' (apply_update (me_market_update_ m) f) ∧
    last_inc_seq_num_ s' = mdp_seq_num_ m ∧ snapshot_socket_ s' = snapshot_socket_ s.
Proof.
  intros Hs Hu Hseq Hfree.
  apply (addToSnapshot_ok m s f Hs Hu Hseq), wp_ok in Hfree as ([] & s' & Hrun & Hs' & [_ Hsk _] & Hl).
  eauto.
Qed.

(** C22: a snapshot cycle, sent over a socket whose kernel takes what it is given, is the sequence of
    messages numbered from 0 that starts and ends with the sequence number of the last update
    applied; a receiver that applies them to whatever feed it had ends with the synthesizer's. *)
Theorem publishSnapshot_cycle accepts s f :
  (∀ n, 420 ≤ accepts n)%nat → syn_ok s f → outbound_data_ (snapshot_socket_ s) = [] →
  ∃ s', publishSnapshot accepts s = Ok (tt, s') ∧ syn_ok s' f ∧
    outbound_data_ (snapshot_socket_ s') = [] ∧
    transmitted_ (snapshot_socket_ s') = transmitted_ (snapshot_socket_ s) ++
      concat (wire_enc <$> numbered 0 (cycle (last_inc_seq_num_ s) f)) ∧
    ∀ g, map_Forall (λ k _, 0 ≤ k.1 < ME_MAX_TICKERS) g → apply_all (cycle (last_inc_seq_num_ s) f) g = f.
Proof.
  intros Ha Hs Ho.
  destruct (proj1 (wp_ok _ _ _) (publishSnapshot_ok accepts Ha s f Hs ltac:(unfold pending; by rewrite Ho)))
    as ([] & s' & Hrun & Hw & Hp).
  exists s'. pose proof (wrote_feed _ _ _ _ Hw Hs) as Hs'. apply nil_length_inv in Hp.
  destruct Hw as [_ Hw]. unfold sent_bytes in Hw. rewrite Ho, Hp, !app_nil_r in Hw.
  split_and!; [done|done|done|done|]. intros g Hg.
  rewrite apply_cycle. apply apply_snapshot; [apply Hs|done].
Qed.

(** What ends the exchange's process: an ADD of a live order, a MODIFY or CANCEL of one that is
    not live (assertions), and an order id of 2^20 or more, which the tables do not have although
    market order ids are never reused (an exception that nothing catches). *)
Theorem addToSnapshot_rejects m s f :
  syn_ok s f →
  let u := me_market_update_ m in
  0 ≤ upd_ticker_id_ u < ME_MAX_TICKERS →
  (upd_type_ u = MarketUpdateType_ADD → is_Some (f !! upd_key u) → addToSnapshot m s = Err Exit) ∧
  (upd_type_ u = MarketUpdateType_MODIFY ∨ upd_type_ u = MarketUpdateType_CANCEL →
   0 ≤ upd_order_id_ u < ME_MAX_ORDER_IDS → f !! upd_key u = None → addToSnapshot m s = Err Exit) ∧
  (upd_type_ u = MarketUpdateType_ADD → ME_MAX_ORDER_IDS ≤ upd_order_id_ u →
   addToSnapshot m s = Err OutOfRange).
Proof.
  intros Hs u Ht.
  assert (∀ e, updateOrders u s = Err e → addToSnapshot m s = Err e) as Hstep.
  { intros e H. unfold addToSnapshot. fold u. rewrite (proj2 (andb_true_iff _ _)) by lia.
    erewrite bind_Ok by reflexivity. apply bind_Err, H. }
  split_and!.
  - intros Hty [o Ho]. apply Hstep. unfold updateOrders. rewrite Hty.
    destruct (so_feed _ _ Hs _ _ Ho) as (_ & _ & [_ Hoid]). simpl in Hoid.
    destruct (syn_ok_entry _ _ _ _ Hs Ho) as (i & Hi & _).
    unfold snap_at, oid_in_range. rewrite (proj2 (andb_true_iff _ _)) by lia.
    rewrite gets_bind. fold (upd_key u). rewrite Hi. done.
  - intros Hty Hoid Hnone. apply Hstep. unfold updateOrders.
    pose proof (syn_ok_no_entry _ _ _ Hs Hnone) as Hn.
    assert (existing_order u s = Err Exit) as He.
    { unfold existing_order, snap_at, oid_in_range. rewrite (proj2 (andb_true_iff _ _)) by lia.
      rewrite gets_bind. fold (upd_key u). by rewrite Hn. }
    destruct Hty as [-> | ->]; by apply bind_Err.
  - intros Hty Hoid. apply Hstep. unfold updateOrders. rewrite Hty. apply bind_Err.
    unfold snap_at. assert (oid_in_range (upd_order_id_ u) = false) as -> by (unfold oid_in_range; lia).
    done.
Qed.
End properties.

(** ** A concrete synthesizer *)
Section example.
Definition add_update (oid : Z) : MEMarketUpdate :=
  MkMEMarketUpdate MarketUpdateType_ADD oid 3 Side_BUY 100 10 1.
Definition syn0 : SnapshotSynthesizer :=
  MkSnapshotSynthesizer (MkLFQueue ∅ (2 ^ 18) 0 0) Socket_new ∅ 0 0 (MkMemPool ∅ ME_MAX_ORDER_IDS 0).
Lemma SnapshotSynthesizer_new_ok :
  SnapshotSynthesizer_new (MkLFQueue ∅ (2 ^ 18) 0 0) = Ok syn0.
Proof. reflexivity. Qed.
Lemma syn0_ok : syn_ok syn0 ∅.
Proof. split; try done. split; simpl; [by exists 20|done]. Qed.
Definition syn1 : SnapshotSynthesizer :=
  set_ticker_orders {[(3, 7) := 0]}
    (set_syn_pool (allocated (add_update 7) (syn_order_pool_ syn0)) (set_last_inc_seq_num 1 syn0)).
Lemma syn1_ok : syn_ok syn1 {[(3, 7) := add_update 7]}.
Proof. destruct (syn_ok_add syn0 ∅ (add_update 7) syn0_ok ltac:(done) eq_refl eq_refl). by split. Qed.

Lemma addToSnapshot_refines_witness :
  ∃ s', addToSnapshot (MkMDPMarketUpdate 1 (add_update 7)) syn0 = Ok (tt, s') ∧
    syn_ok s' (apply_update (add_update 7) ∅) ∧ last_inc_seq_num_ s' = 1 ∧
    snapshot_socket_ s' = snapshot_socket_ syn0.
Proof. apply (addToSnapshot_refines (MkMDPMarketUpdate 1 (add_update 7)) syn0 ∅ syn0_ok); done. Defined.

Lemma publishSnapshot_cycle_witness :
  ∃ s', publishSnapshot (λ _, 420%nat) syn1 = Ok (tt, s') ∧ syn_ok s' {[(3, 7) := add_update 7]} ∧
    outbound_data_ (snapshot_socket_ s') = [] ∧
    transmitted_ (snapshot_socket_ s') = transmitted_ (snapshot_socket_ syn1) ++
      concat (wire_enc <$> numbered 0 (cycle (last_inc_seq_num_ syn1) {[(3, 7) := add_update 7]})) ∧
    ∀ g, map_Forall (λ k _, 0 ≤ k.1 < ME_MAX_TICKERS) g →
      apply_all (cycle (last_inc_seq_num_ syn1) {[(3, 7) := add_update 7]}) g = {[(3, 7) := add_update 7]}.
Proof. apply (publishSnapshot_cycle (λ _, 420%nat) syn1 _ (λ _, le_n _) syn1_ok). reflexivity. Defined.

Lemma addToSnapshot_rejects_witness :
  let m := MkMDPMarketUpdate 2 (add_update (2 ^ 20)) in
  let u := me_market_update_ m in
  let f := {[(3, 7) := add_update 7]} : feed in
  (upd_type_ u = MarketUpdateType_ADD → is_Some (f !! upd_key u) → addToSnapshot m syn1 = Err Exit) ∧
  (upd_type_ u = MarketUpdateType_MODIFY ∨ upd_type_ u = MarketUpdateType_CANCEL →
   0 ≤ upd_order_id_ u < ME_MAX_ORDER_IDS → f !! upd_key u = None → addToSnapshot m syn1 = Err Exit) ∧
  (upd_type_ u = MarketUpdateType_ADD → ME_MAX_ORDER_IDS ≤ upd_order_id_ u →
   addToSnapshot m syn1 = Err OutOfRange).
Proof. apply (addToSnapshot_rejects (MkMDPMarketUpdate 2 (add_update (2 ^ 20))) syn1 _ syn1_ok). done. Defined.
End example.
