(* ===== verification/MarketDataPublisher.v ===== *)
(** EXCHANGE/market_data/market_data_publisher.{h,cpp}: numbers the matching engine's market
    updates, writes them to the incremental multicast stream and forwards them to the
    snapshot synthesizer.

    Only one thread runs: the queue from the engine does not grow during a round.  The
    kernel's part in sending is a parameter. *)
From coqutil Require Import Byte Word.LittleEndianList.
From S2P Require Export SnapshotSynthesizer MatchingEngine.

Record MarketDataPublisher : Type := MkMarketDataPublisher {
  next_inc_seq_num_ : Z;
  pub_md_updates_ : LFQueue MEMarketUpdate;
  snapshot_md_updates_ : LFQueue MDPMarketUpdate;
  incremental_socket_ : Socket;
}.
Definition MarketDataPublisher_new (market_updates : LFQueue MEMarketUpdate) : res MarketDataPublisher :=
  res_bind (LFQueue_new ME_MAX_MARKET_UPDATES) (λ q,
  Ok (MkMarketDataPublisher 1 market_updates q Socket_new)).

Section setters.
Implicit Types p : MarketDataPublisher.
Definition set_next_inc (n : Z) p : MarketDataPublisher :=
  MkMarketDataPublisher n (pub_md_updates_ p) (snapshot_md_updates_ p) (incremental_socket_ p).
Definition set_pub_updates (q : LFQueue MEMarketUpdate) p : MarketDataPublisher :=
  MkMarketDataPublisher (next_inc_seq_num_ p) q (snapshot_md_updates_ p) (incremental_socket_ p).
Definition set_snapshot_updates (q : LFQueue MDPMarketUpdate) p : MarketDataPublisher :=
  MkMarketDataPublisher (next_inc_seq_num_ p) (pub_md_updates_ p) q (incremental_socket_ p).
Definition set_incremental (sk : Socket) p : MarketDataPublisher :=
  MkMarketDataPublisher (next_inc_seq_num_ p) (pub_md_updates_ p) (snapshot_md_updates_ p) sk.
End setters.

Definition on_updates {A} : M (LFQueue MEMarketUpdate) A → M MarketDataPublisher A :=
  zoom pub_md_updates_ set_pub_updates.
Definition incremental_send (data : list byte) : M MarketDataPublisher unit :=
  zoom incremental_socket_ set_incremental (mcast_send data).

(** The loop's body, for the element in slot [i].  The slot is read again after it was given
    back to the producer. *)
Definition publish_slot (i : Z) : M MarketDataPublisher unit :=
  market_update ← on_updates (read_slot MEMarketUpdate_default (Some i));
  next_inc_seq_num ← gets next_inc_seq_num_;
  _ ← incremental_send (le_split 8 next_inc_seq_num);
  _ ← incremental_send (put_MEMarketUpdate market_update);
  _ ← on_updates updateReadIndex;
  market_update ← on_updates (read_slot MEMarketUpdate_default (Some i));
  _ ← zoom snapshot_md_updates_ set_snapshot_updates
        (push (MkMDPMarketUpdate next_inc_seq_num market_update));
  modify (set_next_inc (u64 (next_inc_seq_num + 1))).

Fixpoint publish_updates (fuel : nat) : M MarketDataPublisher unit :=
  match fuel with
  | O => raise OutOfFuel
  | S fuel =>
    market_update ← on_updates getNextToRead;
    n ← on_updates queue_size;
    match market_update with
    | Some i => if n =? 0 then mret tt else _ ← publish_slot i; publish_updates fuel
    | None => mret tt
    end
  end.
(** One round of [run]; the kernel takes [accepts] bytes. *)
Definition publisher_round (accepts : nat) : M MarketDataPublisher unit :=
  n ← gets (λ p, length (contents MEMarketUpdate_default (pub_md_updates_ p)));
  _ ← publish_updates (S n);
  zoom incremental_socket_ set_incremental
    (_ ← mcast_sendAndRecv (gets id) modify (mret tt) (MkKernelEvent [] 0 accepts);
     mret tt).

(** ** What a round does *)
Definition pub_queue (p : MarketDataPublisher) (us : list MEMarketUpdate) : Prop :=
  queue_wf (pub_md_updates_ p) ∧ contents MEMarketUpdate_default (pub_md_updates_ p) = us.

Lemma mcast_send_message n u sk :
  Z.of_nat (length (outbound_data_ sk) + 42) < McastBufferSize →
  (_ ← mcast_send (le_split 8 n); mcast_send (put_MEMarketUpdate u)) sk =
    Ok (tt, set_outbound (outbound_data_ sk ++ wire_enc (MkMDPMarketUpdate n u)) sk).
Proof.
  intros H. pose proof (wire_enc_length (MkMDPMarketUpdate n u)) as Hl. cbn [wire_size MDPMarketUpdate_wire] in Hl.
  change (wire_enc (MkMDPMarketUpdate n u)) with (le_split 8 n ++ put_MEMarketUpdate u) in *.
  rewrite length_app, length_le_split in Hl.
  rewrite (bind_Ok _ _ _ _ _ (mcast_send_ok (le_split 8 n) sk ltac:(rewrite length_le_split; lia))).
  rewrite mcast_send_ok by (simpl; rewrite length_app, length_le_split; lia).
  simpl. by rewrite <- (assoc_L (++)).
Qed.

Lemma publish_slot_ok u us p vs k :
  pub_queue p (u :: us) → Z.of_nat (length (outbound_data_ (incremental_socket_ p)) + 42) < McastBufferSize →
  0 ≤ next_inc_seq_num_ p < 2 ^ 64 - 1 →
  queue_room MDPMarketUpdate_default (snapshot_md_updates_ p) (S k) vs →
  wp (publish_slot (read_pos_ (pub_md_updates_ p))) p (λ _ p', pub_queue p' us ∧
    next_inc_seq_num_ p' = next_inc_seq_num_ p + 1 ∧
    queue_room MDPMarketUpdate_default (snapshot_md_updates_ p') k
      (vs ++ [MkMDPMarketUpdate (next_inc_seq_num_ p) u]) ∧
    incremental_socket_ p' = set_outbound (outbound_data_ (incremental_socket_ p) ++
      wire_enc (MkMDPMarketUpdate (next_inc_seq_num_ p) u)) (incremental_socket_ p)).
Proof.
  intros [Hwf Hc] Hcap Hn Hq. set (q := pub_md_updates_ p) in *.
  destruct (pop_ok _ u us q Hwf Hc) as (_ & Hwf' & Hc').
  pose proof (queue_size_lt _ Hwf) as Hsize. pose proof Hwf as [_ Hp Hr].
  pose proof (contents_length MEMarketUpdate_default q Hwf) as Hl. rewrite Hc in Hl. simpl in Hl.
  assert (slot MEMarketUpdate_default q (read_pos_ q) = u) as Hslot.
  { rewrite (contents_popped _ q) in Hc by (done || lia). congruence. }
  assert (∀ q', q_size q' = q_size q → q_store_ q' = q_store_ q →
    read_slot MEMarketUpdate_default (Some (read_pos_ q)) q' = Ok (u, q')) as Hread.
  { intros q' Hs Hst. unfold read_slot. mrun. rewrite Hs, (proj2 (andb_true_iff _ _)) by lia.
    unfold slot in *. by rewrite Hst, Hslot. }
  pose proof (mcast_send_message (next_inc_seq_num_ p) u (incremental_socket_ p) Hcap) as Hm.
  unfold publish_slot, on_updates, incremental_send.
  apply wp_bind, wp_zoom. unfold wp at 1. rewrite Hread by done.
  apply wp_bind, wp_gets, wp_bind, wp_zoom. simpl.
  unfold mbind, M_bind in Hm. destruct (mcast_send (le_split 8 _) (incremental_socket_ p)) as [[[] sk1]|] eqn:E1; [|done].
  unfold wp at 1. rewrite E1. apply wp_bind, wp_zoom. simpl. unfold wp at 1. rewrite Hm.
  apply wp_bind, wp_zoom. simpl. fold q. unfold wp at 1, updateReadIndex. mrun.
  rewrite (proj2 (Z.eqb_neq _ _)) by lia. rewrite add_read_eq by (done || lia).
  apply wp_bind, wp_zoom. simpl. unfold wp at 1. rewrite Hread by done.
  apply wp_bind, wp_zoom. simpl. eapply wp_mono; [by apply queue_room_push|].
  intros [] q' [Hq' _]. apply wp_modify. split_and!; simpl; [by split|by apply u64_id; lia|done|done].
Qed.

Lemma publish_updates_ok us fuel p vs k :
  pub_queue p us →
  Z.of_nat (length (outbound_data_ (incremental_socket_ p)) + 42 * length us) < McastBufferSize →
  0 ≤ next_inc_seq_num_ p ∧ next_inc_seq_num_ p + Z.of_nat (length us) < 2 ^ 64 →
  queue_room MDPMarketUpdate_default (snapshot_md_updates_ p) (length us + k) vs →
  (length us < fuel)%nat →
  wp (publish_updates fuel) p (λ _ p', pub_queue p' [] ∧
    next_inc_seq_num_ p' = next_inc_seq_num_ p + Z.of_nat (length us) ∧
    queue_room MDPMarketUpdate_default (snapshot_md_updates_ p') k
      (vs ++ numbered (next_inc_seq_num_ p) us) ∧
    incremental_socket_ p' = set_outbound (outbound_data_ (incremental_socket_ p) ++
      concat (wire_enc <$> numbered (next_inc_seq_num_ p) us)) (incremental_socket_ p)).
Proof.
  revert fuel p vs. induction us as [|u us IH]; intros fuel p vs [Hwf Hc] Hcap Hn Hq Hf;
    (destruct fuel as [|fuel]; [simpl in Hf; lia|]); cbn [publish_updates];
    assert (set_pub_updates (pub_md_updates_ p) p = p) as Hid by (by destruct p);
    pose proof (contents_length MEMarketUpdate_default _ Hwf) as Hl; rewrite Hc in Hl; simpl in Hl;
    pose proof (queue_size_ok MEMarketUpdate_default _ Hwf) as Hsz; rewrite Hc in Hsz;
    apply wp_bind, wp_zoom; unfold wp at 1, getNextToRead; mrun.
  - rewrite (proj2 (Z.eqb_eq _ _)) by lia. apply wp_bind, wp_zoom. rewrite Hid. unfold wp at 1.
    rewrite Hsz, Hid. apply wp_ret. cbn [fmap list_fmap concat]. rewrite !app_nil_r.
    split_and!; [by split|simpl; lia|done|by destruct (incremental_socket_ p)].
  - rewrite (proj2 (Z.eqb_neq _ _)) by lia. apply wp_bind, wp_zoom. rewrite Hid. unfold wp at 1.
    rewrite Hsz, Hid. cbn [length]. rewrite (proj2 (Z.eqb_neq _ _)) by lia.
    cbn [length] in Hcap, Hn, Hq, Hf.
    apply wp_bind. eapply wp_mono; [apply (publish_slot_ok u us p vs (length us + k)); [by split|lia|lia|done]|].
    intros [] p1 (Hp1 & Hn1 & Hq1 & Hs1). eapply wp_mono.
    { apply (IH fuel p1 (vs ++ [MkMDPMarketUpdate (next_inc_seq_num_ p) u]) Hp1); [|rewrite Hn1; lia|done|lia].
      pose proof (wire_enc_length (MkMDPMarketUpdate (next_inc_seq_num_ p) u)) as Hw.
      rewrite Hs1. cbn [outbound_data_ set_outbound]. rewrite length_app, Hw.
      cbn [wire_size MDPMarketUpdate_wire]. lia. }
    intros [] p2 (Hp2 & Hn2 & Hq2 & Hs2). rewrite Hn1 in Hn2, Hq2, Hs2. rewrite Hs1 in Hs2.
    rewrite numbered_cons. split_and!; [done|lia|by rewrite <- (assoc_L (++)) in Hq2|].
    rewrite Hs2, fmap_cons. cbn [concat]. rewrite (assoc_L (++)). done.
Qed.

(** ** Properties *)
(** C23: in a round the publisher gives consecutive sequence numbers to the engine's updates, and writes
    the same numbered messages, in order, to the incremental stream and to the snapshot synthesizer's
    queue, when that queue has room for them, the stream's buffer was empty and holds them all, and the
    kernel takes the whole buffer. *)
Theorem publisher_round_numbers us accepts p vs k :
  pub_queue p us → queue_room MDPMarketUpdate_default (snapshot_md_updates_ p) (length us + k) vs →
  outbound_data_ (incremental_socket_ p) = [] →
  42 * Z.of_nat (length us) < McastBufferSize → (42 * length us ≤ accepts)%nat →
  0 ≤ next_inc_seq_num_ p ∧ next_inc_seq_num_ p + Z.of_nat (length us) < 2 ^ 64 →
  ∃ p', publisher_round accepts p = Ok (tt, p') ∧ pub_queue p' [] ∧
    next_inc_seq_num_ p' = next_inc_seq_num_ p + Z.of_nat (length us) ∧
    queue_room MDPMarketUpdate_default (snapshot_md_updates_ p') k (vs ++ numbered (next_inc_seq_num_ p) us) ∧
    transmitted_ (incremental_socket_ p') = transmitted_ (incremental_socket_ p) ++
      concat (wire_enc <$> numbered (next_inc_seq_num_ p) us).
Proof.
  intros Hp Hq Ho Hcap Ha Hn. pose proof Hp as [_ Hc].
  assert (length (concat (wire_enc <$> numbered (next_inc_seq_num_ p) us)) = 42 * length us)%nat as Hlen.
  { clear. generalize (next_inc_seq_num_ p). induction us as [|u us IH]; intros n; [done|].
    rewrite numbered_cons, fmap_cons. cbn [concat]. rewrite length_app, IH.
    rewrite (wire_enc_length (MkMDPMarketUpdate n u)). cbn [wire_size MDPMarketUpdate_wire length]. lia. }
  assert (wp (publisher_round accepts) p (λ _ p', pub_queue p' [] ∧
    next_inc_seq_num_ p' = next_inc_seq_num_ p + Z.of_nat (length us) ∧
    queue_room MDPMarketUpdate_default (snapshot_md_updates_ p') k (vs ++ numbered (next_inc_seq_num_ p) us) ∧
    transmitted_ (incremental_socket_ p') = transmitted_ (incremental_socket_ p) ++
      concat (wire_enc <$> numbered (next_inc_seq_num_ p) us))) as H.
  { unfold publisher_round. apply wp_bind, wp_gets. rewrite Hc. apply wp_bind.
    eapply wp_mono; [apply (publish_updates_ok us _ p vs k); [done|rewrite Ho; simpl; lia|done|done|lia]|].
    intros [] p1 (Hp1 & Hn1 & Hq1 & Hs1). apply wp_zoom. rewrite Hs1, Ho. unfold wp, mcast_sendAndRecv, sendAndRecv. mrun.
    cbn [k_data]. rewrite kernel_copy_nil. cbn [app]. rewrite transmit_all by (cbn [outbound_data_ set_outbound k_accepts]; lia).
    done. }
  apply wp_ok in H as ([] & p' & ? & ?). eauto.
Qed.

Section example.
Definition publisher0 : MarketDataPublisher :=
  MkMarketDataPublisher 1 (pushed (add_update 8) (pushed (add_update 7) new_queue)) new_queue Socket_new.
Lemma publisher_round_numbers_witness :
  ∃ p', publisher_round 84 publisher0 = Ok (tt, p') ∧ pub_queue p' [] ∧
    next_inc_seq_num_ p' = 1 + Z.of_nat 2 ∧
    queue_room MDPMarketUpdate_default (snapshot_md_updates_ p') 5
      ([] ++ numbered 1 [add_update 7; add_update 8]) ∧
    transmitted_ (incremental_socket_ p') =
      [] ++ concat (wire_enc <$> numbered 1 [add_update 7; add_update 8]).
Proof.
  apply (publisher_round_numbers [add_update 7; add_update 8] 84 publisher0 [] 5).
  - split; [|vm_compute; reflexivity].
    apply can_push_wf; [|reflexivity]. apply can_push_wf; [apply new_queue_wf|reflexivity].
  - split_and!; [apply new_queue_wf|reflexivity|simpl; lia].
  - reflexivity.
  - simpl. unfold McastBufferSize. lia.
  - simpl. lia.
  - simpl. lia.
Defined.
End example.
