(* ===== verification/ExchangeProcess.v ===== *)
(** EXCHANGE/exchange_main.cpp: the exchange's process, and the constructors that open sockets.

    The global objects are [unique_ptr]s: [None] until [make_unique] and after [reset].  An object comes
    with its flag [run_]; the queues of the process are values that the constructors get, as in the
    constructors of the components.  The names of the interface, the groups and the ports are those of the
    source.  The loop that waits for the signal ends; sleeping and the calibration of the clock are left
    out. *)
From S2P Require Export Threads MarketDataPublisher EngineDestroy.

Section process.
Context (setThreadCore : Z → bool) (kernel : trace → syscall → Z).
Context (getifaddrs : option (list ifaddr)).
Context (getaddrinfo : string → string → addrinfo_hints → option (list addrinfo)).

(** A multicast socket to publish on, and one to read from: [init], and [join] for the latter. *)
Definition mcast_publisher (ip iface : string) (port : Z) : M trace Z :=
  fd ← mcast_init kernel getifaddrs getaddrinfo ip iface port false;
  _ ← ASSERT (0 <=? fd);
  mret fd.
Definition mcast_subscriber (ip iface : string) (port : Z) : M trace Z :=
  fd ← mcast_init kernel getifaddrs getaddrinfo ip iface port true;
  _ ← ASSERT (0 <=? fd);
  joined ← mcast_join kernel fd ip;
  _ ← ASSERT joined;
  mret fd.

(** The constructors of [SnapshotSynthesizer] and [MarketDataPublisher]. *)
Definition SnapshotSynthesizer_open (market_updates : LFQueue MDPMarketUpdate)
    (iface snapshot_ip : string) (snapshot_port : Z) : M trace SnapshotSynthesizer :=
  s ← of_res (SnapshotSynthesizer_new market_updates);
  _ ← mcast_publisher snapshot_ip iface snapshot_port;
  mret s.
Definition MarketDataPublisher_open (market_updates : LFQueue MEMarketUpdate) (iface snapshot_ip : string)
    (snapshot_port : Z) (incremental_ip : string) (incremental_port : Z) :
    M trace (MarketDataPublisher * SnapshotSynthesizer) :=
  p ← of_res (MarketDataPublisher_new market_updates);
  _ ← mcast_publisher incremental_ip iface incremental_port;
  s ← SnapshotSynthesizer_open (snapshot_md_updates_ p) iface snapshot_ip snapshot_port;
  mret (p, s).

Record ExchangeProcess : Type := MkExchangeProcess {
  xp_trace : trace;
  xp_logger : LoggerThread;
  g_performance_dashboard : Reporter;
  matching_engine : option (MatchingEngine * bool);
  market_data_publisher : option (MarketDataPublisher * SnapshotSynthesizer * (bool * bool));
  order_server : option (OrderServer * bool);
}.
Definition set_xp_trace (tr : trace) (x : ExchangeProcess) : ExchangeProcess :=
  MkExchangeProcess tr (xp_logger x) (g_performance_dashboard x) (matching_engine x)
    (market_data_publisher x) (order_server x).
Definition set_xp_logger (l : LoggerThread) (x : ExchangeProcess) : ExchangeProcess :=
  MkExchangeProcess (xp_trace x) l (g_performance_dashboard x) (matching_engine x)
    (market_data_publisher x) (order_server x).
Definition set_dashboard (d : Reporter) (x : ExchangeProcess) : ExchangeProcess :=
  MkExchangeProcess (xp_trace x) (xp_logger x) d (matching_engine x) (market_data_publisher x) (order_server x).
Definition set_matching_engine (e : option (MatchingEngine * bool)) (x : ExchangeProcess) : ExchangeProcess :=
  MkExchangeProcess (xp_trace x) (xp_logger x) (g_performance_dashboard x) e
    (market_data_publisher x) (order_server x).
Definition set_publisher (p : option (MarketDataPublisher * SnapshotSynthesizer * (bool * bool)))
    (x : ExchangeProcess) : ExchangeProcess :=
  MkExchangeProcess (xp_trace x) (xp_logger x) (g_performance_dashboard x) (matching_engine x) p (order_server x).
Definition set_order_server (s : option (OrderServer * bool)) (x : ExchangeProcess) : ExchangeProcess :=
  MkExchangeProcess (xp_trace x) (xp_logger x) (g_performance_dashboard x) (matching_engine x)
    (market_data_publisher x) s.
(** The global dashboard of performance_dashboard.cpp, constructed before [main]. *)
Definition global_dashboard : Reporter := Reporter_new.
Definition ExchangeProcess_new : ExchangeProcess :=
  MkExchangeProcess [] (MkLoggerThread true None) global_dashboard None None None.

Definition on_xp_trace {A} : M trace A → M ExchangeProcess A := zoom xp_trace set_xp_trace.
Definition on_xp_logger {A} : M LoggerThread A → M ExchangeProcess A := zoom xp_logger set_xp_logger.
Definition on_dashboard {A} : M Reporter A → M ExchangeProcess A :=
  zoom g_performance_dashboard set_dashboard.

(** [start] of each component. *)
Definition start_matching_engine : M ExchangeProcess unit :=
  p ← gets matching_engine;
  e ← deref p;
  run ← of_res (start setThreadCore e.2);
  modify (set_matching_engine (Some (e.1, run.2))).
Definition start_publisher : M ExchangeProcess unit :=
  p ← gets market_data_publisher;
  p ← deref p;
  run ← of_res (MarketDataPublisher_start setThreadCore p.2);
  modify (set_publisher (Some (p.1, run.2))).
Definition start_order_server (iface : string) (port : Z) : M ExchangeProcess unit :=
  p ← gets order_server;
  s ← deref p;
  tr ← gets xp_trace;
  r ← of_res (OrderServer_start setThreadCore kernel getifaddrs getaddrinfo iface port (s.2, tr));
  _ ← modify (set_xp_trace r.2.2);
  modify (set_order_server (Some (s.1, r.2.1))).

(** [reset] of each component: its destructor, if there is one, which stops it.  The publisher's also
    stops and destroys the synthesizer. *)
Definition reset_order_server : M ExchangeProcess unit := modify (set_order_server None).
Definition reset_publisher : M ExchangeProcess unit := modify (set_publisher None).
(** The texts the books log. *)
Definition reset_matching_engine : M ExchangeProcess (list string) :=
  p ← gets matching_engine;
  match p with
  | None => mret []
  | Some e =>
      r ← of_res (MatchingEngine_destroy e);
      _ ← modify (set_matching_engine None);
      mret r.1
  end.

(** [main]; the memories are what the uninitialised arrays of the engine's books hold.  The result is
    what the books log at the end. *)
Definition exchange_main (file_opens : bool) (cid_mem : gmap (Z * Z) Z) (price_mem : gmap Z Z) :
    M ExchangeProcess (list string) :=
  _ ← on_xp_logger (Logger_open setThreadCore file_opens);
  _ ← on_dashboard dashboard_start;
  client_requests ← of_res (LFQueue_new ME_MAX_CLIENT_UPDATES);
  client_responses ← of_res (LFQueue_new ME_MAX_CLIENT_UPDATES);
  market_updates ← of_res (LFQueue_new ME_MAX_MARKET_UPDATES);
  engine ← of_res (MatchingEngine_new client_requests client_responses market_updates cid_mem price_mem);
  _ ← modify (set_matching_engine (Some (engine, false)));
  _ ← start_matching_engine;
  publisher ← on_xp_trace
    (MarketDataPublisher_open market_updates "lo" "233.252.14.1" 20000 "233.252.14.3" 20001);
  _ ← modify (set_publisher (Some (publisher, (false, false))));
  _ ← start_publisher;
  _ ← modify (set_order_server (Some (OrderServer_new client_requests client_responses, false)));
  _ ← start_order_server "lo" 12345;
  _ ← reset_order_server;
  _ ← reset_publisher;
  texts ← reset_matching_engine;
  _ ← on_dashboard dashboard_stop;
  _ ← on_xp_logger (Logger_close);
  mret texts.
End process.

(** [main] does not get past its first [start]. *)
Lemma exchange_main_ends setThreadCore kernel getifaddrs getaddrinfo file_opens cid_mem price_mem :
  exchange_main setThreadCore kernel getifaddrs getaddrinfo file_opens cid_mem price_mem ExchangeProcess_new =
    Err (if file_opens then Terminate else Exit).
Proof. by destruct file_opens. Qed.

(** What the publisher's constructor asks of the system: two sockets, connected to their groups. *)
Example publisher_opens :
  match MarketDataPublisher_open (linux_like 0) interfaces numeric_host new_queue "lo"
          "233.252.14.1" 20000 "233.252.14.3" 20001 [] with
  | Ok (_, tr) => tr =
      [Sys_socket 2 2 17; Sys_getfl 3; Sys_setfl 3 2050; Sys_connect 3 (Resolved "233.252.14.3:20001");
       Sys_socket 2 2 17; Sys_getfl 4; Sys_setfl 4 2050; Sys_connect 4 (Resolved "233.252.14.1:20000")]
  | Err _ => False
  end.
Proof. vm_compute. reflexivity. Qed.
