(* ===== verification/MarketDataConsumer.v ===== *)
(** trading/market_data/market_data_consumer.{h,cpp}: the trading client's end of the market
    data feed, with recovery from the snapshot stream.

    [std::map] is a finite map traversed in ascending key order ([entries]).  The sockets
    are two [Socket]s; [recvCallback] is told which of the two it was called for (the code
    compares file descriptors).  Creating and joining the snapshot socket are kernel calls
    whose success is the parameter [join_ok].  Logging and measurements are not modelled. *)
From S2P Require Export Feed LFQueue Sockets MatchingEngine.

(** [std::map<size_t, MEMarketUpdate>]. *)
Abbreviation queued := (gmap Z MEMarketUpdate).
Definition entry_le (x y : Z * MEMarketUpdate) : Prop := x.1 ≤ y.1.
#[export] Instance entry_le_dec x y : Decision (entry_le x y).
Proof. unfold entry_le. apply _. Defined.
#[export] Instance entry_le_trans : Transitive entry_le.
Proof. intros x y z. unfold entry_le. lia. Qed.
#[export] Instance entry_le_total : Total entry_le.
Proof. intros x y. unfold entry_le. lia. Qed.
Definition entries (m : queued) : list (Z * MEMarketUpdate) := merge_sort entry_le (map_to_list m).

Record MarketDataConsumer : Type := MkMarketDataConsumer {
  next_exp_inc_seq_num_ : Z;
  incoming_md_updates_ : LFQueue MEMarketUpdate;
  incremental_mcast_socket_ : Socket;
  snapshot_mcast_socket_ : Socket;
  in_recovery_ : bool;
  snapshot_queued_msgs_ : queued;
  incremental_queued_msgs_ : queued;
}.
Definition MarketDataConsumer_new (market_updates : LFQueue MEMarketUpdate) : MarketDataConsumer :=
  MkMarketDataConsumer 1 market_updates Socket_new Socket_new false ∅ ∅.

Section setters.
Implicit Types c : MarketDataConsumer.
Definition set_next_exp_inc (n : Z) c : MarketDataConsumer :=
  MkMarketDataConsumer n (incoming_md_updates_ c) (incremental_mcast_socket_ c)
    (snapshot_mcast_socket_ c) (in_recovery_ c) (snapshot_queued_msgs_ c) (incremental_queued_msgs_ c).
Definition set_incoming_md (q : LFQueue MEMarketUpdate) c : MarketDataConsumer :=
  MkMarketDataConsumer (next_exp_inc_seq_num_ c) q (incremental_mcast_socket_ c)
    (snapshot_mcast_socket_ c) (in_recovery_ c) (snapshot_queued_msgs_ c) (incremental_queued_msgs_ c).
Definition set_inc_socket (sk : Socket) c : MarketDataConsumer :=
  MkMarketDataConsumer (next_exp_inc_seq_num_ c) (incoming_md_updates_ c) sk
    (snapshot_mcast_socket_ c) (in_recovery_ c) (snapshot_queued_msgs_ c) (incremental_queued_msgs_ c).
Definition set_snap_socket (sk : Socket) c : MarketDataConsumer :=
  MkMarketDataConsumer (next_exp_inc_seq_num_ c) (incoming_md_updates_ c)
    (incremental_mcast_socket_ c) sk (in_recovery_ c) (snapshot_queued_msgs_ c) (incremental_queued_msgs_ c).
Definition set_in_recovery (b : bool) c : MarketDataConsumer :=
  MkMarketDataConsumer (next_exp_inc_seq_num_ c) (incoming_md_updates_ c) (incremental_mcast_socket_ c)
    (snapshot_mcast_socket_ c) b (snapshot_queued_msgs_ c) (incremental_queued_msgs_ c).
Definition set_snapshot_queued (m : queued) c : MarketDataConsumer :=
  MkMarketDataConsumer (next_exp_inc_seq_num_ c) (incoming_md_updates_ c) (incremental_mcast_socket_ c)
    (snapshot_mcast_socket_ c) (in_recovery_ c) m (incremental_queued_msgs_ c).
Definition set_incremental_queued (m : queued) c : MarketDataConsumer :=
  MkMarketDataConsumer (next_exp_inc_seq_num_ c) (incoming_md_updates_ c) (incremental_mcast_socket_ c)
    (snapshot_mcast_socket_ c) (in_recovery_ c) (snapshot_queued_msgs_ c) m.
End setters.

(** [type != SNAPSHOT_START && type != SNAPSHOT_END]. *)
Definition is_event (u : MEMarketUpdate) : bool :=
  negb (bool_decide (upd_type_ u = MarketUpdateType_SNAPSHOT_START)) &&
  negb (bool_decide (upd_type_ u = MarketUpdateType_SNAPSHOT_END)).

(** The loop over the snapshot messages: [None] if there is a gap, else the events. *)
Fixpoint scan_snapshot (es : list (Z * MEMarketUpdate)) (next_snapshot_seq : Z)
    (final_events : list MEMarketUpdate) : option (list MEMarketUpdate) :=
  match es with
  | [] => Some final_events
  | (seq, u) :: es =>
    if seq =? next_snapshot_seq then
      scan_snapshot es (u64 (next_snapshot_seq + 1))
        (if is_event u then final_events ++ [u] else final_events)
    else None
  end.
(** The loop over the queued incremental messages: whether there was no gap, the next expected
    number (a member of the consumer, assigned as the loop runs), and the events. *)
Fixpoint scan_incremental (es : list (Z * MEMarketUpdate)) (next_exp : Z)
    (final_events : list MEMarketUpdate) : bool * Z * list MEMarketUpdate :=
  match es with
  | [] => (true, next_exp, final_events)
  | (seq, u) :: es =>
    if seq <? next_exp then scan_incremental es next_exp final_events
    else if negb (seq =? next_exp) then (false, next_exp, final_events)
    else scan_incremental es (u64 (next_exp + 1)) (if is_event u then final_events ++ [u] else final_events)
  end.

Fixpoint push_events (us : list MEMarketUpdate) : M (LFQueue MEMarketUpdate) unit :=
  match us with [] => mret tt | u :: us => _ ← push u; push_events us end.
Definition on_incoming_md {A} : M (LFQueue MEMarketUpdate) A → M MarketDataConsumer A :=
  zoom incoming_md_updates_ set_incoming_md.

(** [leave] closes the snapshot socket; it says nothing to the containers. *)
Definition checkSnapshotSync : M MarketDataConsumer unit :=
  snapshot ← gets (λ c, entries (snapshot_queued_msgs_ c));
  match snapshot with
  | [] => mret tt
  | (_, first_snapshot_msg) :: _ =>
    if negb (bool_decide (upd_type_ first_snapshot_msg = MarketUpdateType_SNAPSHOT_START))
    then modify (set_snapshot_queued ∅)
    else
      match scan_snapshot snapshot 0 [] with
      | None => modify (set_snapshot_queued ∅)
      | Some final_events =>
        last_snapshot_msg ← deref (snd <$> last snapshot);
        if negb (bool_decide (upd_type_ last_snapshot_msg = MarketUpdateType_SNAPSHOT_END))
        then mret tt
        else
          _ ← modify (set_next_exp_inc (u64 (upd_order_id_ last_snapshot_msg + 1)));
          next_exp ← gets next_exp_inc_seq_num_;
          incremental ← gets (λ c, entries (incremental_queued_msgs_ c));
          let '(have_complete_incremental, next_exp, final_events) :=
            scan_incremental incremental next_exp final_events in
          _ ← modify (set_next_exp_inc next_exp);
          if negb have_complete_incremental then modify (set_snapshot_queued ∅)
          else
            _ ← on_incoming_md (push_events final_events);
            _ ← modify (set_snapshot_queued ∅);
            _ ← modify (set_incremental_queued ∅);
            modify (set_in_recovery false)
      end
  end.

Definition queueMessage (is_snapshot : bool) (request : MDPMarketUpdate) : M MarketDataConsumer unit :=
  _ ← (if is_snapshot then
         m ← gets snapshot_queued_msgs_;
         _ ← (if bool_decide (is_Some (m !! mdp_seq_num_ request))
              then modify (set_snapshot_queued ∅) else mret tt);
         modify (λ c, set_snapshot_queued
           (<[mdp_seq_num_ request := me_market_update_ request]> (snapshot_queued_msgs_ c)) c)
       else
         modify (λ c, set_incremental_queued
           (<[mdp_seq_num_ request := me_market_update_ request]> (incremental_queued_msgs_ c)) c));
  checkSnapshotSync.

Section consumer.
Context (join_ok : bool).

Definition startSnapshotSync : M MarketDataConsumer unit :=
  _ ← modify (set_snapshot_queued ∅);
  _ ← modify (set_incremental_queued ∅);
  ASSERT join_ok.

(** The body of the loop of [recvCallback]. *)
Definition recvUpdate (is_snapshot : bool) (request : MDPMarketUpdate) : M MarketDataConsumer unit :=
  already_in_recovery ← gets in_recovery_;
  next_exp ← gets next_exp_inc_seq_num_;
  let in_recovery := already_in_recovery || negb (mdp_seq_num_ request =? next_exp) in
  _ ← modify (set_in_recovery in_recovery);
  if in_recovery then
    _ ← (if already_in_recovery : bool then mret tt else startSnapshotSync);
    queueMessage is_snapshot request
  else if is_snapshot then mret tt
  else
    _ ← modify (set_next_exp_inc (u64 (next_exp + 1)));
    on_incoming_md (push (me_market_update_ request)).

Definition mcast_socket (is_snapshot : bool) (c : MarketDataConsumer) : Socket :=
  if is_snapshot then snapshot_mcast_socket_ c else incremental_mcast_socket_ c.
Definition set_mcast_socket (is_snapshot : bool) (sk : Socket) (c : MarketDataConsumer) : MarketDataConsumer :=
  if is_snapshot then set_snap_socket sk c else set_inc_socket sk c.

Definition recvMarketData (is_snapshot : bool) : M MarketDataConsumer unit :=
  sk ← gets (mcast_socket is_snapshot);
  in_recovery ← gets in_recovery_;
  if is_snapshot && negb in_recovery
  then modify (λ c, set_mcast_socket is_snapshot (set_inbound [] (mcast_socket is_snapshot c)) c)
  else
    rest ← recv_messages (recvUpdate is_snapshot) (inbound_data_ sk);
    modify (λ c, set_mcast_socket is_snapshot (set_inbound rest (mcast_socket is_snapshot c)) c).

(** One round of [run]. *)
Definition consumer_round (inc snap : kernel_event) : M MarketDataConsumer unit :=
  _ ← mcast_sendAndRecv (gets (mcast_socket false))
        (λ f, modify (λ c, set_mcast_socket false (f (mcast_socket false c)) c))
        (recvMarketData false) inc;
  _ ← mcast_sendAndRecv (gets (mcast_socket true))
        (λ f, modify (λ c, set_mcast_socket true (f (mcast_socket true c)) c))
        (recvMarketData true) snap;
  mret tt.
End consumer.
