(* ===== verification/MarketDataConsumerProps.v ===== *)
(** The trading client's feed is the exchange's: for any loss, repetition or reordering of the
    numbered messages on the incremental stream, and any loss in a snapshot cycle, what the
    consumer passes on adds up to a state the exchange's feed went through, and to the
    current one whenever the consumer is not in recovery. *)
From S2P Require Export MarketDataConsumer SnapshotSynthesizer.

(** ** The containers *)
Lemma elem_of_entries (m : queued) k u : (k, u) ∈ entries m ↔ m !! k = Some u.
Proof. unfold entries. by rewrite merge_sort_Permutation, elem_of_map_to_list. Qed.
Lemma entries_sorted (m : queued) : StronglySorted (λ x y, x.1 < y.1) (entries m).
Proof.
  assert (NoDup (entries m).*1) as Hnd.
  { unfold entries. rewrite merge_sort_Permutation. apply NoDup_fst_map_to_list. }
  pose proof (StronglySorted_merge_sort entry_le (map_to_list m)) as Hs. fold (entries m) in Hs.
  induction Hs as [|x l Hs IH Hx]; [constructor|]. apply NoDup_cons in Hnd as [Hnin Hnd].
  constructor; [by apply IH|]. rewrite Forall_forall in Hx |- *. intros y Hy.
  specialize (Hx y Hy). unfold entry_le in Hx.
  destruct (decide (x.1 = y.1)) as [E|]; [|lia]. exfalso. apply Hnin. rewrite E. by apply list_elem_of_fmap_2.
Qed.
Lemma entries_empty : entries ∅ = [].
Proof. reflexivity. Qed.
Lemma entries_insert_max (m : queued) k u :
  (∀ j w, m !! j = Some w → j < k) → entries (<[k := u]> m) = entries m ++ [(k, u)].
Proof.
  intros Hm. apply (StronglySorted_unique_strong (λ x y, x.1 < y.1)).
  - intros x y _ _ ? ?. lia.
  - apply entries_sorted.
  - apply StronglySorted_app_2; [|apply entries_sorted|by repeat constructor].
    intros [j w] y Hj%elem_of_entries ->%list_elem_of_singleton. simpl. by eapply Hm.
  - unfold entries. rewrite !merge_sort_Permutation, map_to_list_insert.
    + by rewrite Permutation_cons_append.
    + destruct (m !! k) as [w|] eqn:E; [|done]. specialize (Hm _ _ E). lia.
Qed.

Lemma queue_room_weaken {T} (d : T) q n n' vs : (n' ≤ n)%nat → queue_room d q n vs → queue_room d q n' vs.
Proof. intros Hn (? & ? & ?). split_and!; [done|done|lia]. Qed.
Lemma push_events_ok us q n vs :
  queue_room MEMarketUpdate_default q (length us + n) vs →
  wp (push_events us) q (λ _ q', queue_room MEMarketUpdate_default q' n (vs ++ us)).
Proof.
  revert q vs. induction us as [|u us IH]; intros q vs Hq; [apply wp_ret; by rewrite app_nil_r|].
  simpl. apply wp_bind. eapply wp_mono; [exact (queue_room_push MEMarketUpdate_default u q (length us + n) vs Hq)|]. intros [] q' [Hq' _].
  assert (vs ++ u :: us = (vs ++ [u]) ++ us) as -> by by rewrite <- (assoc_L (++)). by apply IH.
Qed.

(** ** The events among some messages *)
Definition events (us : list MEMarketUpdate) : list MEMarketUpdate := filter (λ u, is_event u = true) us.
Lemma apply_events us f : apply_all (events us) f = apply_all us f.
Proof.
  revert f. induction us as [|u us IH]; intros f; [done|]. unfold events.
  destruct (decide (is_event u = true)) as [He|He].
  - rewrite filter_cons_True by done. rewrite !apply_all_cons. apply IH.
  - rewrite filter_cons_False by done. rewrite apply_all_cons. unfold events in IH. rewrite IH.
    f_equal. unfold is_event in He. unfold apply_update. by destruct (upd_type_ u).
Qed.
Lemma events_length us : (length (events us) ≤ length us)%nat.
Proof. apply length_filter. Qed.

Lemma scan_snapshot_some es n acc evs :
  0 ≤ n → n + Z.of_nat (length es) < 2 ^ 64 → scan_snapshot es n acc = Some evs →
  es.*1 = seqZ n (Z.of_nat (length es)) ∧ evs = acc ++ events es.*2.
Proof.
  revert n acc. induction es as [|[k u] es IH]; intros n acc H0 Hn; simpl in *.
  { intros [= ->]. by rewrite app_nil_r. }
  destruct (Z.eqb_spec k n) as [->|]; [|done]. rewrite u64_id by lia. intros Hs.
  apply IH in Hs as [H1 ->]; [|lia|lia].
  rewrite Nat2Z.inj_succ, (seqZ_cons n) by lia. rewrite Z.pred_succ, <- Z.add_1_r.
  split; [by f_equal|]. unfold events. destruct (is_event u) eqn:He.
  - rewrite filter_cons_True by done. by rewrite <- (assoc_L (++)).
  - rewrite filter_cons_False by congruence. done.
Qed.
Lemma scan_snapshot_complete es n acc :
  0 ≤ n → n + Z.of_nat (length es) < 2 ^ 64 → es.*1 = seqZ n (Z.of_nat (length es)) →
  scan_snapshot es n acc = Some (acc ++ events es.*2).
Proof.
  revert n acc. induction es as [|[k u] es IH]; intros n acc H0 Hn Hs; simpl in *; [by rewrite app_nil_r|].
  rewrite Nat2Z.inj_succ, (seqZ_cons n) in Hs by lia. rewrite Z.pred_succ, <- Z.add_1_r in Hs.
  simplify_eq. rewrite Z.eqb_refl, u64_id by lia. rewrite IH by (done || lia). f_equal.
  unfold events. destruct (is_event u) eqn:He.
  - rewrite filter_cons_True by done. by rewrite <- (assoc_L (++)).
  - rewrite filter_cons_False by congruence. done.
Qed.

Lemma length_entries (m : queued) a L :
  map_Forall (λ k _, a ≤ k < a + Z.of_nat L) m → (length (entries m) ≤ L)%nat.
Proof.
  intros Hm. unfold entries. rewrite merge_sort_Permutation, <- (length_fmap fst).
  rewrite <- (Nat2Z.id L), <- (length_seqZ a (Z.of_nat L)). apply submseteq_length, NoDup_submseteq.
  - apply NoDup_fst_map_to_list.
  - intros k Hk. apply list_elem_of_fmap in Hk as ([k' u] & -> & Hu%elem_of_map_to_list).
    apply elem_of_seqZ. exact (Hm _ _ Hu).
Qed.
Lemma apply_event u acc g :
  apply_all (if is_event u then acc ++ [u] else acc) g = apply_update u (apply_all acc g).
Proof.
  destruct (is_event u) eqn:He; [by rewrite apply_all_app|].
  unfold is_event in He. unfold apply_update. by destruct (upd_type_ u).
Qed.

(** Queued messages without a gap from [next] on are all taken. *)
Lemma scan_incremental_contiguous es next acc m :
  StronglySorted (λ x y, x.1 < y.1) es → 0 ≤ next → next + Z.of_nat m < 2 ^ 64 →
  filter (λ k, next ≤ k) es.*1 = seqZ next (Z.of_nat m) →
  (scan_incremental es next acc).1 = (true, next + Z.of_nat m).
Proof.
  intros Hs. revert next acc m. induction Hs as [|[k u] es Hs IH Hk]; intros next acc m H0 Hm Hf.
  { destruct m; [by rewrite Z.add_0_r|]. rewrite seqZ_cons in Hf by lia. done. }
  cbn [scan_incremental]. rewrite fmap_cons in Hf. cbn [fst] in Hf.
  destruct (Z.ltb_spec k next).
  - rewrite filter_cons_False in Hf by lia. by apply IH.
  - rewrite filter_cons_True in Hf by lia.
    destruct m as [|m]; [done|]. rewrite seqZ_cons in Hf by lia. injection Hf as -> Hf.
    rewrite Z.eqb_refl, u64_id by lia. cbn [negb].
    replace (next + Z.of_nat (S m)) with (next + 1 + Z.of_nat m) by lia. apply IH; [lia|lia|].
    replace (Z.pred (Z.of_nat (S m))) with (Z.of_nat m) in Hf by lia. rewrite <- Z.add_1_r in Hf.
    rewrite <- Hf. apply filter_Forall_iff, Forall_forall. intros j Hj.
    apply list_elem_of_fmap in Hj as ([j' u'] & -> & Hj). rewrite Forall_forall in Hk.
    specialize (Hk _ Hj). simpl in Hk |- *. lia.
Qed.

(** ** The exchange's side: all updates it ever sends, and the feed after the first [n] of them *)
Section feed.
Context (U : list MEMarketUpdate).
Definition feed_at (n : Z) : feed := apply_all (take (Z.to_nat n) U) ∅.
(** The [k]-th update, numbered from 1. *)
Definition genuine (k : Z) (u : MEMarketUpdate) : Prop := 1 ≤ k ∧ U !! Z.to_nat (k - 1) = Some u.
Definition last_update : Z := Z.of_nat (length U).
(** Each update is one the exchange sends in the feed so far. *)
Definition feed_valid : Prop := ∀ k u, genuine k u → update_ok u (feed_at (k - 1)).

Lemma feed_at_0 : feed_at 0 = ∅.
Proof. done. Qed.
Lemma feed_at_step k u : genuine k u → feed_at k = apply_update u (feed_at (k - 1)).
Proof.
  intros [Hk Hu]. unfold feed_at. replace (Z.to_nat k) with (S (Z.to_nat (k - 1))) by lia.
  by rewrite (take_S_r _ _ u) by done; rewrite apply_all_app.
Qed.
Lemma genuine_range k u : genuine k u → 1 ≤ k ≤ last_update.
Proof. intros [? Hu%lookup_lt_Some]. unfold last_update. lia. Qed.
Lemma feed_at_ok n : feed_valid → 0 ≤ n ≤ last_update → feed_ok (feed_at n).
Proof.
  intros Hv [H0 Hn]. revert Hn. pattern n. apply natlike_ind; [|clear n H0; intros n H0 IH Hn|done].
  - intros _. apply feed_ok_empty.
  - destruct (lookup_lt_is_Some_2 U (Z.to_nat n)) as [u Hu]; [unfold last_update in Hn; lia|].
    assert (genuine (Z.succ n) u) as Hg.
    { split; [lia|]. by replace (Z.succ n - 1) with n by lia. }
    rewrite (feed_at_step _ _ Hg). replace (Z.succ n - 1) with n by lia.
    apply feed_ok_update; [apply IH; lia|]. specialize (Hv _ _ Hg).
    by replace (Z.succ n - 1) with n in Hv by lia.
Qed.

Lemma scan_incremental_ok es next acc g b next' acc' :
  last_update < 2 ^ 64 - 1 → Forall (λ e, genuine e.1 e.2) es →
  1 ≤ next ≤ last_update + 1 → apply_all acc g = feed_at (next - 1) →
  scan_incremental es next acc = (b, next', acc') →
  1 ≤ next' ≤ last_update + 1 ∧ apply_all acc' g = feed_at (next' - 1) ∧
  (length acc' ≤ length acc + length es)%nat.
Proof.
  intros HU. revert next acc. induction es as [|[k u] es IH]; intros next acc Hes Hn Hacc; simpl.
  { intros [= _ <- <-]. split; [done|split; [done|lia]]. }
  apply Forall_cons in Hes as [Hg Hes]. simpl in Hg.
  destruct (k <? next); [intros Hs; apply IH in Hs as (? & ? & ?); [|done..]; split; [done|split; [done|lia]]|].
  destruct (Z.eqb_spec k next) as [->|]; simpl.
  - pose proof (genuine_range _ _ Hg). rewrite u64_id by lia. intros Hs. apply IH in Hs; [|done|lia|].
    + destruct Hs as (? & ? & Hl). split; [done|split; [done|]]. revert Hl. destruct (is_event u); [|lia].
      rewrite length_app. simpl. lia.
    + rewrite apply_event, Hacc. replace (next + 1 - 1) with next by lia. by rewrite (feed_at_step _ _ Hg).
  - intros [= _ <- <-]. split; [done|split; [done|lia]].
Qed.
End feed.

(** ** What the consumer has passed on *)
Section recovery.
Context (U : list MEMarketUpdate) (HU : last_update U < 2 ^ 64 - 1) (Hv : feed_valid U).
(** All snapshot messages come from the cycle published after the first [n0] updates. *)
Context (n0 : Z) (Hn0 : 0 ≤ n0 ≤ last_update U).
#[local] Abbreviation the_cycle := (cycle n0 (feed_at U n0)).
Definition from_cycle (j : Z) (u : MEMarketUpdate) : Prop := 0 ≤ j ∧ the_cycle !! Z.to_nat j = Some u.
(** The most a synchronisation can pass on. *)
Definition most_events : nat := length the_cycle + length U.

(** [out] is everything passed on so far; there is room for [room] more. *)
Record synced (c : MarketDataConsumer) (out : list MEMarketUpdate) (room : nat) : Prop := {
  sy_queue : queue_room MEMarketUpdate_default (incoming_md_updates_ c) room out;
  sy_out : ∃ n, 0 ≤ n ≤ last_update U ∧ apply_all out ∅ = feed_at U n;
  sy_live : in_recovery_ c = false → 1 ≤ next_exp_inc_seq_num_ c ≤ last_update U + 1 ∧
    apply_all out ∅ = feed_at U (next_exp_inc_seq_num_ c - 1);
  sy_inc : map_Forall (genuine U) (incremental_queued_msgs_ c);
  sy_snap : map_Forall from_cycle (snapshot_queued_msgs_ c);
}.

Lemma synced_weaken c out room room' : (room' ≤ room)%nat → synced c out room → synced c out room'.
Proof. intros Hr [Hq ? ? ? ?]. split; try done. by eapply queue_room_weaken. Qed.

(** A complete queue is the whole cycle. *)
Lemma complete_cycle (m : queued) evs e :
  map_Forall from_cycle m → scan_snapshot (entries m) 0 [] = Some evs →
  last (entries m) = Some e → upd_type_ e.2 = MarketUpdateType_SNAPSHOT_END →
  evs = events the_cycle ∧ upd_order_id_ e.2 = n0.
Proof.
  intros Hm Hs Hl He. pose proof (length_cycle n0 (feed_at U n0)) as Hc.
  assert (length (entries m) ≤ length the_cycle)%nat as Hle.
  { apply (length_entries _ 0). intros j u [Hj Hu%lookup_lt_Some]%Hm. lia. }
  apply scan_snapshot_some in Hs as [Hk ->]; [|lia|lia].
  assert (∀ i j u, entries m !! i = Some (j, u) → j = Z.of_nat i ∧ the_cycle !! i = Some u) as Hi.
  { intros i j u Hi. assert ((entries m).*1 !! i = Some j) as Hj by by rewrite list_lookup_fmap, Hi.
    rewrite Hk in Hj. apply lookup_seqZ in Hj as [-> _].
    apply list_elem_of_lookup_2, elem_of_entries, Hm in Hi as [_ Hi].
    by replace (Z.to_nat (0 + Z.of_nat i)) with i in Hi by lia. }
  rewrite last_lookup in Hl. assert (0 < length (entries m))%nat as Hpos by (apply lookup_lt_Some in Hl; lia).
  destruct e as [j u]. apply Hi in Hl as [-> Hl].
  destruct (cycle_end n0 (feed_at U n0) _ u (feed_at_ok U n0 Hv Hn0) Hl He) as [Hlen ->]. split; [|done].
  simpl. f_equal. apply list_eq. intros i. rewrite list_lookup_fmap.
  destruct (entries m !! i) as [[j' u']|] eqn:E; [by destruct (Hi _ _ _ E)|]. symmetry.
  apply lookup_ge_None in E. apply lookup_ge_None. lia.
Qed.

Lemma inc_entries_length (m : queued) :
  map_Forall (genuine U) m → (length (entries m) ≤ length U)%nat.
Proof.
  intros Hm. apply (length_entries _ 1). intros k u Hu%Hm%genuine_range. unfold last_update in Hu. lia.
Qed.

Lemma checkSnapshotSync_ok c out k :
  in_recovery_ c = true → synced c out (most_events + k) →
  wp checkSnapshotSync c (λ _ c', ∃ out', synced c' out' k).
Proof.
  intros Hrec Hc. pose proof (synced_weaken c out (most_events + k) k ltac:(lia) Hc) as Hk.
  assert (∀ m n, map_Forall from_cycle m →
    synced (set_snapshot_queued m (set_next_exp_inc n c)) out k) as Hkeep.
  { intros m n Hm. destruct Hk. split; try done. intros Hf. simpl in Hf. congruence. }
  unfold checkSnapshotSync. apply wp_bind, wp_gets.
  destruct (entries (snapshot_queued_msgs_ c)) as [|[j0 u0] es] eqn:Ees; [apply wp_ret; by exists out|].
  case_match; [apply wp_modify; exists out; apply (Hkeep ∅ (next_exp_inc_seq_num_ c)); done|].
  rewrite <- Ees. destruct (scan_snapshot _ 0 []) as [evs|] eqn:Hscan;
    [|apply wp_modify; exists out; by apply (Hkeep ∅ (next_exp_inc_seq_num_ c))].
  destruct (last (entries (snapshot_queued_msgs_ c))) as [e|] eqn:Hlast;
    [|apply last_None in Hlast; congruence].
  apply wp_bind, wp_deref. case_match eqn:Hend; [apply wp_ret; by exists out|].
  apply negb_false_iff, bool_decide_eq_true in Hend.
  destruct (complete_cycle _ _ _ (sy_snap _ _ _ Hc) Hscan Hlast Hend) as [-> ->].
  apply wp_bind, wp_modify, wp_bind, wp_gets, wp_bind, wp_gets. rewrite u64_id by lia.
  cbn [next_exp_inc_seq_num_ incremental_queued_msgs_ set_next_exp_inc].
  destruct (scan_incremental _ _ _) as [[b next'] evs'] eqn:Hinc.
  destruct (sy_out _ _ _ Hc) as (n & Hn & Hout).
  assert (apply_all (events the_cycle) (apply_all out ∅) = feed_at U n0) as Hsnap.
  { rewrite apply_events, apply_cycle. apply apply_snapshot; [by apply feed_at_ok|].
    rewrite Hout. intros key u Hu. by destruct (feed_at_ok U n Hv Hn _ _ Hu) as (_ & _ & ? & _). }
  eapply (scan_incremental_ok U _ _ _ (apply_all out ∅)) in Hinc as (Hnext & Hevs & Hlen); [|done| |lia|].
  2: { apply Forall_forall. intros [k' u'] Hin%elem_of_entries. exact (sy_inc _ _ _ Hc _ _ Hin). }
  2: { rewrite Hsnap. f_equal. lia. }
  apply wp_bind, wp_modify. destruct b; simpl.
  2: { apply wp_modify. exists out. by apply (Hkeep ∅ next'). }
  pose proof (inc_entries_length _ (sy_inc _ _ _ Hc)) as Hl2.
  pose proof (events_length the_cycle) as Hl1.
  apply wp_bind, wp_zoom. eapply wp_mono.
  { apply (push_events_ok evs' _ k out). simpl. eapply queue_room_weaken; [|apply Hc]. unfold most_events. lia. }
  intros [] q Hq. apply wp_bind, wp_modify, wp_bind, wp_modify, wp_modify. exists (out ++ evs').
  split; simpl; [done| | |done|done].
  - exists (next' - 1). split; [lia|]. by rewrite apply_all_app.
  - intros _. split; [done|]. by rewrite apply_all_app.
Qed.

(** A message as the network delivers it: an update of the stream or a message of the cycle. *)
Definition deliverable_msg (d : bool * MDPMarketUpdate) : Prop :=
  if d.1 then from_cycle (mdp_seq_num_ d.2) (me_market_update_ d.2)
  else genuine U (mdp_seq_num_ d.2) (me_market_update_ d.2).

Lemma queueMessage_ok c out k d :
  in_recovery_ c = true → synced c out (most_events + k) → deliverable_msg d →
  wp (queueMessage d.1 d.2) c (λ _ c', ∃ out', synced c' out' k).
Proof.
  intros Hrec Hc Hd. destruct d as [[] msg]; unfold deliverable_msg in Hd; simpl in *.
  - apply wp_bind, wp_bind, wp_gets, wp_bind.
    eapply (wp_mono _ _ (λ _ c1, in_recovery_ c1 = true ∧ synced c1 out (most_events + k))).
    { case_bool_decide; [|by apply wp_ret]. apply wp_modify. split; [done|]. by destruct Hc. }
    intros [] c1 [Hr1 Hc1]. apply wp_modify, (checkSnapshotSync_ok _ out k); [done|].
    destruct Hc1. split; try done. simpl. by apply map_Forall_insert_2.
  - apply wp_bind, wp_modify, (checkSnapshotSync_ok _ out k); [done|].
    destruct Hc. split; try done. simpl. by apply map_Forall_insert_2.
Qed.

Lemma recvUpdate_ok c out k d :
  synced c out (S most_events + k) → deliverable_msg d →
  wp (recvUpdate true d.1 d.2) c (λ _ c', ∃ out', synced c' out' k).
Proof.
  intros Hc Hd. pose proof (synced_weaken c out (S most_events + k) (most_events + k) ltac:(lia) Hc) as Hc1.
  unfold recvUpdate. apply wp_bind, wp_gets, wp_bind, wp_gets, wp_bind, wp_modify.
  destruct (in_recovery_ c) eqn:Hrec; cbn [orb].
  { apply wp_bind, wp_ret, (queueMessage_ok _ out k); [done| |done].
    destruct Hc1. split; try done. }
  destruct (Z.eqb_spec (mdp_seq_num_ d.2) (next_exp_inc_seq_num_ c)) as [Hseq|Hseq]; cbn [negb].
  - destruct (sy_live _ _ _ Hc Hrec) as [Hnext Hout]. destruct d as [[] msg]; simpl in *.
    + apply wp_ret. exists out. destruct (synced_weaken c out (S most_events + k) k ltac:(lia) Hc). by split.
    + unfold deliverable_msg in Hd. simpl in Hd. rewrite Hseq in Hd.
      pose proof (genuine_range _ _ _ Hd). apply wp_bind, wp_modify, wp_zoom. rewrite u64_id by lia.
      eapply wp_mono; [apply (queue_room_push MEMarketUpdate_default _ _ k out); simpl;
        eapply queue_room_weaken; [|apply Hc]; lia|].
      intros [] q [Hq _]. exists (out ++ [me_market_update_ msg]).
      assert (apply_all (out ++ [me_market_update_ msg]) ∅ = feed_at U (next_exp_inc_seq_num_ c)) as Ho.
      { rewrite apply_all_app, Hout. symmetry. by apply feed_at_step. }
      destruct Hc. split; simpl; try done.
      * exists (next_exp_inc_seq_num_ c). split; [lia|done].
      * intros _. split; [lia|]. by replace (next_exp_inc_seq_num_ c + 1 - 1) with (next_exp_inc_seq_num_ c) by lia.
  - apply wp_bind, wp_bind, wp_modify, wp_bind, wp_modify, wp_ret.
    apply (queueMessage_ok _ out k); [done| |done]. destruct Hc1. by split.
Qed.

Lemma deliver_ok ds c out k :
  synced c out (length ds * S most_events + k) → Forall deliverable_msg ds →
  wp (each (λ d, recvUpdate true d.1 d.2) ds) c (λ _ c', ∃ out', synced c' out' k).
Proof.
  revert c out. induction ds as [|d ds IH]; intros c out Hc Hds; [apply wp_ret; by exists out|].
  apply Forall_cons in Hds as [Hd Hds]. cbn [each]. apply wp_bind. eapply wp_mono.
  { apply (recvUpdate_ok c out (length ds * S most_events + k)); [|done].
    eapply synced_weaken; [|exact Hc]. simpl. lia. }
  intros [] c' [out' Hc']. by eapply IH.
Qed.

(** ** A complete cycle ends the recovery *)
(** The first [i] messages of the cycle. *)
Definition prefix (i : nat) : list (Z * MEMarketUpdate) := zip (seqZ 0 (Z.of_nat i)) (take i the_cycle).

Lemma prefix_S i u : the_cycle !! i = Some u → prefix (S i) = prefix i ++ [(Z.of_nat i, u)].
Proof.
  intros Hu. unfold prefix. rewrite (take_S_r _ _ u) by done.
  replace (Z.of_nat (S i)) with (Z.of_nat i + 1) by lia. rewrite seqZ_app by lia.
  rewrite zip_with_app.
  - by f_equal.
  - rewrite length_seqZ, length_take. apply lookup_lt_Some in Hu. lia.
Qed.
Lemma prefix_fst i : (i ≤ length the_cycle)%nat → (prefix i).*1 = seqZ 0 (Z.of_nat i).
Proof. intros Hi. unfold prefix. apply fst_zip. rewrite length_seqZ, length_take. lia. Qed.
Lemma prefix_snd i : (i ≤ length the_cycle)%nat → (prefix i).*2 = take i the_cycle.
Proof. intros Hi. unfold prefix. apply snd_zip. rewrite length_seqZ, length_take. lia. Qed.
Lemma prefix_length i : (i ≤ length the_cycle)%nat → length (prefix i) = i.
Proof. intros Hi. rewrite <- (length_fmap fst), prefix_fst, length_seqZ by done. lia. Qed.
Lemma prefix_scan i :
  (i ≤ length the_cycle)%nat → scan_snapshot (prefix i) 0 [] = Some (events (take i the_cycle)).
Proof.
  intros Hi. pose proof (length_cycle n0 (feed_at U n0)). pose proof (prefix_length i Hi) as Hl.
  rewrite scan_snapshot_complete; [by rewrite prefix_snd|lia|lia|]. by rewrite prefix_fst, Hl.
Qed.

(** A queued prefix takes the next message. *)
Lemma prefix_insert (m : queued) i u :
  entries m = prefix i → the_cycle !! i = Some u →
  m !! Z.of_nat i = None ∧ entries (<[Z.of_nat i := u]> m) = prefix (S i).
Proof.
  intros Hm Hu. pose proof (lookup_lt_Some _ _ _ Hu) as Hlt.
  assert (∀ j w, m !! j = Some w → j < Z.of_nat i) as Hb.
  { intros j w Hj%elem_of_entries. rewrite Hm in Hj. apply (list_elem_of_fmap_2 fst) in Hj.
    rewrite prefix_fst in Hj by lia. apply elem_of_seqZ in Hj. simpl in Hj. lia. }
  split; [|by rewrite entries_insert_max, Hm, <- prefix_S].
  destruct (m !! Z.of_nat i) as [w|] eqn:E; [|done]. specialize (Hb _ _ E). lia.
Qed.

Lemma recv_prefix c i u :
  in_recovery_ c = true → entries (snapshot_queued_msgs_ c) = prefix i →
  the_cycle !! i = Some u → (S i < length the_cycle)%nat →
  ∃ m, recvUpdate true true (MkMDPMarketUpdate (Z.of_nat i) u) c = Ok (tt, set_snapshot_queued m c) ∧
    entries m = prefix (S i).
Proof.
  intros Hrec Hm Hu Hi. destruct (prefix_insert _ _ _ Hm Hu) as [Hnone Hm'].
  exists (<[Z.of_nat i := u]> (snapshot_queued_msgs_ c)). split; [|done].
  unfold recvUpdate. mrun. rewrite Hrec. cbn [orb].
  assert (set_in_recovery true c = c) as -> by (destruct c; cbn in Hrec; by subst).
  unfold queueMessage. mrun. cbn [mdp_seq_num_ me_market_update_]. rewrite Hnone.
  rewrite bool_decide_eq_false_2 by by intros [? ?]. unfold checkSnapshotSync. mrun. simpl. rewrite Hm'.
  destruct (prefix (S i)) as [|[j0 w0] es] eqn:E; [by apply (f_equal length) in E; rewrite prefix_length in E by lia|].
  assert (w0 = bracket MarketUpdateType_SNAPSHOT_START n0) as ->.
  { assert ((prefix (S i)).*2 !! 0%nat = Some w0) as H0 by by rewrite E.
    rewrite prefix_snd in H0 by lia. rewrite lookup_take_lt in H0 by lia. by injection H0. }
  cbn [bracket upd_type_]. rewrite bool_decide_eq_true_2 by done. cbn [negb]. rewrite <- E.
  rewrite prefix_scan by lia. rewrite last_lookup, prefix_length by lia. cbn [Init.Nat.pred].
  rewrite (prefix_S i u Hu), list_lookup_middle by (by rewrite prefix_length by lia). cbn [fmap option_fmap option_map snd].
  rewrite bool_decide_eq_false_2; [done|]. intros Hend.
  destruct (cycle_end n0 (feed_at U n0) i u (feed_at_ok U n0 Hv Hn0) Hu Hend). lia.
Qed.

Lemma recv_last c i u m out k :
  in_recovery_ c = true → entries (snapshot_queued_msgs_ c) = prefix i →
  the_cycle !! i = Some u → S i = length the_cycle →
  filter (λ j, n0 + 1 ≤ j) (entries (incremental_queued_msgs_ c)).*1 = seqZ (n0 + 1) (Z.of_nat m) →
  n0 + 1 + Z.of_nat m < 2 ^ 64 →
  synced c out (most_events + k) →
  wp (recvUpdate true true (MkMDPMarketUpdate (Z.of_nat i) u)) c (λ _ c',
    in_recovery_ c' = false ∧ next_exp_inc_seq_num_ c' = n0 + 1 + Z.of_nat m).
Proof.
  intros Hrec Hm Hu Hi Hcont Hlt Hc. destruct (prefix_insert _ _ _ Hm Hu) as [Hnone Hm'].
  unfold recvUpdate. apply wp_bind, wp_gets, wp_bind, wp_gets. rewrite Hrec. cbn [orb].
  apply wp_bind, wp_modify, wp_bind, wp_ret, wp_bind, wp_bind, wp_gets. cbn. rewrite Hnone.
  apply wp_bind, wp_ret, wp_modify. unfold checkSnapshotSync. apply wp_bind, wp_gets. cbn. rewrite Hm'.
  set (es := prefix (S i)). assert (S i ≤ length the_cycle)%nat as Hle by lia.
  destruct es as [|[j0 w0] es'] eqn:E; [by apply (f_equal length) in E; unfold es in E; rewrite prefix_length in E by lia|].
  assert (w0 = bracket MarketUpdateType_SNAPSHOT_START n0) as ->.
  { assert ((prefix (S i)).*2 !! 0%nat = Some w0) as H0 by (fold es; by rewrite E).
    rewrite prefix_snd in H0 by lia. rewrite lookup_take_lt in H0 by lia. by injection H0. }
  cbn [bracket upd_type_]. rewrite bool_decide_eq_true_2 by done. cbn [negb]. rewrite <- E. unfold es.
  rewrite prefix_scan, last_lookup, prefix_length by lia. cbn [Init.Nat.pred].
  rewrite (prefix_S i u Hu), list_lookup_middle by by rewrite prefix_length by lia.
  assert (u = bracket MarketUpdateType_SNAPSHOT_END n0) as ->.
  { assert (the_cycle !! i = Some (bracket MarketUpdateType_SNAPSHOT_END n0)) as H0; [|congruence].
    unfold cycle in Hi |- *. rewrite (assoc_L (++)) in Hi |- *. apply list_lookup_middle.
    rewrite length_app in Hi. cbn [length] in Hi. lia. }
  apply wp_bind, wp_deref. cbn [bracket upd_type_ upd_order_id_]. rewrite bool_decide_eq_true_2 by done. cbn [negb].
  apply wp_bind, wp_modify, wp_bind, wp_gets, wp_bind, wp_gets. cbn. rewrite u64_id by lia.
  pose proof (scan_incremental_contiguous (entries (incremental_queued_msgs_ c)) (n0 + 1) (events (take (S i) the_cycle)) m
    (entries_sorted _) ltac:(lia) Hlt Hcont) as Hscan.
  destruct (scan_incremental _ _ _) as [[b next'] evs] eqn:Hinc. cbn [fst] in Hscan. injection Hscan as -> ->.
  eapply (scan_incremental_ok U _ _ _ ∅) in Hinc as (_ & _ & Hlen); [|done| |lia|].
  2: { apply Forall_forall. intros [k' u'] Hin%elem_of_entries. exact (sy_inc _ _ _ Hc _ _ Hin). }
  2: { rewrite Hi, take_ge, apply_events, apply_cycle by done. rewrite apply_snapshot; [f_equal; lia| |done].
    by apply feed_at_ok. }
  apply wp_bind, wp_modify, wp_bind, wp_zoom. eapply wp_mono.
  { apply (push_events_ok evs _ k out). cbn. eapply queue_room_weaken; [|apply Hc].
    pose proof (inc_entries_length _ (sy_inc _ _ _ Hc)) as Hl2.
    pose proof (events_length (take (S i) the_cycle)) as Hl1. rewrite length_take in Hl1.
    unfold most_events. lia. }
  intros [] q _. apply wp_bind, wp_modify, wp_bind, wp_modify, wp_modify. done.
Qed.

(** The messages of the cycle from the [i]-th on, as delivered. *)
Definition rest_of_cycle (i : nat) : list (bool * MDPMarketUpdate) :=
  pair true <$> numbered (Z.of_nat i) (drop i the_cycle).

Lemma recv_rest n : ∀ i c m out k,
  (i + S n = length the_cycle)%nat →
  in_recovery_ c = true → entries (snapshot_queued_msgs_ c) = prefix i →
  filter (λ j, n0 + 1 ≤ j) (entries (incremental_queued_msgs_ c)).*1 = seqZ (n0 + 1) (Z.of_nat m) →
  n0 + 1 + Z.of_nat m < 2 ^ 64 → synced c out (most_events + k) →
  wp (each (λ d, recvUpdate true d.1 d.2) (rest_of_cycle i)) c (λ _ c',
    in_recovery_ c' = false ∧ next_exp_inc_seq_num_ c' = n0 + 1 + Z.of_nat m).
Proof.
  induction n as [|n IH]; intros i c m out k Hi Hrec Hm Hcont Hlt Hc;
    (destruct (lookup_lt_is_Some_2 the_cycle i) as [u Hu]; [lia|]);
    unfold rest_of_cycle; rewrite (drop_S _ u) by done; rewrite numbered_cons, fmap_cons; cbn [each fst snd].
  - apply wp_bind. eapply wp_mono; [by apply (recv_last c i u m out k); [..|lia| | |]|].
    intros [] c' Hc'. rewrite drop_ge by lia. by apply wp_ret.
  - destruct (recv_prefix c i u Hrec Hm Hu ltac:(lia)) as (ms & Hrun & Hms).
    apply wp_bind. unfold wp at 1. rewrite Hrun. replace (Z.of_nat i + 1) with (Z.of_nat (S i)) by lia.
    apply (IH (S i) _ m out k); [lia|done|done|done|done|].
    destruct Hc. split; try done.
    intros j w Hj%elem_of_entries. cbn in Hj. rewrite Hms in Hj.
    apply list_elem_of_lookup in Hj as [x Hj].
    assert (x < S i)%nat as Hx by (apply lookup_lt_Some in Hj; rewrite prefix_length in Hj by lia; lia).
    assert ((prefix (S i)).*1 !! x = Some j ∧ (prefix (S i)).*2 !! x = Some w) as [H1 H2]
      by by rewrite !list_lookup_fmap, Hj.
    rewrite prefix_fst in H1 by lia. rewrite prefix_snd, lookup_take_lt in H2 by lia.
    apply lookup_seqZ in H1 as [-> _]. split; [lia|]. by replace (Z.to_nat (0 + Z.of_nat x)) with x by lia.
Qed.
End recovery.

(** ** Properties *)
Definition deliver (ds : list (bool * MDPMarketUpdate)) : M MarketDataConsumer unit :=
  each (λ d, recvUpdate true d.1 d.2) ds.

(** The callback runs the loop's body on the whole messages of the socket's buffer. *)
Lemma recvMarketData_eq b c :
  b && negb (in_recovery_ c) = false →
  recvMarketData true b c =
    (_ ← deliver (pair b <$> (drain (A := MDPMarketUpdate) (inbound_data_ (mcast_socket b c))).1);
     modify (λ c', set_mcast_socket b
       (set_inbound (drain (A := MDPMarketUpdate) (inbound_data_ (mcast_socket b c))).2 (mcast_socket b c')) c')) c.
Proof.
  intros Hb. unfold recvMarketData. rewrite !gets_bind, Hb. unfold mbind at 1, M_bind at 1.
  rewrite (recv_messages_drain _ MDPMarketUpdate_ok).
  destruct (drain (A := MDPMarketUpdate) _) as [ms rest]. cbn [fst snd].
  assert (∀ c, each (recvUpdate true b) ms c = deliver (pair b <$> ms) c) as Heq.
  { clear. induction ms as [|m ms IH]; intros c; [done|]. unfold deliver. rewrite fmap_cons. simpl.
    unfold mbind, M_bind. destruct (recvUpdate true b m c) as [[[] c']|]; [apply IH|done]. }
  unfold mbind, M_bind. rewrite Heq. by destruct (deliver _ c) as [[[] c']|].
Qed.

Lemma synced_new U n0 q room :
  0 ≤ last_update U → queue_room MEMarketUpdate_default q room [] → synced U n0 (MarketDataConsumer_new q) [] room.
Proof.
  intros HU Hq. split; simpl; try done.
  - exists 0. split; [lia|done].
  - intros _. split; [lia|done].
Qed.

(** A stretch of a cycle, with its numbers. *)
Lemma deliverable_part U n0 l1 us l2 :
  cycle n0 (feed_at U n0) = l1 ++ us ++ l2 →
  Forall (deliverable_msg U n0) (pair true <$> numbered (Z.of_nat (length l1)) us).
Proof.
  intros E. apply Forall_fmap, Forall_lookup. intros i x Hi. unfold numbered in Hi.
  apply lookup_zip_with_Some in Hi as (j & u & -> & [-> Hj]%lookup_seqZ & Hu).
  unfold deliverable_msg, compose. cbn. split; [lia|]. rewrite E.
  replace (Z.to_nat (Z.of_nat (length l1) + Z.of_nat i)) with (length l1 + i)%nat by lia.
  rewrite lookup_app_r by lia. replace (length l1 + i - length l1)%nat with i by lia.
  rewrite lookup_app_l by (apply lookup_lt_Some in Hu; lia). done.
Qed.

(** C19: the client's feed follows the exchange's. From a new consumer, let the network deliver any
    messages of the incremental stream, lost, repeated and reordered in any way, and any messages of one
    snapshot cycle, as many as its queue has room for: what the consumer has passed on adds up to the
    feed after some number of the exchange's updates, and while it is not in recovery to the feed after
    all updates before the one it expects next. *)
Theorem feed_synchronised U n0 q ds k :
  last_update U < 2 ^ 64 - 1 → feed_valid U → 0 ≤ n0 ≤ last_update U →
  queue_room MEMarketUpdate_default q (length ds * S (most_events U n0) + k) [] →
  Forall (deliverable_msg U n0) ds →
  ∃ c out, deliver ds (MarketDataConsumer_new q) = Ok (tt, c) ∧
    contents MEMarketUpdate_default (incoming_md_updates_ c) = out ∧
    (∃ n, 0 ≤ n ≤ last_update U ∧ apply_all out ∅ = feed_at U n) ∧
    (in_recovery_ c = false → apply_all out ∅ = feed_at U (next_exp_inc_seq_num_ c - 1)).
Proof.
  intros HU Hv Hn0 Hq Hds.
  pose proof (deliver_ok U HU Hv n0 Hn0 ds (MarketDataConsumer_new q) [] k) as H.
  destruct (proj1 (wp_ok _ _ _) (H (synced_new U n0 q _ ltac:(lia) Hq) Hds)) as ([] & c & Hrun & out & [Hqc Ho Hl _ _]).
  exists c, out. split_and!; [done|apply Hqc|done|]. intros Hr. by apply Hl.
Qed.

(** C20: recovery ends. A consumer in recovery that has queued an unbroken run of [m] updates after the
    [n0]-th, and receives the whole cycle taken after the [n0]-th update, with room in its queue and no
    snapshot message queued before, leaves recovery, expects the update after the run, and has passed on
    what adds up to the feed up to there. *)
Theorem recovery_completes U n0 c out m k :
  last_update U < 2 ^ 64 - 1 → feed_valid U → 0 ≤ n0 ≤ last_update U →
  synced U n0 c out (length (cycle n0 (feed_at U n0)) * S (most_events U n0) + (most_events U n0 + k)) →
  in_recovery_ c = true → snapshot_queued_msgs_ c = ∅ →
  filter (λ j, n0 + 1 ≤ j) (entries (incremental_queued_msgs_ c)).*1 = seqZ (n0 + 1) (Z.of_nat m) →
  n0 + 1 + Z.of_nat m < 2 ^ 64 →
  ∃ c' out', deliver (pair true <$> numbered 0 (cycle n0 (feed_at U n0))) c = Ok (tt, c') ∧
    in_recovery_ c' = false ∧ next_exp_inc_seq_num_ c' = n0 + 1 + Z.of_nat m ∧
    contents MEMarketUpdate_default (incoming_md_updates_ c') = out' ∧
    apply_all out' ∅ = feed_at U (n0 + Z.of_nat m).
Proof.
  intros HU Hv Hn0 Hc Hrec Hempty Hcont Hlt.
  destruct (length_cycle_S n0 (feed_at U n0)) as [n Hn].
  assert (rest_of_cycle U n0 0 = pair true <$> numbered 0 (cycle n0 (feed_at U n0))) as E.
  { unfold rest_of_cycle. by rewrite drop_0. }
  assert (Forall (deliverable_msg U n0) (rest_of_cycle U n0 0)) as Hds.
  { rewrite E. apply (deliverable_part U n0 [] _ []). rewrite app_nil_l, app_nil_r. reflexivity. }
  assert (length (rest_of_cycle U n0 0) = length (cycle n0 (feed_at U n0))) as Hlen.
  { rewrite E, length_fmap. unfold numbered. rewrite length_zip_with, length_seqZ. lia. }
  pose proof (deliver_ok U HU Hv n0 Hn0 (rest_of_cycle U n0 0) c out (most_events U n0 + k)
    ltac:(by rewrite Hlen) Hds) as H1.
  assert (entries (snapshot_queued_msgs_ c) = prefix U n0 0) as Hpre by by rewrite Hempty, entries_empty.
  pose proof (recv_rest U HU Hv n0 Hn0 n 0 c m out k (eq_sym Hn) Hrec Hpre Hcont Hlt
    ltac:(eapply synced_weaken; [|exact Hc]; lia)) as H2.
  destruct (proj1 (wp_ok _ _ _) (wp_and _ _ _ _ H1 H2)) as ([] & c' & Hrun & (out' & [Hq _ Hl _ _]) & Hr & Hnext).
  exists c', out'. rewrite <- E. split_and!; [done|done|done|apply Hq|].
  destruct (Hl Hr) as [_ ->]. f_equal. lia.
Qed.

(** Any message whose number is not the expected one, on either stream, puts a consumer into recovery
    and passes nothing on; this includes a snapshot message that is still in the buffer when a
    recovery has just been completed, which starts the next one. *)
Theorem gap_starts_recovery b seq u c :
  in_recovery_ c = false → seq ≠ next_exp_inc_seq_num_ c →
  ∃ c', recvUpdate true b (MkMDPMarketUpdate seq u) c = Ok (tt, c') ∧ in_recovery_ c' = true ∧
    incoming_md_updates_ c' = incoming_md_updates_ c ∧
    incremental_queued_msgs_ c' = (if b then ∅ else {[seq := u]}).
Proof.
  intros Hrec Hseq. unfold recvUpdate. rewrite !gets_bind, Hrec. cbn [orb mdp_seq_num_].
  rewrite (proj2 (Z.eqb_neq _ _)) by done. cbn [negb]. erewrite bind_Ok by reflexivity.
  erewrite bind_Ok by reflexivity. destruct b; cbn.
  - unfold queueMessage. erewrite bind_Ok by reflexivity. unfold checkSnapshotSync. rewrite gets_bind. cbn.
    assert (entries (<[seq := u]> ∅) = [(seq, u)]) as -> by by rewrite entries_insert_max.
    destruct (bool_decide (upd_type_ u = MarketUpdateType_SNAPSHOT_START)) eqn:Ht; cbn; [|by eexists].
    apply bool_decide_eq_true in Ht.
    destruct (seq =? 0); [|by eexists]. cbn. erewrite bind_Ok by reflexivity. rewrite Ht. cbn. by eexists.
  - unfold queueMessage. erewrite bind_Ok by reflexivity. unfold checkSnapshotSync. rewrite gets_bind. cbn.
    by eexists.
Qed.

(** ** Concrete feeds *)
Section example.
Definition add_7 : MEMarketUpdate := MkMEMarketUpdate MarketUpdateType_ADD 7 0 Side_BUY 100 10 1.
Definition cancel_7 : MEMarketUpdate := MkMEMarketUpdate MarketUpdateType_CANCEL 7 0 Side_BUY 100 0 1.
(** An order that lives for one update. *)
Definition U2 : list MEMarketUpdate := [add_7; cancel_7].

Lemma U2_genuine k u : genuine U2 k u → (k = 1 ∧ u = add_7) ∨ (k = 2 ∧ u = cancel_7).
Proof.
  intros Hg. pose proof (genuine_range _ _ _ Hg) as Hk. destruct Hg as [_ Hg].
  unfold last_update in Hk. simpl in Hk.
  assert (k = 1 ∨ k = 2) as [-> | ->] by lia; simpl in Hg; simplify_eq; tauto.
Qed.
Lemma U2_valid : feed_valid U2.
Proof.
  intros k u [[-> ->]|[-> ->]]%U2_genuine; (split; [done|]).
  - by split_and!.
  - by exists add_7.
Qed.
Lemma most_events_0 : most_events U2 0 = 12%nat.
Proof. unfold most_events. rewrite feed_at_0, cycle_empty. done. Qed.

Lemma feed_synchronised_witness :
  ∃ c out, deliver [(false, MkMDPMarketUpdate 1 add_7); (false, MkMDPMarketUpdate 1 add_7)]
      (MarketDataConsumer_new new_queue) = Ok (tt, c) ∧
    contents MEMarketUpdate_default (incoming_md_updates_ c) = out ∧
    (∃ n, 0 ≤ n ≤ last_update U2 ∧ apply_all out ∅ = feed_at U2 n) ∧
    (in_recovery_ c = false → apply_all out ∅ = feed_at U2 (next_exp_inc_seq_num_ c - 1)).
Proof.
  apply (feed_synchronised U2 0 new_queue _ 5).
  - done.
  - exact U2_valid.
  - done.
  - rewrite most_events_0. split_and!; [apply new_queue_wf|reflexivity|simpl; lia].
  - by repeat constructor.
Defined.

(** In recovery, with both updates queued. *)
Definition recovering : MarketDataConsumer :=
  set_in_recovery true (set_incremental_queued {[1 := add_7; 2 := cancel_7]} (MarketDataConsumer_new new_queue)).
Lemma recovering_synced room : Z.of_nat room < 2 ^ 18 → synced U2 0 recovering [] room.
Proof.
  intros Hr. split; simpl; try done.
  - split_and!; [apply new_queue_wf|reflexivity|simpl; lia].
  - by exists 0.
  - intros k u [[<- <-]|[_ [<- <-]%lookup_singleton_Some]]%lookup_insert_Some; by split.
Qed.
Lemma recovery_completes_witness :
  ∃ c' out', deliver (pair true <$> numbered 0 (cycle 0 (feed_at U2 0))) recovering = Ok (tt, c') ∧
    in_recovery_ c' = false ∧ next_exp_inc_seq_num_ c' = 0 + 1 + Z.of_nat 2 ∧
    contents MEMarketUpdate_default (incoming_md_updates_ c') = out' ∧
    apply_all out' ∅ = feed_at U2 (0 + Z.of_nat 2).
Proof.
  apply (recovery_completes U2 0 recovering [] 2 5).
  - done.
  - exact U2_valid.
  - done.
  - apply recovering_synced. rewrite most_events_0, feed_at_0, cycle_empty. simpl. lia.
  - reflexivity.
  - reflexivity.
  - vm_compute; reflexivity.
  - done.
Defined.

Lemma gap_starts_recovery_witness :
  ∃ c', recvUpdate true true (MkMDPMarketUpdate 0 (bracket MarketUpdateType_SNAPSHOT_START 4))
      (MarketDataConsumer_new new_queue) = Ok (tt, c') ∧ in_recovery_ c' = true ∧
    incoming_md_updates_ c' = new_queue ∧ incremental_queued_msgs_ c' = ∅.
Proof. by apply (gap_starts_recovery true 0). Defined.

(** ** Two cycles
    The first three messages of the cycle taken after the first update, and all but the first
    three of the cycle taken after the second. *)
Definition head_of_1 : list (bool * MDPMarketUpdate) :=
  pair true <$> numbered 0 [bracket MarketUpdateType_SNAPSHOT_START 1; clear_message 0; add_7].
Definition tail_of_2 : list (bool * MDPMarketUpdate) :=
  pair true <$> numbered 3 ((clear_message <$> seqZ 2 6) ++ [bracket MarketUpdateType_SNAPSHOT_END 2]).

Lemma U2_cycle_1 :
  ∃ us, cycle 1 (feed_at U2 1) =
    [] ++ [bracket MarketUpdateType_SNAPSHOT_START 1; clear_message 0; add_7] ++ us.
Proof.
  assert (feed_at U2 1 = {[(0, 7) := add_7]}) as -> by reflexivity.
  unfold cycle, snapshot_events. assert (seqZ 0 ME_MAX_TICKERS = 0 :: seqZ 1 7) as -> by reflexivity.
  rewrite fmap_cons. cbn [concat]. unfold ticker_events at 1.
  rewrite live_orders_singleton by (apply NoDup_all_oids || by apply elem_of_all_oids).
  generalize (concat (ticker_events {[(0, 7) := add_7]} <$> seqZ 1 7)). intros us. by eexists.
Qed.

(** A snapshot may be put together from two cycles.  The queue of snapshot messages is only checked
    for consecutive numbers, so after losing the end of one cycle and the beginning of the next
    the consumer leaves recovery with an order that the exchange has cancelled. *)
Theorem mixed_cycles_accepted :
  Forall (deliverable_msg U2 1) head_of_1 ∧ Forall (deliverable_msg U2 2) tail_of_2 ∧
  match deliver ((false, MkMDPMarketUpdate 2 cancel_7) :: head_of_1 ++ tail_of_2)
          (MarketDataConsumer_new new_queue) with
  | Ok (_, c) => in_recovery_ c = false ∧ next_exp_inc_seq_num_ c = 3 ∧
      apply_all (contents MEMarketUpdate_default (incoming_md_updates_ c)) ∅ !! (0, 7) = Some add_7 ∧
      feed_at U2 2 !! (0, 7) = None
  | Err _ => False
  end.
Proof.
  split_and!; [| |vm_compute; done].
  - destruct U2_cycle_1 as [us E]. by apply (deliverable_part U2 1 [] _ us).
  - assert (feed_at U2 2 = ∅) as E by reflexivity.
    apply (deliverable_part U2 2 [bracket MarketUpdateType_SNAPSHOT_START 2; clear_message 0; clear_message 1] _ []).
    rewrite E, cycle_empty. reflexivity.
Qed.
End example.
