(* ===== verification/EndToEnd.v ===== *)
(** From the exchange's books to the client's feed.

    EngineFeed shows that the published updates describe the books, MarketDataConsumerProps that the
    consumer follows the published updates; here the two meet. *)
From S2P Require Export EngineFeed MarketDataConsumerProps.

Lemma updates_ok_valid U : updates_ok U ∅ → feed_valid U.
Proof.
  intros H k u [Hk Hu].
  rewrite <- (take_drop_middle U (Z.to_nat (k - 1)) u Hu), updates_ok_app in H.
  by destruct H as [_ [? _]].
Qed.
Lemma feed_at_last U : feed_at U (last_update U) = apply_all U ∅.
Proof. unfold feed_at, last_update. by rewrite firstn_all2 by lia. Qed.


Definition ms1 : list (bool * MDPMarketUpdate) :=
  pair false <$> [MkMDPMarketUpdate 1 (MkMEMarketUpdate MarketUpdateType_ADD 1 3 Side_SELL 101 5 1)].
