(* ===== verification/OrderGateway.v ===== *)
(** trading/order_gw/order_gateway.{h,cpp}: the trading client's end of the TCP connection to
    the exchange's order server.

    The gateway numbers the requests the trade engine queues and writes them to the
    connection; of the responses it reads it queues for the trade engine those that carry its
    client id and the expected number.  The specification [accept_responses] says which; the last
    section puts the gateway against the order server's specification, in both directions. *)
From coqutil Require Import Byte Word.LittleEndianList.
From S2P Require Export OrderServerProps.

Record OrderGateway : Type := MkOrderGateway {
  gw_client_id_ : Z;
  gw_outgoing_requests_ : LFQueue MEClientRequest;
  gw_incoming_responses_ : LFQueue MEClientResponse;
  gw_next_outgoing_seq_num_ : Z;
  gw_next_exp_seq_num_ : Z;
  gw_tcp_socket_ : Socket;
}.
Definition OrderGateway_new (client_id : Z) (client_requests : LFQueue MEClientRequest)
    (client_responses : LFQueue MEClientResponse) : OrderGateway :=
  MkOrderGateway client_id client_requests client_responses 1 1 Socket_new.

(** ** Assignments to members *)
Section setters.
Implicit Types g : OrderGateway.
Definition set_gw_requests (q : LFQueue MEClientRequest) g : OrderGateway :=
  MkOrderGateway (gw_client_id_ g) q (gw_incoming_responses_ g) (gw_next_outgoing_seq_num_ g)
    (gw_next_exp_seq_num_ g) (gw_tcp_socket_ g).
Definition set_gw_responses (q : LFQueue MEClientResponse) g : OrderGateway :=
  MkOrderGateway (gw_client_id_ g) (gw_outgoing_requests_ g) q (gw_next_outgoing_seq_num_ g)
    (gw_next_exp_seq_num_ g) (gw_tcp_socket_ g).
Definition set_gw_next_outgoing (n : Z) g : OrderGateway :=
  MkOrderGateway (gw_client_id_ g) (gw_outgoing_requests_ g) (gw_incoming_responses_ g) n
    (gw_next_exp_seq_num_ g) (gw_tcp_socket_ g).
Definition set_gw_next_exp (n : Z) g : OrderGateway :=
  MkOrderGateway (gw_client_id_ g) (gw_outgoing_requests_ g) (gw_incoming_responses_ g)
    (gw_next_outgoing_seq_num_ g) n (gw_tcp_socket_ g).
Definition set_gw_socket (sk : Socket) g : OrderGateway :=
  MkOrderGateway (gw_client_id_ g) (gw_outgoing_requests_ g) (gw_incoming_responses_ g)
    (gw_next_outgoing_seq_num_ g) (gw_next_exp_seq_num_ g) sk.
End setters.

(** ** Sending *)
Definition on_gw_socket : M Socket unit → M OrderGateway unit := zoom gw_tcp_socket_ set_gw_socket.
Definition on_gw_requests {A} : M (LFQueue MEClientRequest) A → M OrderGateway A :=
  zoom gw_outgoing_requests_ set_gw_requests.

(** The body of the loop over the trade engine's requests. *)
Definition send_request (client_request : MEClientRequest) : M OrderGateway unit :=
  next_outgoing_seq_num ← gets gw_next_outgoing_seq_num_;
  _ ← on_gw_socket (_ ← tcp_send (le_split 8 next_outgoing_seq_num);
                    tcp_send (put_MEClientRequest client_request));
  _ ← on_gw_requests updateReadIndex;
  modify (set_gw_next_outgoing (u64 (next_outgoing_seq_num + 1))).
(** [for (r = getNextToRead(); r; r = getNextToRead())]. *)
Fixpoint send_requests (fuel : nat) : M OrderGateway unit :=
  match fuel with
  | O => raise OutOfFuel
  | S fuel =>
    client_request ← on_gw_requests getNextToRead;
    match client_request with
    | Some i =>
      r ← on_gw_requests (read_slot MEClientRequest_default (Some i));
      _ ← send_request r;
      send_requests fuel
    | None => mret tt
    end
  end.

(** ** Receiving *)
(** The body of the loop of [recvCallback]; [mret tt] is [continue]. *)
Definition recvResponse (response : OMClientResponse) : M OrderGateway unit :=
  client_id ← gets gw_client_id_;
  if resp_client_id_ (me_client_response_ response) =? client_id then
    next_exp_seq_num ← gets gw_next_exp_seq_num_;
    if omresp_seq_num_ response =? next_exp_seq_num then
      _ ← modify (set_gw_next_exp (u64 (next_exp_seq_num + 1)));
      zoom gw_incoming_responses_ set_gw_responses (push (me_client_response_ response))
    else mret tt
  else mret tt.
Definition gateway_recvCallback : M OrderGateway unit :=
  sk ← gets gw_tcp_socket_;
  rest ← recv_messages recvResponse (inbound_data_ sk);
  modify (λ g, set_gw_socket (set_inbound rest (gw_tcp_socket_ g)) g).

(** One round of [run]. *)
Definition gateway_round (io : kernel_event) : M OrderGateway unit :=
  _ ← sendAndRecv (gets gw_tcp_socket_)
        (λ f, modify (λ g, set_gw_socket (f (gw_tcp_socket_ g)) g))
        (λ _, gateway_recvCallback) TCPBufferSize io;
  n ← gets (λ g, length (contents MEClientRequest_default (gw_outgoing_requests_ g)));
  send_requests (S n).

(** ** Specification *)
(** The requests [rs], numbered from [n]. *)
Fixpoint number_requests (n : Z) (rs : list MEClientRequest) : list OMClientRequest :=
  match rs with
  | [] => []
  | r :: rs => MkOMClientRequest n r :: number_requests (u64 (n + 1)) rs
  end.
(** Of the messages [ms] those of client [c] that carry the expected number, and the number
    expected after them. *)
Fixpoint accept_responses (c n : Z) (ms : list OMClientResponse) : Z * list MEClientResponse :=
  match ms with
  | [] => (n, [])
  | m :: ms =>
    if (resp_client_id_ (me_client_response_ m) =? c) && (omresp_seq_num_ m =? n) then
      let '(n', acc) := accept_responses c (u64 (n + 1)) ms in (n', me_client_response_ m :: acc)
    else accept_responses c n ms
  end.

(** ** The gateway implements the specification *)
Lemma put_OMClientRequest n r :
  le_split 8 n ++ put_MEClientRequest r = wire_enc (MkOMClientRequest n r).
Proof. done. Qed.

(** The next number after [rs]. *)
Definition number_after (rs : list MEClientRequest) (n : Z) : Z := foldl (λ n _, u64 (n + 1)) n rs.
Lemma send_requests_ok rs fuel g :
  queue_wf (gw_outgoing_requests_ g) →
  contents MEClientRequest_default (gw_outgoing_requests_ g) = rs →
  Z.of_nat (length (outbound_data_ (gw_tcp_socket_ g)) + 38 * length rs) ≤ TCPBufferSize →
  (length rs < fuel)%nat →
  wp (send_requests fuel) g (λ _ g', queue_wf (gw_outgoing_requests_ g') ∧
    contents MEClientRequest_default (gw_outgoing_requests_ g') = [] ∧
    gw_tcp_socket_ g' = set_outbound (outbound_data_ (gw_tcp_socket_ g) ++
      concat (wire_enc <$> number_requests (gw_next_outgoing_seq_num_ g) rs)) (gw_tcp_socket_ g) ∧
    gw_next_outgoing_seq_num_ g' = number_after rs (gw_next_outgoing_seq_num_ g) ∧
    gw_client_id_ g' = gw_client_id_ g ∧ gw_incoming_responses_ g' = gw_incoming_responses_ g ∧
    gw_next_exp_seq_num_ g' = gw_next_exp_seq_num_ g).
Proof.
  revert fuel g. induction rs as [|r rs IH]; intros [|fuel] g Hwf Hc Hcap Hf;
    try (simpl in Hf; lia); cbn [send_requests].
  - eapply wp_bind_Ok; [apply zoom_Ok, (getNextToRead_nil _ _ Hwf Hc)|]. apply wp_ret.
    split_and!; try done. rewrite app_nil_r. by destruct g as [? ? ? ? ? []].
  - destruct (read_cons _ _ _ _ Hwf Hc) as (Hn & Hr & Hu & Hwf' & Hc').
    assert (set_gw_requests (gw_outgoing_requests_ g) g = g) as Hid by by destruct g.
    pose proof (wire_enc_length (MkOMClientRequest (gw_next_outgoing_seq_num_ g) r)) as Hl.
    rewrite <- put_OMClientRequest, length_app in Hl. cbn [wire_size OMClientRequest_wire] in Hl.
    cbn [length] in Hcap, Hf.
    eapply wp_bind_Ok; [apply zoom_Ok, Hn|]. rewrite Hid.
    eapply wp_bind_Ok; [apply zoom_Ok, Hr|]. rewrite Hid.
    apply wp_bind. unfold send_request. apply wp_bind, wp_gets.
    eapply wp_bind_Ok; [apply zoom_Ok, tcp_send_twice; lia|].
    eapply wp_bind_Ok; [apply zoom_Ok, Hu|]. apply wp_modify. eapply wp_mono.
    { apply IH; [exact Hwf'|exact Hc'| |lia]. simpl. rewrite length_app. simpl in *. lia. }
    intros [] g' (? & ? & -> & ? & ? & ? & ?). split_and!; try done.
    cbn [number_requests]. rewrite fmap_cons. cbn [concat]. rewrite <- put_OMClientRequest.
    unfold set_outbound. cbn. by rewrite <- !(assoc_L (++)).
Qed.

Lemma recv_responses_ok ms g vs n m acc :
  accept_responses (gw_client_id_ g) (gw_next_exp_seq_num_ g) ms = (m, acc) →
  queue_room MEClientResponse_default (gw_incoming_responses_ g) (length acc + n) vs →
  wp (each recvResponse ms) g (λ _ g', ∃ q,
    g' = set_gw_next_exp m (set_gw_responses q g) ∧
    queue_room MEClientResponse_default q n (vs ++ acc)).
Proof.
  revert g vs m acc. induction ms as [|r ms IH]; intros g vs m acc Hacc Hroom.
  { injection Hacc as <- <-. apply wp_ret. exists (gw_incoming_responses_ g). rewrite app_nil_r.
    split; [by destruct g|done]. }
  cbn [accept_responses] in Hacc. cbn [each]. apply wp_bind. unfold recvResponse.
  apply wp_bind, wp_gets. destruct (_ =? gw_client_id_ g); simpl in Hacc.
  2: { by apply wp_ret, IH. }
  apply wp_bind, wp_gets. destruct (_ =? gw_next_exp_seq_num_ g).
  2: { by apply wp_ret, IH. }
  destruct (accept_responses _ (u64 _) ms) as [m' acc'] eqn:E. injection Hacc as <- <-.
  apply wp_bind, wp_modify, wp_zoom. eapply wp_mono; [exact (queue_room_push _ _ _ (length acc' + n) _ Hroom)|].
  intros [] q [Hq _]. eapply wp_mono.
  { apply (IH (set_gw_responses q (set_gw_next_exp _ g)) (vs ++ [_]) m' acc' E Hq). }
  intros [] g' (q' & -> & Hq'). exists q'. split; [by destruct g|]. by rewrite <- (assoc_L (++)) in Hq'.
Qed.
Lemma gateway_recvCallback_ok g ms rest vs n m acc :
  drain (A := OMClientResponse) (inbound_data_ (gw_tcp_socket_ g)) = (ms, rest) →
  accept_responses (gw_client_id_ g) (gw_next_exp_seq_num_ g) ms = (m, acc) →
  queue_room MEClientResponse_default (gw_incoming_responses_ g) (length acc + n) vs →
  wp gateway_recvCallback g (λ _ g', ∃ q,
    g' = set_gw_socket (set_inbound rest (gw_tcp_socket_ g)) (set_gw_next_exp m (set_gw_responses q g)) ∧
    queue_room MEClientResponse_default q n (vs ++ acc)).
Proof.
  intros Hd Hacc Hroom. apply wp_bind, wp_gets, wp_bind.
  eapply wp_eq; [apply (recv_messages_drain _ OMClientResponse_ok)|]. rewrite Hd. simpl.
  apply wp_bind. eapply wp_mono; [by eapply recv_responses_ok|].
  intros [] g' (q & -> & Hq). apply wp_ret, wp_modify. by exists q.
Qed.

(** A round: what the visit of the connection reads, then the requests.  Between two rounds the
    connection holds less than one response. *)
Definition gateway_data (io : kernel_event) (g : OrderGateway) : list byte :=
  kernel_copy (TCPBufferSize - Z.of_nat (length (inbound_data_ (gw_tcp_socket_ g)))) (k_data io).
Lemma gateway_round_ok io g ms rest rs vs n m acc :
  (length (inbound_data_ (gw_tcp_socket_ g)) < 50)%nat →
  drain (A := OMClientResponse) (inbound_data_ (gw_tcp_socket_ g) ++ gateway_data io g) = (ms, rest) →
  accept_responses (gw_client_id_ g) (gw_next_exp_seq_num_ g) ms = (m, acc) →
  queue_room MEClientResponse_default (gw_incoming_responses_ g) (length acc + n) vs →
  queue_wf (gw_outgoing_requests_ g) →
  contents MEClientRequest_default (gw_outgoing_requests_ g) = rs →
  Z.of_nat (38 * length rs) ≤ TCPBufferSize →
  wp (gateway_round io) g (λ _ g', queue_wf (gw_outgoing_requests_ g') ∧
    contents MEClientRequest_default (gw_outgoing_requests_ g') = [] ∧
    queue_room MEClientResponse_default (gw_incoming_responses_ g') n (vs ++ acc) ∧
    gw_client_id_ g' = gw_client_id_ g ∧ gw_next_exp_seq_num_ g' = m ∧
    gw_next_outgoing_seq_num_ g' = number_after rs (gw_next_outgoing_seq_num_ g) ∧
    gw_tcp_socket_ g' = set_outbound
      (concat (wire_enc <$> number_requests (gw_next_outgoing_seq_num_ g) rs))
      (transmit io (set_inbound rest (gw_tcp_socket_ g)))).
Proof.
  intros Hin Hd Hacc Hroom Hwf Hc Hcap. unfold gateway_round, sendAndRecv. fold (gateway_data io g).
  set (g1 := set_gw_socket (set_inbound (inbound_data_ (gw_tcp_socket_ g) ++ gateway_data io g) (gw_tcp_socket_ g)) g).
  assert (wp (match gateway_data io g with
    | [] => mret tt
    | _ => _ ← modify (λ g', set_gw_socket (set_inbound (inbound_data_ (gw_tcp_socket_ g') ++ gateway_data io g) (gw_tcp_socket_ g')) g');
           gateway_recvCallback end) g (λ _ g', ∃ q,
    g' = set_gw_socket (set_inbound rest (gw_tcp_socket_ g)) (set_gw_next_exp m (set_gw_responses q g)) ∧
    queue_room MEClientResponse_default q n (vs ++ acc))) as Hrecv.
  { destruct (gateway_data io g) as [|b bs] eqn:Hdata.
    - rewrite app_nil_r, drain_short in Hd by done. injection Hd as <- <-. injection Hacc as <- <-.
      apply wp_ret. exists (gw_incoming_responses_ g). rewrite app_nil_r. split; [|done].
      by destruct g as [? ? ? ? ? []].
    - apply wp_bind, wp_modify. fold g1. eapply wp_mono.
      { apply (gateway_recvCallback_ok g1 ms rest vs n m acc); done. }
      intros [] g' (q & -> & Hq). by exists q. }
  apply wp_bind, wp_bind, wp_gets, wp_bind.
  eapply wp_mono; [exact Hrecv|]. intros [] g2 (q & -> & Hq). apply wp_bind, wp_modify, wp_ret, wp_bind, wp_gets.
  cbn [set_gw_socket set_gw_next_exp set_gw_responses gw_outgoing_requests_ gw_tcp_socket_]. rewrite Hc.
  eapply wp_mono.
  { apply (send_requests_ok rs (S (length rs))); [exact Hwf|exact Hc| |lia]. cbn. lia. }
  intros [] g' (? & ? & ? & ? & ? & Hi & ?). by rewrite Hi.
Qed.

(** ** The two ends of the connection *)
Lemma number_requests_accepted k t n rs c se :
  Forall (λ r, req_client_id_ r = c) rs → 0 ≤ n → n + Z.of_nat (length rs) < 2 ^ 64 →
  se_next se c = n → default k (se_socket se c) = k →
  (accept_all (MkArrival k t <$> number_requests n rs) se).2 = MkArrival k t <$> number_requests n rs.
Proof.
  revert n se. induction rs as [|r rs IH]; intros n se Hc H0 Hlt Hn Hk; [done|].
  apply Forall_cons in Hc as [Hr Hc]. cbn [length] in Hlt.
  cbn [number_requests]. rewrite fmap_cons. cbn [accept_all a_socket a_request].
  assert (accepts k (MkOMClientRequest n r) se = true) as Ha.
  { unfold accepts, req_client. simpl. rewrite Hr, Hn, Hk, Z.eqb_refl. by rewrite bool_decide_true. }
  specialize (IH (u64 (n + 1)) (accept k (MkOMClientRequest n r) se)).
  destruct (accept_all _ (accept _ _ _)) as [se' acc]. simpl in IH |- *. rewrite Ha. f_equal.
  rewrite u64_id in * by lia. apply IH; [done|lia|lia| |]; unfold accept; rewrite Ha; unfold req_client; simpl;
    rewrite Hr, decide_True by done.
  - rewrite Hn. apply u64_id. lia.
  - simpl. by rewrite Hk.
Qed.
Lemma number_requests_body n rs : me_client_request_ <$> number_requests n rs = rs.
Proof. revert n. induction rs as [|r rs IH]; intros n; [done|]. csimpl. by rewrite IH. Qed.
Lemma length_number_requests n rs : length (number_requests n rs) = length rs.
Proof. by rewrite <- (length_fmap me_client_request_), number_requests_body. Qed.
Lemma number_requests_ok n rs :
  0 ≤ n → n + Z.of_nat (length rs) < 2 ^ 64 → forallb MEClientRequest_ok rs = true →
  forallb OMClientRequest_ok (number_requests n rs) = true.
Proof.
  revert n. induction rs as [|r rs IH]; intros n H0 Hlt; [done|]. cbn [length] in Hlt. simpl.
  intros [Hr Hrs]%andb_true_iff. rewrite u64_id by lia. apply andb_true_iff. split; [|apply IH; lia || done].
  unfold OMClientRequest_ok. simpl. apply andb_true_iff. split; [unfold in_u; lia|done].
Qed.

(** What the gateway takes of the server's stream, and the number it expects after it. *)
Lemma accept_responses_stream c k sock next rs :
  Forall (λ r, resp_client_id_ r = c → sock c = Some k) rs →
  0 ≤ next c → next c + Z.of_nat (length rs) < 2 ^ 64 →
  accept_responses c (next c) (stream sock k (number rs next)) =
    (numbers_after rs next c, filter (λ r, resp_client_id_ r = c) rs).
Proof.
  intros Hk. revert next. induction Hk as [|r rs Hk _ IH]; intros next H0 Hlt; [done|].
  cbn [length] in Hlt. cbn [number numbers_after foldl]. set (c' := resp_client_id_ r).
  change (foldl _ (bump c' next) rs) with (numbers_after rs (bump c' next)).
  assert (bump c' next c = if decide (c = c') then next c + 1 else next c) as Hb.
  { unfold bump. case_decide as E; [|done]. rewrite <- E. apply u64_id. lia. }
  specialize (IH (bump c' next) ltac:(rewrite Hb; case_decide; lia) ltac:(rewrite Hb; case_decide; lia)).
  rewrite Hb in IH. unfold stream in *. destruct (decide (c = c')) as [Hcc|Hcc].
  - specialize (Hk (eq_sym Hcc)). rewrite <- Hcc in *. rewrite (filter_cons_True (λ x, sock x.1 = Some k)) by done.
    rewrite (filter_cons_True (λ r, _ = c)) by done. rewrite fmap_cons. cbn [accept_responses snd].
    simpl. fold c'. rewrite <- Hcc, !Z.eqb_refl, u64_id by lia. simpl. by rewrite IH.
  - rewrite (filter_cons_False (λ r, _ = c)) by (fold c'; congruence).
    destruct (decide (sock c' = Some k)).
    + rewrite filter_cons_True by done. rewrite fmap_cons. cbn [accept_responses snd]. simpl. fold c'.
      by rewrite (proj2 (Z.eqb_neq c' c)) by congruence.
    + by rewrite filter_cons_False by done.
Qed.

(** ** Properties *)
Section properties.
Context `{!StdSort recv_lt}.

(** The requests a trade engine queues reach the exchange's sequencer, all of them and in order.
    The gateway empties its queue into the connection; when the order server reads these bytes on the
    connection the client is bound to (or on the first one it uses) it accepts every request: the
    numbers the gateway writes are the ones the server expects. *)
Theorem requests_reach_exchange c k t rs g s se ps sk :
  queue_wf (gw_outgoing_requests_ g) →
  contents MEClientRequest_default (gw_outgoing_requests_ g) = rs →
  Forall (λ r, req_client_id_ r = c) rs → 0 ≤ c < ME_MAX_NUM_CLIENTS →
  forallb MEClientRequest_ok rs = true → outbound_data_ (gw_tcp_socket_ g) = [] →
  0 ≤ gw_next_outgoing_seq_num_ g → gw_next_outgoing_seq_num_ g + Z.of_nat (length rs) < 2 ^ 64 →
  sessions s se → se_next se c = gw_next_outgoing_seq_num_ g → default k (se_socket se c) = k →
  holds (fifo_sequencer_ s) ps → Z.of_nat (length ps + length rs) ≤ ME_MAX_PENDING_REQUESTS →
  tcp_sockets_ s !! k = Some sk → inbound_data_ sk = [] →
  ∃ g' s', send_requests (S (length rs)) g = Ok (tt, g') ∧
    contents MEClientRequest_default (gw_outgoing_requests_ g') = [] ∧
    (_ ← arrive k (outbound_data_ (gw_tcp_socket_ g')); recvCallback k t) s = Ok (tt, s') ∧
    holds (fifo_sequencer_ s') (ps ++ (MkRecvTimeClientRequest t <$> rs)).
Proof.
  intros Hwf Hc Hcl Hcr Hok Hout H0 Hlt Hse Hn Hk Hps Hroom Hsk Hin.
  set (n := gw_next_outgoing_seq_num_ g) in *. unfold ME_MAX_PENDING_REQUESTS in Hroom.
  destruct (proj1 (wp_ok _ _ _) (send_requests_ok rs (S (length rs)) g Hwf Hc
    ltac:(rewrite Hout; unfold TCPBufferSize; simpl; lia) ltac:(lia)))
    as ([] & g' & Hrun & _ & He & Hg' & _).
  set (bytes := concat (wire_enc <$> number_requests n rs)).
  assert (outbound_data_ (gw_tcp_socket_ g') = bytes) as Eb by by rewrite Hg', Hout.
  assert (arrive k bytes s = Ok (tt, set_tcp_sockets (<[k := set_inbound bytes sk]> (tcp_sockets_ s)) s))
    as Harr.
  { unfold arrive, socket_upd, modify. by rewrite (alter_alt_Some _ _ _ _ Hsk), Hin. }
  destruct (recvCallback_ok k t (set_tcp_sockets (<[k := set_inbound bytes sk]> (tcp_sockets_ s)) s)
    se ps (set_inbound bytes sk) (number_requests n rs) []) as (s' & Hs' & _ & Hh & _ & _).
  - by destruct Hse.
  - done.
  - apply lookup_insert_eq.
  - cbn [inbound_data_ set_inbound]. unfold bytes. rewrite <- (app_nil_r (concat _)).
    apply (drain_encoded OMClientRequest_ok); [by apply number_requests_ok|simpl; lia].
  - apply (Forall_fmap me_client_request_ (λ r, 0 ≤ req_client_id_ r < ME_MAX_NUM_CLIENTS)).
    rewrite number_requests_body. eapply Forall_impl; [exact Hcl|]. by intros r ->.
  - rewrite (number_requests_accepted _ _ _ _ c), length_fmap, length_number_requests by done.
    unfold ME_MAX_PENDING_REQUESTS. lia.
  - exists g', s'. rewrite Eb, (bind_Ok _ _ _ _ _ Harr). split_and!; [done|done|done|].
    rewrite (number_requests_accepted _ _ _ _ c) in Hh by done. rewrite <- (number_requests_body n rs) at 1.
    rewrite <- !list_fmap_compose in *. exact Hh.
Qed.

(** The exchange's responses reach the trade engine they are for.  When the order server has sent
    the responses in its queue and a client's gateway has read the bytes of its connection, the
    gateway's queue has received exactly that client's responses, in order, also when other clients
    use the same connection. *)
Theorem responses_reach_client c k rs s next g sk vs n :
  queue_wf (outgoing_responses_ s) →
  contents MEClientResponse_default (outgoing_responses_ s) = rs →
  next_numbers s next → Forall (deliverable s) rs →
  map_Forall (λ _ sk, Z.of_nat (length (outbound_data_ sk) + 50 * length rs) ≤ TCPBufferSize)
    (tcp_sockets_ s) →
  forallb OMClientResponse_ok ((number rs next).*2) = true →
  socket_of s c = Some k → tcp_sockets_ s !! k = Some sk → outbound_data_ sk = [] →
  gw_client_id_ g = c → gw_next_exp_seq_num_ g = next c → inbound_data_ (gw_tcp_socket_ g) = [] →
  0 ≤ next c → next c + Z.of_nat (length rs) < 2 ^ 64 →
  queue_room MEClientResponse_default (gw_incoming_responses_ g)
    (length (filter (λ r, resp_client_id_ r = c) rs) + n) vs →
  ∃ s' sk' g', send_responses (S (length rs)) s = Ok (tt, s') ∧ tcp_sockets_ s' !! k = Some sk' ∧
    gateway_recvCallback (set_gw_socket (set_inbound (outbound_data_ sk') (gw_tcp_socket_ g)) g) = Ok (tt, g') ∧
    queue_room MEClientResponse_default (gw_incoming_responses_ g') n
      (vs ++ filter (λ r, resp_client_id_ r = c) rs).
Proof.
  intros Hwf Hc Hn Hd Hcap Hok Hk Hsk Hout <- Hexp Hin H0 Hlt Hroom.
  destruct (proj1 (wp_ok _ _ _) (send_responses_ok rs (S (length rs)) s next Hwf Hc Hn Hd Hcap
    ltac:(lia))) as ([] & s' & Hrun & Hs' & _).
  pose proof (rs_stream _ _ _ Hs' k sk Hsk) as Hsk'. rewrite Hout in Hsk'.
  set (ms := stream (socket_of s) k (number rs next)) in *.
  pose proof (accept_responses_stream _ k (socket_of s) _ rs (Forall_true _ _ (λ _ _, Hk)) H0 Hlt) as E.
  fold ms in E.
  set (m := numbers_after rs next _) in E.
  set (g1 := set_gw_socket (set_inbound (concat (wire_enc <$> ms)) (gw_tcp_socket_ g)) g).
  assert (wp gateway_recvCallback g1 (λ _ g', ∃ q,
    g' = set_gw_socket (set_inbound [] (gw_tcp_socket_ g1)) (set_gw_next_exp m (set_gw_responses q g1)) ∧
    queue_room MEClientResponse_default q n (vs ++ filter (λ r, resp_client_id_ r = gw_client_id_ g) rs)))
    as H.
  { eapply gateway_recvCallback_ok; [|by rewrite <- Hexp in E; exact E|done].
    cbn [inbound_data_ set_inbound gw_tcp_socket_ set_gw_socket g1]. rewrite <- (app_nil_r (concat _)). apply (drain_encoded OMClientResponse_ok); [|simpl; lia].
    by apply stream_ok. }
  apply wp_ok in H as ([] & g' & Hg' & q & Eg & Hq).
  exists s', (set_outbound (concat (wire_enc <$> ms)) sk), g'. split_and!; [done|done|done|].
  by rewrite Eg.
Qed.
End properties.

(** ** A concrete connection *)
Section example.
(** Client 5 has queued two orders and is not yet known to the server; then it is, and the engine
    has answered twice. *)
Definition orders5 : list MEClientRequest :=
  [me_client_request_ (om_new 5 0 1); me_client_request_ (om_new 5 0 2)].
Definition gateway0 : OrderGateway :=
  OrderGateway_new 5 (pushed (me_client_request_ (om_new 5 0 2))
    (pushed (me_client_request_ (om_new 5 0 1)) new_queue)) new_queue.
Definition quiet_server : OrderServer :=
  set_tcp_sockets {[10 := Socket_new]} (OrderServer_new new_queue new_queue).

Lemma requests_reach_exchange_witness :
  ∃ g' s', send_requests 3 gateway0 = Ok (tt, g') ∧
    contents MEClientRequest_default (gw_outgoing_requests_ g') = [] ∧
    (_ ← arrive 10 (outbound_data_ (gw_tcp_socket_ g')); recvCallback 10 7) quiet_server = Ok (tt, s') ∧
    holds (fifo_sequencer_ s') ([] ++ (MkRecvTimeClientRequest 7 <$> orders5)).
Proof.
  apply (requests_reach_exchange 5 10 7 orders5 gateway0 quiet_server session0 [] Socket_new); try done.
  - apply can_push_wf; [|reflexivity]. apply can_push_wf; [apply new_queue_wf|reflexivity].
  - repeat constructor.
  - split; intros c Hc; simpl; apply (replicate_at ME_MAX_NUM_CLIENTS); lia.
Defined.

Lemma responses_reach_client_witness :
  ∃ s' sk' g', send_responses 3 (set_tcp_sockets {[10 := Socket_new]} server1) = Ok (tt, s') ∧
    tcp_sockets_ s' !! 10 = Some sk' ∧
    gateway_recvCallback (set_gw_socket (set_inbound (outbound_data_ sk') (gw_tcp_socket_ gateway0)) gateway0)
      = Ok (tt, g') ∧
    queue_room MEClientResponse_default (gw_incoming_responses_ g') 7
      ([] ++ [accepted_response 5; accepted_response 5]).
Proof.
  apply (responses_reach_client 5 10 [accepted_response 5; accepted_response 5]
    (set_tcp_sockets {[10 := Socket_new]} server1) (λ _, 1) gateway0 Socket_new []); try done.
  - apply can_push_wf; [|reflexivity]. apply can_push_wf; [apply new_queue_wf|reflexivity].
  - exact server1_numbers.
  - repeat constructor; simpl; try done; exists 10; (split; [reflexivity|by eexists]).
  - intros k sk Hk. cbn [tcp_sockets_ set_tcp_sockets] in Hk.
    by apply lookup_singleton_Some in Hk as [_ <-].
  - split_and!; [apply new_queue_wf|done|vm_compute; done].
Defined.
End example.
