(* ===== verification/OrderPath.v ===== *)
(** The path of an order: a client's gateway, the order server and the matching engine, joined.

    [exchange_main.cpp] gives the order server and the engine the same two queues; here each of them
    has the queue as a member, and after every action of one the other is given its queues
    ([give_engine], [give_server]).  The gateway and one connection of the server are joined by the bytes
    in flight in each direction.  An event is one round of one thread, or a request of the trade engine;
    [exec] runs it, and a history is any list of events: the threads interleave as they like, the
    network cuts the streams as it likes, and the other connections carry whatever they
    carry.  The specification is a list of requests served one after the other ([spec_run]). *)
From coqutil Require Import Byte Word.LittleEndianList.
From S2P Require Export OrderServerRound OrderGateway EngineTypes.

Record OrderPath : Type := MkOrderPath {
  path_gateway : OrderGateway;
  path_up : list byte;
  path_down : list byte;
  path_server : OrderServer;
  path_engine : MatchingEngine;
  path_served : list MEClientRequest;
}.
(** The queues of the server are the engine's, and the other way round. *)
Definition give_engine (s : OrderServer) (m : MatchingEngine) : MatchingEngine :=
  set_incoming (seq_incoming_requests_ (fifo_sequencer_ s))
    (set_outgoing (set_ogw (outgoing_responses_ s) (outgoing_ m)) m).
Definition give_server (m : MatchingEngine) (s : OrderServer) : OrderServer :=
  set_sequencer (set_seq_queue (incoming_requests_ m) (fifo_sequencer_ s))
    (set_outgoing_responses (outgoing_ogw_responses_ (outgoing_ m)) s).
Section actions.
Implicit Types p : OrderPath.
Definition set_path_gateway (g : OrderGateway) p : OrderPath :=
  MkOrderPath g (path_up p) (path_down p) (path_server p) (path_engine p) (path_served p).
Definition set_wires (up down : list byte) p : OrderPath :=
  MkOrderPath (path_gateway p) up down (path_server p) (path_engine p) (path_served p).
Definition set_path_server (s : OrderServer) p : OrderPath :=
  MkOrderPath (path_gateway p) (path_up p) (path_down p) s (give_engine s (path_engine p)) (path_served p).
Definition set_path_engine (m : MatchingEngine) p : OrderPath :=
  MkOrderPath (path_gateway p) (path_up p) (path_down p) (give_server m (path_server p)) m (path_served p).
Definition set_path_served (rs : list MEClientRequest) p : OrderPath :=
  MkOrderPath (path_gateway p) (path_up p) (path_down p) (path_server p) (path_engine p) rs.
End actions.

Section path.
Context `{!StdSort recv_lt}.

(** [Ev_order]: the trade engine queues a request.  [Ev_gateway n t]: a round of the gateway that is delivered
    [n] of the bytes in flight.  [Ev_server n t io]: a round of the server that is delivered [n] bytes on
    the client's connection and [io] on the others.  [Ev_engine]: a round of the engine.  [Ev_connect fd]:
    the server's [poll] takes in a connection (see [poll_accepts]).  The kernels take whatever is in
    the send buffers. *)
Inductive path_event : Type :=
  | Ev_order (r : MEClientRequest)
  | Ev_gateway (n : nat) (t : Z)
  | Ev_server (n : nat) (t : Z) (io : Z → kernel_event)
  | Ev_engine
  | Ev_connect (fd : Z).

Context (k : Z).  (* the client's connection *)

Definition gateway_event (n : nat) (t : Z) (p : OrderPath) : kernel_event :=
  MkKernelEvent (take n (path_down p)) t (length (outbound_data_ (gw_tcp_socket_ (path_gateway p)))).
Definition client_socket (p : OrderPath) : Socket :=
  default Socket_new (tcp_sockets_ (path_server p) !! k).
Definition server_event (n : nat) (t : Z) (io : Z → kernel_event) (p : OrderPath) : Z → kernel_event :=
  λ k', if decide (k' = k)
        then MkKernelEvent (take n (path_up p)) t (length (outbound_data_ (client_socket p)))
        else io k'.
Definition queued_requests (p : OrderPath) : list MEClientRequest :=
  contents MEClientRequest_default (incoming_requests_ (path_engine p)).

Definition exec (e : path_event) : M OrderPath unit :=
  p ← gets id;
  match e with
  | Ev_order r =>
    zoom path_gateway set_path_gateway
      (zoom gw_outgoing_requests_ set_gw_requests (push r))
  | Ev_gateway n t =>
    let io := gateway_event n t p in
    _ ← zoom path_gateway set_path_gateway (gateway_round io);
    modify (set_wires (path_up p ++ outbound_data_ (gw_tcp_socket_ (path_gateway p)))
              (drop (length (gateway_data io (path_gateway p))) (path_down p)))
  | Ev_server n t io =>
    let io := server_event n t io p in
    _ ← zoom path_server set_path_server (server_round io);
    modify (set_wires (drop (length (visit_data io (client_socket p) k)) (path_up p))
              (path_down p ++ outbound_data_ (client_socket p)))
  | Ev_engine =>
    _ ← zoom path_engine set_path_engine run_once;
    modify (set_path_served (path_served p ++ take 1 (queued_requests p)))
  | Ev_connect fd => modify (set_path_server (open_connection (path_server p) fd))
  end.
Fixpoint exec_all (es : list path_event) : M OrderPath unit :=
  match es with [] => mret tt | e :: es => _ ← exec e; exec_all es end.

(** ** What the exchange promises *)
Record exchange_spec : Type := MkExchangeSpec {
  xs_books : list sbook;
  xs_ids : list Z;
  xs_responses : list MEClientResponse;
}.
Definition spec_serve (x : exchange_spec) (r : MEClientRequest) : exchange_spec :=
  let t := Z.to_nat (req_ticker_id_ r) in
  match xs_books x !! t, xs_ids x !! t with
  | Some b, Some id =>
    let out := spec_process r id b in
    MkExchangeSpec (<[t := out_book out]> (xs_books x)) (<[t := next_id_after r id]> (xs_ids x))
      (xs_responses x ++ out_responses out)
  | _, _ => x
  end.
Definition spec_run (rs : list MEClientRequest) : exchange_spec :=
  foldl spec_serve
    (MkExchangeSpec (replicate (Z.to_nat ME_MAX_TICKERS) empty_book)
       (replicate (Z.to_nat ME_MAX_TICKERS) 1) []) rs.

(** ** When an event is within the limits of the program *)
(** [q] has room for [n] more elements. *)
Definition has_room {T} (q : LFQueue T) (n : nat) : Prop := write_pos_ q + Z.of_nat n < q_size q.
Definition others_honest (c : Z) (s : OrderServer) (a : arrival) : Prop :=
  0 ≤ a_client a < ME_MAX_NUM_CLIENTS ∧ (a_client a = c → a_socket a = k ∨ socket_of s c = Some k).

Definition within_limits (c : Z) (e : path_event) (p : OrderPath) : Prop :=
  let g := path_gateway p in let s := path_server p in let m := path_engine p in
  match e with
  | Ev_order r =>
    MEClientRequest_ok r = true ∧ req_client_id_ r = c ∧ can_push (gw_outgoing_requests_ g) = true
  | Ev_gateway n t =>
    let waiting := length (contents MEClientRequest_default (gw_outgoing_requests_ g)) in
    let read := length (drain (A := OMClientResponse)
      (inbound_data_ (gw_tcp_socket_ g) ++ gateway_data (gateway_event n t p) g)).1 in
    Z.of_nat (38 * waiting) ≤ TCPBufferSize ∧
    gw_next_outgoing_seq_num_ g + Z.of_nat waiting < 2 ^ 64 ∧
    gw_next_exp_seq_num_ g + Z.of_nat read < 2 ^ 64 ∧
    has_room (gw_incoming_responses_ g) read
  | Ev_server n t io =>
    let arrivals := round_arrivals (server_event n t io p) s in
    let waiting := length (contents MEClientResponse_default (outgoing_responses_ s)) in
    Forall (others_honest c s) arrivals ∧
    Z.of_nat (length arrivals) ≤ ME_MAX_PENDING_REQUESTS ∧
    has_room (seq_incoming_requests_ (fifo_sequencer_ s)) (length arrivals) ∧
    Z.of_nat (50 * waiting) ≤ TCPBufferSize ∧
    Forall (λ n, n + Z.of_nat waiting < 2 ^ 64) (cid_next_outgoing_seq_num_ s) ∧
    Forall (λ n, n + Z.of_nat (length arrivals) < 2 ^ 64) (cid_next_exp_seq_num_ s)
  | Ev_engine =>
    match queued_requests p with
    | [] => True
    | r :: _ =>
      let t := Z.to_nat (req_ticker_id_ r) in
      ∃ b ob, ticker_order_book_ m !! t = Some b ∧ xs_books (spec_run (path_served p)) !! t = Some ob ∧
        servable r b ob ∧
        let out := spec_process r (next_market_order_id_ b) ob in
        has_room (outgoing_ogw_responses_ (outgoing_ m)) (length (out_responses out)) ∧
        has_room (outgoing_md_updates_ (outgoing_ m)) (length (out_updates out))
    end
  | Ev_connect fd => tcp_sockets_ s !! fd = None
  end.
(** Every event of the history is within the limits where it happens. *)
Fixpoint admissible (c : Z) (es : list path_event) (p : OrderPath) : Prop :=
  match es with
  | [] => True
  | e :: es => within_limits c e p ∧ ∀ p', exec e p = Ok (tt, p') → admissible c es p'
  end.

(** The start: a server with connections [fds] and nothing in the queues. *)
Definition path_start (c listener : Z) (fds : list Z) : OrderPath :=
  MkOrderPath (OrderGateway_new c new_queue new_queue) [] []
    (open_connections fds (listening_server listener new_queue new_queue))
    (MkMatchingEngine books0 new_queue (MkOutQueues new_queue new_queue)) [].
(** The trade engine's requests of a history. *)
Definition sent_by (e : path_event) : list MEClientRequest :=
  match e with Ev_order r => [r] | _ => [] end.
Definition orders (es : list path_event) : list MEClientRequest := concat (sent_by <$> es).
(** Nothing is on its way: no bytes in flight or waiting to be sent, every queue read. *)
Definition quiet (p : OrderPath) : Prop :=
  path_up p = [] ∧ path_down p = [] ∧
  outbound_data_ (gw_tcp_socket_ (path_gateway p)) = [] ∧ outbound_data_ (client_socket p) = [] ∧
  contents MEClientRequest_default (gw_outgoing_requests_ (path_gateway p)) = [] ∧
  queued_requests p = [] ∧
  contents MEClientResponse_default (outgoing_responses_ (path_server p)) = [].
End path.
