(* ===== verification/OrderPathInv.v ===== *)
(** The invariant of the path of an order.

    The bytes between the gateway's and the server's buffers are always the rest of a stream of
    numbered messages, whatever the reads were; each end's next number is the one the stream starts
    with; the requests served are those that arrived, up to the order of one round; and the
    exchange's books are the specification's.  Every event within the limits keeps it. *)
From coqutil Require Import Byte Word.LittleEndianList.
From S2P Require Export OrderPath.

(** ** A stream that is cut anywhere *)
Lemma drain_prefix {A} `{WireLaws A valid} (ms : list A) bs tail :
  forallb valid ms = true → bs ++ tail = concat (wire_enc <$> ms) →
  ∃ ms1 ms2 rest, drain bs = (ms1, rest) ∧ ms = ms1 ++ ms2 ∧ rest ++ tail = concat (wire_enc <$> ms2).
Proof.
  revert bs. induction ms as [|m ms IH]; intros bs Hok E.
  { apply app_eq_nil in E as [-> ->]. by exists [], [], []. }
  simpl in Hok. apply andb_true_iff in Hok as [Hm Hms]. rewrite fmap_cons in E. cbn [concat] in E.
  destruct (decide (length bs < wire_size (A := A))%nat) as [Hs|Hs].
  { exists [], (m :: ms), bs. split_and!; [by apply drain_short|done|done]. }
  pose proof (wire_enc_length m) as Hl.
  assert (bs = wire_enc m ++ drop (wire_size (A := A)) bs) as Eb.
  { apply (f_equal (take (wire_size (A := A)))) in E. rewrite take_app_le, take_app_length' in E by lia.
    by rewrite <- E, take_drop. }
  rewrite Eb, <- (assoc_L (++)) in E. apply (inj (app (wire_enc m))) in E.
  destruct (IH _ Hms E) as (ms1 & ms2 & rest & Hd & -> & Er).
  exists (m :: ms1), ms2, rest. split_and!; [|done|done]. by rewrite Eb, (drain_cons valid), Hd.
Qed.

(** ** Responses *)
Lemma accept_responses_app c n ms1 ms2 :
  accept_responses c n (ms1 ++ ms2) =
    ((accept_responses c (accept_responses c n ms1).1 ms2).1,
     (accept_responses c n ms1).2 ++ (accept_responses c (accept_responses c n ms1).1 ms2).2).
Proof.
  revert n. induction ms1 as [|m ms1 IH]; intros n; simpl.
  { by destruct (accept_responses c n ms2). }
  case_match; [|apply IH]. rewrite IH. by destruct (accept_responses c (u64 (n + 1)) ms1).
Qed.
Lemma accept_responses_length c n ms : (length (accept_responses c n ms).2 ≤ length ms)%nat.
Proof.
  revert n. induction ms as [|m ms IH]; intros n; simpl; [lia|]. case_match; [|specialize (IH n); lia].
  specialize (IH (u64 (n + 1))). destruct (accept_responses _ _ ms). simpl in *. lia.
Qed.
Lemma accept_responses_nonneg c n ms : 0 ≤ n → 0 ≤ (accept_responses c n ms).1.
Proof.
  revert n. induction ms as [|m ms IH]; intros n Hn; simpl; [done|]. case_match; [|auto].
  pose proof (u64_range (n + 1)) as [Hu _]. specialize (IH _ Hu). by destruct (accept_responses _ _ ms).
Qed.
Lemma numbers_after_nonneg rs next c : 0 ≤ next c → 0 ≤ numbers_after rs next c.
Proof.
  revert next. induction rs as [|r rs IH]; intros next H; [done|]. apply IH. unfold bump.
  case_decide; [apply u64_range|done].
Qed.
Lemma number_ok rs next :
  Forall (λ r, 0 ≤ next (resp_client_id_ r) ∧ next (resp_client_id_ r) + Z.of_nat (length rs) < 2 ^ 64) rs →
  forallb MEClientResponse_ok rs = true → forallb OMClientResponse_ok (number rs next).*2 = true.
Proof.
  assert (∀ l, (length rs ≤ l)%nat → Forall (λ r, 0 ≤ next (resp_client_id_ r) ∧ next (resp_client_id_ r) + Z.of_nat l < 2 ^ 64) rs →
    forallb MEClientResponse_ok rs = true → forallb OMClientResponse_ok (number rs next).*2 = true) as H;
    [|intros; by eapply (H (length rs))].
  revert next. induction rs as [|r rs IH]; intros next l Hl H Hok; [done|]. simpl in Hl, Hok.
  apply Forall_cons in H as [Hr H]. apply andb_true_iff in Hok as [Hok Hoks].
  cbn [number]. rewrite fmap_cons. cbn [forallb snd]. apply andb_true_iff. split.
  - apply andb_true_iff. simpl. split; [unfold in_u; lia|done].
  - apply (IH _ (l - 1)%nat); [lia| |done]. eapply Forall_impl; [exact H|]. simpl. intros r' ?.
    unfold bump. case_decide as E; [|lia]. rewrite E in *. rewrite u64_id; lia.
Qed.

(** ** Requests *)
Lemma number_after_ok rs n : 0 ≤ n → n + Z.of_nat (length rs) < 2 ^ 64 →
  number_after rs n = n + Z.of_nat (length rs).
Proof.
  revert n. induction rs as [|r rs IH]; intros n H0 Hlt; [simpl; lia|]. cbn [length] in *.
  change (number_after (r :: rs) n) with (number_after rs (u64 (n + 1))). rewrite u64_id by lia.
  rewrite IH; lia.
Qed.
Lemma number_requests_app n rs1 rs2 :
  number_requests n (rs1 ++ rs2) = number_requests n rs1 ++ number_requests (number_after rs1 n) rs2.
Proof. revert n. induction rs1 as [|r rs1 IH]; intros n; simpl; [done|]. by rewrite IH. Qed.
(** A prefix of numbered requests is the numbering of a prefix. *)
Lemma number_requests_cut n rs ms1 ms2 :
  number_requests n rs = ms1 ++ ms2 →
  ∃ rs1 rs2, rs = rs1 ++ rs2 ∧ ms1 = number_requests n rs1 ∧ ms2 = number_requests (number_after rs1 n) rs2.
Proof.
  intros E. pose proof (f_equal (fmap me_client_request_) E) as Er.
  rewrite number_requests_body, fmap_app in Er. subst rs.
  rewrite number_requests_app in E. apply app_inj_1 in E as [E1 E2].
  - by exists (me_client_request_ <$> ms1), (me_client_request_ <$> ms2).
  - by rewrite length_number_requests, length_fmap.
Qed.

(** The session after the requests of one client on its connection. *)
Lemma number_requests_session k t n rs c se :
  Forall (λ r, req_client_id_ r = c) rs → 0 ≤ n → n + Z.of_nat (length rs) < 2 ^ 64 →
  se_next se c = n → default k (se_socket se c) = k →
  let se' := (accept_all (MkArrival k t <$> number_requests n rs) se).1 in
  se_next se' c = n + Z.of_nat (length rs) ∧ default k (se_socket se' c) = k.
Proof.
  revert n se. induction rs as [|r rs IH]; intros n se Hc H0 Hlt Hn Hk se'.
  { simpl in se'. subst se'. simpl. split; [lia|done]. }
  apply Forall_cons in Hc as [Hr Hc]. cbn [length] in Hlt. unfold se'. clear se'.
  cbn [number_requests]. rewrite fmap_cons. cbn [accept_all a_socket a_request].
  assert (accepts k (MkOMClientRequest n r) se = true) as Ha.
  { unfold accepts, req_client. simpl. rewrite Hr, Hn, Hk, Z.eqb_refl. by rewrite bool_decide_true. }
  specialize (IH (u64 (n + 1)) (accept k (MkOMClientRequest n r) se)).
  destruct (accept_all _ (accept _ _ _)) as [se' acc]. simpl in IH |- *.
  rewrite u64_id in * by lia. destruct IH as [IH1 IH2]; [done|lia|lia|..];
    try (unfold accept; rewrite Ha; unfold req_client; simpl; rewrite Hr, decide_True by done).
  - rewrite Hn. apply u64_id. lia.
  - simpl. by rewrite Hk.
  - split; [lia|done].
Qed.
(** Requests that name client [c] on other connections change nothing for it once it is bound. *)
Lemma accept_foreign c k ms se :
  Forall (λ a, a_client a = c → a_socket a ≠ k ∧ se_socket se c = Some k) ms →
  filter (of_client c) (accept_all ms se).2 = [] ∧ se_next (accept_all ms se).1 c = se_next se c ∧
  se_socket (accept_all ms se).1 c = se_socket se c.
Proof.
  revert se. induction ms as [|a ms IH]; intros se H; [done|]. apply Forall_cons in H as [Ha H].
  cbn [accept_all]. set (se1 := accept (a_socket a) (a_request a) se).
  assert (se_next se1 c = se_next se c ∧ se_socket se1 c = se_socket se c ∧
    (accepts (a_socket a) (a_request a) se = true → a_client a ≠ c)) as (En & Es & Hne).
  { unfold se1, accept, bind, accepts. fold (a_client a). destruct (decide (a_client a = c)) as [E|E].
    - destruct (Ha E) as [Hk Hb]. rewrite E, Hb. simpl. rewrite bool_decide_eq_false_2 by done. simpl.
      by rewrite decide_True.
    - destruct (bool_decide _ && _); simpl; rewrite !decide_False by done; done. }
  specialize (IH se1). rewrite En, Es in IH. destruct (accept_all ms se1) as [se' acc].
  destruct (IH H) as (IH1 & IH2 & IH3). simpl in *. split_and!; [|done|done].
  destruct (accepts _ _ _); [|done]. rewrite filter_cons_False by (unfold of_client; auto). done.
Qed.
(** Whoever has a request accepted is bound. *)
Lemma accepted_bound ms se :
  Forall (λ a, is_Some (se_socket (accept_all ms se).1 (a_client a))) (accept_all ms se).2.
Proof.
  revert se. induction ms as [|a ms IH]; intros se; [constructor|]. cbn [accept_all].
  set (se1 := accept (a_socket a) (a_request a) se). specialize (IH se1).
  pose proof (accept_all_bound ms se1 (a_client a)) as Hb.
  destruct (accept_all ms se1) as [se' acc]. simpl in *. destruct (accepts _ _ _); [|done].
  constructor; [|done]. eexists. apply Hb. unfold se1, accept, bind, a_client.
  destruct (accepts _ _ _); simpl; by rewrite decide_True.
Qed.

(** ** Clients of what the engine sends *)
Lemma spec_process_clients (P : Z → Prop) r id b :
  P (req_client_id_ r) → 0 ≤ req_qty_ r → Forall (λ o, 0 ≤ r_qty o) (all_orders b) →
  Forall (λ o, P (r_client_id o)) (all_orders b) →
  Forall (λ o, P (r_client_id o)) (all_orders (out_book (spec_process r id b))) ∧
  Forall (λ x, P (resp_client_id_ x)) (out_responses (spec_process r id b)).
Proof.
  intros Hr Hq Hn HP. unfold spec_process. destruct (req_type_ r); [by split| | |by split].
  - destruct (spec_add_Forall (λ o, P (r_client_id o)) ltac:(done)
      (taker_of r (bool_decide (req_side_ r = Side_BUY)) id) (req_qty_ r) b Hq Hn HP ltac:(done))
      as (fs & us & Hb & Hfs & -> & _). split; [done|]. constructor; [done|].
    induction Hfs as [|f fs [Hf _] _ IH]; [constructor|]. rewrite fmap_cons, concat_cons. by repeat constructor.
  - unfold spec_cancel. destruct (find_order _ _) as [o|]; simpl; [|by repeat constructor].
    split; [|by repeat constructor]. by apply (cancel_Forall (λ o, P (r_client_id o))).
Qed.

(** ** A round of the server, seen by one client *)
Lemma kernel_copy_take room n bytes : 
  kernel_copy room (take n bytes) ++ drop (length (kernel_copy room (take n bytes))) bytes = bytes.
Proof.
  assert (∃ i, kernel_copy room (take n bytes) = take i bytes) as [i ->].
  { unfold kernel_copy. case_match; [by exists n|]. rewrite take_take. eauto. }
  rewrite length_take. destruct (decide (i ≤ length bytes)%nat).
  - rewrite Nat.min_l by done. apply take_drop.
  - rewrite Nat.min_r by lia. by rewrite take_ge, drop_all, app_nil_r by lia.
Qed.
Lemma visit_arrivals_ok io s k' :
  Forall (λ a, a_socket a = k' ∧ MEClientRequest_ok (me_client_request_ (a_request a)) = true) (visit_arrivals io s k').
Proof.
  unfold visit_arrivals. destruct (tcp_sockets_ s !! k') as [sk|]; [|constructor]. unfold visit_messages.
  apply Forall_fmap, Forall_forall. intros m Hm%list_elem_of_In. split; [done|]. simpl.
  pose proof (drained_requests_ok (inbound_data_ sk ++ visit_data io sk k')) as H. rewrite forallb_forall in H.
  specialize (H m Hm). unfold OMClientRequest_ok in H. by apply andb_true_iff in H as [_ ?].
Qed.
Lemma round_arrivals_ok io s :
  Forall (λ a, MEClientRequest_ok (me_client_request_ (a_request a)) = true) (round_arrivals io s).
Proof.
  unfold round_arrivals. induction (receive_sockets_ s) as [|k' ks IH]; [constructor|].
  rewrite fmap_cons, concat_cons. apply Forall_app. split; [|done].
  eapply Forall_impl; [apply visit_arrivals_ok|]. by intros a [_ ?].
Qed.
Lemma round_arrivals_split io s k :
  k ∈ receive_sockets_ s → NoDup (receive_sockets_ s) →
  ∃ A1 A2, round_arrivals io s = A1 ++ visit_arrivals io s k ++ A2 ∧ Forall (λ a, a_socket a ≠ k) (A1 ++ A2).
Proof.
  intros (l1 & l2 & E)%list_elem_of_split Hnd. unfold round_arrivals. rewrite E in *.
  apply NoDup_app_cons_inv in Hnd as (Hk1 & Hk2 & _).
  exists (concat (visit_arrivals io s <$> l1)), (concat (visit_arrivals io s <$> l2)).
  rewrite fmap_app, concat_app. split; [done|].
  assert (∀ l, k ∉ l → Forall (λ a, a_socket a ≠ k) (concat (visit_arrivals io s <$> l))) as H;
    [|apply Forall_app; auto].
  clear. intros l Hk. induction l as [|k' l IH]; [constructor|]. rewrite fmap_cons, concat_cons.
  apply not_elem_of_cons in Hk as [Hne Hk]. apply Forall_app. split; [|auto].
  eapply Forall_impl; [apply visit_arrivals_ok|]. intros a [-> _]. congruence.
Qed.

(** What the server accepts of the client in a round is the beginning [U1] of what the client has sent
    ([U], from [sk]'s buffer to [tail]); the rest of the stream is left for later rounds. *)
Lemma client_round c k n t io p se U tail :
  let s := path_server p in let io' := server_event k n t io p in let sk := client_socket k p in
  let r := accept_all (round_arrivals io' s) se in
  sessions s se → 0 ≤ c < ME_MAX_NUM_CLIENTS → k ∈ receive_sockets_ s → NoDup (receive_sockets_ s) →
  is_Some (tcp_sockets_ s !! k) →
  Forall (others_honest k c s) (round_arrivals io' s) →
  inbound_data_ sk ++ path_up p ++ tail = concat (wire_enc <$> number_requests (se_next se c) U) →
  forallb MEClientRequest_ok U = true → Forall (λ q, req_client_id_ q = c) U →
  0 ≤ se_next se c → se_next se c + Z.of_nat (length U) < 2 ^ 64 → default k (se_socket se c) = k →
  ∃ U1 U2, U = U1 ++ U2 ∧
    filter (of_client c) r.2 = MkArrival k t <$> number_requests (se_next se c) U1 ∧
    se_next r.1 c = se_next se c + Z.of_nat (length U1) ∧ default k (se_socket r.1 c) = k ∧
    (visit_messages io' sk k).2 ++ drop (length (visit_data io' sk k)) (path_up p) ++ tail =
      concat (wire_enc <$> number_requests (se_next r.1 c) U2).
Proof.
  intros s io' sk r Hse Hc Hk Hnd [sk' Hsk] Hhon Hstream Hok Hcl H0 Hlt Hb.
  assert (sk = sk') as Esk by (unfold sk, client_socket; fold s; by rewrite Hsk). subst sk'.
  set (data := visit_data io' sk k).
  assert (data ++ drop (length data) (path_up p) = path_up p) as Hdata.
  { unfold data, visit_data, io', server_event. rewrite decide_True by done. apply kernel_copy_take. }
  destruct (drain_prefix (valid := OMClientRequest_ok) (number_requests (se_next se c) U)
    (inbound_data_ sk ++ data) (drop (length data) (path_up p) ++ tail)) as (ms1 & ms2 & rest & Hd & E & Hrest).
  { by apply number_requests_ok. }
  { transitivity (inbound_data_ sk ++ (data ++ drop (length data) (path_up p)) ++ tail);
      [by rewrite <- !(assoc_L (++))|by rewrite Hdata]. }
  apply number_requests_cut in E as (U1 & U2 & -> & -> & ->). rewrite length_app in Hlt.
  apply Forall_app in Hcl as [Hcl1 Hcl2].
  rewrite number_after_ok in Hrest by lia.
  assert (visit_arrivals io' s k = MkArrival k t <$> number_requests (se_next se c) U1) as Harr.
  { unfold visit_arrivals. rewrite Hsk. unfold visit_messages. fold data. rewrite Hd. unfold io', server_event.
    by rewrite decide_True. }
  destruct (round_arrivals_split io' s k Hk Hnd) as (A1 & A2 & EA & Hne). unfold r. rewrite EA, Harr in *.
  apply Forall_app in Hne as [Hne1 Hne2].
  apply Forall_app in Hhon as [Hhon1 Hhon2]. apply Forall_app in Hhon2 as [_ Hhon2].
  pose proof (socket_of_session _ _ _ Hse Hc) as Hso.
  assert (∀ A, Forall (λ a, a_socket a ≠ k) A → Forall (others_honest k c s) A →
    Forall (λ a, a_client a = c → a_socket a ≠ k ∧ se_socket se c = Some k) A) as Hfor.
  { intros A HA HA'. apply Forall_forall. rewrite Forall_forall in HA, HA'. intros a Ha Hac. split; [auto|].
    destruct (HA' a Ha) as [_ Hor]. destruct (Hor Hac); [by destruct (HA a Ha)|congruence]. }
  destruct (accept_foreign c k A1 se (Hfor _ Hne1 Hhon1)) as (F1 & N1 & S1).
  rewrite !accept_all_app. cbn [fst snd]. set (se1 := (accept_all A1 se).1) in *.
  pose proof (number_requests_accepted k t (se_next se c) U1 c se1 Hcl1 H0 ltac:(lia) N1 ltac:(by rewrite S1)) as Hacc.
  destruct (number_requests_session k t (se_next se c) U1 c se1 Hcl1 H0 ltac:(lia) N1 ltac:(by rewrite S1)) as [N2 S2].
  set (se2 := (accept_all (MkArrival k t <$> number_requests (se_next se c) U1) se1).1) in *.
  destruct (accept_foreign c k A2 se2) as (F3 & N3 & S3).
  { eapply Forall_impl; [apply (Hfor _ Hne2 Hhon2)|]. simpl. intros a Ha Hac. destruct (Ha Hac) as [? Hs].
    split; [done|]. unfold se2. apply accept_all_bound. by rewrite S1. }
  exists U1, U2. rewrite !filter_app, F1, F3, Hacc, app_nil_r, N3, N2, S3. split_and!; try done.
  - apply filter_all. intros a Ha. apply list_elem_of_fmap in Ha as (m & -> & Hm).
    unfold of_client, a_client, req_client. simpl. rewrite Forall_forall in Hcl1. apply Hcl1.
    rewrite <- (number_requests_body (se_next se c) U1). by apply list_elem_of_fmap_2.
  - unfold visit_messages. fold data. by rewrite Hd.
Qed.
