(* ===== verification/OrderPathSafety.v ===== *)
(** Orders and their answers along the whole path: the theorem.

    [path_inv] relates a state to the specification through a history [hist]: what the client has sent
    that arrived, that is still on its way, and what the server has answered.  [exec_keeps] says that
    every event within the limits returns and keeps it. *)
From coqutil Require Import Byte Word.LittleEndianList.
From S2P Require Export OrderPathInv.

Section safety.
Context `{!StdSort recv_lt}.
Context (listener k c : Z).

(** A client the server can answer. *)
Definition known (se : session) (c' : Z) : Prop :=
  0 ≤ c' < ME_MAX_NUM_CLIENTS ∧ is_Some (se_socket se c').

(** [h_flight]: requests of the client that the server has not read; [h_down]: messages to its
    connection that the gateway has not read, of which it will take [h_taken]. *)
Record hist : Type := MkHist {
  h_session : session;
  h_next : Z → Z;
  h_delivered : list MEClientResponse;
  h_arrived : list MEClientRequest;
  h_flight : list MEClientRequest;
  h_down : list OMClientResponse;
  h_taken : list MEClientResponse;
}.
Abbreviation waiting_requests g := (contents MEClientRequest_default (gw_outgoing_requests_ g)).
Abbreviation received g := (contents MEClientResponse_default (gw_incoming_responses_ g)).

Record gateway_inv (g : OrderGateway) (sent : list MEClientRequest) (h : hist) : Prop := {
  gi_client : gw_client_id_ g = c;
  gi_requests : queue_wf (gw_outgoing_requests_ g);
  gi_received : queue_wf (gw_incoming_responses_ g);
  gi_short : (length (inbound_data_ (gw_tcp_socket_ g)) < 50)%nat;
  gi_sent : sent = h_arrived h ++ h_flight h ++ waiting_requests g;
  gi_sent_ok : forallb MEClientRequest_ok sent = true ∧ Forall (λ r, req_client_id_ r = c) sent;
}.
Record engine_inv (m : MatchingEngine) (served : list MEClientRequest) (se : session)
    (arrived : list MEClientRequest) : Prop := {
  ei_incoming : queue_wf (incoming_requests_ m);
  ei_updates : queue_wf (outgoing_md_updates_ (outgoing_ m));
  ei_books : Forall2 represents (ticker_order_book_ m) (xs_books (spec_run served));
  ei_ids : next_market_order_id_ <$> ticker_order_book_ m = xs_ids (spec_run served);
  ei_typed : Forall book_typed (xs_books (spec_run served)) ∧
    Forall (λ id, in_u 64 id = true) (xs_ids (spec_run served));
  ei_known : Forall (λ b, Forall (λ o, known se (r_client_id o)) (all_orders b))
    (xs_books (spec_run served));
  ei_queued : Forall (λ r, MEClientRequest_ok r = true ∧ known se (req_client_id_ r))
    (contents MEClientRequest_default (incoming_requests_ m));
  ei_served : filter (λ r, req_client_id_ r = c)
    (served ++ contents MEClientRequest_default (incoming_requests_ m)) ≡ₚ arrived;
}.
Record path_inv (p : OrderPath) (sent : list MEClientRequest) (h : hist) (rs : list MEClientResponse) : Prop := {
  pi_gateway : gateway_inv (path_gateway p) sent h;
  pi_engine : engine_inv (path_engine p) (path_served p) (h_session h) (h_arrived h);
  pi_server : server_ready listener (path_server p) (h_session h) (h_next h) rs;
  pi_connection : k ∈ receive_sockets_ (path_server p);
  pi_shared : seq_incoming_requests_ (fifo_sequencer_ (path_server p)) = incoming_requests_ (path_engine p) ∧
    outgoing_responses_ (path_server p) = outgoing_ogw_responses_ (outgoing_ (path_engine p));
  pi_up : inbound_data_ (client_socket k p) ++ path_up p ++ outbound_data_ (gw_tcp_socket_ (path_gateway p)) =
    concat (wire_enc <$> number_requests (se_next (h_session h) c) (h_flight h));
  pi_up_numbers : 0 ≤ se_next (h_session h) c ∧
    gw_next_outgoing_seq_num_ (path_gateway p) = se_next (h_session h) c + Z.of_nat (length (h_flight h)) ∧
    gw_next_outgoing_seq_num_ (path_gateway p) < 2 ^ 64;
  pi_bound : default k (se_socket (h_session h) c) = k;
  pi_down : inbound_data_ (gw_tcp_socket_ (path_gateway p)) ++ path_down p ++ outbound_data_ (client_socket k p) =
    concat (wire_enc <$> h_down h);
  pi_down_ok : forallb OMClientResponse_ok (h_down h) = true;
  pi_down_numbers : (∀ c', 0 ≤ h_next h c') ∧
    accept_responses c (gw_next_exp_seq_num_ (path_gateway p)) (h_down h) = (h_next h c, h_taken h);
  pi_delivered : filter (λ r, resp_client_id_ r = c) (h_delivered h) = received (path_gateway p) ++ h_taken h;
  pi_responses : xs_responses (spec_run (path_served p)) = h_delivered h ++ rs;
  pi_rs : forallb MEClientResponse_ok rs = true ∧ Forall (λ r, known (h_session h) (resp_client_id_ r)) rs;
}.

(** ** The trade engine and the gateway *)
Lemma exec_order_keeps r p sent h rs :
  path_inv p sent h rs → within_limits k c (Ev_order r) p →
  wp (exec k (Ev_order r)) p (λ _ p', path_inv p' (sent ++ [r]) h rs).
Proof.
  intros Hp (Hok & Hc & Hpush). destruct (pi_gateway _ _ _ _ Hp) as [? Hwf ? ? Hs [Hsok Hsc]].
  unfold exec. apply wp_bind, wp_gets, wp_zoom, wp_zoom. unfold wp. rewrite push_ok by done.
  destruct Hp. split; try done. split; try done.
  - by apply can_push_wf.
  - cbn. by rewrite contents_pushed, Hs, <- !(assoc_L (++)).
  - rewrite forallb_app, Hsok. cbn [forallb]. rewrite Hok. split; [done|]. apply Forall_app. auto.
Qed.

Lemma exec_gateway_keeps n t p sent h rs :
  path_inv p sent h rs → within_limits k c (Ev_gateway n t) p →
  wp (exec k (Ev_gateway n t)) p (λ _ p', ∃ h', path_inv p' sent h' rs).
Proof.
  intros Hp (Hcap & Hout & Hexp & Hroom). destruct (pi_gateway _ _ _ _ Hp) as [Hcl Hwf Hrwf Hshort Hs Hsok].
  set (g := path_gateway p) in *. set (io := gateway_event n t p) in *.
  assert (gateway_data io g ++ drop (length (gateway_data io g)) (path_down p) = path_down p) as Hdata
    by apply kernel_copy_take.
  destruct (drain_prefix (valid := OMClientResponse_ok) (h_down h) (inbound_data_ (gw_tcp_socket_ g) ++ gateway_data io g)
    (drop (length (gateway_data io g)) (path_down p) ++ outbound_data_ (client_socket k p)))
    as (D1 & D2 & rest & Hd & ED & Hrest); [by eapply pi_down_ok| |].
  { rewrite <- (pi_down _ _ _ _ Hp). fold g.
    transitivity (inbound_data_ (gw_tcp_socket_ g) ++ (gateway_data io g ++ drop (length (gateway_data io g)) (path_down p))
      ++ outbound_data_ (client_socket k p)); [by rewrite <- !(assoc_L (++))|by rewrite Hdata]. }
  rewrite Hd in Hexp, Hroom. cbn [fst] in Hexp, Hroom.
  pose proof (pi_down_numbers _ _ _ _ Hp) as [Hnext Hacc]. fold g in Hacc. rewrite ED, accept_responses_app in Hacc.
  destruct (accept_responses c (gw_next_exp_seq_num_ g) D1) as [m acc1] eqn:E1. cbn [fst snd] in Hacc.
  pose proof (accept_responses_length c (gw_next_exp_seq_num_ g) D1) as Hl1. rewrite E1 in Hl1. cbn [snd] in Hl1.
  destruct (accept_responses c m D2) as [m2 acc2] eqn:E2. cbn [fst snd] in Hacc. injection Hacc as -> Htaken.
  unfold exec. apply wp_bind, wp_gets. fold g. cbn [id]. fold io. apply wp_bind, wp_zoom. eapply wp_mono.
  { apply (gateway_round_ok io g D1 rest (waiting_requests g) (received g) 0 m acc1); try done.
    - by rewrite Hcl.
    - split_and!; [done|done|]. unfold has_room in Hroom. lia. }
  intros [] g' (Hwf' & Hc' & (Hrwf' & Hrc' & _) & Hcl' & Hexp' & Hout' & Hsk'). apply wp_modify.
  exists (MkHist (h_session h) (h_next h) (h_delivered h) (h_arrived h) (h_flight h ++ waiting_requests g) D2 acc2).
  destruct (pi_up_numbers _ _ _ _ Hp) as (H0 & En & Hlt). fold g in En, Hlt.
  assert (number_after (waiting_requests g) (gw_next_outgoing_seq_num_ g) =
    gw_next_outgoing_seq_num_ g + Z.of_nat (length (waiting_requests g))) as Hnum by (apply number_after_ok; lia).
  pose proof (pi_down_ok _ _ _ _ Hp) as Hdok. rewrite ED, forallb_app in Hdok. apply andb_true_iff in Hdok as [_ Hdok].
  pose proof (pi_up _ _ _ _ Hp) as Hup. pose proof (pi_delivered _ _ _ _ Hp) as Hdel. fold g in Hup, Hdel.
  destruct Hp. split; cbn -[drop wire_enc]; try done.
  - split; cbn; try done; [congruence| |].
    + rewrite Hsk'. cbn. pose proof (drain_rest OMClientResponse_ok _ _ _ Hd). done.
    + by rewrite Hc', app_nil_r.
  - rewrite Hsk'. cbn [outbound_data_ set_outbound]. rewrite number_requests_app, fmap_app, concat_app, <- Hup.
    rewrite number_after_ok, <- En by lia. by rewrite <- !(assoc_L (++)).
  - rewrite Hout', length_app. lia.
  - rewrite Hsk'. cbn -[drop wire_enc]. exact Hrest.
  - split; [done|]. by rewrite Hexp'.
  - by rewrite Hdel, Hrc', <- (assoc_L (++)), <- Htaken.
Qed.

(** ** The engine *)
Lemma known_mono se ms c' : known se c' → known (accept_all ms se).1 c'.
Proof. intros [? [k' Hk]]. split; [done|]. exists k'. by apply accept_all_bound. Qed.
Lemma spec_run_snoc rs r : spec_run (rs ++ [r]) = spec_serve (spec_run rs) r.
Proof. unfold spec_run. by rewrite foldl_app. Qed.

Lemma exec_engine_idle p sent h rs :
  path_inv p sent h rs → queued_requests p = [] →
  wp (exec k Ev_engine) p (λ _ p', path_inv p' sent h rs).
Proof.
  intros Hp Hq. pose proof (ei_incoming _ _ _ _ (pi_engine _ _ _ _ Hp)) as Hwf.
  assert (set_path_engine (path_engine p) p = p) as Hid.
  { destruct (pi_shared _ _ _ _ Hp) as [E1 E2]. unfold set_path_engine, give_server.
    rewrite <- E1, <- E2. by destruct p as [? ? ? [? ? ? ? []] ?]. }
  unfold exec. apply wp_bind, wp_gets. cbn [id]. rewrite Hq. apply wp_bind, wp_zoom.
  unfold run_once. eapply wp_bind_Ok; [apply zoom_Ok, (getNextToRead_nil MEClientRequest_default); done|]. apply wp_ret, wp_modify.
  assert (set_incoming (incoming_requests_ (path_engine p)) (path_engine p) = path_engine p) as -> by by destruct (path_engine p).
  rewrite Hid. cbn. rewrite app_nil_r. by destruct p.
Qed.

Lemma engine_inv_serve m m' served se arrived r rest b ob :
  engine_inv m served se arrived →
  contents MEClientRequest_default (incoming_requests_ m) = r :: rest →
  ticker_order_book_ m !! Z.to_nat (req_ticker_id_ r) = Some b →
  xs_books (spec_run served) !! Z.to_nat (req_ticker_id_ r) = Some ob →
  let out := spec_process r (next_market_order_id_ b) ob in
  queue_wf (incoming_requests_ m') → queue_wf (outgoing_md_updates_ (outgoing_ m')) →
  contents MEClientRequest_default (incoming_requests_ m') = rest →
  Forall2 represents (ticker_order_book_ m')
    (<[Z.to_nat (req_ticker_id_ r) := out_book out]> (xs_books (spec_run served))) →
  next_market_order_id_ <$> ticker_order_book_ m' =
    <[Z.to_nat (req_ticker_id_ r) := next_id_after r (next_market_order_id_ b)]>
      (next_market_order_id_ <$> ticker_order_book_ m) →
  engine_inv m' (served ++ [r]) se arrived ∧
  xs_responses (spec_run (served ++ [r])) = xs_responses (spec_run served) ++ out_responses out ∧
  forallb MEClientResponse_ok (out_responses out) = true ∧
  Forall (λ x, known se (resp_client_id_ x)) (out_responses out).
Proof.
  intros [Hwf Hmd Hrep Hids [Hbt Hit] Hkn Hqd Hsv] Hc Hb Hob out Hwf' Hmd' Hc' Hrep' Hids'.
  rewrite Hc in Hqd, Hsv. apply Forall_cons in Hqd as [[Hrok Hrkn] Hqd].
  assert (xs_ids (spec_run served) !! Z.to_nat (req_ticker_id_ r) = Some (next_market_order_id_ b)) as Hid
    by by rewrite <- Hids, list_lookup_fmap, Hb.
  assert (spec_run (served ++ [r]) = MkExchangeSpec
    (<[Z.to_nat (req_ticker_id_ r) := out_book out]> (xs_books (spec_run served)))
    (<[Z.to_nat (req_ticker_id_ r) := next_id_after r (next_market_order_id_ b)]> (xs_ids (spec_run served)))
    (xs_responses (spec_run served) ++ out_responses out)) as Erun.
  { rewrite spec_run_snoc. unfold spec_serve. by rewrite Hob, Hid. }
  pose proof (Forall_lookup_1 _ _ _ _ Hbt Hob) as Hobt. pose proof (Forall_lookup_1 _ _ _ _ Hit Hid) as Hidt.
  pose proof (Forall_lookup_1 _ _ _ _ Hkn Hob) as Hobk.
  destruct (spec_process_typed r (next_market_order_id_ b) ob Hrok Hidt Hobt) as (Hbt' & Hrt' & _).
  assert (0 ≤ req_qty_ r) as Hq.
  { unfold MEClientRequest_ok in Hrok. apply andb_true_iff in Hrok as [_ Hrok]. unfold in_u in Hrok. lia. }
  destruct (spec_process_clients (known se) r (next_market_order_id_ b) ob Hrkn Hq (book_typed_qty _ Hobt) Hobk)
    as [Hbk' Hrk'].
  rewrite Erun. split_and!; try done. split; rewrite ?Erun, ?Hc'; cbn [xs_books xs_ids]; try done.
  - congruence.
  - split; [by apply Forall_insert|]. apply Forall_insert; [done|]. unfold next_id_after.
    destruct (req_type_ r); try done. pose proof (u64_range (next_market_order_id_ b + 1)). unfold in_u. lia.
  - by apply Forall_insert.
  - by rewrite <- (assoc_L (++)).
Qed.

Lemma exec_engine_keeps p sent h rs :
  path_inv p sent h rs → within_limits k c Ev_engine p →
  wp (exec k Ev_engine) p (λ _ p', ∃ rs', path_inv p' sent h rs').
Proof.
  intros Hp Hlim. destruct (queued_requests p) as [|r rest] eqn:Hq.
  { eapply wp_mono; [by apply exec_engine_idle|]. intros [] p' ?. by exists rs. }
  unfold within_limits in Hlim. rewrite Hq in Hlim. cbv zeta in Hlim. destruct Hlim as (b & ob & Hb & Hob & Hserv & Hr1 & Hr2).
  set (m := path_engine p) in *. set (out := spec_process r (next_market_order_id_ b) ob) in *.
  pose proof (pi_engine _ _ _ _ Hp) as He. fold m in He. destruct (pi_shared _ _ _ _ Hp) as [E1 E2]. fold m in E1, E2.
  destruct (sr_responses _ _ _ _ _ (pi_server _ _ _ _ Hp)) as [Hrwf Hrc]. rewrite E2 in Hrwf, Hrc.
  unfold exec. apply wp_bind, wp_gets. cbn [id]. rewrite Hq. apply wp_bind, wp_zoom. fold m. eapply wp_mono.
  { apply (run_once_ok r rest m (xs_books (spec_run (path_served p))) ob b 0 0 rs
      (contents MEMarketUpdate_default (outgoing_md_updates_ (outgoing_ m)))); try done; [apply He|].
    fold out. split; [apply He|]. unfold has_room in Hr1, Hr2.
    split; (split_and!; [first [done|apply He]|done|lia]). }
  intros a m' (-> & [Hrep' [(Hrwf' & Hrc' & _) (Hmwf' & _ & _)]] & Hwf' & Hc' & Hids'). apply wp_modify.
  exists (rs ++ out_responses out).
  destruct (engine_inv_serve m m' (path_served p) (h_session h) (h_arrived h) r rest b ob) as (He' & Hx' & Hok' & Hkn'); try done.
  destruct Hp as [Hg _ Hs ? ? ? ? ? ? ? ? ? Hres [Hok Hkn]]. split; try done; cbn.
  - destruct Hs as [Hcn Hun ? Hse Hh ? ? ?]. split; cbn; try done.
    + by destruct Hcn.
    + by destruct Hse.
  - transitivity (xs_responses (spec_run (path_served p ++ [r]))); [done|]. fold out in Hx'.
    by rewrite Hx', Hres, <- (assoc_L (++)).
  - rewrite forallb_app, Hok. split; [done|]. by apply Forall_app.
Qed.

(** ** The server *)
(** The requests a round hands to the engine, for one client and for all. *)
Lemma published_filter acc msgs t :
  filter (of_client c) acc = MkArrival k t <$> msgs →
  filter (λ r, req_client_id_ r = c) (request_ <$> std_sort (stamp <$> acc)) ≡ₚ (me_client_request_ <$> msgs).
Proof.
  intros H. rewrite (std_sort_perm (stamp <$> acc)), <- list_fmap_compose.
  assert (filter (λ r, req_client_id_ r = c) (request_ ∘ stamp <$> acc) =
    request_ ∘ stamp <$> filter (of_client c) acc) as ->.
  { clear H. induction acc as [|a acc IH]; [done|]. rewrite fmap_cons.
    destruct (decide (of_client c a)) as [Ha|Ha].
    - rewrite (filter_cons_True (of_client c)) by done. rewrite filter_cons_True by done. rewrite fmap_cons. by rewrite IH.
    - rewrite (filter_cons_False (of_client c)) by done. by rewrite filter_cons_False by done. }
  by rewrite H, <- list_fmap_compose.
Qed.
Lemma published_Forall (P : MEClientRequest → Prop) acc :
  Forall (λ a, P (me_client_request_ (a_request a))) acc → Forall P (request_ <$> std_sort (stamp <$> acc)).
Proof. intros H. rewrite (std_sort_perm (stamp <$> acc)), <- list_fmap_compose. by apply Forall_fmap. Qed.
Lemma accepted_Forall (P : arrival → Prop) ms se : Forall P ms → Forall P (accept_all ms se).2.
Proof.
  rewrite !Forall_forall. intros H a Ha. apply H. eapply elem_of_submseteq; [exact Ha|].
  apply sublist_submseteq, accept_all_sublist.
Qed.

(** The engine after a round of the server: more requests, the same books. *)
Lemma engine_inv_arrive io se arrived p s' served U1 :
  engine_inv (path_engine p) served se arrived →
  let r := accept_all (round_arrivals io (path_server p)) se in
  Forall (others_honest k c (path_server p)) (round_arrivals io (path_server p)) →
  queue_room MEClientRequest_default (seq_incoming_requests_ (fifo_sequencer_ s')) 0
    (queued_requests p ++ (request_ <$> std_sort (stamp <$> r.2))) →
  filter (λ r, req_client_id_ r = c) (request_ <$> std_sort (stamp <$> r.2)) ≡ₚ U1 →
  engine_inv (give_engine s' (path_engine p)) served r.1 (arrived ++ U1).
Proof.
  intros [Hwf Hmd Hrep Hids Hty Hkn Hqd Hsv] r Hhon (Hwf' & Hc' & _) HU1. split; cbn; try done.
  - eapply Forall_impl; [exact Hkn|]. intros b Hb. eapply Forall_impl; [exact Hb|]. intros o. apply known_mono.
  - rewrite Hc'. apply Forall_app. split.
    + eapply Forall_impl; [exact Hqd|]. intros q [? ?]. split; [done|]. by apply known_mono.
    + apply published_Forall. pose proof (accepted_bound (round_arrivals io (path_server p)) se) as Hb. fold r in Hb.
      pose proof (accepted_Forall _ _ se (round_arrivals_ok io (path_server p))) as Ho.
      pose proof (accepted_Forall _ _ se Hhon) as Hh. fold r in Ho, Hh.
      rewrite Forall_forall in Hb, Ho, Hh |- *. intros a Ha. split; [by apply Ho|].
      destruct (Hh a Ha) as [? _]. split; [done|by apply Hb].
  - rewrite Hc', (assoc_L (++)), filter_app, HU1. unfold queued_requests. by rewrite Hsv.
Qed.

Lemma exec_server_keeps n t io p sent h rs :
  path_inv p sent h rs → 0 ≤ c < ME_MAX_NUM_CLIENTS → within_limits k c (Ev_server n t io) p →
  wp (exec k (Ev_server n t io)) p (λ _ p', ∃ h', path_inv p' sent h' []).
Proof.
  intros Hp Hc (Hhon & Hlen & Hroom & Hcap & Hnums & _).
  set (s := path_server p) in *. set (io' := server_event k n t io p) in *. set (se := h_session h).
  pose proof (pi_server _ _ _ _ Hp) as Hs. fold s se in Hs. destruct (pi_shared _ _ _ _ Hp) as [E1 E2]. fold s in E1, E2.
  destruct (sr_responses _ _ _ _ _ Hs) as [Hrwf Hrc]. rewrite Hrc in Hcap, Hnums.
  pose proof (pi_connection _ _ _ _ Hp) as Hk. fold s in Hk.
  pose proof (cn_nodup _ _ (sr_connected _ _ _ _ _ Hs)) as [_ Hnd]%NoDup_cons.
  assert (is_Some (tcp_sockets_ s !! k)) as [sk Hsk].
  { apply (cn_sockets _ _ (sr_connected _ _ _ _ _ Hs)). by right. }
  assert (client_socket k p = sk) as Ecs by (unfold client_socket; fold s; by rewrite Hsk).
  destruct (pi_up_numbers _ _ _ _ Hp) as (H0 & En & Hlt). fold se in H0, En.
  pose proof (pi_gateway _ _ _ _ Hp) as Hg. destruct (gi_sent_ok _ _ _ Hg) as [Hsok Hscl].
  rewrite (gi_sent _ _ _ Hg), !forallb_app in Hsok. apply andb_true_iff in Hsok as [_ [HUok _]%andb_true_iff].
  rewrite (gi_sent _ _ _ Hg) in Hscl. apply Forall_app in Hscl as [_ [HUcl _]%Forall_app].
  destruct (client_round c k n t io p se (h_flight h) (outbound_data_ (gw_tcp_socket_ (path_gateway p))))
    as (U1 & U2 & EU & Hacc & Hnx & Hb & Hup); try done; [exact (sr_sessions _ _ _ _ _ Hs)|exact (pi_up _ _ _ _ Hp)|lia|exact (pi_bound _ _ _ _ Hp)|].
  fold s io' in Hacc, Hnx, Hb, Hup. set (r := accept_all (round_arrivals io' s) se) in *.
  pose proof (sublist_length _ _ (accept_all_sublist (round_arrivals io' s) se)) as Hrl. fold r in Hrl.
  destruct (pi_rs _ _ _ _ Hp) as [Hrok Hrkn]. fold se in Hrkn.
  pose proof (pi_engine _ _ _ _ Hp) as He. fold se in He.
  unfold exec. apply wp_bind, wp_gets. cbn [id]. fold io'. apply wp_bind, wp_zoom. fold s. eapply wp_mono.
  { apply (server_round_ok io' listener s se (h_next h) rs (queued_requests p) 0); try done.
    - eapply Forall_impl; [exact Hhon|]. by intros a [? _].
    - fold r. lia.
    - fold r. rewrite E1. split_and!; [apply He|done|]. unfold has_room in Hroom. rewrite E1 in Hroom. lia. }
  intros [] s' (Hs' & Hq' & Hv' & Hsk'). fold r in Hs', Hq', Hsk'. apply wp_modify.
  specialize (Hsk' k sk Hk Hsk). rewrite Ecs in *.
  set (D := stream (se_socket r.1) k (number rs (h_next h))) in *.
  exists (MkHist r.1 (numbers_after rs (h_next h)) (h_delivered h ++ rs) (h_arrived h ++ U1) U2 (h_down h ++ D)
    (h_taken h ++ filter (λ x, resp_client_id_ x = c) rs)).
  destruct (pi_down_numbers _ _ _ _ Hp) as [Hn0 Hdacc].
  assert (next_numbers s (h_next h)) as Hnn by apply Hs.
  assert (∀ c', 0 ≤ c' < ME_MAX_NUM_CLIENTS → h_next h c' + Z.of_nat (length rs) < 2 ^ 64) as Hn64.
  { intros c' Hc'. rewrite Forall_lookup in Hnums. by apply (Hnums (Z.to_nat c')), Hnn. }
  assert (accept_responses c (h_next h c) D =
    (numbers_after rs (h_next h) c, filter (λ x, resp_client_id_ x = c) rs)) as HD.
  { apply accept_responses_stream; [|done|by apply Hn64]. eapply Forall_impl; [exact Hrkn|]. simpl.
    intros x [_ [k' Hk']] Hx. rewrite Hx in Hk'.
    pose proof (accept_all_bound (round_arrivals io' s) se c k' Hk') as Hk''. fold r in Hk''.
    rewrite Hk'' in Hb |- *. simpl in Hb. by rewrite Hb. }
  assert (forallb OMClientResponse_ok D = true) as HDok.
  { apply stream_ok, number_ok; [|done]. eapply Forall_impl; [exact Hrkn|]. simpl. intros x [Hx _]. auto. }
  assert (client_socket k (set_wires (drop (length (visit_data io' sk k)) (path_up p))
    (path_down p ++ outbound_data_ sk) (set_path_server s' p)) =
    set_outbound (concat (wire_enc <$> D)) (after_visit io' k sk)) as Ecs'.
  { unfold client_socket. cbn -[drop]. by rewrite Hsk'. }
  pose proof (pi_down_ok _ _ _ _ Hp) as Hdok. pose proof (pi_down _ _ _ _ Hp) as Hdown.
  pose proof (pi_delivered _ _ _ _ Hp) as Hdel. pose proof (pi_responses _ _ _ _ Hp) as Hres. rewrite Ecs in Hdown.
  split; rewrite ?Ecs'; cbn -[drop wire_enc D number_requests]; try done.
  - destruct Hg as [? ? ? ? Hsent ?]. split; try done. cbn. rewrite Hsent, EU. by rewrite <- !(assoc_L (++)).
  - apply (engine_inv_arrive io' se); try done. fold s r. rewrite <- (number_requests_body (se_next se c) U1).
    by eapply published_filter.
  - by rewrite Hv'.
  - split; [lia|]. rewrite EU, length_app in En. lia.
  - rewrite fmap_app, concat_app, <- Hdown. by rewrite <- !(assoc_L (++)).
  - by rewrite forallb_app, Hdok.
  - split; [intros c'; by apply numbers_after_nonneg|]. rewrite accept_responses_app, Hdacc. cbn [fst snd]. by rewrite HD.
  - by rewrite filter_app, Hdel, <- (assoc_L (++)).
  - by rewrite app_nil_r.
Qed.

Lemma exec_connect_keeps fd p sent h rs :
  path_inv p sent h rs → within_limits k c (Ev_connect fd) p →
  wp (exec k (Ev_connect fd)) p (λ _ p', path_inv p' sent h rs).
Proof.
  intros Hp Hfd. cbn in Hfd. unfold exec. apply wp_bind, wp_gets, wp_modify. cbn [id].
  set (s := path_server p) in *. pose proof (pi_server _ _ _ _ Hp) as Hs. fold s in Hs.
  pose proof (pi_connection _ _ _ _ Hp) as Hk. fold s in Hk. destruct (pi_shared _ _ _ _ Hp) as [E1 E2]. fold s in E1, E2.
  pose proof (sr_connected _ _ _ _ _ Hs) as Hcn.
  assert (∀ k', k' ∈ listener :: receive_sockets_ s → fd ≠ k') as Hne.
  { intros k' [sk Hsk]%(cn_sockets _ _ Hcn) <-. congruence. }
  assert (give_engine (open_connection s fd) (path_engine p) = path_engine p) as Hid.
  { unfold give_engine. cbn. rewrite E1, E2. by destruct (path_engine p) as [? ? []]. }
  assert (client_socket k (set_path_server (open_connection s fd) p) = client_socket k p) as Ecs.
  { unfold client_socket. cbn. rewrite lookup_insert_ne; [done|]. apply Hne. by right. }
  destruct Hp. split; rewrite ?Ecs; cbn; rewrite ?Hid; try done.
  - by apply open_connection_ready.
  - apply elem_of_app. by left.
Qed.

(** ** Histories *)
Lemma exec_keeps e p sent h rs :
  path_inv p sent h rs → 0 ≤ c < ME_MAX_NUM_CLIENTS → within_limits k c e p →
  wp (exec k e) p (λ _ p', ∃ h' rs', path_inv p' (sent ++ sent_by e) h' rs').
Proof.
  intros Hp Hc Hlim. destruct e as [r|n t|n t io| |fd]; cbn [sent_by]; rewrite ?app_nil_r.
  - eapply wp_mono; [by eapply exec_order_keeps|]. intros [] p' ?. eauto.
  - eapply wp_mono; [by eapply exec_gateway_keeps|]. intros [] p' [h' ?]. eauto.
  - eapply wp_mono; [by eapply exec_server_keeps|]. intros [] p' [h' ?]. eauto.
  - eapply wp_mono; [by eapply exec_engine_keeps|]. intros [] p' [rs' ?]. eauto.
  - eapply wp_mono; [by eapply exec_connect_keeps|]. intros [] p' ?. eauto.
Qed.
Lemma exec_all_keeps es : ∀ p sent h rs,
  path_inv p sent h rs → 0 ≤ c < ME_MAX_NUM_CLIENTS → admissible k c es p →
  wp (exec_all k es) p (λ _ p', ∃ h' rs', path_inv p' (sent ++ orders es) h' rs').
Proof.
  induction es as [|e es IH]; intros p sent h rs Hp Hc Hadm.
  { apply wp_ret. exists h, rs. by rewrite app_nil_r. }
  destruct Hadm as [Hlim Hadm]. cbn [exec_all]. apply wp_bind.
  destruct (proj1 (wp_ok _ _ _) (exec_keeps e p sent h rs Hp Hc Hlim)) as ([] & p1 & Hrun & h1 & rs1 & Hp1).
  apply wp_ok. exists tt, p1. split; [done|].
  eapply wp_mono; [apply (IH p1 (sent ++ sent_by e) h1 rs1 Hp1 Hc (Hadm _ Hrun))|].
  unfold orders. rewrite fmap_cons, concat_cons, <- (assoc_L (++)). done.
Qed.

Lemma open_connections_ready fds : ∀ s,
  NoDup fds → (∀ fd, fd ∈ fds → tcp_sockets_ s !! fd = None) →
  server_ready listener s session0 (λ _, 1) [] →
  let s' := open_connections fds s in
  server_ready listener s' session0 (λ _, 1) [] ∧ (∀ fd, fd ∈ fds ∨ fd ∈ receive_sockets_ s → fd ∈ receive_sockets_ s') ∧
  fifo_sequencer_ s' = fifo_sequencer_ s ∧ outgoing_responses_ s' = outgoing_responses_ s ∧
  ∀ fd, fd ∈ fds ∨ tcp_sockets_ s !! fd = Some Socket_new → tcp_sockets_ s' !! fd = Some Socket_new.
Proof.
  induction fds as [|fd fds IH]; intros s Hnd Hnew Hs.
  { cbn. split_and!; try done; by intros fd [?%not_elem_of_nil|?]. }
  apply NoDup_cons in Hnd as [Hfd Hnd].
  destruct (IH (open_connection s fd) Hnd) as (H1 & H2 & H3 & H4 & H5).
  { intros fd' Hfd'. cbn. rewrite lookup_insert_ne by set_solver. apply Hnew. by right. }
  { apply open_connection_ready; [done|]. apply Hnew. left. }
  cbn in *. split_and!; try done.
  - intros fd' [[->|?]%elem_of_cons|?]; apply H2; set_solver.
  - intros fd' [[->|?]%elem_of_cons|Hs']; apply H5; [right; by rewrite lookup_insert_eq|by left|].
    right. destruct (decide (fd' = fd)) as [->|]; [by rewrite lookup_insert_eq|by rewrite lookup_insert_ne].
Qed.
Lemma path_start_inv fds :
  NoDup (listener :: fds) → k ∈ fds → path_inv (path_start c listener fds) []
    (MkHist session0 (λ _, 1) [] [] [] [] []) [].
Proof.
  intros [Hl Hnd]%NoDup_cons Hk. set (s0 := listening_server listener new_queue new_queue).
  destruct (open_connections_ready fds s0) as (H1 & H2 & H3 & H4 & H5).
  { done. }
  { intros fd Hfd. cbn. rewrite lookup_singleton_ne; [done|]. by intros <-. }
  { split; try done.
    - apply listening_connected.
    - intros sk Hsk. cbn in Hsk. by apply lookup_singleton_Some in Hsk as [_ <-].
    - split; intros c' Hc'; cbn; by apply (replicate_at ME_MAX_NUM_CLIENTS).
    - intros c' Hc'. cbn. by apply (replicate_at ME_MAX_NUM_CLIENTS).
    - split; [apply new_queue_wf|done]. }
  assert (client_socket k (path_start c listener fds) = Socket_new) as Ecs.
  { unfold client_socket. change (path_server _) with (open_connections fds s0). by rewrite (H5 k) by by left. }
  split; rewrite ?Ecs; cbn; try done.
  - split; cbn; try done; [apply new_queue_wf..|lia].
  - split; cbn; try first [done|apply new_queue_wf].
    + unfold books0. repeat (constructor; [apply book0_represents|]). constructor.
    + split; repeat constructor.
    + repeat constructor.
  - apply H2. by left.
  - change (seq_incoming_requests_ (fifo_sequencer_ (open_connections fds s0)) = new_queue ∧
      outgoing_responses_ (open_connections fds s0) = new_queue). by rewrite H3, H4.
Qed.

(** A stream shorter than a message is empty. *)
Lemma encoded_nil {A} `{WireLaws A valid} (ms : list A) :
  (length (concat (wire_enc <$> ms)) < wire_size (A := A))%nat → ms = [].
Proof.
  destruct ms as [|m ms]; [done|]. rewrite fmap_cons. cbn [concat]. rewrite length_app, wire_enc_length. lia.
Qed.
Lemma client_socket_short p sent h rs :
  path_inv p sent h rs → (length (inbound_data_ (client_socket k p)) < 38)%nat.
Proof.
  intros Hp. pose proof (sr_unfinished _ _ _ _ _ (pi_server _ _ _ _ Hp)) as Hun. rewrite Forall_forall in Hun.
  destruct (Hun k (pi_connection _ _ _ _ Hp)) as (sk & Hsk & Hl). unfold client_socket. by rewrite Hsk.
Qed.

(** C6: what the exchange promises a client. Take any history of the gateway, the order server and the
    engine, the threads' rounds in any order, the bytes cut into reads in any way, other connections
    sending anything that does not claim this client's id before it is bound. Its limits
    ([within_limits]): client ids below 256, at most 1024 requests a round, room in every queue and
    buffer where something is put, sequence numbers below 2^64, requests servable when served, new
    descriptors. Every round returns. The responses the client has received are a prefix, in order, of
    those the specification gives it when the requests served are applied one after the other to empty
    books; the requests served for it or queued are, up to their order, a prefix of the ones it sent.
    When nothing is on its way any more, it has every response, and every request was served exactly
    once. *)
Theorem client_served fds es :
  NoDup (listener :: fds) → k ∈ fds → 0 ≤ c < ME_MAX_NUM_CLIENTS →
  admissible k c es (path_start c listener fds) →
  ∃ p, exec_all k es (path_start c listener fds) = Ok (tt, p) ∧
    let mine := filter (λ r, resp_client_id_ r = c) (xs_responses (spec_run (path_served p))) in
    received (path_gateway p) `prefix_of` mine ∧
    (∃ arrived, arrived `prefix_of` orders es ∧
       filter (λ r, req_client_id_ r = c) (path_served p ++ queued_requests p) ≡ₚ arrived) ∧
    (quiet k p → received (path_gateway p) = mine ∧
       filter (λ r, req_client_id_ r = c) (path_served p) ≡ₚ orders es).
Proof.
  intros Hnd Hk Hc Hadm.
  destruct (proj1 (wp_ok _ _ _) (exec_all_keeps es _ _ _ _ (path_start_inv fds Hnd Hk) Hc Hadm))
    as ([] & p & Hrun & h & rs & Hp).
  exists p. split; [done|]. cbn zeta. rewrite (pi_responses _ _ _ _ Hp), filter_app, (pi_delivered _ _ _ _ Hp).
  pose proof (gi_sent _ _ _ (pi_gateway _ _ _ _ Hp)) as Hsent. cbn [app] in Hsent.
  pose proof (ei_served _ _ _ _ (pi_engine _ _ _ _ Hp)) as Hserved. split_and!.
  - rewrite <- (assoc_L (++)). by apply prefix_app_r.
  - exists (h_arrived h). split; [|done]. rewrite Hsent. by apply prefix_app_r.
  - intros (Eup & Edown & Eout & Eout' & Ewait & Eq & Ers).
    pose proof (pi_up _ _ _ _ Hp) as Hup. pose proof (pi_down _ _ _ _ Hp) as Hdown.
    destruct (sr_responses _ _ _ _ _ (pi_server _ _ _ _ Hp)) as [_ Hrs]. rewrite Ers in Hrs. subst rs.
    rewrite Eup, Eout, app_nil_r in Hup. rewrite Edown, Eout', app_nil_r in Hdown.
    assert (h_flight h = []) as Eflight.
    { rewrite <- (number_requests_body (se_next (h_session h) c) (h_flight h)).
      rewrite (encoded_nil (valid := OMClientRequest_ok) (number_requests _ _)); [done|].
      rewrite <- Hup. by eapply client_socket_short. }
    assert (h_down h = []) as Ehd.
    { apply (encoded_nil (valid := OMClientResponse_ok)). rewrite <- Hdown. apply (gi_short _ _ _ (pi_gateway _ _ _ _ Hp)). }
    destruct (pi_down_numbers _ _ _ _ Hp) as [_ Hacc]. rewrite Ehd in Hacc. injection Hacc as _ <-.
    unfold queued_requests in Eq. rewrite Eq, app_nil_r in Hserved. rewrite Hsent, Eflight, Ewait, !app_nil_r. done.
Qed.
End safety.

(** ** A history
    Client 1 sends one order; its bytes are read in two pieces, another client connects on the way, and the
    acknowledgement comes back. *)
Section example.
Definition no_io : Z → kernel_event := λ _, MkKernelEvent [] 0 0.
Definition history1 : list path_event :=
  [Ev_order sell_request; Ev_gateway 0 1; Ev_gateway 0 2; Ev_server 20 7 no_io; Ev_connect 22;
   Ev_server 99 8 no_io; Ev_engine; Ev_server 0 9 no_io; Ev_server 0 10 no_io; Ev_gateway 99 11].
Definition start1 : OrderPath := path_start 1 3 [20; 21].
Definition step1 (e : path_event) (p : OrderPath) : OrderPath :=
  match exec 20 e p with Ok (_, p') => p' | Err _ => p end.
Definition state1 (n : nat) : OrderPath := foldl (λ p e, step1 e p) start1 (take n history1).

Lemma admissible_step e es p p' :
  exec 20 e p = Ok (tt, p') → within_limits 20 1 e p → admissible 20 1 es p' →
  admissible 20 1 (e :: es) p.
Proof. intros E Hlim Hadm. split; [done|]. intros p'' E'. rewrite E in E'. by injection E' as <-. Qed.
Lemma server_limits n t p msgs waiting :
  round_arrivals (server_event 20 n t no_io p) (path_server p) = MkArrival 20 t <$> msgs →
  forallb (λ m, (0 <=? req_client m) && (req_client m <? ME_MAX_NUM_CLIENTS)) msgs = true →
  length (contents MEClientResponse_default (outgoing_responses_ (path_server p))) = waiting →
  ((Z.of_nat (length msgs) <=? ME_MAX_PENDING_REQUESTS) &&
   (write_pos_ (seq_incoming_requests_ (fifo_sequencer_ (path_server p))) + Z.of_nat (length msgs) <?
      q_size (seq_incoming_requests_ (fifo_sequencer_ (path_server p)))) &&
   (Z.of_nat (50 * waiting) <=? TCPBufferSize) &&
   forallb (λ n, n + Z.of_nat waiting <? 2 ^ 64) (cid_next_outgoing_seq_num_ (path_server p)) &&
   forallb (λ n, n + Z.of_nat (length msgs) <? 2 ^ 64) (cid_next_exp_seq_num_ (path_server p))) = true →
  within_limits 20 1 (Ev_server n t no_io) p.
Proof.
  intros Harr Hmsgs Hw Hb. unfold within_limits. rewrite Harr, Hw, length_fmap.
  rewrite !andb_true_iff, !forallb_forall in Hb. destruct Hb as ((((H1 & H2) & H3) & H4) & H5).
  unfold has_room. rewrite Z.leb_le in H1, H3. rewrite Z.ltb_lt in H2. split_and!; try done.
  - apply Forall_fmap, Forall_forall. intros m Hm%list_elem_of_In. rewrite forallb_forall in Hmsgs.
    specialize (Hmsgs m Hm). split; [unfold compose, a_client; simpl; lia|]. by left.
  - apply Forall_forall. intros x Hx%list_elem_of_In. specialize (H4 x Hx). lia.
  - apply Forall_forall. intros x Hx%list_elem_of_In. specialize (H5 x Hx). lia.
Qed.

Lemma engine_limits p r rest b ob :
  queued_requests p = r :: rest →
  ticker_order_book_ (path_engine p) !! Z.to_nat (req_ticker_id_ r) = Some b →
  xs_books (spec_run (path_served p)) !! Z.to_nat (req_ticker_id_ r) = Some ob → servable r b ob →
  let out := spec_process r (next_market_order_id_ b) ob in
  has_room (outgoing_ogw_responses_ (outgoing_ (path_engine p))) (length (out_responses out)) →
  has_room (outgoing_md_updates_ (outgoing_ (path_engine p))) (length (out_updates out)) →
  within_limits 20 1 Ev_engine p.
Proof. intros E ? ? ? out ? ?. unfold within_limits. rewrite E. by exists b, ob. Qed.

Lemma history1_admissible : admissible 20 1 history1 start1.
Proof.
  apply (admissible_step _ _ _ (state1 1)); [vm_compute; reflexivity|by vm_compute|].
  apply (admissible_step _ _ _ (state1 2)); [vm_compute; reflexivity|by vm_compute|].
  apply (admissible_step _ _ _ (state1 3)); [vm_compute; reflexivity|by vm_compute|].
  apply (admissible_step _ _ _ (state1 4)); [vm_compute; reflexivity|by apply (server_limits _ _ _ [] 0); vm_compute|].
  apply (admissible_step _ _ _ (state1 5)); [vm_compute; reflexivity|by vm_compute|].
  apply (admissible_step _ _ _ (state1 6)); [vm_compute; reflexivity| |].
  { by apply (server_limits _ _ _ [MkOMClientRequest 1 sell_request] 0); vm_compute. }
  apply (admissible_step _ _ _ (state1 7)); [vm_compute; reflexivity| |].
  { by apply (engine_limits _ sell_request [] (book0 3) empty_book); [vm_compute|vm_compute|vm_compute|exact sell_servable|vm_compute..]. }
  apply (admissible_step _ _ _ (state1 8)); [vm_compute; reflexivity|by apply (server_limits _ _ _ [] 1); vm_compute|].
  apply (admissible_step _ _ _ (state1 9)); [vm_compute; reflexivity|by apply (server_limits _ _ _ [] 0); vm_compute|].
  apply (admissible_step _ _ _ (state1 10)); [vm_compute; reflexivity|by vm_compute|]. exact I.
Qed.

Lemma client_served_witness :
  quiet 20 (state1 10) ∧ length (contents MEClientResponse_default (gw_incoming_responses_ (path_gateway (state1 10)))) = 1%nat ∧
  ∃ p, exec_all 20 history1 start1 = Ok (tt, p) ∧
    let mine := filter (λ r, resp_client_id_ r = 1) (xs_responses (spec_run (path_served p))) in
    contents MEClientResponse_default (gw_incoming_responses_ (path_gateway p)) `prefix_of` mine ∧
    (∃ arrived, arrived `prefix_of` orders history1 ∧
       filter (λ r, req_client_id_ r = 1) (path_served p ++ queued_requests p) ≡ₚ arrived) ∧
    (quiet 20 p → contents MEClientResponse_default (gw_incoming_responses_ (path_gateway p)) = mine ∧
       filter (λ r, req_client_id_ r = 1) (path_served p) ≡ₚ orders history1).
Proof.
  split; [vm_compute; done|]. split; [vm_compute; reflexivity|].
  apply (client_served 3 20 1 [20; 21] history1).
  - by apply (bool_decide_unpack _).
  - left.
  - done.
  - exact history1_admissible.
Defined.
End example.
