(* ===== verification/Double.v ===== *)
(** C++ [double]: IEEE 754 binary64 with rounding to nearest even, as the Standard Library's
    executable specification of floating-point numbers gives it (one NaN, no payloads).  These are
    the operations the trading client uses; a conversion or an operation rounds once, and nothing is
    contracted into a fused operation. *)
From Stdlib Require Import SpecFloat.
From S2P Require Export Prelude.

Abbreviation double := spec_float.

Definition dadd (x y : double) : double := SFadd 53 1024 x y.
Definition dsub (x y : double) : double := SFsub 53 1024 x y.
Definition dmul (x y : double) : double := SFmul 53 1024 x y.
Definition ddiv (x y : double) : double := SFdiv 53 1024 x y.
(** The conversion of an integer. *)
Definition double_of (z : Z) : double := binary_normalize 53 1024 z 0 false.
Definition dzero : double := S754_zero false.
(** [0.5]: the mantissa 2^52 with exponent -53. *)
Definition dhalf : double := S754_finite false (2 ^ 52) (-53).
Definition dnan : double := S754_nan.

(** The comparisons; all of them are false on a NaN, except [!=]. *)
Definition dlt (x y : double) : bool := SFltb x y.
Definition dge (x y : double) : bool := SFleb y x.
Definition dne (x y : double) : bool := negb (SFeqb x y).

(** [static_cast<uint64_t>]: truncation towards zero, undefined when the result does not fit. *)
Definition truncate (x : double) : option Z :=
  match x with
  | S754_zero _ => Some 0
  | S754_finite s m e =>
      let z := if 0 <=? e then Zpos m * 2 ^ e else Zpos m `div` 2 ^ (- e) in
      Some (if s then - z else z)
  | _ => None
  end.
Definition uint64_of_double (x : double) : res Z :=
  match truncate x with
  | Some z => if in_u 64 z then Ok z else Err BadConversion
  | None => Err BadConversion
  end.

Lemma dne_nan x : dne x dnan = true.
Proof. by destruct x as [| | |]. Qed.
Lemma dge_nan x : dge dnan x = false.
Proof. by destruct x as [| | |]. Qed.
Lemma dsub_nan x : dsub dnan x = dnan.
Proof. by destruct x. Qed.
Lemma dsub_nan_r x : dsub x dnan = dnan.
Proof. by destruct x. Qed.
