(* ===== verification/Ostream.v ===== *)
(** [std::ostream << double] with the stream's default format, which is [printf]'s [%.6g]: six
    significant digits, rounded to nearest (ties to even) from the exact value; scientific notation
    when the exponent of the rounded value is below -4 or at least 6; no trailing zeros.  A [float]
    is converted to [double] first.  Integers print in decimal ([pretty]). *)
From S2P Require Export Double.
From Stdlib Require Import SpecFloat Ascii.

Definition digits10 (z : Z) : Z := Z.of_nat (String.length (pretty z)).
(** [n / d] to the nearest integer, ties to even. *)
Definition round_half_even (n d : Z) : Z :=
  let q := n `div` d in
  let r := 2 * (n mod d) in
  if r <? d then q else if d <? r then q + 1 else if Z.even q then q else q + 1.
(** [n / d * 10^k] as a fraction. *)
Definition scale10 (n d k : Z) : Z * Z :=
  if 0 <=? k then (n * 10 ^ k, d) else (n, d * 10 ^ (- k)).
(** Six significant digits of the positive fraction [n / d] with its decimal exponent. *)
Definition six_digits (n d : Z) : Z * Z :=
  let x := digits10 (n * 10 ^ 330 `div` d) - 331 in
  let '(n', d') := scale10 n d (5 - x) in
  let sig := round_half_even n' d' in
  if sig =? 1000000 then (100000, x + 1) else (sig, x).

Fixpoint zeros (n : nat) : string :=
  match n with O => EmptyString | S n => String "0"%char (zeros n) end.
(** [sig] without its trailing zeros, of [w] digits. *)
Fixpoint strip_zeros (w : nat) (sig : Z) : nat * Z :=
  match w with
  | O => (O, sig)
  | S w' => if sig mod 10 =? 0 then strip_zeros w' (sig `div` 10) else (w, sig)
  end.
(** The digits after the point: [frac] with [w] digits, without trailing zeros. *)
Definition fraction (w : nat) (frac : Z) : string :=
  match strip_zeros w frac with
  | (O, _) => EmptyString
  | (w, frac) => "." +:+ zeros (w - String.length (pretty frac)) +:+ pretty frac
  end%string.

Definition print_sig (sig x : Z) : string :=
  if (x <? -4) || (6 <=? x) then
    pretty (sig `div` 100000) +:+ fraction 5 (sig mod 100000) +:+ "e"%string +:+
    (if (x <? 0)%Z then "-" else "+")%string +:+
    (if (Z.abs x <? 10)%Z then "0" else "")%string +:+ pretty (Z.abs x)
  else if x <? 0 then "0"%string +:+ fraction (Z.to_nat (5 - x)) sig
  else
    pretty (sig `div` 10 ^ (5 - x)) +:+ fraction (Z.to_nat (5 - x)) (sig mod 10 ^ (5 - x)).

Definition print_double (x : double) : string :=
  match x with
  | S754_zero s => (if s then "-0" else "0")%string
  | S754_infinity s => (if s then "-inf" else "inf")%string
  | S754_nan => "nan"%string
  | S754_finite s m e =>
      let '(n, d) := if 0 <=? e then (Zpos m * 2 ^ e, 1) else (Zpos m, 2 ^ (- e)) in
      let '(sig, x) := six_digits n d in
      ((if s then "-" else "") +:+ print_sig sig x)%string
  end.

Example print_integers :
  (print_double ∘ double_of) <$> [0; 7; -250; 999999; 1000000; 1234565; 123456789] =
  ["0"; "7"; "-250"; "999999"; "1e+06"; "1.23456e+06"; "1.23457e+08"]%string.
Proof. vm_compute. reflexivity. Qed.
Example print_fractions :
  (λ '(n, d), print_double (ddiv (double_of n) (double_of d))) <$>
    [(1, 2); (1, 3); (-5, 4); (1, 10); (1, 16384); (1, 100000); (2, 3000000); (1999999, 2); (99999, 100)] =
  ["0.5"; "0.333333"; "-1.25"; "0.1"; "6.10352e-05"; "1e-05"; "6.66667e-07"; "1e+06"; "999.99"]%string.
Proof. vm_compute. reflexivity. Qed.
