(* ===== verification/Logger.v ===== *)
(** Common/logging.h: the logger.

    [log] splits a message into elements (characters, and one element per number) and queues them;
    a background thread takes them from the queue and writes them to the file.  A [const char *] is
    the string of the characters before its terminator. *)
From Stdlib Require Import Ascii.
From S2P Require Export Types LFQueue Ostream.

Definition LOG_QUEUE_SIZE : Z := 8 * 1024 * 1024.

(** [LogElement]: the tag and the member of the union it selects. *)
Inductive LogElement : Type :=
  | LogType_CHAR (c : ascii)
  | LogType_INTEGER (i : Z)
  | LogType_LONG_INTEGER (l : Z)
  | LogType_LONG_LONG_INTEGER (ll : Z)
  | LogType_UNSIGNED_INTEGER (u : Z)
  | LogType_UNSIGNED_LONG_INTEGER (ul : Z)
  | LogType_UNSIGNED_LONG_LONG_INTEGER (ull : Z)
  | LogType_FLOAT (f : double)
  | LogType_DOUBLE (d : double).
Definition LogElement_default : LogElement := LogType_CHAR zero.

Record Logger : Type := MkLogger {
  log_queue_ : LFQueue LogElement;
  log_file_ : string;
  log_running_ : bool;
}.
Definition Logger_new (queue_size : Z) : res Logger :=
  res_map (λ q, MkLogger q EmptyString true) (LFQueue_new queue_size).
Definition set_log_queue (q : LFQueue LogElement) (l : Logger) : Logger :=
  MkLogger q (log_file_ l) (log_running_ l).
Definition set_log_file (s : string) (l : Logger) : Logger :=
  MkLogger (log_queue_ l) s (log_running_ l).
Definition on_log_queue {A} (m : M (LFQueue LogElement) A) : M Logger A :=
  zoom log_queue_ set_log_queue m.

(** * Writing *)

(** [pushValue(const LogElement &)]. *)
Definition push_element (e : LogElement) : M Logger unit := on_log_queue (push e).

(** [pushValue] of a C string. *)
Fixpoint push_cstr (value : string) : M Logger unit :=
  match value with
  | EmptyString => mret tt
  | String c value => _ ← push_element (LogType_CHAR c); push_cstr value
  end.
(** [std::string::c_str]: up to the first NUL. *)
Fixpoint c_str (s : string) : string :=
  match s with
  | EmptyString => EmptyString
  | String c s => if Ascii.eqb c zero then EmptyString else String c (c_str s)
  end.

(** What can be logged: a number or a character, a [const char *], a [std::string]. *)
Inductive LogArg : Type :=
  | Arg (e : LogElement)
  | Arg_cstr (s : string)
  | Arg_string (s : string).
Definition pushValue (value : LogArg) : M Logger unit :=
  match value with
  | Arg e => push_element e
  | Arg_cstr s => push_cstr s
  | Arg_string s => push_cstr (c_str s)
  end.

Definition percent : ascii := "%"%char.

(** [log(s, args...)]: the variadic template, and the overload without arguments. *)
Fixpoint log (s : string) (args : list LogArg) : M Logger unit :=
  match s with
  | EmptyString =>
      match args with
      | [] => mret tt
      | _ => FATAL (* extra arguments provided to log() *)
      end
  | String c s' =>
      if Ascii.eqb c percent then
        match s' with
        | String c' s'' =>
            if Ascii.eqb c' percent
            then _ ← push_element (LogType_CHAR c'); log s'' args
            else match args with
                 | value :: args => _ ← pushValue value; log s' args
                 | [] => FATAL (* missing arguments to log() *)
                 end
        | EmptyString =>
            match args with
            | value :: args => _ ← pushValue value; log s' args
            | [] => FATAL
            end
        end
      else _ ← push_element (LogType_CHAR c); log s' args
  end.

(** END_LATENCY_MEASURE of nanosecond_timer.h. *)
Definition END_LATENCY_MEASURE (tag : string) (start_ns end_ns : Z) : M Logger unit :=
  log ("LATENCY %s: %lu ns" +:+ newline)
    [Arg_cstr tag; Arg (LogType_UNSIGNED_LONG_INTEGER (u64 (end_ns - start_ns)))].

(** * Flushing *)

(** [file_ << element]. *)
Definition print_element (e : LogElement) : string :=
  match e with
  | LogType_CHAR c => String c EmptyString
  | LogType_INTEGER z | LogType_LONG_INTEGER z | LogType_LONG_LONG_INTEGER z
  | LogType_UNSIGNED_INTEGER z | LogType_UNSIGNED_LONG_INTEGER z
  | LogType_UNSIGNED_LONG_LONG_INTEGER z => pretty z
  | LogType_FLOAT d | LogType_DOUBLE d => print_double d
  end.

(** The inner loop of [flushQueue]; the fuel bounds the number of elements. *)
Fixpoint flush_loop (fuel : nat) : M Logger unit :=
  match fuel with
  | O => raise OutOfFuel
  | S fuel =>
      next ← on_log_queue getNextToRead;
      size ← on_log_queue queue_size;
      match next with
      | Some p =>
          if size =? 0 then mret tt
          else
            e ← on_log_queue (read_slot LogElement_default (Some p));
            file ← gets log_file_;
            _ ← modify (set_log_file (file +:+ print_element e));
            _ ← on_log_queue updateReadIndex;
            flush_loop fuel
      | None => mret tt
      end
  end.
(** One pass of [flushQueue]: a queue of [n] slots holds fewer than [n] elements. *)
Definition flush_round : M Logger unit :=
  n ← gets (λ l, q_size (log_queue_ l));
  flush_loop (S (Z.to_nat n)).
