(* ===== verification/LoggerProps.v ===== *)
(** What the logger writes, when [log] ends the process, and how long a logger lasts. *)
From Stdlib Require Import Ascii String.
From S2P Require Import Logger.

(** * Format strings *)

(** A format string is literal characters and slots for arguments. *)
Inductive piece : Type := Lit (c : ascii) | Slot.
#[export] Instance piece_eq_dec : EqDecision piece.
Proof. solve_decision. Defined.

Fixpoint pieces_of (s : string) : list piece :=
  match s with
  | EmptyString => []
  | String c s' =>
      if Ascii.eqb c percent then
        match s' with
        | String c' s'' =>
            if Ascii.eqb c' percent then Lit percent :: pieces_of s'' else Slot :: pieces_of s'
        | EmptyString => [Slot]
        end
      else Lit c :: pieces_of s'
  end.
Fixpoint format_of (ps : list piece) : string :=
  match ps with
  | [] => EmptyString
  | Lit c :: ps =>
      if Ascii.eqb c percent then String percent (String percent (format_of ps))
      else String c (format_of ps)
  | Slot :: ps => String percent (format_of ps)
  end.
(** No slot directly before another one or before a literal percent sign. *)
Fixpoint canonical (ps : list piece) : bool :=
  match ps with
  | Slot :: ((Slot :: _) as ps') => false
  | Slot :: ((Lit c :: _) as ps') => negb (Ascii.eqb c percent) && canonical ps'
  | _ :: ps' => canonical ps'
  | [] => true
  end.
Definition slots (ps : list piece) : nat := length (filter (.= Slot) ps).

(** Induction that follows [pieces_of] and [log]: two characters at a time after a percent sign. *)
Lemma format_ind (P : string → Prop) :
  P EmptyString →
  (∀ c s, c ≠ percent → P s → P (String c s)) →
  (∀ s, P s → P (String percent (String percent s))) →
  P (String percent EmptyString) →
  (∀ c s, c ≠ percent → P (String c s) → P (String percent (String c s))) →
  ∀ s, P s.
Proof.
  intros H0 H1 H2 H3 H4 s. remember (String.length s) as n eqn:E. revert s E.
  induction (lt_wf n) as [n _ IH]. intros s ->.
  destruct s as [|c s]; [done|]. destruct (decide (c = percent)) as [->|Hc].
  - destruct s as [|c s]; [done|]. destruct (decide (c = percent)) as [->|Hc].
    + apply H2. eapply IH; [|done]. simpl. lia.
    + apply H4; [done|]. eapply IH; [|done]. simpl. lia.
  - apply H1; [done|]. eapply IH; [|done]. simpl. lia.
Qed.
Lemma eqb_percent c : c ≠ percent → Ascii.eqb c percent = false.
Proof. by intros ?%Ascii.eqb_neq. Qed.

Lemma pieces_lit c s : c ≠ percent → pieces_of (String c s) = Lit c :: pieces_of s.
Proof. intros H. simpl. by rewrite eqb_percent. Qed.
Lemma pieces_slot c s :
  c ≠ percent → pieces_of (String percent (String c s)) = Slot :: pieces_of (String c s).
Proof. intros H. simpl. by rewrite eqb_percent. Qed.

Lemma format_pieces s : format_of (pieces_of s) = s.
Proof.
  induction s as [|c s Hc IH|s IH| |c s Hc IH] using format_ind; try done.
  - rewrite pieces_lit by done. simpl. by rewrite eqb_percent, IH.
  - simpl. by rewrite IH.
  - rewrite pieces_slot by done. cbn [format_of]. by rewrite IH.
Qed.
Lemma pieces_canonical s : canonical (pieces_of s) = true.
Proof.
  induction s as [|c s Hc IH|s IH| |c s Hc IH] using format_ind; try done.
  - by rewrite pieces_lit.
  - rewrite pieces_slot by done. rewrite pieces_lit in * by done. simpl in *. by rewrite eqb_percent.
Qed.
Lemma pieces_format ps : canonical ps = true → pieces_of (format_of ps) = ps.
Proof.
  induction ps as [|[c|] ps IH]; [done|..]; intros Hc.
  - destruct (decide (c = percent)) as [->|Hne]; simpl in *; [by rewrite IH|].
    rewrite eqb_percent by done. by rewrite pieces_lit, IH.
  - destruct ps as [|[c|] ps]; [done| |done]. simpl in Hc. apply andb_prop in Hc as [Hc Hcan].
    apply negb_true_iff, Ascii.eqb_neq in Hc. specialize (IH Hcan).
    assert (format_of (Lit c :: ps) = String c (format_of ps)) as E.
    { simpl. by rewrite eqb_percent. }
    change (format_of (Slot :: Lit c :: ps)) with (String percent (format_of (Lit c :: ps))).
    rewrite E, pieces_slot, <- E, IH; done.
Qed.

(** * Messages *)

Definition elements (a : LogArg) : list LogElement :=
  match a with
  | Arg e => [e]
  | Arg_cstr s => LogType_CHAR <$> list_ascii_of_string s
  | Arg_string s => LogType_CHAR <$> list_ascii_of_string (c_str s)
  end.
(** The elements queued for a format and arguments, and whether there were as many as slots. *)
Fixpoint emit (ps : list piece) (args : list LogArg) : list LogElement * bool :=
  match ps, args with
  | [], [] => ([], true)
  | [], _ => ([], false)
  | Lit c :: ps, _ => let '(es, ok) := emit ps args in (LogType_CHAR c :: es, ok)
  | Slot :: _, [] => ([], false)
  | Slot :: ps, a :: args => let '(es, ok) := emit ps args in (elements a ++ es, ok)
  end.

(** The text a format and arguments stand for. *)
Definition arg_text (a : LogArg) : string :=
  match a with
  | Arg e => print_element e
  | Arg_cstr s => s
  | Arg_string s => c_str s
  end.
Fixpoint message (ps : list piece) (args : list LogArg) : string :=
  match ps, args with
  | Lit c :: ps, _ => String c (message ps args)
  | Slot :: ps, a :: args => arg_text a +:+ message ps args
  | _, _ => EmptyString
  end.
Definition text (es : list LogElement) : string :=
  foldr (λ e s, print_element e +:+ s) EmptyString es.

Lemma text_app es es' : text (es ++ es') = text es +:+ text es'.
Proof. induction es as [|e es IH]; simpl; [done|]. by rewrite IH, (assoc_L String.append). Qed.
Lemma text_chars s : text (LogType_CHAR <$> list_ascii_of_string s) = s.
Proof.
  induction s as [|c s IH]; [done|].
  change (String c (text (LogType_CHAR <$> list_ascii_of_string s)) = String c s). by rewrite IH.
Qed.
Lemma text_elements a : text (elements a) = arg_text a.
Proof.
  destruct a as [e|s|s]; simpl; [|apply text_chars..]. by rewrite (right_id_L EmptyString String.append).
Qed.

Lemma emit_ok ps args : (emit ps args).2 = bool_decide (slots ps = length args).
Proof.
  unfold slots. revert args. induction ps as [|[c|] ps IH]; intros args; simpl.
  - by destruct args.
  - rewrite <- IH. by destruct (emit ps args).
  - destruct args as [|a args]; [done|]. simpl. specialize (IH args).
    destruct (emit ps args) as [es ok]. simpl in *. subst ok.
    apply bool_decide_ext. simpl. lia.
Qed.
Lemma emit_text ps args : (emit ps args).2 = true → text (emit ps args).1 = message ps args.
Proof.
  revert args. induction ps as [|[c|] ps IH]; intros args; simpl.
  - by destruct args.
  - specialize (IH args). destruct (emit ps args) as [es ok]. simpl in *. intros. by rewrite IH.
  - destruct args as [|a args]; [done|]. specialize (IH args).
    destruct (emit ps args) as [es ok]. simpl in *. intros. by rewrite text_app, text_elements, IH.
Qed.

(** * What [log] queues *)

Fixpoint pushes (es : list LogElement) : M Logger unit :=
  match es with
  | [] => mret tt
  | e :: es => _ ← push_element e; pushes es
  end.
Lemma bind_unit {S A} (m : M S unit) (k : unit → M S A) s :
  (m ≫= k) s = match m s with Ok (_, s') => k tt s' | Err f => Err f end.
Proof. unfold mbind, M_bind. by destruct (m s) as [[[] ?]|]. Qed.
Lemma pushes_app es es' l :
  pushes (es ++ es') l = match pushes es l with Ok (_, l') => pushes es' l' | Err f => Err f end.
Proof.
  revert l. induction es as [|e es IH]; intros l; [done|]. simpl. rewrite !bind_unit.
  destruct (push_element e l) as [[[] l']|]; [apply IH|done].
Qed.
Lemma push_cstr_pushes s l : push_cstr s l = pushes (LogType_CHAR <$> list_ascii_of_string s) l.
Proof.
  revert l. induction s as [|c s IH]; intros l; [done|]. simpl. rewrite !bind_unit.
  destruct (push_element _ l) as [[[] l']|]; [apply IH|done].
Qed.
Lemma pushValue_pushes a l : pushValue a l = pushes (elements a) l.
Proof.
  destruct a as [e|s|s]; [|apply push_cstr_pushes..]. simpl. rewrite bind_unit.
  by destruct (push_element e l) as [[[] l']|].
Qed.

(** [log] queues the elements of its message up to the first place where the arguments do not fit
    the format; there it ends the process. *)
Lemma log_emit s args l :
  log s args l =
    match pushes (emit (pieces_of s) args).1 l with
    | Ok (_, l') => if (emit (pieces_of s) args).2 then Ok (tt, l') else Err Exit
    | Err f => Err f
    end.
Proof.
  revert args l.
  induction s as [|c s Hc IH|s IH| |c s Hc IH] using format_ind; intros args l.
  - by destruct args.
  - rewrite pieces_lit by done. simpl. rewrite eqb_percent, bind_unit by done.
    destruct (emit (pieces_of s) args) as [es ok] eqn:E. simpl. rewrite bind_unit.
    destruct (push_element _ l) as [[[] l']|]; [|done]. by rewrite IH, E.
  - simpl. rewrite bind_unit.
    destruct (emit (pieces_of s) args) as [es ok] eqn:E. simpl. rewrite bind_unit.
    destruct (push_element _ l) as [[[] l']|]; [|done]. by rewrite IH, E.
  - destruct args as [|a args]; [done|]. simpl. rewrite bind_unit, pushValue_pushes.
    destruct args as [|a' args]; simpl; rewrite (right_id_L [] (++));
      by destruct (pushes (elements a) l) as [[[] l']|].
  - rewrite pieces_slot by done.
    assert (log (String percent (String c s)) args l =
      match args with
      | value :: args => (_ ← pushValue value; log (String c s) args) l
      | [] => Err Exit
      end) as ->.
    { simpl. rewrite eqb_percent by done. by destruct args. }
    destruct args as [|a args]; [done|]. rewrite bind_unit, pushValue_pushes. cbn [emit].
    destruct (emit (pieces_of (String c s)) args) as [es ok] eqn:E.
    cbn beta iota delta [fst snd]. rewrite pushes_app.
    destruct (pushes (elements a) l) as [[[] l']|]; [|done]. by rewrite IH, E.
Qed.

(** * The queue and the file *)

Definition logged (l : Logger) : list LogElement := contents LogElement_default (log_queue_ l).
Definition logger_wf (l : Logger) : Prop := queue_wf (log_queue_ l).
(** The positions the queue has left. *)
Definition room (l : Logger) : Z := q_size (log_queue_ l) - write_pos_ (log_queue_ l).

Lemma Logger_new_ok k l :
  0 ≤ k < 64 → Logger_new (2 ^ k) = Ok l →
  logger_wf l ∧ logged l = [] ∧ room l = 2 ^ k ∧ log_file_ l = EmptyString.
Proof.
  intros Hk. unfold Logger_new.
  destruct (LFQueue_new_ok LogElement_default k Hk) as (q & -> & Hwf & Hs & Hw & _ & Hc).
  intros [= <-]. unfold room, logged, logger_wf. simpl. split_and!; [done|done|lia|done].
Qed.

Lemma push_element_ok e l :
  logger_wf l → 1 < room l →
  ∃ l', push_element e l = Ok (tt, l') ∧ logger_wf l' ∧ logged l' = logged l ++ [e] ∧
    room l' = room l - 1 ∧ log_file_ l' = log_file_ l.
Proof.
  unfold logger_wf, room, logged. intros Hwf Hr.
  assert (can_push (log_queue_ l) = true) as Hc by (unfold can_push; lia).
  exists (set_log_queue (pushed e (log_queue_ l)) l).
  split_and!; [by apply zoom_Ok, push_ok|by apply can_push_wf|by apply contents_pushed| |done].
  simpl. lia.
Qed.
Lemma pushes_ok es l :
  logger_wf l → Z.of_nat (length es) < room l →
  ∃ l', pushes es l = Ok (tt, l') ∧ logger_wf l' ∧ logged l' = logged l ++ es ∧
    room l' = room l - Z.of_nat (length es) ∧ log_file_ l' = log_file_ l.
Proof.
  revert l. induction es as [|e es IH]; intros l Hwf Hr.
  - exists l. rewrite (right_id_L [] (++)). simpl in *. split_and!; [done|done|done|lia|done].
  - simpl length in Hr. destruct (push_element_ok e l Hwf) as (l1 & E1 & Hwf1 & Hl1 & Hr1 & Hf1); [lia|].
    destruct (IH l1 Hwf1) as (l2 & E2 & Hwf2 & Hl2 & Hr2 & Hf2); [lia|].
    exists l2. simpl. rewrite bind_unit, E1. split_and!; [done|done| |lia|congruence].
    by rewrite Hl2, Hl1, <- (assoc_L (++)).
Qed.

(** One turn of the flushing loop, on an empty queue and on one with a first element. *)
Lemma flush_loop_nil fuel l :
  logger_wf l → logged l = [] → flush_loop (S fuel) l = Ok (tt, l).
Proof.
  intros Hwf Hl. pose proof (contents_length LogElement_default _ Hwf) as Hlen.
  fold (logged l) in Hlen. rewrite Hl in Hlen. cbn [flush_loop].
  assert (on_log_queue getNextToRead l = Ok (None, l)) as E.
  { destruct l. unfold on_log_queue, zoom, getNextToRead. mrun. simpl in *.
    by rewrite (proj2 (Z.eqb_eq _ _)) by lia. }
  assert (on_log_queue queue_size l = Ok (Z.of_nat (length (logged l)), l)) as E'.
  { destruct l. unfold on_log_queue, zoom. by rewrite (queue_size_ok LogElement_default). }
  by rewrite (bind_Ok _ _ _ _ _ E), (bind_Ok _ _ _ _ _ E').
Qed.
Definition flushed (e : LogElement) (l : Logger) : Logger :=
  MkLogger (popped (log_queue_ l)) (log_file_ l +:+ print_element e) (log_running_ l).
Lemma flush_loop_cons fuel l e es :
  logger_wf l → logged l = e :: es →
  flush_loop (S fuel) l = flush_loop fuel (flushed e l) ∧
  logger_wf (flushed e l) ∧ logged (flushed e l) = es.
Proof.
  intros Hwf Hl. pose proof (contents_length LogElement_default _ Hwf) as Hlen.
  fold (logged l) in Hlen. rewrite Hl in Hlen. simpl length in Hlen.
  destruct (pop_ok LogElement_default e es _ Hwf Hl) as (_ & Hwf' & Hl').
  split_and!; [|done|done]. pose proof Hwf as [_ Hp Hr].
  pose proof (contents_popped LogElement_default _ Hwf ltac:(lia)) as Hc.
  fold (logged l) in Hc. rewrite Hl in Hc. injection Hc as He _.
  destruct l as [q file running]. simpl in *. cbn [flush_loop].
  unfold on_log_queue, zoom. mrun. unfold getNextToRead. mrun. simpl.
  pose proof (queue_size_lt q Hwf). rewrite (proj2 (Z.eqb_neq _ _)) by lia. simpl.
  rewrite mask_mod, Z.mod_small, (proj2 (Z.eqb_neq _ 0)) by (done || lia).
  unfold read_slot. mrun. simpl.
  replace ((0 <=? read_pos_ q) && (read_pos_ q <? q_size q)) with true by lia. simpl.
  rewrite <- He. unfold updateReadIndex. mrun. rewrite (proj2 (Z.eqb_neq _ _)) by lia. simpl.
  by rewrite add_read_eq by (done || lia).
Qed.

(** A pass of the flushing thread. *)
Lemma flush_loop_ok fuel l :
  logger_wf l → (length (logged l) < fuel)%nat →
  ∃ l', flush_loop fuel l = Ok (tt, l') ∧ logger_wf l' ∧ logged l' = [] ∧ room l' = room l ∧
    log_file_ l' = log_file_ l +:+ text (logged l).
Proof.
  revert l. induction fuel as [|fuel IH]; intros l Hwf Hf; [lia|].
  destruct (logged l) as [|e es] eqn:Hl.
  - exists l. rewrite flush_loop_nil by done.
    split_and!; [done..|]. simpl. by rewrite (right_id_L EmptyString String.append).
  - destruct (flush_loop_cons fuel l e es Hwf Hl) as (-> & Hwf' & Hl').
    destruct (IH _ Hwf') as (l' & -> & ? & ? & Hroom & Hfile); [rewrite Hl'; simpl in Hf; lia|].
    exists l'. split_and!; [done..|]. rewrite Hfile, Hl'. simpl.
    by rewrite (assoc_L String.append).
Qed.
Lemma flush_round_ok l :
  logger_wf l →
  ∃ l', flush_round l = Ok (tt, l') ∧ logger_wf l' ∧ logged l' = [] ∧ room l' = room l ∧
    log_file_ l' = log_file_ l +:+ text (logged l).
Proof.
  intros Hwf. unfold flush_round. rewrite gets_bind. apply flush_loop_ok; [done|].
  pose proof (contents_length LogElement_default _ Hwf) as H. fold (logged l) in H.
  destruct Hwf as [_ ? ?]. lia.
Qed.

(** * Lifetime *)

Inductive logger_cmd : Type := Cmd_log (fmt : string) (args : list LogArg) | Cmd_flush.
Definition run_cmd (c : logger_cmd) : M Logger unit :=
  match c with Cmd_log fmt args => log fmt args | Cmd_flush => flush_round end.
Fixpoint run_cmds (cs : list logger_cmd) : M Logger unit :=
  match cs with [] => mret tt | c :: cs => _ ← run_cmd c; run_cmds cs end.
(** How many elements the commands log. *)
Definition cmd_elements (c : logger_cmd) : Z :=
  match c with
  | Cmd_log fmt args => Z.of_nat (length (emit (pieces_of fmt) args).1)
  | Cmd_flush => 0
  end.

(** A command whose arguments fit its format, and the text it adds to the file. *)
Definition cmd_ok (c : logger_cmd) : Prop :=
  match c with Cmd_log fmt args => slots (pieces_of fmt) = length args | Cmd_flush => True end.
Definition cmd_text (c : logger_cmd) : string :=
  match c with Cmd_log fmt args => message (pieces_of fmt) args | Cmd_flush => EmptyString end.
Definition cmds_text (cs : list logger_cmd) : string :=
  foldr (λ c s, cmd_text c +:+ s) EmptyString cs.
(** What the file holds once the queue has been written to it. *)
Definition written (l : Logger) : string := log_file_ l +:+ text (logged l).

Lemma room_nonneg l : logger_wf l → 0 ≤ room l.
Proof. intros [_ ? _]. unfold room. lia. Qed.
Lemma push_element_inv e l l' :
  logger_wf l → push_element e l = Ok (tt, l') →
  logger_wf l' ∧ room l' = room l - 1 ∧ written l' = written l +:+ text [e].
Proof.
  unfold push_element, on_log_queue, zoom. intros Hwf.
  destruct (push e (log_queue_ l)) as [[[] q]|] eqn:E; [|done]. intros [= <-].
  apply push_inv in E as [Hc ->]; [|done]. split_and!; [by apply can_push_wf|unfold room; simpl; lia|].
  unfold written, logged. simpl. by rewrite contents_pushed, text_app, (assoc_L String.append) by done.
Qed.
Lemma pushes_inv es l l' :
  logger_wf l → pushes es l = Ok (tt, l') →
  logger_wf l' ∧ room l' = room l - Z.of_nat (length es) ∧ written l' = written l +:+ text es.
Proof.
  revert l. induction es as [|e es IH]; intros l Hwf; simpl.
  { intros [= <-]. split_and!; [done|lia|by rewrite (right_id_L EmptyString String.append)]. }
  rewrite bind_unit. destruct (push_element e l) as [[[] l1]|] eqn:E; [|done].
  apply push_element_inv in E as (Hwf1 & Hr1 & Ht1); [|done]. intros (Hwf' & Hr' & Ht')%IH; [|done].
  split_and!; [done|lia|]. rewrite Ht', Ht1. simpl.
  by rewrite (right_id_L EmptyString String.append), <- (assoc_L String.append).
Qed.
(** A push fails only on a queue that is all but used up. *)
Lemma pushes_fault es l f :
  logger_wf l → pushes es l = Err f →
  (f = NullDeref ∨ f = OutOfBounds) ∧ room l ≤ Z.of_nat (length es).
Proof.
  revert l. induction es as [|e es IH]; intros l Hwf; [done|]. cbn [pushes length]. rewrite bind_unit.
  destruct (push_element e l) as [[[] l1]|f1] eqn:E.
  - apply push_element_inv in E as (Hwf1 & Hr1 & _); [|done]. intros [? ?]%IH; [|done]. split; [done|lia].
  - intros [= <-]. revert E. unfold push_element, on_log_queue, zoom, room.
    destruct (can_push (log_queue_ l)) eqn:Hc; [by rewrite push_ok|]. rewrite push_fault by done.
    intros [= <-]. split; [case_match; auto|]. unfold can_push in Hc. lia.
Qed.
Lemma run_cmd_step c l :
  logger_wf l →
  match run_cmd c l with
  | Ok (_, l') => logger_wf l' ∧ room l' = room l - cmd_elements c ∧
      (cmd_ok c → written l' = written l +:+ cmd_text c)
  | Err f => cmd_ok c → (f = NullDeref ∨ f = OutOfBounds) ∧ room l ≤ cmd_elements c
  end.
Proof.
  intros Hwf. destruct c as [fmt args|]; simpl.
  - rewrite log_emit. destruct (pushes _ l) as [[[] l']|f] eqn:E; [|intros _; by apply pushes_fault in E].
    apply pushes_inv in E as (? & ? & Ht); [|done]. pose proof (emit_ok (pieces_of fmt) args) as Hok.
    destruct (emit (pieces_of fmt) args).2 eqn:H2.
    + split_and!; [done..|]. intros _. by rewrite Ht, (emit_text _ _ H2).
    + intros Hn. by rewrite bool_decide_true in Hok.
  - destruct (flush_round_ok l Hwf) as (l' & -> & ? & Hl & Hr & Hf).
    split_and!; [done|lia|]. intros _. unfold written. rewrite Hl, Hf. simpl.
    by rewrite !(right_id_L EmptyString String.append).
Qed.
Lemma run_cmds_inv cs l l' :
  logger_wf l → run_cmds cs l = Ok (tt, l') →
  logger_wf l' ∧ room l' = room l - zsum cmd_elements cs.
Proof.
  revert l. induction cs as [|c cs IH]; intros l Hwf; cbn [run_cmds].
  { intros H. injection H as <-. split; [done|rewrite zsum_nil; lia]. }
  rewrite bind_unit, zsum_cons. pose proof (run_cmd_step c l Hwf) as Hc.
  destruct (run_cmd c l) as [[[] l1]|]; [|done]. destruct Hc as (Hwf1 & Hr1 & _).
  intros [Hwf' Hr']%IH; [|done]. split; [done|lia].
Qed.
(** Commands either all run, and their texts follow one another, or use up the queue. *)
Lemma run_cmds_ok cs l :
  logger_wf l → Forall cmd_ok cs →
  (∃ l', run_cmds cs l = Ok (tt, l') ∧ logger_wf l' ∧ room l' = room l - zsum cmd_elements cs ∧
     written l' = written l +:+ cmds_text cs) ∨
  (∃ f, run_cmds cs l = Err f ∧ (f = NullDeref ∨ f = OutOfBounds) ∧ room l ≤ zsum cmd_elements cs).
Proof.
  intros Hwf Hcs. revert l Hwf. induction Hcs as [|c cs Hc Hcs IH]; intros l Hwf.
  - left. exists l. rewrite zsum_nil. split_and!; [done|done|lia|by rewrite (right_id_L EmptyString String.append)].
  - cbn [run_cmds]. rewrite bind_unit, zsum_cons. pose proof (run_cmd_step c l Hwf) as H.
    destruct (run_cmd c l) as [[[] l1]|f].
    + destruct H as (Hwf1 & Hr1 & Ht1). destruct (IH l1 Hwf1) as [(l' & E & ? & ? & Ht)|(f & E & ? & ?)].
      * left. exists l'. split_and!; [done|done|lia|]. rewrite Ht, Ht1 by done. simpl.
        by rewrite (assoc_L String.append).
      * right. exists f. split_and!; [done|done|lia].
    + destruct (H Hc). right. exists f. split_and!; [done|done|].
      assert (0 ≤ zsum cmd_elements cs); [|lia]. apply zsum_nonneg, Forall_true. intros []; simpl; lia.
Qed.
Lemma push_element_spent e l :
  logger_wf l → room l = 0 →
  push_element e l = Err NullDeref ∨ push_element e l = Err OutOfBounds.
Proof.
  unfold room. intros Hwf Hr. unfold push_element, on_log_queue, zoom.
  rewrite push_fault; [|done|unfold can_push; lia]. case_match; auto.
Qed.
Lemma LOG_QUEUE_SIZE_pow : LOG_QUEUE_SIZE = 2 ^ 23.
Proof. reflexivity. Qed.

(** * Properties *)

(** A format string is read as exactly the pieces that print as it: every string is the format
    of the pieces read from it, and pieces are read back from their format exactly when no slot
    stands directly before another slot or a literal percent sign.  So no format string places two
    arguments next to each other. *)
Theorem format_roundtrip :
  (∀ s, format_of (pieces_of s) = s ∧ canonical (pieces_of s) = true) ∧
  (∀ ps, pieces_of (format_of ps) = ps ↔ canonical ps = true).
Proof.
  split; [intros s; split; [apply format_pieces|apply pieces_canonical]|].
  intros ps. split; [|apply pieces_format]. intros <-. apply pieces_canonical.
Qed.

Lemma log_written fmt args l :
  logger_wf l →
  slots (pieces_of fmt) = length args →
  Z.of_nat (length (emit (pieces_of fmt) args).1) < room l →
  ∃ l', (_ ← log fmt args; flush_round) l = Ok (tt, l') ∧ logged l' = [] ∧
    log_file_ l' = log_file_ l +:+ text (logged l) +:+ message (pieces_of fmt) args.
Proof.
  intros Hwf Hn Hroom. pose proof (emit_ok (pieces_of fmt) args) as Hok.
  rewrite bool_decide_true in Hok by done.
  destruct (pushes_ok _ _ Hwf Hroom) as (l1 & E1 & Hwf1 & Hl1 & _ & Hf1).
  destruct (flush_round_ok l1 Hwf1) as (l2 & E2 & _ & Hl2 & _ & Hf2).
  exists l2. rewrite bind_unit, log_emit, E1, Hok. split_and!; [done|done|].
  by rewrite Hf2, Hf1, Hl1, text_app, (emit_text _ _ Hok).
Qed.

(** C34: what is logged is written.  On a logger whose queue has room, [log] with as many arguments
    as the format has slots returns, and the next pass of the flushing thread appends to the file
    what was queued before and then the message: the format's literal characters, [%%] as one
    percent sign, and each [%] replaced by the text of the next argument. *)
Theorem log_writes fmt args l :
  logger_wf l →
  slots (pieces_of fmt) = length args →
  Z.of_nat (length (emit (pieces_of fmt) args).1) < room l →
  ∃ l', (_ ← log fmt args; flush_round) l = Ok (tt, l') ∧ logged l' = [] ∧
    log_file_ l' = log_file_ l +:+ text (logged l) +:+ message (pieces_of fmt) args.
Proof. apply log_written. Qed.

(** [log] returns exactly when the format has as many slots as there are arguments; otherwise
    it ends the process ([FATAL]), after queueing what comes before the first argument that is
    missing, or the whole message when there are too many. *)
Theorem log_arity fmt args l :
  logger_wf l →
  Z.of_nat (length (emit (pieces_of fmt) args).1) < room l →
  (slots (pieces_of fmt) = length args ∧ ∃ l', log fmt args l = Ok (tt, l')) ∨
  (slots (pieces_of fmt) ≠ length args ∧ log fmt args l = Err Exit).
Proof.
  intros Hwf Hroom. destruct (pushes_ok _ _ Hwf Hroom) as (l1 & E1 & _).
  rewrite log_emit, E1, emit_ok. case_bool_decide; [left; eauto|by right].
Qed.

(** A logger logs at most as many elements (characters and numbers) in its life as its queue
    has slots, 8388608 in the program, however promptly they are flushed: a run that gets further
    does not return, and once that many have been logged the next character is written through a
    null pointer or beyond the end of the queue. *)
Theorem logger_lifetime k cs l l' :
  0 ≤ k < 64 →
  Logger_new (2 ^ k) = Ok l →
  run_cmds cs l = Ok (tt, l') →
  zsum cmd_elements cs ≤ 2 ^ k ∧
  (zsum cmd_elements cs = 2 ^ k → ∀ c fmt args, c ≠ percent →
     log (String c fmt) args l' = Err NullDeref ∨ log (String c fmt) args l' = Err OutOfBounds).
Proof.
  intros Hk Hnew Hrun. destruct (Logger_new_ok k l Hk Hnew) as (Hwf & _ & Hr & _).
  destruct (run_cmds_inv _ _ _ Hwf Hrun) as [Hwf' Hr']. pose proof (room_nonneg l' Hwf').
  split; [lia|]. intros Hs c fmt args Hc. simpl. rewrite eqb_percent, bind_unit by done.
  destruct (push_element_spent (LogType_CHAR c) l' Hwf') as [-> | ->]; [lia|auto..].
Qed.

(** ** Examples *)

Definition small_logger : Logger := MkLogger (MkLFQueue ∅ 64 0 0) EmptyString true.
Lemma small_logger_wf : logger_wf small_logger.
Proof. constructor; simpl; [by exists 6|lia|lia]. Qed.
Definition demo_format : string := "% of %%/%: %".
Definition demo_args : list LogArg :=
  [Arg (LogType_INTEGER (-3)); Arg_string "abc"; Arg (LogType_DOUBLE dhalf)].

Lemma log_writes_witness :
  ∃ l', (_ ← log demo_format demo_args; flush_round) small_logger = Ok (tt, l') ∧
    log_file_ l' = "-3 of %/abc: 0.5"%string.
Proof.
  destruct (log_writes demo_format demo_args small_logger) as (l' & H1 & _ & H2);
    [apply small_logger_wf|reflexivity|reflexivity|].
  exists l'. split; [exact H1|]. rewrite H2. vm_compute. reflexivity.
Defined.

Lemma log_arity_witness : log demo_format [] small_logger = Err Exit.
Proof.
  destruct (log_arity demo_format [] small_logger) as [[H _]|[_ H]];
    [apply small_logger_wf|reflexivity|discriminate H|exact H].
Defined.

(** A queue of four slots, flushed after every character. *)
Definition short_life : list logger_cmd :=
  [Cmd_log "a" []; Cmd_flush; Cmd_log "b" []; Cmd_flush; Cmd_log "c" []; Cmd_flush; Cmd_log "d" []].
Definition new_logger4 : Logger := MkLogger (MkLFQueue ∅ 4 0 0) EmptyString true.
Definition spent_logger : Logger :=
  match run_cmds short_life new_logger4 with Ok (_, l) => l | Err _ => new_logger4 end.
Lemma logger_lifetime_witness :
  log_file_ spent_logger = "abc"%string ∧
  (log "e" [] spent_logger = Err NullDeref ∨ log "e" [] spent_logger = Err OutOfBounds).
Proof.
  split; [vm_compute; reflexivity|].
  destruct (logger_lifetime 2 short_life new_logger4 spent_logger) as [_ H];
    [lia|reflexivity|vm_compute; reflexivity|].
  apply H; [vm_compute; reflexivity|discriminate].
Defined.

(** The line of END_LATENCY_MEASURE: the logger does not know [printf]'s conversions, so their
    letters stay in the text. *)
Example end_latency_line :
  match (_ ← END_LATENCY_MEASURE "Match" 1000 1250; flush_round) small_logger with
  | Ok (_, l) => log_file_ l = ("LATENCY Matchs: 250lu ns" +:+ newline)%string
  | Err _ => False
  end.
Proof. vm_compute. reflexivity. Qed.
