(* ===== verification/Measurements.v ===== *)
(** Common/time_utils.h and Common/perf_utils.h: the time of day in log lines, and the two macros that
    log measurements.

    The readings of the clocks and the text of [ctime] are arguments.  The macros paste the name of the
    measurement, [tag], into their format. *)
From Stdlib Require Import Ascii String.
From S2P Require Import Logger LoggerProps.

Definition NANOS_TO_MICROS : Z := 1000.
Definition MICROS_TO_MILLIS : Z := 1000.
Definition MILLIS_TO_SECS : Z := 1000.
Definition NANOS_TO_MILLIS : Z := NANOS_TO_MICROS * MICROS_TO_MILLIS.
Definition NANOS_TO_SECS : Z := NANOS_TO_MILLIS * MILLIS_TO_SECS.

(** [%09lld]. *)
Definition zero_padded (w : nat) (z : Z) : string :=
  let digits := pretty (Z.abs z) in
  if z <? 0 then ("-" +:+ zeros (w - 1 - String.length digits) +:+ digits)%string
  else zeros (w - String.length digits) +:+ digits.
(** [getCurrentTimeStr]: [ctime_text] is ["Www Mmm dd hh:mm:ss yyyy\n"], [count] the nanoseconds since the
    epoch; [snprintf] writes at most 23 characters. *)
Definition getCurrentTimeStr (ctime_text : string) (count : Z) : string :=
  String.substring 0 23
    (String.substring 11 8 ctime_text +:+ "." +:+ zero_padded 9 (Z.rem count NANOS_TO_SECS)).

Definition END_MEASURE (tag time_str : string) (start stop : Z) : M Logger unit :=
  cycles ← signed 64 (stop - start);
  log ("% RDTSC " +:+ tag +:+ " %" +:+ newline) [Arg_string time_str; Arg (LogType_LONG_INTEGER cycles)].
Definition TTT_MEASURE (tag time_str : string) (nanos : Z) : M Logger unit :=
  log ("% TTT " +:+ tag +:+ " %" +:+ newline) [Arg_string time_str; Arg (LogType_LONG_INTEGER nanos)].

Example time_of_day :
  getCurrentTimeStr ("Fri Sep 13 00:26:40 2025" +:+ newline) 1757723200000042317 = "00:26:40.000042317"%string.
Proof. vm_compute. reflexivity. Qed.

(** A text without a percent sign is literal. *)
Fixpoint no_percent (s : string) : bool :=
  match s with EmptyString => true | String c s => negb (Ascii.eqb c percent) && no_percent s end.
Lemma pieces_app s1 s2 :
  no_percent s1 = true → pieces_of (s1 +:+ s2) = (Lit <$> list_ascii_of_string s1) ++ pieces_of s2.
Proof.
  induction s1 as [|c s1 IH]; [done|]. cbn [no_percent]. intros [Hc Hs]%andb_true_iff.
  apply negb_true_iff, Ascii.eqb_neq in Hc.
  change (String c s1 +:+ s2) with (String c (s1 +:+ s2)). rewrite pieces_lit, IH by done. done.
Qed.
Lemma message_lits s ps args :
  message ((Lit <$> list_ascii_of_string s) ++ ps) args = s +:+ message ps args.
Proof.
  induction s as [|c s IH]; [done|].
  change (message ((Lit <$> list_ascii_of_string (String c s)) ++ ps) args) with
    (String c (message ((Lit <$> list_ascii_of_string s) ++ ps) args)). by rewrite IH.
Qed.
Lemma emit_lits s ps args :
  (emit ((Lit <$> list_ascii_of_string s) ++ ps) args).1 =
  (LogType_CHAR <$> list_ascii_of_string s) ++ (emit ps args).1.
Proof.
  induction s as [|c s IH]; [done|].
  change (emit ((Lit <$> list_ascii_of_string (String c s)) ++ ps) args) with
    (let '(es, ok) := emit ((Lit <$> list_ascii_of_string s) ++ ps) args in (LogType_CHAR c :: es, ok)).
  destruct (emit (_ ++ _) args) as [es ok]. cbn [fst] in *. by rewrite IH.
Qed.

(** The format of both macros: [kind] is " RDTSC " or " TTT ". *)
Section measure.
Context (kind tag time_str : string) (value : Z).
Hypothesis Hkind : ∃ k, kind = String " "%char k ∧ no_percent k = true.
Hypothesis Htag : no_percent tag = true.
#[local] Definition fmt : string := "%" +:+ kind +:+ tag +:+ " %" +:+ newline.
#[local] Definition args : list LogArg := [Arg_string time_str; Arg (LogType_LONG_INTEGER value)].

Lemma measure_pieces :
  pieces_of fmt = Slot :: (Lit <$> list_ascii_of_string kind) ++ (Lit <$> list_ascii_of_string tag) ++
    [Lit " "%char; Slot; Lit "010"%char].
Proof.
  destruct Hkind as (k & E & Hk).
  assert (fmt = String percent (String " "%char (k +:+ tag +:+ " %" +:+ newline))) as ->
    by (unfold fmt; by rewrite E).
  rewrite E, pieces_slot, pieces_lit, (pieces_app k), (pieces_app tag) by done. done.
Qed.
(** What is logged, and how many elements it takes. *)
Lemma measure_message :
  message (pieces_of fmt) args = c_str time_str +:+ kind +:+ tag +:+ " " +:+ pretty value +:+ newline.
Proof. rewrite measure_pieces. simpl. by rewrite !message_lits. Qed.
Lemma measure_slots : slots (pieces_of fmt) = 2%nat.
Proof.
  rewrite measure_pieces. unfold slots. rewrite filter_cons_True by done. simpl.
  rewrite !filter_app, !length_app.
  assert (∀ s, filter (.= Slot) (Lit <$> list_ascii_of_string s) = []) as E.
  { intros s. induction s as [|c s IH]; [done|]. by rewrite <- IH. }
  by rewrite !E.
Qed.
Lemma length_list_ascii s : length (list_ascii_of_string s) = String.length s.
Proof. induction s as [|c s IH]; simpl; congruence. Qed.
Lemma measure_elements :
  length (emit (pieces_of fmt) args).1 =
    (String.length (c_str time_str) + String.length kind + String.length tag + 3)%nat.
Proof.
  rewrite measure_pieces. cbn [emit args].
  destruct (emit (_ ++ _) [_]) as [es ok] eqn:E. cbn [fst].
  assert (es = (emit ((Lit <$> list_ascii_of_string kind) ++ (Lit <$> list_ascii_of_string tag) ++
    [Lit " "%char; Slot; Lit "010"%char]) [Arg (LogType_LONG_INTEGER value)]).1) as -> by (by rewrite E).
  rewrite !emit_lits, !length_app, !length_fmap, !length_list_ascii. simpl.
  rewrite length_fmap, length_list_ascii. lia.
Qed.
End measure.

(** A measurement is written as one line: the time, the name and the number.  [END_MEASURE] takes the
    difference of its readings. *)
Theorem measurements_written tag time_str l start stop nanos :
  logger_wf l → no_percent tag = true → in_i 64 (stop - start) = true →
  Z.of_nat (String.length (c_str time_str) + String.length tag + 10) < room l →
  (∃ l', (_ ← END_MEASURE tag time_str start stop; flush_round) l = Ok (tt, l') ∧
    log_file_ l' = log_file_ l +:+ text (logged l) +:+
      (c_str time_str +:+ " RDTSC " +:+ tag +:+ " " +:+ pretty (stop - start) +:+ newline)) ∧
  (∃ l', (_ ← TTT_MEASURE tag time_str nanos; flush_round) l = Ok (tt, l') ∧
    log_file_ l' = log_file_ l +:+ text (logged l) +:+
      (c_str time_str +:+ " TTT " +:+ tag +:+ " " +:+ pretty nanos +:+ newline)).
Proof.
  intros Hl Htag Hi Hroom.
  assert (∀ kind value, (∃ k, kind = String " "%char k ∧ no_percent k = true) →
    (String.length kind ≤ 7)%nat →
    ∃ l', (_ ← log (fmt kind tag) (args time_str value); flush_round) l = Ok (tt, l') ∧
      log_file_ l' = log_file_ l +:+ text (logged l) +:+
        (c_str time_str +:+ kind +:+ tag +:+ " " +:+ pretty value +:+ newline)) as H.
  { intros kind value Hkind Hlen.
    destruct (log_written (fmt kind tag) (args time_str value) l Hl) as (l' & E & _ & Ef).
    - by rewrite measure_slots.
    - rewrite measure_elements by done. lia.
    - exists l'. split; [exact E|]. by rewrite Ef, measure_message. }
  split.
  - destruct (H " RDTSC "%string (stop - start)) as (l' & E & Ef); [by eexists|simpl; lia|].
    exists l'. split; [|exact Ef]. rewrite <- E. unfold END_MEASURE, signed, mbind, M_bind. by rewrite Hi.
  - destruct (H " TTT "%string nanos) as (l' & E & Ef); [by eexists|simpl; lia|]. by exists l'.
Qed.
