(* ===== verification/NanosecondTimer.v ===== *)
(** Common/nanosecond_timer.h: the timer and its calibration.

    The clock is an argument: [calibrate] takes its four readings, [rdtsc] is a reading in nanoseconds
    like [now_ns].  The atomics are only written by [calibrate], once. *)
From S2P Require Export Types Double Logger.

Record NanosecondTimer : Type := MkNanosecondTimer {
  tsc_frequency_ns_ : double;
  calibrated_ : bool;
}.
(** The definitions of the static members in latency_tracker.cpp. *)
Definition NanosecondTimer_static : NanosecondTimer := MkNanosecondTimer dzero false.

Record clock_readings : Type := MkReadings {
  start_wall : Z;
  start_tsc : Z;
  end_wall : Z;
  end_tsc : Z;
}.
Definition calibrate (r : clock_readings) : M NanosecondTimer unit :=
  calibrated ← gets calibrated_;
  if calibrated : bool then mret tt
  else
    wall_duration_ns ← signed 64 (end_wall r - start_wall r);
    let tsc_duration := u64 (end_tsc r - start_tsc r) in
    let frequency := ddiv (double_of tsc_duration) (double_of wall_duration_ns) in
    _ ← modify (λ t, MkNanosecondTimer frequency (calibrated_ t));
    modify (λ t, MkNanosecondTimer (tsc_frequency_ns_ t) true).
Definition force_recalibrate (r : clock_readings) : M NanosecondTimer unit :=
  _ ← modify (λ t, MkNanosecondTimer (tsc_frequency_ns_ t) false);
  calibrate r.
Definition tsc_to_ns (r : clock_readings) (tsc_cycles : Z) : M NanosecondTimer Z :=
  calibrated ← gets calibrated_;
  _ ← (if calibrated : bool then mret tt else calibrate r);
  frequency ← gets tsc_frequency_ns_;
  of_res (uint64_of_double (ddiv (double_of tsc_cycles) frequency)).

(** END_TSC_MEASURE: the conversion, and the line in the log. *)
Definition END_TSC_MEASURE (tag : string) (r : clock_readings) (start stop : Z) :
    M (NanosecondTimer * Logger) unit :=
  let cycles := u64 (stop - start) in
  ns ← zoom fst (λ t s, (t, s.2)) (tsc_to_ns r cycles);
  zoom snd (λ l s, (s.1, l)) (log ("TSC %s: %lu cycles (%lu ns)" +:+ newline)
    [Arg_cstr tag; Arg (LogType_UNSIGNED_LONG_INTEGER cycles); Arg (LogType_UNSIGNED_LONG_INTEGER ns)]).

(** A calibration that can be done leaves the timer calibrated, and only the first one counts. *)
Lemma calibrate_ok r t :
  in_i 64 (end_wall r - start_wall r) = true →
  wp (calibrate r) t (λ _ t', calibrated_ t' = true ∧ ∀ r', calibrate r' t' = Ok (tt, t')).
Proof.
  intros Hr. apply wp_bind, wp_gets. destruct (calibrated_ t) eqn:Hc.
  - apply wp_ret. split; [done|]. intros r'. unfold calibrate. rewrite gets_bind. by rewrite Hc.
  - eapply wp_bind_Ok; [unfold signed; by rewrite Hr|]. apply wp_bind, wp_modify, wp_modify. by split.
Qed.
(** The conversion of a calibrated timer does not look at the clock. *)
Lemma tsc_to_ns_calibrated r cycles t :
  calibrated_ t = true →
  tsc_to_ns r cycles t =
    res_map (λ n, (n, t)) (uint64_of_double (ddiv (double_of cycles) (tsc_frequency_ns_ t))).
Proof.
  intros Hc. unfold tsc_to_ns. rewrite gets_bind, Hc. rewrite (bind_Ok (mret tt) _ t tt t) by done.
  rewrite gets_bind. unfold of_res. by destruct (uint64_of_double _).
Qed.

(** Both readings come from the same clock, so a cycle is a nanosecond when they agree; a clock that
    does not advance during the calibration makes every conversion undefined. *)
Example calibrated_conversion :
  (_ ← calibrate (MkReadings 1000 1000 100001000 100001000); tsc_to_ns (MkReadings 0 0 0 0) 12345)
    NanosecondTimer_static = Ok (12345, MkNanosecondTimer (double_of 1) true).
Proof. vm_compute. reflexivity. Qed.
Example stopped_clock :
  tsc_to_ns (MkReadings 1000 1000 1000 1000) 12345 NanosecondTimer_static = Err BadConversion.
Proof. vm_compute. reflexivity. Qed.
(** The line of a measurement: as with END_LATENCY_MEASURE the letters of [printf]'s conversions stay
    in the text. *)
Example end_tsc_line :
  match END_TSC_MEASURE "Match" (MkReadings 1000 1000 1001000 1001000) 500 750
          (NanosecondTimer_static, MkLogger (MkLFQueue ∅ 64 0 0) EmptyString true) with
  | Ok (_, (_, l)) => match flush_round l with
                      | Ok (_, l) => log_file_ l = ("TSC Matchs: 250lu cycles (250lu ns)" +:+ newline)%string
                      | Err _ => False
                      end
  | Err _ => False
  end.
Proof. vm_compute. reflexivity. Qed.
