(* ===== verification/LatencyTracker.v ===== *)
(** Common/latency_tracker.h: the counters of measured latencies.

    [record_latency] runs on any thread.  It is a sequence of atomic accesses to shared cells (a
    bucket's count, sum, minimum and maximum, and two totals), with a compare-and-swap loop for the
    minimum and one for the maximum; [rec_step] is one access, and [tracker_step] lets the calls of
    any number of threads interleave.  A weak compare-and-swap may fail although the cell holds the
    expected value; the relation says whether it does.  The readers are functions of a tracker that
    no call is changing. *)
From S2P Require Export Types Double.

Definition UINT64_MAX : Z := 2 ^ 64 - 1.
Definition NUM_BUCKETS : Z := 1000.

Record LatencyBucket : Type := MkLatencyBucket {
  bkt_count_ : Z;
  bkt_sum_ : Z;
  bkt_min_ : Z;
  bkt_max_ : Z;
}.
Definition LatencyBucket_new : LatencyBucket := MkLatencyBucket 0 0 UINT64_MAX 0.

Record LatencyTracker : Type := MkLatencyTracker {
  buckets_ : list LatencyBucket;
  total_operations_ : Z;
  total_latency_ : Z;
}.
Definition LatencyTracker_new : LatencyTracker :=
  MkLatencyTracker (replicate (Z.to_nat NUM_BUCKETS) LatencyBucket_new) 0 0.

(** * The atomic cells *)

Inductive cell : Type :=
  | C_count (b : nat) | C_sum (b : nat) | C_min (b : nat) | C_max (b : nat)
  | C_ops | C_total.
#[export] Instance cell_eq_dec : EqDecision cell.
Proof. solve_decision. Defined.

Definition load_cell (c : cell) (t : LatencyTracker) : option Z :=
  match c with
  | C_count b => bkt_count_ <$> buckets_ t !! b
  | C_sum b => bkt_sum_ <$> buckets_ t !! b
  | C_min b => bkt_min_ <$> buckets_ t !! b
  | C_max b => bkt_max_ <$> buckets_ t !! b
  | C_ops => Some (total_operations_ t)
  | C_total => Some (total_latency_ t)
  end.

Definition on_bucket (f : LatencyBucket → LatencyBucket) (b : nat) (t : LatencyTracker) :
    LatencyTracker :=
  MkLatencyTracker (alter f b (buckets_ t)) (total_operations_ t) (total_latency_ t).

Definition store_cell (c : cell) (v : Z) (t : LatencyTracker) : LatencyTracker :=
  match c with
  | C_count b =>
      on_bucket (λ k, MkLatencyBucket v (bkt_sum_ k) (bkt_min_ k) (bkt_max_ k)) b t
  | C_sum b =>
      on_bucket (λ k, MkLatencyBucket (bkt_count_ k) v (bkt_min_ k) (bkt_max_ k)) b t
  | C_min b =>
      on_bucket (λ k, MkLatencyBucket (bkt_count_ k) (bkt_sum_ k) v (bkt_max_ k)) b t
  | C_max b =>
      on_bucket (λ k, MkLatencyBucket (bkt_count_ k) (bkt_sum_ k) (bkt_min_ k) v) b t
  | C_ops => MkLatencyTracker (buckets_ t) v (total_latency_ t)
  | C_total => MkLatencyTracker (buckets_ t) (total_operations_ t) v
  end.

(** [load]: an index beyond the array is undefined behaviour. *)
Definition load (c : cell) : M LatencyTracker Z := λ t,
  match load_cell c t with Some v => Ok (v, t) | None => Err OutOfBounds end.
Definition store (c : cell) (v : Z) : M LatencyTracker unit :=
  _ ← load c; modify (store_cell c v).
(** [fetch_add] on a [uint64_t] wraps around. *)
Definition fetch_add (c : cell) (n : Z) : M LatencyTracker unit :=
  v ← load c; modify (store_cell c (u64 (v + n))).
(** [compare_exchange_weak]: whether it succeeded, and what it leaves in the expected value.
    [fails] is a spurious failure. *)
Definition compare_exchange_weak (fails : bool) (c : cell) (expected desired : Z) :
    M LatencyTracker (bool * Z) :=
  v ← load c;
  if (v =? expected) && negb fails
  then _ ← modify (store_cell c desired); mret (true, expected)
  else mret (false, v).

(** * A call of [record_latency], one access at a time *)

Definition bucket_of (latency_ns : Z) : nat :=
  Z.to_nat (Z.min (latency_ns `div` 1000) (NUM_BUCKETS - 1)).

Inductive rec_pc : Type :=
  | At_count | At_sum
  | At_min_load | At_min_loop (current_min : Z)
  | At_max_load | At_max_loop (current_max : Z)
  | At_ops | At_total | At_end.
#[export] Instance rec_pc_eq_dec : EqDecision rec_pc.
Proof. solve_decision. Defined.

Definition rec_step (fails : bool) (latency_ns : Z) (pc : rec_pc) : M LatencyTracker rec_pc :=
  let bucket := bucket_of latency_ns in
  match pc with
  | At_count => _ ← fetch_add (C_count bucket) 1; mret At_sum
  | At_sum => _ ← fetch_add (C_sum bucket) latency_ns; mret At_min_load
  | At_min_load => current_min ← load (C_min bucket); mret (At_min_loop current_min)
  | At_min_loop current_min =>
      if latency_ns <? current_min then
        '(ok, current_min) ← compare_exchange_weak fails (C_min bucket) current_min latency_ns;
        mret (if ok : bool then At_max_load else At_min_loop current_min)
      else mret At_max_load
  | At_max_load => current_max ← load (C_max bucket); mret (At_max_loop current_max)
  | At_max_loop current_max =>
      if current_max <? latency_ns then
        '(ok, current_max) ← compare_exchange_weak fails (C_max bucket) current_max latency_ns;
        mret (if ok : bool then At_ops else At_max_loop current_max)
      else mret At_ops
  | At_ops => _ ← fetch_add C_ops 1; mret At_total
  | At_total => _ ← fetch_add C_total latency_ns; mret At_end
  | At_end => mret At_end
  end.

(** * Any number of calls at once *)

(** A tracker and the calls in progress: each with its argument and where it is. *)
Definition recorders : Type := LatencyTracker * list (Z * rec_pc).
Definition calls (lats : list Z) : list (Z * rec_pc) := (λ l, (l, At_count)) <$> lats.
Definition all_ended (ths : list (Z * rec_pc)) : Prop := Forall (λ th, th.2 = At_end) ths.

(** One access by one call.  [weak] says whether a compare-and-swap may fail spuriously. *)
Inductive tracker_step (weak : bool) : recorders → recorders → Prop :=
  | recorder_step i l pc pc' fails t t' ths :
      ths !! i = Some (l, pc) →
      pc ≠ At_end →
      (fails = true → weak = true) →
      rec_step fails l pc t = Ok (pc', t') →
      tracker_step weak (t, ths) (t', <[i := (l, pc')]> ths).

(** What a call amounts to. *)
Definition recorded (latency_ns : Z) (t : LatencyTracker) : LatencyTracker :=
  MkLatencyTracker
    (alter (λ k, MkLatencyBucket (u64 (bkt_count_ k + 1)) (u64 (bkt_sum_ k + latency_ns))
                   (Z.min (bkt_min_ k) latency_ns) (Z.max (bkt_max_ k) latency_ns))
       (bucket_of latency_ns) (buckets_ t))
    (u64 (total_operations_ t + 1)) (u64 (total_latency_ t + latency_ns)).
Definition recorded_all (lats : list Z) (t : LatencyTracker) : LatencyTracker :=
  foldl (λ t l, recorded l t) t lats.

(** * The readers *)

Definition get_total_operations (t : LatencyTracker) : Z := total_operations_ t.
Definition get_average_latency (t : LatencyTracker) : Z :=
  let ops := total_operations_ t in
  let total := total_latency_ t in
  if 0 <? ops then total `div` ops else 0.
Definition get_min_latency (t : LatencyTracker) : Z :=
  let min_latency :=
    foldl (λ min_latency bucket,
             if 0 <? bkt_count_ bucket then Z.min min_latency (bkt_min_ bucket) else min_latency)
      UINT64_MAX (buckets_ t) in
  if min_latency =? UINT64_MAX then 0 else min_latency.
Definition get_max_latency (t : LatencyTracker) : Z :=
  foldl (λ max_latency bucket,
           if 0 <? bkt_count_ bucket then Z.max max_latency (bkt_max_ bucket) else max_latency)
    0 (buckets_ t).

(** [total_ops * percentile / 100.0] as a [uint64_t]. *)
Definition target_of (total_ops : Z) (percentile : double) : res Z :=
  uint64_of_double (ddiv (dmul (double_of total_ops) percentile) (double_of 100)).

Fixpoint percentile_scan (target_op current_ops : Z) (i : Z) (bs : list LatencyBucket) : Z :=
  match bs with
  | [] => (NUM_BUCKETS - 1) * 1000
  | bucket :: bs =>
      let current_ops := u64 (current_ops + bkt_count_ bucket) in
      if target_op <=? current_ops then u64 (i * 1000)
      else percentile_scan target_op current_ops (i + 1) bs
  end.

Definition get_percentile_latency (percentile : double) (t : LatencyTracker) : res Z :=
  let total_ops := total_operations_ t in
  if total_ops =? 0 then Ok 0
  else
    res_map (λ target_op, percentile_scan target_op 0 0 (buckets_ t))
      (target_of total_ops percentile).

(** The literals [99.0] and [99.9], the nearest doubles. *)
Definition d99 : double := double_of 99.
Definition d99_9 : double := ddiv (double_of 999) (double_of 10).

Definition get_stats_string (t : LatencyTracker) : res string :=
  let total_ops := get_total_operations t in
  let avg_lat := get_average_latency t in
  let min_lat := get_min_latency t in
  let max_lat := get_max_latency t in
  res_bind (get_percentile_latency d99 t) (λ p99_lat,
  res_bind (get_percentile_latency d99_9 t) (λ p99_9_lat,
  Ok ("LatencyStats{ops:" +:+ pretty total_ops +:+
      ", avg:" +:+ pretty avg_lat +:+ "ns" +:+
      ", min:" +:+ pretty min_lat +:+ "ns" +:+
      ", max:" +:+ pretty max_lat +:+ "ns" +:+
      ", p99:" +:+ pretty p99_lat +:+ "ns" +:+
      ", p99.9:" +:+ pretty p99_9_lat +:+ "ns}")%string)).

(** [reset], while no call is in progress. *)
Definition reset (t : LatencyTracker) : LatencyTracker :=
  MkLatencyTracker ((λ _, MkLatencyBucket 0 0 UINT64_MAX 0) <$> buckets_ t) 0 0.

(** What [~LatencyMeasure] records. *)
Definition measured (start_time end_time : Z) : Z := u64 (end_time - start_time).
