(* ===== verification/LatencyTrackerProps.v ===== *)
(** What the latency tracker computes: interleaved calls add up as if each had been atomic, they
    all end, and the readers report the statistics of what was recorded. *)
From S2P Require Import LatencyTracker.

(** * Cells *)

Lemma load_store c c' v t :
  is_Some (load_cell c t) →
  load_cell c' (store_cell c v t) = if decide (c = c') then Some v else load_cell c' t.
Proof.
  intros Hc. destruct (decide (c = c')) as [<-|Hne].
  - destruct c as [b|b|b|b| |]; simpl in *; try done;
      destruct (buckets_ t !! b) eqn:E; try (by destruct Hc);
      by rewrite list_lookup_alter_eq, E.
  - destruct c as [b|b|b|b| |], c' as [b'|b'|b'|b'| |]; simpl; try done;
      (destruct (decide (b = b')) as [<-|]; [|by rewrite list_lookup_alter_ne]);
      try done; rewrite list_lookup_alter_eq; by destruct (buckets_ t !! b).
Qed.

Lemma tracker_ext t t' : (∀ c, load_cell c t = load_cell c t') → t = t'.
Proof.
  intros H. destruct t as [bs o n], t' as [bs' o' n']. f_equal.
  - apply list_eq. intros b.
    pose proof (H (C_count b)) as H1. pose proof (H (C_sum b)) as H2.
    pose proof (H (C_min b)) as H3. pose proof (H (C_max b)) as H4. simpl in *.
    destruct (bs !! b) as [[]|], (bs' !! b) as [[]|]; naive_solver.
  - by injection (H C_ops).
  - by injection (H C_total).
Qed.

Definition tracker_wf (t : LatencyTracker) : Prop := length (buckets_ t) = Z.to_nat NUM_BUCKETS.

Lemma bucket_of_lt l : (bucket_of l < Z.to_nat NUM_BUCKETS)%nat.
Proof. unfold bucket_of, NUM_BUCKETS. lia. Qed.

Lemma store_wf c v t : tracker_wf t → tracker_wf (store_cell c v t).
Proof. unfold tracker_wf. destruct c; simpl; by rewrite ?length_alter. Qed.

(** The cells a call of [record_latency] touches. *)
Definition touched (c : cell) (l : Z) : bool :=
  match c with
  | C_count b | C_sum b | C_min b | C_max b => bool_decide (b = bucket_of l)
  | _ => true
  end.
Lemma touched_loads c l t : tracker_wf t → touched c l = true → is_Some (load_cell c t).
Proof.
  intros Hwf Hc. assert (is_Some (buckets_ t !! bucket_of l)) as [k Hk].
  { apply lookup_lt_is_Some. rewrite Hwf. apply bucket_of_lt. }
  destruct c; simpl in *; [..|done|done]; apply bool_decide_eq_true in Hc as ->; rewrite Hk; eauto.
Qed.
Lemma touched_bucket l :
  touched (C_count (bucket_of l)) l = true ∧ touched (C_sum (bucket_of l)) l = true ∧
  touched (C_min (bucket_of l)) l = true ∧ touched (C_max (bucket_of l)) l = true.
Proof. simpl. by rewrite bool_decide_true. Qed.

(** * Cells as accumulators *)

(** What a cell does with a contribution. *)
Definition cell_op (c : cell) (x v : Z) : Z :=
  match c with
  | C_min _ => Z.min v x
  | C_max _ => Z.max v x
  | _ => u64 (v + x)
  end.
Lemma cell_op_swap c x y v : cell_op c x (cell_op c y v) = cell_op c y (cell_op c x v).
Proof.
  assert (∀ a b, u64 (u64 (v + a) + b) = u64 (v + a + b)) as H.
  { intros a b. unfold u64, wrap. by rewrite Zplus_mod_idemp_l. }
  destruct c; simpl; rewrite ?H; first [lia | f_equal; lia].
Qed.

(** The part of the call that is still to come, in accesses. *)
Definition rank (pc : rec_pc) : nat :=
  match pc with
  | At_count => 8 | At_sum => 7 | At_min_load => 6 | At_min_loop _ => 5 | At_max_load => 4
  | At_max_loop _ => 3 | At_ops => 2 | At_total => 1 | At_end => 0
  end.
(** The place after which a call has made its contribution to a cell, and the contribution. *)
Definition due (c : cell) : nat :=
  match c with
  | C_count _ => 8 | C_sum _ => 7 | C_min _ => 5 | C_max _ => 3 | C_ops => 2 | C_total => 1
  end.
Definition amount (c : cell) (l : Z) : Z :=
  match c with C_count _ | C_ops => 1 | _ => l end.
Definition contribution (c : cell) (th : Z * rec_pc) : option Z :=
  if touched c th.1 && (rank th.2 <? due c)%nat then Some (amount c th.1) else None.
Definition add_to (c : cell) (x : option Z) (v : Z) : Z :=
  match x with Some x => cell_op c x v | None => v end.
Definition gather (c : cell) (v : Z) (ths : list (Z * rec_pc)) : Z :=
  foldr (λ th v, add_to c (contribution c th) v) v ths.

Lemma add_to_swap c x y v : add_to c x (add_to c y v) = add_to c y (add_to c x v).
Proof. destruct x, y; simpl; auto using cell_op_swap. Qed.
Lemma gather_add c x v ths : gather c (add_to c x v) ths = add_to c x (gather c v ths).
Proof. induction ths as [|th ths IH]; simpl; [done|]. rewrite IH. apply add_to_swap. Qed.
Lemma gather_calls c v lats : gather c v (calls lats) = v.
Proof.
  induction lats as [|l lats IH]; [done|].
  change (add_to c (contribution c (l, At_count)) (gather c v (calls lats)) = v). rewrite IH.
  unfold contribution. simpl (_.2). simpl (rank _).
  replace (8 <? due c)%nat with false; [by rewrite andb_false_r|by destruct c].
Qed.

(** What a step adds when a call moves on. *)
Definition newly (c : cell) (l : Z) (pc pc' : rec_pc) : option Z :=
  match contribution c (l, pc) with Some _ => None | None => contribution c (l, pc') end.
Lemma gather_insert c v ths i l pc pc' :
  ths !! i = Some (l, pc) →
  (rank pc' ≤ rank pc)%nat →
  gather c v (<[i := (l, pc')]> ths) = add_to c (newly c l pc pc') (gather c v ths).
Proof.
  intros Hi Hr. revert i Hi. induction ths as [|th ths IH]; intros [|i] Hi; simpl in *; try done.
  - injection Hi as ->. unfold newly, contribution. simpl.
    destruct (touched c l); simpl; [|done].
    destruct (Nat.ltb_spec (rank pc) (due c)), (Nat.ltb_spec (rank pc') (due c)); simpl; lia || done.
  - rewrite (IH _ Hi). apply add_to_swap.
Qed.

Lemma recorded_load c l t v :
  load_cell c t = Some v →
  load_cell c (recorded l t) = Some (add_to c (contribution c (l, At_end)) v).
Proof.
  unfold contribution. destruct c as [b|b|b|b| |]; simpl; intros Hv;
    [case_bool_decide as E; [subst b; rewrite list_lookup_alter_eq|rewrite list_lookup_alter_ne by done]..
    |by simplify_eq|by simplify_eq]; simpl; destruct (buckets_ t !! _); naive_solver.
Qed.
Lemma recorded_wf l t : tracker_wf t → tracker_wf (recorded l t).
Proof. unfold tracker_wf. simpl. by rewrite length_alter. Qed.

Lemma load_None c l t : load_cell c (recorded l t) = None ↔ load_cell c t = None.
Proof.
  split; intros H.
  - destruct (load_cell c t) eqn:E; [|done]. apply (recorded_load _ l) in E. congruence.
  - destruct c as [b|b|b|b| |]; simpl in *; try done;
      (destruct (decide (bucket_of l = b)) as [<-|];
       [rewrite list_lookup_alter_eq|rewrite list_lookup_alter_ne by done]);
      by destruct (buckets_ t !! _).
Qed.
Lemma recorded_all_load c lats t v :
  load_cell c t = Some v →
  load_cell c (recorded_all lats t) = Some (gather c v ((λ l, (l, At_end)) <$> lats)).
Proof.
  revert t v. induction lats as [|l lats IH]; intros t v Hv; [done|]. simpl.
  rewrite (IH _ _ (recorded_load _ l _ _ Hv)). f_equal. apply gather_add.
Qed.
Lemma recorded_all_None c lats t : load_cell c t = None → load_cell c (recorded_all lats t) = None.
Proof.
  revert t. induction lats as [|l lats IH]; intros t H; [done|]. simpl. by apply IH, load_None.
Qed.

(** * One access *)

(** A value read for a compare-and-swap bounds what the cell holds from then on. *)
Definition loop_ok (l : Z) (pc : rec_pc) (t : LatencyTracker) : Prop :=
  match pc with
  | At_min_loop cur => ∀ v, load_cell (C_min (bucket_of l)) t = Some v → v ≤ cur
  | At_max_loop cur => ∀ v, load_cell (C_max (bucket_of l)) t = Some v → cur ≤ v
  | _ => True
  end.

(** The accesses done in a step of a call: each cell takes what became due. *)
Definition advances (l : Z) (pc pc' : rec_pc) (t t' : LatencyTracker) : Prop :=
  (rank pc' ≤ rank pc)%nat ∧
  ∀ c v, load_cell c t = Some v → load_cell c t' = Some (add_to c (newly c l pc pc') v).

Lemma load_Ok c v t : load_cell c t = Some v → load c t = Ok (v, t).
Proof. unfold load. by intros ->. Qed.
Lemma fetch_add_Ok c n v t :
  load_cell c t = Some v → fetch_add c n t = Ok (tt, store_cell c (u64 (v + n)) t).
Proof. intros H. unfold fetch_add. by rewrite (bind_Ok _ _ _ _ _ (load_Ok _ _ _ H)). Qed.
Lemma cas_Ok fails c e d v t :
  load_cell c t = Some v →
  compare_exchange_weak fails c e d t =
    if (v =? e) && negb fails then Ok ((true, e), store_cell c d t) else Ok ((false, v), t).
Proof.
  intros H. unfold compare_exchange_weak. rewrite (bind_Ok _ _ _ _ _ (load_Ok _ _ _ H)).
  by destruct (_ && _).
Qed.

Lemma advances_store l pc pc' c v w t :
  load_cell c t = Some v →
  w = cell_op c (amount c l) v →
  (rank pc' ≤ rank pc)%nat →
  newly c l pc pc' = Some (amount c l) →
  (∀ c', c' ≠ c → newly c' l pc pc' = None) →
  advances l pc pc' t (store_cell c w t).
Proof.
  intros Hc -> Hr Hn Ho. split; [done|]. intros c' v' Hv'. rewrite load_store by eauto.
  destruct (decide (c = c')) as [<-|Hne]; [|by rewrite Ho].
  rewrite Hn. simpl. congruence.
Qed.
Lemma advances_same l pc pc' t :
  (rank pc' ≤ rank pc)%nat →
  (∀ c v, load_cell c t = Some v → add_to c (newly c l pc pc') v = v) →
  advances l pc pc' t t.
Proof. intros Hr H. split; [done|]. intros c v Hv. by rewrite H. Qed.

Ltac newly_tac :=
  unfold newly, contribution; simpl;
  repeat match goal with
    | |- context [bool_decide ?P] => case_bool_decide; simpl
    end; congruence || done.

(** A compare-and-swap that fails goes back with the value it saw. *)
Lemma advances_retry l cur v pc pc' t :
  tracker_wf t →
  pc = At_min_loop cur ∧ pc' = At_min_loop v ∧ load_cell (C_min (bucket_of l)) t = Some v ∨
  pc = At_max_loop cur ∧ pc' = At_max_loop v ∧ load_cell (C_max (bucket_of l)) t = Some v →
  advances l pc pc' t t ∧ tracker_wf t ∧ loop_ok l pc' t.
Proof.
  intros Hwf [(-> & -> & L)|(-> & -> & L)]; (split_and!; [|done|]).
  1, 3: apply advances_same; [done|]; intros [] w _; newly_tac.
  all: simpl in *; intros w Hw; simplify_eq; lia.
Qed.

Lemma min_loop_advances fails l current_min pc' t t' :
  tracker_wf t → loop_ok l (At_min_loop current_min) t →
  rec_step fails l (At_min_loop current_min) t = Ok (pc', t') →
  advances l (At_min_loop current_min) pc' t t' ∧ tracker_wf t' ∧ loop_ok l pc' t'.
Proof.
  intros Hwf Hloop Hs.
  destruct (touched_loads (C_min (bucket_of l)) l t Hwf) as [v L]; [apply touched_bucket|].
  simpl in Hs. destruct (Z.ltb_spec l current_min) as [Hlt|Hge].
  - unfold mbind, M_bind in Hs. rewrite (cas_Ok _ _ _ _ _ _ L) in Hs.
    destruct (Z.eqb_spec v current_min) as [E|_]; [subst v; destruct fails|]; injection Hs as <- <-.
    + eapply (advances_retry l current_min); eauto 8.
    + split_and!; [|by apply (store_wf (C_min _))|done].
      eapply (advances_store l _ _ (C_min _)); [exact L|simpl; lia|simpl; lia|newly_tac|].
      intros [] Hne; newly_tac.
    + eapply (advances_retry l current_min); eauto 8.
  - injection Hs as <- <-. split_and!; [|done|done].
    apply advances_same; [simpl; lia|]. intros c w Hw.
    destruct (decide (c = C_min (bucket_of l))) as [->|]; [|destruct c; newly_tac].
    specialize (Hloop w Hw). unfold newly, contribution. simpl.
    rewrite bool_decide_true by done. simpl. lia.
Qed.

Lemma max_loop_advances fails l current_max pc' t t' :
  tracker_wf t → loop_ok l (At_max_loop current_max) t →
  rec_step fails l (At_max_loop current_max) t = Ok (pc', t') →
  advances l (At_max_loop current_max) pc' t t' ∧ tracker_wf t' ∧ loop_ok l pc' t'.
Proof.
  intros Hwf Hloop Hs.
  destruct (touched_loads (C_max (bucket_of l)) l t Hwf) as [v L]; [apply touched_bucket|].
  simpl in Hs. destruct (Z.ltb_spec current_max l) as [Hlt|Hge].
  - unfold mbind, M_bind in Hs. rewrite (cas_Ok _ _ _ _ _ _ L) in Hs.
    destruct (Z.eqb_spec v current_max) as [E|_]; [subst v; destruct fails|]; injection Hs as <- <-.
    + eapply (advances_retry l current_max); eauto 8.
    + split_and!; [|by apply (store_wf (C_max _))|done].
      eapply (advances_store l _ _ (C_max _)); [exact L|simpl; lia|simpl; lia|newly_tac|].
      intros [] Hne; newly_tac.
    + eapply (advances_retry l current_max); eauto 8.
  - injection Hs as <- <-. split_and!; [|done|done].
    apply advances_same; [simpl; lia|]. intros c w Hw.
    destruct (decide (c = C_max (bucket_of l))) as [->|]; [|destruct c; newly_tac].
    specialize (Hloop w Hw). unfold newly, contribution. simpl.
    rewrite bool_decide_true by done. simpl. lia.
Qed.

Lemma rec_step_advances fails l pc pc' t t' :
  tracker_wf t → loop_ok l pc t → rec_step fails l pc t = Ok (pc', t') →
  advances l pc pc' t t' ∧ tracker_wf t' ∧ loop_ok l pc' t'.
Proof.
  intros Hwf Hloop Hs. destruct (touched_bucket l) as (T1 & T2 & T3 & T4).
  apply (touched_loads _ _ t Hwf) in T1 as [v1 L1], T2 as [v2 L2], T3 as [v3 L3], T4 as [v4 L4].
  destruct pc; [..|by eapply min_loop_advances| |by eapply max_loop_advances| | |]; simpl in Hs.
  - rewrite (bind_Ok _ _ _ _ _ (fetch_add_Ok _ _ _ _ L1)) in Hs. injection Hs as <- <-.
    split_and!; [|by apply (store_wf (C_count _))|done].
    eapply (advances_store l _ _ (C_count _)); [exact L1|done|simpl; lia|newly_tac|].
    intros [] Hne; newly_tac.
  - rewrite (bind_Ok _ _ _ _ _ (fetch_add_Ok _ _ _ _ L2)) in Hs. injection Hs as <- <-.
    split_and!; [|by apply (store_wf (C_sum _))|done].
    eapply (advances_store l _ _ (C_sum _)); [exact L2|done|simpl; lia|newly_tac|].
    intros [] Hne; newly_tac.
  - rewrite (bind_Ok _ _ _ _ _ (load_Ok _ _ _ L3)) in Hs. injection Hs as <- <-.
    split_and!; [|done|simpl; intros v Hv; simpl in L3; simplify_eq; lia].
    apply advances_same; [simpl; lia|]. intros [] v _; newly_tac.
  - rewrite (bind_Ok _ _ _ _ _ (load_Ok _ _ _ L4)) in Hs. injection Hs as <- <-.
    split_and!; [|done|simpl; intros v Hv; simpl in L4; simplify_eq; lia].
    apply advances_same; [simpl; lia|]. intros [] v _; newly_tac.
  - rewrite (bind_Ok _ _ _ _ _ (fetch_add_Ok C_ops _ _ _ eq_refl)) in Hs. injection Hs as <- <-.
    split_and!; [|by apply (store_wf C_ops)|done].
    eapply (advances_store l _ _ C_ops); [done|done|simpl; lia|done|]. intros [] Hne; newly_tac.
  - rewrite (bind_Ok _ _ _ _ _ (fetch_add_Ok C_total _ _ _ eq_refl)) in Hs. injection Hs as <- <-.
    split_and!; [|by apply (store_wf C_total)|done].
    eapply (advances_store l _ _ C_total); [done|done|simpl; lia|done|]. intros [] Hne; newly_tac.
  - injection Hs as <- <-. split_and!; [|done|done].
    apply advances_same; [done|]. intros [] v _; newly_tac.
Qed.

(** * Interleavings *)

Lemma loop_ok_stable l pc pc' l' pc0 t t' :
  tracker_wf t → advances l pc pc' t t' → loop_ok l' pc0 t → loop_ok l' pc0 t'.
Proof.
  intros Hwf [_ Ha]. destruct (touched_bucket l') as (_ & _ & T3 & T4).
  apply (touched_loads _ _ t Hwf) in T3 as [v3 L3], T4 as [v4 L4].
  destruct pc0; unfold loop_ok; try done; intros Hl v Hv.
  - rewrite (Ha _ _ L3) in Hv. injection Hv as <-. specialize (Hl _ L3).
    destruct (newly _ l pc pc'); simpl; lia.
  - rewrite (Ha _ _ L4) in Hv. injection Hv as <-. specialize (Hl _ L4).
    destruct (newly _ l pc pc'); simpl; lia.
Qed.

(** Each cell holds what the calls in progress have put into it so far. *)
Record recorders_inv (lats : list Z) (t0 : LatencyTracker) (s : recorders) : Prop := {
  inv_tracker : tracker_wf s.1;
  inv_lats : s.2.*1 = lats;
  inv_cells c v : load_cell c t0 = Some v → load_cell c s.1 = Some (gather c v s.2);
  inv_loops i l pc : s.2 !! i = Some (l, pc) → loop_ok l pc s.1;
}.

Lemma recorders_inv_start lats t0 : tracker_wf t0 → recorders_inv lats t0 (t0, calls lats).
Proof.
  intros Hwf. constructor; simpl; [done|..].
  - unfold calls. rewrite <- list_fmap_compose. apply list_fmap_id.
  - intros c v Hv. by rewrite gather_calls.
  - intros i l pc Hi. apply list_lookup_fmap_Some in Hi as (? & ? & ?). by simplify_eq.
Qed.

Lemma tracker_step_inv weak lats t0 s s' :
  recorders_inv lats t0 s → tracker_step weak s s' → recorders_inv lats t0 s'.
Proof.
  intros Hinv Hstep. revert Hinv. destruct Hstep as [i l pc pc' fails t t' ths Hi _ _ Hs].
  intros [Hwf Hl Hc Hlo]. simpl in *.
  destruct (rec_step_advances _ _ _ _ _ _ Hwf (Hlo _ _ _ Hi) Hs) as (Ha & Hwf' & Hlo').
  constructor; simpl; [done|..].
  - rewrite list_fmap_insert. simpl. rewrite <- Hl. apply list_insert_id.
    by rewrite list_lookup_fmap, Hi.
  - intros c v Hv. destruct Ha as [Hr Ha].
    by rewrite (gather_insert _ _ _ _ _ _ _ Hi), (Ha _ _ (Hc _ _ Hv)).
  - intros j l0 pc0 Hj. destruct (decide (i = j)) as [<-|Hne].
    + rewrite list_lookup_insert_eq in Hj by eauto using lookup_lt_Some. by simplify_eq.
    + rewrite list_lookup_insert_ne in Hj by done. eauto using loop_ok_stable.
Qed.

Lemma recorders_inv_reachable weak lats t0 s :
  tracker_wf t0 → rtc (tracker_step weak) (t0, calls lats) s → recorders_inv lats t0 s.
Proof.
  intros Hwf H. pose proof (recorders_inv_start lats t0 Hwf) as Hinv. revert Hinv.
  induction H as [|s1 s2 s3 Hs _ IH]; eauto using tracker_step_inv.
Qed.

Lemma all_ended_calls ths : all_ended ths → ths = (λ l, (l, At_end)) <$> ths.*1.
Proof. induction 1 as [|[l pc] ths H _ IH]; simpl in *; [done|]. subst pc. f_equal. exact IH. Qed.

Lemma load_wf c t t' : tracker_wf t → tracker_wf t' → load_cell c t = None → load_cell c t' = None.
Proof.
  unfold tracker_wf. intros Hwf Hwf'.
  destruct c; simpl; rewrite ?fmap_None, ?lookup_ge_None, ?Hwf, ?Hwf'; done.
Qed.

Lemma interleaving_records weak lats t0 t ths :
  tracker_wf t0 → rtc (tracker_step weak) (t0, calls lats) (t, ths) → all_ended ths →
  t = recorded_all lats t0.
Proof.
  intros Hwf Hsteps Hend. apply recorders_inv_reachable in Hsteps as [Hwf' Hl Hc _]; [|done].
  simpl in *. apply tracker_ext. intros c. destruct (load_cell c t0) as [v|] eqn:E.
  - rewrite (recorded_all_load _ _ _ _ E), (Hc _ _ E), <- Hl. do 2 f_equal. by apply all_ended_calls.
  - by rewrite (recorded_all_None _ _ _ E), (load_wf _ _ _ Hwf Hwf' E).
Qed.

(** * Every call ends *)

(** A call whose compare-and-swap is bound to fail: the cell has changed since it was read. *)
Definition stale (t : LatencyTracker) (th : Z * rec_pc) : nat :=
  match th.2 with
  | At_min_loop cur =>
      if decide (load_cell (C_min (bucket_of th.1)) t = Some cur) then 0 else 1
  | At_max_loop cur =>
      if decide (load_cell (C_max (bucket_of th.1)) t = Some cur) then 0 else 1
  | _ => 0
  end.
(** The accesses still to come, with the retries each call can impose on the others. *)
Definition work (s : recorders) : nat :=
  (sum_list_with (λ th, rank th.2) s.2 * S (length s.2) + sum_list_with (stale s.1) s.2)%nat.
(** The most accesses [k] calls can take together. *)
Definition max_steps (k : nat) : nat := (8 * k * S k)%nat.

Lemma sum_list_insert {A} (f : A → nat) (l : list A) i x y :
  l !! i = Some x → (sum_list_with f (<[i := y]> l) + f x = sum_list_with f l + f y)%nat.
Proof.
  revert i. induction l as [|z l IH]; intros [|i] Hi; simpl in *; try done.
  - simplify_eq. lia.
  - specialize (IH _ Hi). lia.
Qed.
Lemma sum_stale_le t ths : (sum_list_with (stale t) ths ≤ length ths)%nat.
Proof.
  induction ths as [|th ths IH]; simpl; [lia|].
  assert (stale t th ≤ 1)%nat; [unfold stale; repeat case_match; lia|lia].
Qed.

(** Without spurious failures, a call either moves on or replaces a stale value. *)
Lemma rec_step_works l pc pc' t t' :
  tracker_wf t → pc ≠ At_end → rec_step false l pc t = Ok (pc', t') →
  (rank pc' < rank pc)%nat ∨
  t' = t ∧ rank pc' = rank pc ∧ stale t (l, pc) = 1%nat ∧ stale t (l, pc') = 0%nat.
Proof.
  intros Hwf Hpc Hs. destruct (touched_bucket l) as (T1 & T2 & T3 & T4).
  apply (touched_loads _ _ t Hwf) in T1 as [v1 L1], T2 as [v2 L2], T3 as [v3 L3], T4 as [v4 L4].
  destruct pc; simpl in Hs; try done.
  - rewrite (bind_Ok _ _ _ _ _ (fetch_add_Ok _ _ _ _ L1)) in Hs. injection Hs as <- <-. simpl. lia.
  - rewrite (bind_Ok _ _ _ _ _ (fetch_add_Ok _ _ _ _ L2)) in Hs. injection Hs as <- <-. simpl. lia.
  - rewrite (bind_Ok _ _ _ _ _ (load_Ok _ _ _ L3)) in Hs. injection Hs as <- <-. simpl. lia.
  - destruct (l <? current_min); [|injection Hs as <- <-; simpl; lia].
    unfold mbind, M_bind in Hs. rewrite (cas_Ok _ _ _ _ _ _ L3), andb_true_r in Hs.
    destruct (Z.eqb_spec v3 current_min); injection Hs as <- <-; [simpl; lia|right].
    unfold stale; cbn [fst snd]. rewrite L3. repeat case_decide; naive_solver.
  - rewrite (bind_Ok _ _ _ _ _ (load_Ok _ _ _ L4)) in Hs. injection Hs as <- <-. simpl. lia.
  - destruct (current_max <? l); [|injection Hs as <- <-; simpl; lia].
    unfold mbind, M_bind in Hs. rewrite (cas_Ok _ _ _ _ _ _ L4), andb_true_r in Hs.
    destruct (Z.eqb_spec v4 current_max); injection Hs as <- <-; [simpl; lia|right].
    unfold stale; cbn [fst snd]. rewrite L4. repeat case_decide; naive_solver.
  - injection Hs as <- <-. simpl. lia.
  - injection Hs as <- <-. simpl. lia.
Qed.

Lemma rec_step_total fails l pc t : tracker_wf t → ∃ pc' t', rec_step fails l pc t = Ok (pc', t').
Proof.
  intros Hwf. destruct (touched_bucket l) as (T1 & T2 & T3 & T4).
  apply (touched_loads _ _ t Hwf) in T1 as [v1 L1], T2 as [v2 L2], T3 as [v3 L3], T4 as [v4 L4].
  destruct pc; simpl.
  - rewrite (bind_Ok _ _ _ _ _ (fetch_add_Ok _ _ _ _ L1)). by do 2 eexists.
  - rewrite (bind_Ok _ _ _ _ _ (fetch_add_Ok _ _ _ _ L2)). by do 2 eexists.
  - rewrite (bind_Ok _ _ _ _ _ (load_Ok _ _ _ L3)). by do 2 eexists.
  - destruct (l <? current_min); [|by do 2 eexists].
    unfold mbind, M_bind. rewrite (cas_Ok _ _ _ _ _ _ L3). destruct (_ && _); by do 2 eexists.
  - rewrite (bind_Ok _ _ _ _ _ (load_Ok _ _ _ L4)). by do 2 eexists.
  - destruct (current_max <? l); [|by do 2 eexists].
    unfold mbind, M_bind. rewrite (cas_Ok _ _ _ _ _ _ L4). destruct (_ && _); by do 2 eexists.
  - by do 2 eexists.
  - by do 2 eexists.
  - by do 2 eexists.
Qed.

Lemma tracker_step_works s s' :
  tracker_wf s.1 → tracker_step false s s' → (work s' < work s)%nat.
Proof.
  intros Hwf Hstep. revert Hwf. destruct Hstep as [i l pc pc' fails t t' ths Hi Hpc Hf Hs].
  intros Hwf. destruct fails; [by discriminate Hf|]. unfold work. simpl in *. rewrite length_insert.
  pose proof (sum_list_insert (λ th : Z * rec_pc, rank th.2) ths i _ (l, pc') Hi) as Hr.
  simpl in Hr.
  destruct (rec_step_works _ _ _ _ _ Hwf Hpc Hs) as [Hlt|(-> & Hrank & H1 & H0)].
  - pose proof (sum_stale_le t' (<[i := (l, pc')]> ths)) as Hst. rewrite length_insert in Hst. nia.
  - pose proof (sum_list_insert (stale t) ths i _ (l, pc') Hi) as Hst.
    rewrite H1, H0 in Hst. rewrite Hrank in Hr. nia.
Qed.

Lemma work_calls lats t : work (t, calls lats) = max_steps (length lats).
Proof.
  unfold work, max_steps. simpl.
  assert (length (calls lats) = length lats) as -> by apply length_fmap.
  assert (sum_list_with (λ th, rank th.2) (calls lats) = 8 * length lats)%nat as ->.
  { induction lats; simpl in *; lia. }
  assert (sum_list_with (stale t) (calls lats) = 0)%nat as ->.
  { by induction lats. }
  lia.
Qed.

(** * What the cells hold after a history *)

Definition ended (lats : list Z) : list (Z * rec_pc) := (λ l, (l, At_end)) <$> lats.
(** How many of the latencies have a property. *)
Definition count (p : Z → bool) (lats : list Z) : Z := zsum (λ l, if p l then 1 else 0) lats.

Lemma count_cons p l lats : count p (l :: lats) = (if p l then 1 else 0) + count p lats.
Proof. apply zsum_cons. Qed.
Lemma count_bounds p lats : 0 ≤ count p lats ≤ Z.of_nat (length lats).
Proof.
  induction lats as [|l lats IH]; [done|]. rewrite count_cons. simpl. destruct (p l); lia.
Qed.
Lemma count_le (p q : Z → bool) lats : (∀ l, p l = true → q l = true) → count p lats ≤ count q lats.
Proof.
  intros H. induction lats as [|l lats IH]; [done|]. rewrite !count_cons.
  specialize (H l). destruct (p l), (q l); lia.
Qed.
Lemma count_split (p q r : Z → bool) lats :
  (∀ l, (if r l then 1 else 0) = (if p l then 1 else 0) + (if q l then 1 else 0)) →
  count r lats = count p lats + count q lats.
Proof.
  intros H. induction lats as [|l lats IH]; [done|]. rewrite !count_cons, H. lia.
Qed.
Lemma count_pos p l lats : l ∈ lats → p l = true → 0 < count p lats.
Proof.
  intros Hl Hp. induction lats as [|y lats IH]; [by apply not_elem_of_nil in Hl|].
  rewrite count_cons. pose proof (count_bounds p lats) as Hb.
  apply elem_of_cons in Hl as [<-|Hl]; [rewrite Hp; lia|].
  specialize (IH Hl). destruct (p y); lia.
Qed.
Lemma bucket_of_mono l x : l ≤ x → (bucket_of l ≤ bucket_of x)%nat.
Proof.
  intros H. unfold bucket_of. apply (Z.div_le_mono _ _ 1000) in H; lia.
Qed.

(** A bucket after the latencies [lats]. *)
Definition in_bucket (b : nat) (l : Z) : bool := bool_decide (b = bucket_of l).
Record bucket_holds (lats : list Z) (b : nat) (k : LatencyBucket) : Prop := {
  holds_count : bkt_count_ k = count (in_bucket b) lats;
  holds_min l : l ∈ lats → bucket_of l = b → bkt_min_ k ≤ l;
  holds_min_in : bkt_min_ k = UINT64_MAX ∨ bkt_min_ k ∈ lats;
  holds_max l : l ∈ lats → bucket_of l = b → l ≤ bkt_max_ k;
  holds_max_in : bkt_max_ k = 0 ∨ bkt_max_ k ∈ lats;
}.

Lemma gather_cons c v l lats :
  gather c v (ended (l :: lats)) = add_to c (contribution c (l, At_end)) (gather c v (ended lats)).
Proof. done. Qed.
Lemma gather_count b lats :
  Z.of_nat (length lats) < 2 ^ 64 → gather (C_count b) 0 (ended lats) = count (in_bucket b) lats.
Proof.
  induction lats as [|l lats IH]; [done|]. rewrite gather_cons, count_cons. simpl length. intros Hl.
  rewrite IH by lia. unfold contribution, in_bucket.
  pose proof (count_bounds (λ l, bool_decide (b = bucket_of l)) lats). simpl. case_bool_decide; simpl; [|done]. rewrite u64_id; lia.
Qed.
Lemma gather_ops lats :
  Z.of_nat (length lats) < 2 ^ 64 → gather C_ops 0 (ended lats) = Z.of_nat (length lats).
Proof.
  induction lats as [|l lats IH]; [done|]. rewrite gather_cons. simpl length. intros Hl.
  rewrite IH by lia. simpl. rewrite u64_id; lia.
Qed.
Lemma gather_total lats :
  Forall (λ l, 0 ≤ l) lats → zsum id lats < 2 ^ 64 → gather C_total 0 (ended lats) = zsum id lats.
Proof.
  induction 1 as [|l lats Hl Hf IH]; [done|]. rewrite gather_cons, zsum_cons. simpl. intros Hs.
  pose proof (zsum_nonneg id lats Hf). unfold id in *. rewrite IH by lia. rewrite u64_id; lia.
Qed.
Lemma gather_min b v lats :
  let m := gather (C_min b) v (ended lats) in
  (∀ l, l ∈ lats → bucket_of l = b → m ≤ l) ∧ (m = v ∨ m ∈ lats).
Proof.
  induction lats as [|l lats [IH1 IH2]]; [split; [by intros ? ?%not_elem_of_nil|auto]|].
  rewrite gather_cons. cbv zeta in *. set (m := gather _ _ _) in *. unfold contribution. simpl.
  case_bool_decide as E; simpl.
  - split; [intros x [->|Hx]%elem_of_cons Hb; [lia|specialize (IH1 x Hx Hb); lia]|].
    destruct (Z.min_spec m l) as [[_ ->]|[_ ->]]; [|right; left].
    destruct IH2; [auto|right; by right].
  - split; [intros x [->|Hx]%elem_of_cons Hb; [congruence|auto]|].
    destruct IH2; [auto|right; by right].
Qed.
Lemma gather_max b v lats :
  let m := gather (C_max b) v (ended lats) in
  (∀ l, l ∈ lats → bucket_of l = b → l ≤ m) ∧ (m = v ∨ m ∈ lats).
Proof.
  induction lats as [|l lats [IH1 IH2]]; [split; [by intros ? ?%not_elem_of_nil|auto]|].
  rewrite gather_cons. cbv zeta in *. set (m := gather _ _ _) in *. unfold contribution. simpl.
  case_bool_decide as E; simpl.
  - split; [intros x [->|Hx]%elem_of_cons Hb; [lia|specialize (IH1 x Hx Hb); lia]|].
    destruct (Z.max_spec m l) as [[_ ->]|[_ ->]]; [right; left|].
    destruct IH2; [auto|right; by right].
  - split; [intros x [->|Hx]%elem_of_cons Hb; [congruence|auto]|].
    destruct IH2; [auto|right; by right].
Qed.

Lemma tracker_new_wf : tracker_wf LatencyTracker_new.
Proof. apply length_replicate. Qed.
Lemma recorded_all_wf lats t : tracker_wf t → tracker_wf (recorded_all lats t).
Proof. revert t. induction lats; simpl; eauto using recorded_wf. Qed.

Lemma history_bucket lats b k :
  Z.of_nat (length lats) < 2 ^ 64 →
  buckets_ (recorded_all lats LatencyTracker_new) !! b = Some k → bucket_holds lats b k.
Proof.
  intros Hlen Hk.
  assert (buckets_ LatencyTracker_new !! b = Some LatencyBucket_new) as Hb.
  { apply lookup_replicate_2. apply lookup_lt_Some in Hk.
    by rewrite recorded_all_wf in Hk by apply tracker_new_wf. }
  assert (∀ c v, load_cell c LatencyTracker_new = Some v →
            load_cell c (recorded_all lats LatencyTracker_new) = Some (gather c v (ended lats))) as H.
  { intros c v. apply recorded_all_load. }
  pose proof (H (C_count b) 0) as H1. pose proof (H (C_min b) UINT64_MAX) as H3.
  pose proof (H (C_max b) 0) as H4. unfold load_cell in H1, H3, H4. rewrite Hb, Hk in H1, H3, H4.
  simpl fmap in H1, H3, H4.
  specialize (H1 eq_refl). specialize (H3 eq_refl). specialize (H4 eq_refl).
  injection H1 as H1. injection H3 as H3. injection H4 as H4. rewrite gather_count in H1 by done.
  destruct (gather_min b UINT64_MAX lats) as [Hm1 Hm2].
  destruct (gather_max b 0 lats) as [Hx1 Hx2]. rewrite <- H3 in *. rewrite <- H4 in *.
  by constructor.
Qed.

(** * The readers *)

Lemma history_lookup lats l :
  ∃ k, buckets_ (recorded_all lats LatencyTracker_new) !! bucket_of l = Some k.
Proof.
  apply lookup_lt_is_Some. rewrite recorded_all_wf by apply tracker_new_wf. apply bucket_of_lt.
Qed.

Lemma fold_min_spec bs acc :
  let m := foldl (λ m b, if 0 <? bkt_count_ b then Z.min m (bkt_min_ b) else m) acc bs in
  m ≤ acc ∧ (∀ k, k ∈ bs → 0 < bkt_count_ k → m ≤ bkt_min_ k) ∧
  (m = acc ∨ ∃ k, k ∈ bs ∧ m = bkt_min_ k).
Proof.
  revert acc. induction bs as [|b bs IH]; intros acc; simpl.
  { split_and!; [lia|by intros k ?%not_elem_of_nil|auto]. }
  destruct (IH (if 0 <? bkt_count_ b then Z.min acc (bkt_min_ b) else acc)) as (H1 & H2 & H3).
  cbv zeta in *. set (m := foldl _ _ _) in *. split_and!.
  - destruct (_ <? _); lia.
  - intros k [->|Hk]%elem_of_cons Hc; [|by apply H2].
    apply Z.ltb_lt in Hc. rewrite Hc in H1. lia.
  - destruct H3 as [H3|(k & ? & ?)]; [|right; exists k; split; [by right|done]].
    destruct (_ <? _); [|by left]. destruct (Z.min_spec acc (bkt_min_ b)) as [[_ E]|[_ E]];
      rewrite E in H3; [by left|right; exists b; split; [by left|done]].
Qed.
Lemma fold_max_spec bs acc :
  let m := foldl (λ m b, if 0 <? bkt_count_ b then Z.max m (bkt_max_ b) else m) acc bs in
  acc ≤ m ∧ (∀ k, k ∈ bs → 0 < bkt_count_ k → bkt_max_ k ≤ m) ∧
  (m = acc ∨ ∃ k, k ∈ bs ∧ m = bkt_max_ k).
Proof.
  revert acc. induction bs as [|b bs IH]; intros acc; simpl.
  { split_and!; [lia|by intros k ?%not_elem_of_nil|auto]. }
  destruct (IH (if 0 <? bkt_count_ b then Z.max acc (bkt_max_ b) else acc)) as (H1 & H2 & H3).
  cbv zeta in *. set (m := foldl _ _ _) in *. split_and!.
  - destruct (_ <? _); lia.
  - intros k [->|Hk]%elem_of_cons Hc; [|by apply H2].
    apply Z.ltb_lt in Hc. rewrite Hc in H1. lia.
  - destruct H3 as [H3|(k & ? & ?)]; [|right; exists k; split; [by right|done]].
    destruct (_ <? _); [|by left]. destruct (Z.max_spec acc (bkt_max_ b)) as [[_ E]|[_ E]];
      rewrite E in H3; [right; exists b; split; [by left|done]|by left].
Qed.

Lemma least_spec lats v :
  (∀ l, l ∈ lats → foldr Z.min v lats ≤ l) ∧ foldr Z.min v lats ≤ v ∧
  (foldr Z.min v lats = v ∨ foldr Z.min v lats ∈ lats).
Proof.
  induction lats as [|l lats (H1 & H2 & H3)]; simpl.
  { split_and!; [by intros l ?%not_elem_of_nil|lia|auto]. }
  split_and!; [intros x [->|Hx]%elem_of_cons; [|specialize (H1 x Hx)]; lia|lia|].
  destruct (Z.min_spec l (foldr Z.min v lats)) as [[_ ->]|[_ ->]]; [right; by left|].
  destruct H3; [auto|right; by right].
Qed.
Lemma greatest_spec lats v :
  (∀ l, l ∈ lats → l ≤ foldr Z.max v lats) ∧ v ≤ foldr Z.max v lats ∧
  (foldr Z.max v lats = v ∨ foldr Z.max v lats ∈ lats).
Proof.
  induction lats as [|l lats (H1 & H2 & H3)]; simpl.
  { split_and!; [by intros l ?%not_elem_of_nil|lia|auto]. }
  split_and!; [intros x [->|Hx]%elem_of_cons; [|specialize (H1 x Hx)]; lia|lia|].
  destruct (Z.max_spec l (foldr Z.max v lats)) as [[_ ->]|[_ ->]]; [|right; by left].
  destruct H3; [auto|right; by right].
Qed.

Section history.
Context (lats : list Z) (t : LatencyTracker).
Context (Hlats : Forall (λ l, 0 ≤ l ≤ UINT64_MAX) lats).
Context (Hlen : Z.of_nat (length lats) < 2 ^ 64).
Context (Ht : t = recorded_all lats LatencyTracker_new).

Lemma history_found l : l ∈ lats →
  ∃ k, k ∈ buckets_ t ∧ 0 < bkt_count_ k ∧ bkt_min_ k ≤ l ≤ bkt_max_ k.
Proof.
  intros Hl. destruct (history_lookup lats l) as [k Hk].
  destruct (history_bucket _ _ _ Hlen Hk) as [H1 H2 _ H3 _]. exists k. split_and!; auto.
  - rewrite Ht. by eapply list_elem_of_lookup_2.
  - rewrite H1. apply (count_pos _ l); [done|]. by apply bool_decide_eq_true.
Qed.
Lemma history_source k : k ∈ buckets_ t →
  (bkt_min_ k = UINT64_MAX ∨ bkt_min_ k ∈ lats) ∧ (bkt_max_ k = 0 ∨ bkt_max_ k ∈ lats).
Proof.
  rewrite Ht. intros [b Hb]%list_elem_of_lookup_1.
  by destruct (history_bucket _ _ _ Hlen Hb).
Qed.

Lemma history_ops : total_operations_ t = Z.of_nat (length lats).
Proof.
  pose proof (recorded_all_load C_ops lats LatencyTracker_new 0 eq_refl) as H.
  rewrite <- Ht in H. injection H as ->. by apply gather_ops.
Qed.
Lemma history_total : zsum id lats < 2 ^ 64 → total_latency_ t = zsum id lats.
Proof.
  intros Hs. pose proof (recorded_all_load C_total lats LatencyTracker_new 0 eq_refl) as H.
  rewrite <- Ht in H. injection H as ->. apply gather_total; [|done].
  eapply Forall_impl; [exact Hlats|]. simpl. lia.
Qed.
Lemma history_average :
  zsum id lats < 2 ^ 64 → get_average_latency t = zsum id lats `div` Z.of_nat (length lats).
Proof.
  intros Hs. unfold get_average_latency. rewrite history_ops, history_total by done.
  destruct (Z.ltb_spec 0 (Z.of_nat (length lats))); [done|].
  destruct lats; [done|simpl in *; lia].
Qed.
Lemma history_min :
  get_min_latency t =
    let m := foldr Z.min UINT64_MAX lats in if m =? UINT64_MAX then 0 else m.
Proof.
  unfold get_min_latency. destruct (fold_min_spec (buckets_ t) UINT64_MAX) as (H1 & H2 & H3).
  destruct (least_spec lats UINT64_MAX) as (L1 & L2 & L3). cbv zeta in *.
  replace (foldl _ UINT64_MAX (buckets_ t)) with (foldr Z.min UINT64_MAX lats); [done|].
  apply Z.le_antisymm.
  - destruct H3 as [->|(k & Hk & ->)]; [done|].
    destruct (history_source k Hk) as [[->|Hin] _]; auto.
  - destruct L3 as [->|Hin]; [done|]. destruct (history_found _ Hin) as (k & Hk & Hc & Hle).
    specialize (H2 k Hk Hc). lia.
Qed.
Lemma history_max : get_max_latency t = foldr Z.max 0 lats.
Proof.
  unfold get_max_latency. destruct (fold_max_spec (buckets_ t) 0) as (H1 & H2 & H3).
  destruct (greatest_spec lats 0) as (L1 & L2 & L3). cbv zeta in *. apply Z.le_antisymm.
  - destruct H3 as [->|(k & Hk & ->)]; [done|].
    destruct (history_source k Hk) as [_ [->|Hin]]; auto.
  - destruct L3 as [->|Hin]; [done|]. destruct (history_found _ Hin) as (k & Hk & Hc & Hle).
    specialize (H2 k Hk Hc). lia.
Qed.

(** The number of latencies below bucket [b]. *)
Definition below (b : nat) : Z := count (λ l, bool_decide (bucket_of l < b)%nat) lats.
Lemma below_S b : below (S b) = below b + count (in_bucket b) lats.
Proof.
  apply count_split. intros l. unfold in_bucket. repeat case_bool_decide; lia.
Qed.
Lemma below_mono b b' : (b ≤ b')%nat → below b ≤ below b'.
Proof.
  intros H. apply count_le. intros l Hl%bool_decide_eq_true. apply bool_decide_eq_true. lia.
Qed.

Lemma percentile_scan_finds target b i bs :
  drop i (buckets_ t) = bs → (i ≤ b)%nat → (b < i + length bs)%nat →
  below b < target ≤ below (S b) → (i + length bs ≤ 1000)%nat →
  percentile_scan target (below i) (Z.of_nat i) bs = 1000 * Z.of_nat b.
Proof.
  revert i. induction bs as [|k bs IH]; intros i Hbs Hib Hb Ht' Hi; simpl in *; [lia|].
  assert (buckets_ t !! i = Some k) as Hk.
  { rewrite <- (Nat.add_0_r i), <- lookup_drop, Hbs. done. }
  rewrite Ht in Hk. apply history_bucket in Hk as [Hk _ _ _ _]; [|done].
  rewrite Hk, <- below_S.
  pose proof (count_bounds (λ l, bool_decide (bucket_of l < S i)%nat) lats) as Hc.
  change (count _ lats) with (below (S i)) in Hc. rewrite u64_id by lia.
  destruct (Z.leb_spec target (below (S i))).
  - assert (b = i) as ->.
    { destruct (decide (b = i)); [done|]. pose proof (below_mono (S i) b). lia. }
    rewrite u64_id; lia.
  - assert (b ≠ i) by (intros ->; lia).
    replace (Z.of_nat i + 1) with (Z.of_nat (S i)) by lia. apply IH; try lia.
    rewrite <- Nat.add_1_r, <- drop_drop, Hbs. done.
Qed.

Lemma history_percentile p target x :
  target_of (Z.of_nat (length lats)) p = Ok target →
  count (λ l, l <? x) lats < target ≤ count (λ l, l <=? x) lats →
  get_percentile_latency p t = Ok (1000 * Z.of_nat (bucket_of x)).
Proof.
  intros Hp Hx. unfold get_percentile_latency. rewrite history_ops.
  pose proof (count_bounds (λ l, l <? x) lats). pose proof (count_bounds (λ l, l <=? x) lats).
  destruct (Z.eqb_spec (Z.of_nat (length lats)) 0); [lia|]. rewrite Hp. simpl. f_equal.
  pose proof (bucket_of_lt x) as Hb.
  assert (length (buckets_ t) = 1000%nat) as Hbs.
  { rewrite Ht. by rewrite recorded_all_wf by apply tracker_new_wf. }
  replace 0 with (below 0) at 1.
  2: { unfold below. clear. induction lats as [|l ls IH]; [done|]. by rewrite count_cons. }
  apply (percentile_scan_finds _ _ 0); rewrite ?Hbs; try done; try lia.
  split.
  - eapply Z.le_lt_trans; [apply count_le|apply Hx]. intros l Hl%bool_decide_eq_true.
    apply Z.ltb_lt. destruct (Z.lt_ge_cases l x); [done|]. apply bucket_of_mono in H1. lia.
  - eapply Z.le_trans; [apply Hx|apply count_le]. intros l Hl%Z.leb_le.
    apply bool_decide_eq_true. apply bucket_of_mono in Hl. lia.
Qed.
End history.

Lemma reset_new t : tracker_wf t → reset t = LatencyTracker_new.
Proof.
  unfold tracker_wf, reset, LatencyTracker_new. intros <-. f_equal.
  induction (buckets_ t) as [|k bs IH]; [done|]. csimpl. by rewrite IH.
Qed.

(** * Properties *)

(** C32: however the accesses of any number of concurrent [record_latency] calls interleave, and
    whatever compare-and-swaps fail spuriously, once the calls have all ended the tracker is what it
    would be had each call happened in one piece, in the order of the list (and so in any order):
    every count, sum, minimum and maximum. *)
Theorem concurrent_records weak lats t0 t ths :
  length (buckets_ t0) = Z.to_nat NUM_BUCKETS →
  rtc (tracker_step weak) (t0, calls lats) (t, ths) →
  all_ended ths →
  t = recorded_all lats t0.
Proof. apply interleaving_records. Qed.

(** C33: [record_latency] is lock-free and ends.  [k] concurrent calls take at most [8 k (k + 1)]
    accesses together when no compare-and-swap fails without a cause, whatever the schedule, none of
    them faults, and as long as one has not ended there is an access to do. *)
Theorem recorders_terminate lats t0 n s :
  length (buckets_ t0) = Z.to_nat NUM_BUCKETS →
  nsteps (tracker_step false) n (t0, calls lats) s →
  (n ≤ max_steps (length lats))%nat ∧ (all_ended s.2 ∨ ∃ s', tracker_step false s s').
Proof.
  intros Hwf Hn. split.
  - assert (n + work s ≤ work (t0, calls lats))%nat as H; [|rewrite work_calls in H; lia].
    pose proof (recorders_inv_start lats t0 Hwf) as Hinv. revert Hinv.
    induction Hn as [s0|n s0 s1 s2 Hs _ IH]; intros Hinv; [lia|].
    pose proof (tracker_step_works _ _ (inv_tracker _ _ _ Hinv) Hs).
    specialize (IH (tracker_step_inv _ _ _ _ _ Hinv Hs)). lia.
  - apply rtc_nsteps_2 in Hn. apply recorders_inv_reachable in Hn as [Hwf' _ _ _]; [|done].
    destruct s as [t ths]. simpl in *.
    destruct (decide (Forall (λ th, th.2 = At_end) ths)) as [|Hne]; [by left|right].
    apply not_Forall_Exists in Hne; [|apply _].
    apply Exists_exists in Hne as ([l pc] & [i Hi]%list_elem_of_lookup_1 & Hpc).
    destruct (rec_step_total false l pc t Hwf') as (pc' & t' & Hs).
    by eexists; eapply (recorder_step _ i l pc pc' false).
Qed.

(** The statistics are right.  When the latencies [lats] have been recorded on a new tracker,
    concurrently or not, the readers report their number, their average (rounded down, as long as
    their sum fits), the smallest and the largest; the smallest is 0 for an empty history and for one
    of which every element is [UINT64_MAX]. *)
Theorem stats_of_records weak lats t ths :
  Forall (λ l, 0 ≤ l ≤ UINT64_MAX) lats →
  Z.of_nat (length lats) < 2 ^ 64 →
  rtc (tracker_step weak) (LatencyTracker_new, calls lats) (t, ths) →
  all_ended ths →
  get_total_operations t = Z.of_nat (length lats) ∧
  (zsum id lats < 2 ^ 64 → get_average_latency t = zsum id lats `div` Z.of_nat (length lats)) ∧
  get_min_latency t =
    (let m := foldr Z.min UINT64_MAX lats in if m =? UINT64_MAX then 0 else m) ∧
  get_max_latency t = foldr Z.max 0 lats.
Proof.
  intros Hlats Hlen Hsteps Hend. apply interleaving_records in Hsteps; [|apply tracker_new_wf|done].
  split_and!; [by apply history_ops|by apply history_average|by apply history_min|
    by apply history_max].
Qed.

(** The percentile is the lower end of a bucket.  When [target_op] is the rank computed from
    the percentile and [x] is the latency of that rank (fewer than [target_op] recorded latencies are
    below [x], at least that many are not above it), the reader returns the thousand in which [x]
    lies: at most [x], and less than 1000 below it unless [x] is in the last, unbounded bucket. *)
Theorem percentile_of_records weak lats t ths p target_op x :
  Z.of_nat (length lats) < 2 ^ 64 →
  rtc (tracker_step weak) (LatencyTracker_new, calls lats) (t, ths) →
  all_ended ths →
  target_of (Z.of_nat (length lats)) p = Ok target_op →
  0 ≤ x →
  count (λ l, l <? x) lats < target_op ≤ count (λ l, l <=? x) lats →
  ∃ r, get_percentile_latency p t = Ok r ∧ r ≤ x ∧ (x < 1000000 → x < r + 1000).
Proof.
  intros Hlen Hsteps Hend Hp Hx Hr.
  apply interleaving_records in Hsteps; [|apply tracker_new_wf|done].
  exists (1000 * Z.of_nat (bucket_of x)). split; [by eapply history_percentile|].
  unfold bucket_of, NUM_BUCKETS. pose proof (Z.div_mod x 1000). pose proof (Z.mod_pos_bound x 1000).
  lia.
Qed.

(** ** Examples *)

(** Runs the calls in the order of a schedule, without spurious failures. *)
Fixpoint run_schedule (sched : list nat) (s : recorders) : option recorders :=
  match sched with
  | [] => Some s
  | i :: sched =>
      '(l, pc) ← s.2 !! i;
      if decide (pc = At_end) then None
      else match rec_step false l pc s.1 with
           | Ok (pc', t') => run_schedule sched (t', <[i := (l, pc')]> s.2)
           | Err _ => None
           end
  end.
Lemma run_schedule_steps weak sched s s' :
  run_schedule sched s = Some s' → nsteps (tracker_step weak) (length sched) s s'.
Proof.
  revert s. induction sched as [|i sched IH]; intros [t ths]; simpl.
  { intros [= ->]. constructor. }
  destruct (ths !! i) as [[l pc]|] eqn:Hi; simpl; [|done]. case_decide; [done|].
  destruct (rec_step false l pc t) as [[pc' t']|] eqn:Hs; [|done]. intros Hr.
  econstructor; [|by apply IH]. by apply (recorder_step weak i l pc pc' false).
Qed.

(** Two calls in the same bucket that have both read the minimum: the larger latency gets in first,
    so the other call's compare-and-swap fails once and is retried. *)
Definition race : list Z := [1500; 1700].
Definition race_schedule : list nat := [0; 1; 0; 1; 0; 1; 1; 0; 0; 0; 0; 0; 1; 1; 0; 1; 1]%nat.
Definition race_end : recorders :=
  default (LatencyTracker_new, []) (run_schedule race_schedule (LatencyTracker_new, calls race)).
Lemma race_steps :
  nsteps (tracker_step false) (length race_schedule) (LatencyTracker_new, calls race) race_end.
Proof. apply run_schedule_steps. vm_compute. reflexivity. Qed.
Lemma race_ended : all_ended race_end.2.
Proof. vm_compute. repeat constructor. Qed.
Lemma race_run weak : rtc (tracker_step weak) (LatencyTracker_new, calls race) (race_end.1, race_end.2).
Proof.
  apply rtc_nsteps_2 with (length race_schedule). rewrite <- surjective_pairing.
  apply run_schedule_steps. vm_compute. reflexivity.
Qed.

Lemma concurrent_records_witness :
  ∃ t ths, rtc (tracker_step true) (LatencyTracker_new, calls race) (t, ths) ∧ all_ended ths ∧
    t = recorded_all race LatencyTracker_new.
Proof.
  exists race_end.1, race_end.2. split_and!; [apply race_run|apply race_ended|].
  apply (concurrent_records true race LatencyTracker_new race_end.1 race_end.2);
    [apply length_replicate|apply race_run|apply race_ended].
Defined.

Lemma recorders_terminate_witness :
  nsteps (tracker_step false) 17 (LatencyTracker_new, calls race) race_end ∧
  (17 ≤ max_steps (length race))%nat.
Proof.
  split; [exact race_steps|].
  apply (recorders_terminate race LatencyTracker_new 17 race_end);
    [apply length_replicate|exact race_steps].
Defined.

Lemma stats_of_records_witness :
  get_total_operations race_end.1 = 2 ∧ get_average_latency race_end.1 = 1600 ∧
  get_min_latency race_end.1 = 1500 ∧ get_max_latency race_end.1 = 1700.
Proof.
  destruct (stats_of_records true race race_end.1 race_end.2) as (H1 & H2 & H3 & H4);
    [by repeat constructor|done|apply race_run|apply race_ended|].
  split_and!; [exact H1|by apply H2|exact H3|exact H4].
Defined.

(** The 99th percentile of the two: [target_op] is 1, so the smaller latency counts. *)
Lemma percentile_of_records_witness :
  target_of 2 d99 = Ok 1 ∧ ∃ r, get_percentile_latency d99 race_end.1 = Ok r ∧ r ≤ 1500.
Proof.
  assert (target_of 2 d99 = Ok 1) as H by (vm_compute; reflexivity).
  split; [exact H|].
  destruct (percentile_of_records true race race_end.1 race_end.2 d99 1 1500) as (r & Hr & Hle & _);
    [done|apply race_run|apply race_ended|exact H|lia|by vm_compute|by exists r].
Defined.

(** The text of [get_stats_string] after the two calls. *)
Example race_stats :
  get_stats_string race_end.1 =
    Ok "LatencyStats{ops:2, avg:1600ns, min:1500ns, max:1700ns, p99:1000ns, p99.9:1000ns}"%string.
Proof. vm_compute. reflexivity. Qed.
