(* ===== verification/PerformanceDashboard.v ===== *)
(** Common/performance_dashboard.h: the metrics read from the latency tracker.

    One visit of the reporter thread is [dashboard_round]; the clock and the tracker it reads are
    arguments, the lines it writes to the standard output are its result.  [log_counter] is the
    function-local static of [publish_metrics]. *)
From S2P Require Export LatencyTracker.

Record PerformanceMetrics : Type := MkPerformanceMetrics {
  orders_per_second_ : Z;
  trades_per_second_ : Z;
  avg_latency_ns_ : Z;
  p99_latency_ns_ : Z;
  p99_9_latency_ns_ : Z;
  memory_usage_bytes_ : Z;
  cpu_usage_percent_ : Z;
}.

Record PerformanceDashboard : Type := MkPerformanceDashboard {
  metrics_ : PerformanceMetrics;
  last_orders_count_ : Z;
  last_trades_count_ : Z;
  last_report_time_ : Z;
  log_counter : Z;
}.
Definition PerformanceDashboard_new : PerformanceDashboard :=
  MkPerformanceDashboard (MkPerformanceMetrics 0 0 0 0 0 0 0) 0 0 0 0.

Definition set_metrics (f : PerformanceMetrics → PerformanceMetrics) (d : PerformanceDashboard) :
    PerformanceDashboard :=
  MkPerformanceDashboard (f (metrics_ d)) (last_orders_count_ d) (last_trades_count_ d)
    (last_report_time_ d) (log_counter d).
Definition set_latencies (avg p99 p99_9 : Z) (m : PerformanceMetrics) : PerformanceMetrics :=
  MkPerformanceMetrics (orders_per_second_ m) (trades_per_second_ m) avg p99 p99_9
    (memory_usage_bytes_ m) (cpu_usage_percent_ m).
Definition set_orders_per_second (v : Z) (m : PerformanceMetrics) : PerformanceMetrics :=
  MkPerformanceMetrics v (trades_per_second_ m) (avg_latency_ns_ m) (p99_latency_ns_ m)
    (p99_9_latency_ns_ m) (memory_usage_bytes_ m) (cpu_usage_percent_ m).
Definition set_placeholders (m : PerformanceMetrics) : PerformanceMetrics :=
  MkPerformanceMetrics (orders_per_second_ m) (trades_per_second_ m) (avg_latency_ns_ m)
    (p99_latency_ns_ m) (p99_9_latency_ns_ m) (1024 * 1024 * 512) 75.
Definition set_last_orders_count (v : Z) (d : PerformanceDashboard) : PerformanceDashboard :=
  MkPerformanceDashboard (metrics_ d) v (last_trades_count_ d) (last_report_time_ d) (log_counter d).
Definition set_last_report_time (v : Z) (d : PerformanceDashboard) : PerformanceDashboard :=
  MkPerformanceDashboard (metrics_ d) (last_orders_count_ d) (last_trades_count_ d) v (log_counter d).
Definition set_log_counter (v : Z) (d : PerformanceDashboard) : PerformanceDashboard :=
  MkPerformanceDashboard (metrics_ d) (last_orders_count_ d) (last_trades_count_ d)
    (last_report_time_ d) v.

Definition update_metrics (tracker : LatencyTracker) (current_time : Z) :
    M PerformanceDashboard unit :=
  p99 ← of_res (get_percentile_latency d99 tracker);
  p99_9 ← of_res (get_percentile_latency d99_9 tracker);
  _ ← modify (set_metrics (set_latencies (get_average_latency tracker) p99 p99_9));
  last_report_time ← gets last_report_time_;
  if last_report_time =? 0 then modify (set_last_report_time current_time)
  else
    let time_diff_ns := u64 (current_time - last_report_time) in
    _ ← (if 1000000000 <? time_diff_ns then
           let current_orders := get_total_operations tracker in
           last_orders_count ← gets last_orders_count_;
           let orders_diff := u64 (current_orders - last_orders_count) in
           let orders_per_sec := u64 (orders_diff * 1000000000) `div` time_diff_ns in
           _ ← modify (set_metrics (set_orders_per_second orders_per_sec));
           _ ← modify (set_last_orders_count current_orders);
           modify (set_last_report_time current_time)
         else mret tt);
    modify (set_metrics set_placeholders).

(** The getters: loads of the metrics. *)
Definition get_orders_per_second (d : PerformanceDashboard) : Z := orders_per_second_ (metrics_ d).
Definition get_avg_latency_ns (d : PerformanceDashboard) : Z := avg_latency_ns_ (metrics_ d).
Definition get_p99_latency_ns (d : PerformanceDashboard) : Z := p99_latency_ns_ (metrics_ d).
Definition get_performance_summary (tracker : LatencyTracker) (d : PerformanceDashboard) :
    res string :=
  res_bind (get_stats_string tracker) (λ stats,
  Ok ("=== NANOSECOND HFT PERFORMANCE DASHBOARD ===" +:+ newline +:+
      "Orders/sec: " +:+ pretty (get_orders_per_second d) +:+ newline +:+
      "Avg Latency: " +:+ pretty (get_avg_latency_ns d) +:+ " ns" +:+ newline +:+
      "P99 Latency: " +:+ pretty (get_p99_latency_ns d) +:+ " ns" +:+ newline +:+
      "Latency Stats: " +:+ stats +:+ newline +:+
      "===============================================" +:+ newline)%string).

(** Returns what it prints. *)
Definition publish_metrics (tracker : LatencyTracker) : M PerformanceDashboard (option string) :=
  counter ← gets log_counter;
  let counter := u64 (counter + 1) in
  _ ← modify (set_log_counter counter);
  if counter mod 100 =? 0 then
    d ← gets id;
    summary ← of_res (get_performance_summary tracker d);
    mret (Some (summary +:+ newline))
  else mret None.

Definition dashboard_round (tracker : LatencyTracker) (current_time : Z) :
    M PerformanceDashboard (option string) :=
  _ ← update_metrics tracker current_time;
  publish_metrics tracker.

(** The rounds of the thread: each sees the tracker and the clock of its moment. *)
Fixpoint dashboard_rounds (visits : list (LatencyTracker * Z)) :
    M PerformanceDashboard (list (option string)) :=
  match visits with
  | [] => mret []
  | (tracker, now) :: visits =>
      out ← dashboard_round tracker now;
      outs ← dashboard_rounds visits;
      mret (out :: outs)
  end.

(** * What it reports *)

(** A window longer than a second closes with the rate of the operations recorded in it, rounded
    down, and the next window starts where it ended. *)
Lemma update_metrics_rate tracker now p99 p99_9 d :
  get_percentile_latency d99 tracker = Ok p99 →
  get_percentile_latency d99_9 tracker = Ok p99_9 →
  let dt := now - last_report_time_ d in
  let ops := total_operations_ tracker - last_orders_count_ d in
  last_report_time_ d ≠ 0 → 1000000000 < dt < 2 ^ 64 → 0 ≤ ops < 2 ^ 64 `div` 1000000000 →
  wp (update_metrics tracker now) d (λ _ d',
    last_report_time_ d' = now ∧ last_orders_count_ d' = total_operations_ tracker ∧
    let r := orders_per_second_ (metrics_ d') in
    r * dt ≤ ops * 1000000000 < (r + 1) * dt).
Proof.
  intros H1 H2 dt ops Ht Hdt Hops. unfold update_metrics. rewrite H1, H2.
  change (2 ^ 64 `div` 1000000000) with 18446744073 in Hops.
  repeat (apply wp_bind; first [apply wp_gets | apply wp_modify | apply wp_ret]; simpl).
  unfold wp. simpl. rewrite (proj2 (Z.eqb_neq _ _)) by done. fold dt.
  rewrite (u64_id dt) by lia. rewrite (proj2 (Z.ltb_lt _ _)) by lia. simpl.
  unfold get_total_operations. fold ops. rewrite (u64_id ops), u64_id by lia.
  split_and!; [done|done|..].
  - pose proof (Z.mul_div_le (ops * 1000000000) dt). lia.
  - pose proof (Z.mul_succ_div_gt (ops * 1000000000) dt). lia.
Qed.

Lemma log_counter_update tracker now : keeps log_counter (update_metrics tracker now).
Proof.
  unfold update_metrics. keeps_tac.
Qed.

Lemma dashboard_round_prints tracker now d :
  0 ≤ log_counter d < 2 ^ 64 - 1 →
  wlp (dashboard_round tracker now) d (λ out d',
    log_counter d' = log_counter d + 1 ∧ (is_Some out ↔ (log_counter d + 1) mod 100 = 0)).
Proof.
  intros Hc. unfold dashboard_round, publish_metrics. apply wlp_bind.
  intros [] d0 E0. apply (log_counter_update tracker now) in E0. rewrite <- E0 in *.
  apply wlp_bind, wlp_gets, wlp_bind, wlp_modify. rewrite u64_id by lia.
  destruct (Z.eqb_spec ((log_counter d0 + 1) mod 100) 0).
  - apply wlp_bind, wlp_gets, wlp_bind, wlp_of_res. intros s _. apply wlp_ret. simpl. naive_solver.
  - apply wlp_ret. simpl. split; [done|]. split; [by intros []|done].
Qed.

(** A summary is printed in every hundredth round. *)
Lemma dashboard_prints visits d outs d' :
  dashboard_rounds visits d = Ok (outs, d') →
  0 ≤ log_counter d → log_counter d + Z.of_nat (length visits) < 2 ^ 64 →
  ∀ i out, outs !! i = Some out →
    is_Some out ↔ (log_counter d + Z.of_nat i + 1) mod 100 = 0.
Proof.
  revert d outs. induction visits as [|[tracker now] visits IH]; intros d outs Hr Hc Hlt i out Hi.
  { injection Hr as <- <-. done. }
  cbn [dashboard_rounds] in Hr. simpl length in Hlt.
  destruct (dashboard_round tracker now d) as [[o d1]|] eqn:E1; [|by rewrite (bind_Err _ _ _ _ E1) in Hr].
  rewrite (bind_Ok _ _ _ _ _ E1) in Hr.
  destruct (dashboard_rounds visits d1) as [[os d2]|] eqn:E2; [|by rewrite (bind_Err _ _ _ _ E2) in Hr].
  rewrite (bind_Ok _ _ _ _ _ E2) in Hr. injection Hr as <- <-.
  destruct (dashboard_round_prints tracker now d ltac:(lia) _ _ E1) as [Hd1 Ho].
  destruct i as [|i]; simpl in Hi.
  - simplify_eq. rewrite Z.add_0_r. exact Ho.
  - rewrite (IH _ _ E2) by (done || lia). rewrite Hd1. do 2 f_equiv. lia.
Qed.
