(* ===== verification/TradingTypes.v ===== *)
(** The data the components of the trading client share: the configuration (Common/types.h), the top
    of the book (trading/strategy/market_order.h) and the orders of a strategy (om_order.h). *)
From S2P Require Export Types Messages Ostream.

(** ** Configuration *)
Record RiskCfg : Type := MkRiskCfg {
  max_order_size_ : Z;
  max_position_ : Z;
  max_loss_ : double;
}.
Record TradeEngineCfg : Type := MkTradeEngineCfg {
  clip_ : Z;
  threshold_ : double;
  risk_cfg_ : RiskCfg;
}.
Definition RiskCfg_toString (c : RiskCfg) : string :=
  ("RiskCfg{max-order-size:" +:+ qtyToString (max_order_size_ c) +:+ " max-position:" +:+
   qtyToString (max_position_ c) +:+ " max-loss:" +:+ print_double (max_loss_ c) +:+ "}")%string.
Definition TradeEngineCfg_toString (c : TradeEngineCfg) : string :=
  ("TradeEngineCfg{clip:" +:+ qtyToString (clip_ c) +:+ " thresh:" +:+ print_double (threshold_ c) +:+
   " risk:" +:+ RiskCfg_toString (risk_cfg_ c) +:+ "}")%string.
Example TradeEngineCfg_printed :
  TradeEngineCfg_toString
    (MkTradeEngineCfg 10 dhalf (MkRiskCfg 100 Qty_INVALID (double_of (-1500000)))) =
  "TradeEngineCfg{clip:10 thresh:0.5 risk:RiskCfg{max-order-size:100 max-position:INVALID max-loss:-1.5e+06}}"%string.
Proof. vm_compute. reflexivity. Qed.

(** ** Top of the book *)
Record BBO : Type := MkBBO {
  bid_price_ : Z;
  ask_price_ : Z;
  bid_qty_ : Z;
  ask_qty_ : Z;
}.
Definition BBO_default : BBO := MkBBO Price_INVALID Price_INVALID Qty_INVALID Qty_INVALID.
Definition BBO_toString (b : BBO) : string :=
  "BBO{" +:+ qtyToString (bid_qty_ b) +:+ "@" +:+ priceToString (bid_price_ b) +:+ "X" +:+
  priceToString (ask_price_ b) +:+ "@" +:+ qtyToString (ask_qty_ b) +:+ "}".
(** [bbo->bid_price_ != Price_INVALID && bbo->ask_price_ != Price_INVALID]. *)
Definition two_sided (b : BBO) : bool :=
  negb (bid_price_ b =? Price_INVALID) && negb (ask_price_ b =? Price_INVALID).

(** ** Orders of a strategy *)
Inductive OMOrderState : Type :=
  | OMOrderState_INVALID
  | OMOrderState_PENDING_NEW
  | OMOrderState_LIVE
  | OMOrderState_PENDING_CANCEL
  | OMOrderState_DEAD.
#[export] Instance OMOrderState_eq_dec : EqDecision OMOrderState.
Proof. solve_decision. Defined.
Definition OMOrderStateToString (side : OMOrderState) : string :=
  match side with
  | OMOrderState_PENDING_NEW => "PENDING_NEW"
  | OMOrderState_LIVE => "LIVE"
  | OMOrderState_PENDING_CANCEL => "PENDING_CANCEL"
  | OMOrderState_DEAD => "DEAD"
  | OMOrderState_INVALID => "INVALID"
  end.

Record OMOrder : Type := MkOMOrder {
  om_ticker_id_ : Z;
  om_order_id_ : Z;
  om_side_ : Side;
  om_price_ : Z;
  om_qty_ : Z;
  om_order_state_ : OMOrderState;
}.
Definition OMOrder_default : OMOrder :=
  MkOMOrder TickerId_INVALID OrderId_INVALID Side_INVALID Price_INVALID Qty_INVALID
    OMOrderState_INVALID.
Definition OMOrder_toString (o : OMOrder) : string :=
  "OMOrder[tid:" +:+ tickerIdToString (om_ticker_id_ o) +:+ " oid:" +:+
  orderIdToString (om_order_id_ o) +:+ " side:" +:+ sideToString (om_side_ o) +:+ " price:" +:+
  priceToString (om_price_ o) +:+ " qty:" +:+ qtyToString (om_qty_ o) +:+ " state:" +:+
  OMOrderStateToString (om_order_state_ o) +:+ "]".
Definition set_om_qty (q : Z) (o : OMOrder) : OMOrder :=
  MkOMOrder (om_ticker_id_ o) (om_order_id_ o) (om_side_ o) (om_price_ o) q (om_order_state_ o).
Definition set_om_state (st : OMOrderState) (o : OMOrder) : OMOrder :=
  MkOMOrder (om_ticker_id_ o) (om_order_id_ o) (om_side_ o) (om_price_ o) (om_qty_ o) st.
