(* ===== verification/PositionKeeper.v ===== *)
(** trading/strategy/position_keeper.h: position, profit and volume per instrument.

    [open_vwap_] has one element per side index; the class leaves it uninitialised, so its
    first contents are an argument of the constructor.  The pointer [bbo_] is only read by
    [toString], which takes what it points to as an argument. *)
From S2P Require Export TradingTypes.

Record PositionInfo : Type := MkPositionInfo {
  position_ : Z;
  real_pnl_ : double;
  unreal_pnl_ : double;
  total_pnl_ : double;
  open_vwap_ : list double;
  volume_ : Z;
}.
Definition PositionInfo_new (vwap_mem : list double) : PositionInfo :=
  MkPositionInfo 0 dzero dzero dzero vwap_mem 0.

Section setters.
Implicit Types p : PositionInfo.
Definition set_position (v : Z) p : PositionInfo :=
  MkPositionInfo v (real_pnl_ p) (unreal_pnl_ p) (total_pnl_ p) (open_vwap_ p) (volume_ p).
Definition set_real_pnl (v : double) p : PositionInfo :=
  MkPositionInfo (position_ p) v (unreal_pnl_ p) (total_pnl_ p) (open_vwap_ p) (volume_ p).
Definition set_unreal_pnl (v : double) p : PositionInfo :=
  MkPositionInfo (position_ p) (real_pnl_ p) v (total_pnl_ p) (open_vwap_ p) (volume_ p).
Definition set_total_pnl (v : double) p : PositionInfo :=
  MkPositionInfo (position_ p) (real_pnl_ p) (unreal_pnl_ p) v (open_vwap_ p) (volume_ p).
Definition set_open_vwap (v : list double) p : PositionInfo :=
  MkPositionInfo (position_ p) (real_pnl_ p) (unreal_pnl_ p) (total_pnl_ p) v (volume_ p).
Definition set_volume (v : Z) p : PositionInfo :=
  MkPositionInfo (position_ p) (real_pnl_ p) (unreal_pnl_ p) (total_pnl_ p) (open_vwap_ p) v.
End setters.

(** [open_vwap_[i]], read and assigned; the index comes from [sideToIndex]. *)
Definition vwap_at (i : Z) : M PositionInfo double :=
  l ← gets open_vwap_;
  match l !! Z.to_nat i with Some v => mret v | None => raise OutOfBounds end.
Definition vwap_assign (i : Z) (v : double) : M PositionInfo unit :=
  l ← gets open_vwap_;
  if decide (Z.to_nat i < length l)%nat then modify (set_open_vwap (<[Z.to_nat i := v]> l))
  else raise OutOfBounds.
(** [std::abs] of an [int]. *)
Definition abs32 {S} (z : Z) : M S Z := signed 32 (Z.abs z).

(** The unrealised profit at price [px] of an open position: the [if] on its sign, shared by the
    two functions below. *)
Definition mark_to (px : double) : M PositionInfo unit :=
  position ← gets position_;
  n ← abs32 position;
  if 0 <? position then
    vwap ← vwap_at (sideToIndex Side_BUY);
    modify (set_unreal_pnl (dmul (dsub px (ddiv vwap (double_of n))) (double_of n)))
  else
    vwap ← vwap_at (sideToIndex Side_SELL);
    modify (set_unreal_pnl (dmul (dsub (ddiv vwap (double_of n)) px) (double_of n))).
(** [total_pnl_ = unreal_pnl_ + real_pnl_]. *)
Definition update_total : M PositionInfo unit :=
  unreal ← gets unreal_pnl_;
  real ← gets real_pnl_;
  modify (set_total_pnl (dadd unreal real)).

(** The branch of a fill that reduces the position. *)
Definition reduce_position (side_index opp_side_index side_value old_position price exec_qty : Z) :
    M PositionInfo unit :=
  old_vwap ← vwap_at opp_side_index;
  old_abs ← abs32 old_position;
  let opp_side_vwap := ddiv old_vwap (double_of old_abs) in
  position ← gets position_;
  new_abs ← abs32 position;
  _ ← vwap_assign opp_side_index (dmul opp_side_vwap (double_of new_abs));
  real ← gets real_pnl_;
  _ ← modify (set_real_pnl (dadd real
        (dmul (dmul (double_of (Z.min (i32 exec_qty) old_abs)) (dsub opp_side_vwap (double_of price)))
           (double_of side_value))));
  flip ← signed 32 (position * old_position);
  if flip <? 0 then
    value ← signed 64 (price * new_abs);
    _ ← vwap_assign side_index (double_of value);
    vwap_assign opp_side_index dzero
  else mret tt.

Definition PositionInfo_addFill (client_response : MEClientResponse) : M PositionInfo unit :=
  let side := resp_side_ client_response in
  let exec_qty := resp_exec_qty_ client_response in
  let price := resp_price_ client_response in
  old_position ← gets position_;
  let side_index := sideToIndex side in
  let opp_side_index := sideToIndex (if decide (side = Side_BUY) then Side_SELL else Side_BUY) in
  let side_value := sideToValue side in
  _ ← modify (set_position (i32 (old_position + u32 (exec_qty * side_value))));
  volume ← gets volume_;
  _ ← modify (set_volume (u32 (volume + exec_qty)));
  direction ← signed 32 (old_position * side_value);
  _ ← (if 0 <=? direction then
         vwap ← vwap_at side_index;
         value ← signed 64 (price * exec_qty);
         vwap_assign side_index (dadd vwap (double_of value))
       else reduce_position side_index opp_side_index side_value old_position price exec_qty);
  position ← gets position_;
  _ ← (if position =? 0 then
         _ ← vwap_assign (sideToIndex Side_SELL) dzero;
         _ ← vwap_assign (sideToIndex Side_BUY) dzero;
         modify (set_unreal_pnl dzero)
       else mark_to (double_of price));
  update_total.

Definition PositionInfo_updateBBO (bbo : BBO) : M PositionInfo unit :=
  position ← gets position_;
  if negb (position =? 0) && two_sided bbo then
    sum ← signed 64 (bid_price_ bbo + ask_price_ bbo);
    _ ← mark_to (dmul (double_of sum) dhalf);
    update_total
  else mret tt.

(** [position_ ? open_vwap_.at(i) / std::abs(position_) : 0]. *)
Definition print_vwap (side : Side) : M PositionInfo string :=
  position ← gets position_;
  if position =? 0 then mret (print_double dzero)
  else
    vwap ← vwap_at (sideToIndex side);
    n ← abs32 position;
    mret (print_double (ddiv vwap (double_of n))).
(** [toString]; [bbo] is what [bbo_] points to. *)
Definition PositionInfo_toString (bbo : option BBO) : M PositionInfo string :=
  p ← gets id;
  buy ← print_vwap Side_BUY;
  sell ← print_vwap Side_SELL;
  mret ("Position{pos:" +:+ pretty (position_ p) +:+ " u-pnl:" +:+ print_double (unreal_pnl_ p) +:+
        " r-pnl:" +:+ print_double (real_pnl_ p) +:+ " t-pnl:" +:+ print_double (total_pnl_ p) +:+
        " vol:" +:+ qtyToString (volume_ p) +:+ " vwaps:[" +:+ buy +:+ "X" +:+ sell +:+ "] " +:+
        match bbo with Some bbo => BBO_toString bbo | None => "" end +:+ "}")%string.

(** ** The keeper *)
Record PositionKeeper : Type := MkPositionKeeper { ticker_position_ : list PositionInfo }.
Definition PositionKeeper_new (vwap_mem : list double) : PositionKeeper :=
  MkPositionKeeper (replicate (Z.to_nat ME_MAX_TICKERS) (PositionInfo_new vwap_mem)).

(** A member function of [ticker_position_.at(ticker_id)]. *)
Definition on_position (ticker_id : Z) (m : M PositionInfo unit) : M PositionKeeper unit :=
  ps ← gets ticker_position_;
  match ps !! Z.to_nat ticker_id with
  | Some p =>
    r ← of_res (m p);
    modify (λ _, MkPositionKeeper (<[Z.to_nat ticker_id := r.2]> ps))
  | None => raise OutOfRange
  end.
Definition PositionKeeper_addFill (client_response : MEClientResponse) : M PositionKeeper unit :=
  on_position (resp_ticker_id_ client_response) (PositionInfo_addFill client_response).
Definition PositionKeeper_updateBBO (ticker_id : Z) (bbo : BBO) : M PositionKeeper unit :=
  on_position ticker_id (PositionInfo_updateBBO bbo).

(** [toString]: the loop over the instruments from [i] on, with the totals so far, and the last line.
    [bbos] is what the pointers [bbo_] of the instruments point to. *)
Fixpoint print_positions (ps : list PositionInfo) (bbos : Z → option BBO) (i : Z) (total_pnl : double)
    (total_vol : Z) (ss : string) : res string :=
  match ps with
  | [] =>
      Ok (ss +:+ "Total PnL:" +:+ print_double total_pnl +:+ " Vol:" +:+ pretty total_vol +:+ newline)%string
  | p :: ps =>
      res_bind (PositionInfo_toString (bbos i) p) (λ r,
        print_positions ps bbos (i + 1) (dadd total_pnl (total_pnl_ p)) (u32 (total_vol + volume_ p))
          (ss +:+ "TickerId:" +:+ tickerIdToString i +:+ " " +:+ r.1 +:+ newline)%string)
  end.
Definition PositionKeeper_toString (bbos : Z → option BBO) (pk : PositionKeeper) : res string :=
  print_positions (ticker_position_ pk) bbos 0 dzero 0 EmptyString.

(** ** What a fill and a change of the top of the book do *)
Lemma keeps_vwap_at {C} (f : PositionInfo → C) i : keeps f (vwap_at i).
Proof. unfold vwap_at. keeps_tac. Qed.
Lemma keeps_abs32 {S C} (f : S → C) z : keeps f (abs32 z).
Proof. unfold abs32. keeps_tac. Qed.
#[export] Hint Resolve keeps_vwap_at keeps_abs32 : keeps.

(** Position and volume. *)
Definition holding (p : PositionInfo) : Z * Z := (position_ p, volume_ p).
Lemma keeps_vwap_assign i v : keeps holding (vwap_assign i v).
Proof. unfold vwap_assign. keeps_tac. Qed.
#[export] Hint Resolve keeps_vwap_assign : keeps.
Lemma keeps_mark_to px : keeps holding (mark_to px).
Proof. unfold mark_to. keeps_tac. Qed.
Lemma keeps_update_total : keeps holding update_total.
Proof. unfold update_total. keeps_tac. Qed.
Lemma keeps_reduce_position i j v o px q : keeps holding (reduce_position i j v o px q).
Proof. unfold reduce_position. keeps_tac. Qed.
#[export] Hint Resolve keeps_mark_to keeps_update_total keeps_reduce_position : keeps.
Lemma keeps_updateBBO bbo : keeps holding (PositionInfo_updateBBO bbo).
Proof. unfold PositionInfo_updateBBO. keeps_tac. Qed.

(** A fill changes the position by the signed quantity, modulo the width of an [int]. *)
Lemma addFill_holding r p :
  wlp (PositionInfo_addFill r) p (λ _ p', holding p' =
    (i32 (position_ p + u32 (resp_exec_qty_ r * sideToValue (resp_side_ r))),
     u32 (volume_ p + resp_exec_qty_ r))).
Proof.
  unfold PositionInfo_addFill. apply wlp_bind, wlp_gets, wlp_bind, wlp_modify, wlp_bind, wlp_gets,
    wlp_bind, wlp_modify.
  match goal with |- wlp ?m ?s _ => assert (keeps holding m) as H; [|exact (H s)] end.
  keeps_tac.
Qed.

(** ** What the printers need of a position: both prices, and a position whose absolute value is an
    [int]. *)
Definition printable (p : PositionInfo) : Prop :=
  (3 ≤ length (open_vwap_ p))%nat ∧ - 2 ^ 31 < position_ p < 2 ^ 31.
Lemma abs32_ok {S} z (s : S) : - 2 ^ 31 < z < 2 ^ 31 → abs32 z s = Ok (Z.abs z, s).
Proof.
  intros Hz. unfold abs32, signed. change (in_i 32 (Z.abs z)) with
    ((- 2 ^ 31 <=? Z.abs z) && (Z.abs z <? 2 ^ 31)).
  by rewrite (proj2 (Z.leb_le _ _)), (proj2 (Z.ltb_lt _ _)) by lia.
Qed.
Lemma print_vwap_ok side p :
  printable p → side = Side_BUY ∨ side = Side_SELL → ∃ text, print_vwap side p = Ok (text, p).
Proof.
  intros [Hlen Hpos] Hside. unfold print_vwap. rewrite gets_bind. case_match; [by eexists|].
  assert (Z.to_nat (sideToIndex side) < length (open_vwap_ p))%nat as Hi
    by (destruct Hside as [-> | ->]; [change (Z.to_nat (sideToIndex Side_BUY)) with 2%nat
                                      |change (Z.to_nat (sideToIndex Side_SELL)) with 0%nat]; lia).
  destruct (lookup_lt_is_Some_2 _ _ Hi) as [v Hv].
  assert (vwap_at (sideToIndex side) p = Ok (v, p)) as E
    by (unfold vwap_at; rewrite gets_bind; by rewrite Hv).
  rewrite (bind_Ok _ _ _ _ _ E), (bind_Ok _ _ _ _ _ (abs32_ok _ _ Hpos)). by eexists.
Qed.
Lemma PositionInfo_toString_ok bbo p :
  printable p → ∃ text, PositionInfo_toString bbo p = Ok (text, p).
Proof.
  intros Hp. unfold PositionInfo_toString. rewrite gets_bind.
  destruct (print_vwap_ok Side_BUY p Hp) as [buy E]; [by left|]. rewrite (bind_Ok _ _ _ _ _ E).
  destruct (print_vwap_ok Side_SELL p Hp) as [sell E']; [by right|].
  rewrite (bind_Ok _ _ _ _ _ E'). by eexists.
Qed.

(** The totals of the last line: the profits added in order, the volumes modulo [2^32]. *)
Definition total_line (pnl : double) (vol : Z) : string :=
  ("Total PnL:" +:+ print_double pnl +:+ " Vol:" +:+ pretty vol +:+ newline)%string.
Lemma print_positions_ok ps bbos i pnl vol ss :
  Forall printable ps → 0 ≤ vol < 2 ^ 32 →
  ∃ lines, print_positions ps bbos i pnl vol ss =
    Ok (lines +:+ total_line (foldl dadd pnl (total_pnl_ <$> ps)) (u32 (vol + zsum volume_ ps))).
Proof.
  revert i pnl vol ss. induction ps as [|p ps IH]; intros i pnl vol ss Hps Hvol.
  - exists ss. simpl. by rewrite Z.add_0_r, u32_id.
  - apply Forall_cons in Hps as [Hp Hps]. cbn [print_positions].
    destruct (PositionInfo_toString_ok (bbos i) p Hp) as [text ->]. cbn [res_bind].
    destruct (IH (i + 1) (dadd pnl (total_pnl_ p)) (u32 (vol + volume_ p))
      (ss +:+ "TickerId:" +:+ tickerIdToString i +:+ " " +:+ text +:+ newline)%string Hps) as [lines E];
      [apply u32_range|].
    exists lines. rewrite fmap_cons. cbn [foldl fst] in *. rewrite E. do 3 f_equal.
    rewrite zsum_cons, Z.add_assoc. unfold u32, wrap. apply Zplus_mod_idemp_l.
Qed.
Lemma PositionKeeper_toString_ok bbos pk :
  Forall printable (ticker_position_ pk) →
  ∃ lines, PositionKeeper_toString bbos pk =
    Ok (lines +:+ total_line (foldl dadd dzero (total_pnl_ <$> ticker_position_ pk))
          (u32 (zsum volume_ (ticker_position_ pk)))).
Proof. intros H. by apply print_positions_ok. Qed.
