(* ===== verification/RiskManager.v ===== *)
(** trading/strategy/risk_manager.{h,cpp}: the pre-trade risk check.

    [position_info_] points into the position keeper; the pointer is the index of the element, and the
    check reads the keeper as it is when it runs. *)
From S2P Require Export PositionKeeper.

Inductive RiskCheckResult : Type :=
  | RiskCheckResult_INVALID
  | RiskCheckResult_ORDER_TOO_LARGE
  | RiskCheckResult_POSITION_TOO_LARGE
  | RiskCheckResult_LOSS_TOO_LARGE
  | RiskCheckResult_ALLOWED.
#[export] Instance RiskCheckResult_eq_dec : EqDecision RiskCheckResult.
Proof. solve_decision. Defined.
Definition riskCheckResultToString (result : RiskCheckResult) : string :=
  match result with
  | RiskCheckResult_INVALID => "INVALID"
  | RiskCheckResult_ORDER_TOO_LARGE => "ORDER_TOO_LARGE"
  | RiskCheckResult_POSITION_TOO_LARGE => "POSITION_TOO_LARGE"
  | RiskCheckResult_LOSS_TOO_LARGE => "LOSS_TOO_LARGE"
  | RiskCheckResult_ALLOWED => "ALLOWED"
  end.

Record RiskInfo : Type := MkRiskInfo {
  position_info_ : Z;
  ri_risk_cfg_ : RiskCfg;
}.

(** [RiskInfo::checkPreTradeRisk]; a computation that only reads the position. *)
Definition RiskInfo_checkPreTradeRisk (risk_cfg : RiskCfg) (side : Side) (qty : Z) :
    M PositionInfo RiskCheckResult :=
  if max_order_size_ risk_cfg <? qty then mret RiskCheckResult_ORDER_TOO_LARGE
  else
    position ← gets position_;
    change ← signed 32 (sideToValue side * i32 qty);
    new_position ← signed 32 (position + change);
    new_abs ← abs32 new_position;
    if i32 (max_position_ risk_cfg) <? new_abs then mret RiskCheckResult_POSITION_TOO_LARGE
    else
      total ← gets total_pnl_;
      if dlt total (max_loss_ risk_cfg) then mret RiskCheckResult_LOSS_TOO_LARGE
      else mret RiskCheckResult_ALLOWED.

(** [RiskInfo::toString], a computation that reads the position as the check does. *)
Definition RiskInfo_toString (risk_cfg : RiskCfg) (bbo : option BBO) : M PositionInfo string :=
  pos ← PositionInfo_toString bbo;
  mret ("RiskInfo[pos:" +:+ pos +:+ " " +:+ RiskCfg_toString risk_cfg +:+ "]")%string.

Record RiskManager : Type := MkRiskManager { ticker_risk_ : list RiskInfo }.
Definition RiskManager_new (ticker_cfg : list TradeEngineCfg) : RiskManager :=
  MkRiskManager (imap (λ i cfg, MkRiskInfo (Z.of_nat i) (risk_cfg_ cfg)) ticker_cfg).
(** The check against the keeper [pk]. *)
Definition checkPreTradeRisk (rm : RiskManager) (pk : PositionKeeper) (ticker_id : Z) (side : Side)
    (qty : Z) : res RiskCheckResult :=
  match ticker_risk_ rm !! Z.to_nat ticker_id with
  | Some ri =>
    match ticker_position_ pk !! Z.to_nat (position_info_ ri) with
    | Some p => res_map fst (RiskInfo_checkPreTradeRisk (ri_risk_cfg_ ri) side qty p)
    | None => Err OutOfBounds
    end
  | None => Err OutOfRange
  end.
