(* ===== verification/OrderManager.v ===== *)
(** trading/strategy/order_manager.{h,cpp}: one order per instrument and side.

    The manager sends requests through the trade engine and asks the risk manager first; both are
    behind the interface [RequestSink], so the manager runs over any engine state [E].  An
    [OMOrder *] is an instrument and a side index. *)
From S2P Require Export RiskManager.

Class RequestSink (E : Type) := {
  sink_client_id : E → Z;
  sink_request : MEClientRequest → M E unit;
  sink_risk : E → Z → Side → Z → res RiskCheckResult;
}.

Record OrderManager : Type := MkOrderManager {
  ticker_side_order_ : list (list OMOrder);
  next_order_id_ : Z;
}.
Definition OrderManager_new : OrderManager :=
  MkOrderManager
    (replicate (Z.to_nat ME_MAX_TICKERS)
       (replicate (Z.to_nat (sideToIndex Side_MAX + 1)) OMOrder_default)) 1.
Definition set_ticker_side_order (l : list (list OMOrder)) (m : OrderManager) : OrderManager :=
  MkOrderManager l (next_order_id_ m).
Definition set_next_order_id (i : Z) (m : OrderManager) : OrderManager :=
  MkOrderManager (ticker_side_order_ m) i.

(** [ticker_side_order_.at(ticker).at(index)], read and assigned. *)
Definition om_lookup (p : Z * Z) (m : OrderManager) : option OMOrder :=
  os ← ticker_side_order_ m !! Z.to_nat p.1; os !! Z.to_nat p.2.
Definition get_om (p : Z * Z) : M OrderManager OMOrder :=
  o ← gets (om_lookup p);
  match o with Some o => mret o | None => raise OutOfRange end.
Definition om_alter (p : Z * Z) (f : OMOrder → OMOrder) (m : OrderManager) : OrderManager :=
  set_ticker_side_order
    (alter (alter f (Z.to_nat p.2)) (Z.to_nat p.1) (ticker_side_order_ m)) m.
Definition put_om (p : Z * Z) (f : OMOrder → OMOrder) : M OrderManager unit := modify (om_alter p f).

(** The state of the order in slot [p] after a response. *)
Definition onOrderUpdate (client_response : MEClientResponse) : M OrderManager unit :=
  let p := (resp_ticker_id_ client_response, sideToIndex (resp_side_ client_response)) in
  _ ← get_om p;
  match resp_type_ client_response with
  | ClientResponseType_ACCEPTED => put_om p (set_om_state OMOrderState_LIVE)
  | ClientResponseType_CANCELED => put_om p (set_om_state OMOrderState_DEAD)
  | ClientResponseType_FILLED =>
    _ ← put_om p (set_om_qty (resp_leaves_qty_ client_response));
    o ← get_om p;
    if om_qty_ o =? 0 then put_om p (set_om_state OMOrderState_DEAD) else mret tt
  | _ => mret tt
  end.

Section operations.
Context {E : Type} `{!RequestSink E}.

Definition on_orders {A} : M OrderManager A → M (OrderManager * E) A :=
  zoom fst (λ m s, (m, s.2)).
Definition on_sink {A} : M E A → M (OrderManager * E) A :=
  zoom snd (λ e s, (s.1, e)).

Definition newOrder (order : Z * Z) (ticker_id price : Z) (side : Side) (qty : Z) :
    M (OrderManager * E) unit :=
  client_id ← on_sink (gets sink_client_id);
  id ← on_orders (gets next_order_id_);
  _ ← on_sink (sink_request
        (MkMEClientRequest ClientRequestType_NEW client_id ticker_id id side price qty));
  _ ← on_orders (put_om order
        (λ _, MkOMOrder ticker_id id side price qty OMOrderState_PENDING_NEW));
  on_orders (modify (set_next_order_id (u64 (id + 1)))).

Definition cancelOrder (order : Z * Z) : M (OrderManager * E) unit :=
  client_id ← on_sink (gets sink_client_id);
  o ← on_orders (get_om order);
  _ ← on_sink (sink_request
        (MkMEClientRequest ClientRequestType_CANCEL client_id (om_ticker_id_ o) (om_order_id_ o)
           (om_side_ o) (om_price_ o) (om_qty_ o)));
  on_orders (put_om order (set_om_state OMOrderState_PENDING_CANCEL)).

Definition moveOrder (order : Z * Z) (ticker_id price : Z) (side : Side) (qty : Z) :
    M (OrderManager * E) unit :=
  o ← on_orders (get_om order);
  match om_order_state_ o with
  | OMOrderState_LIVE => if om_price_ o =? price then mret tt else cancelOrder order
  | OMOrderState_INVALID | OMOrderState_DEAD =>
    if price =? Price_INVALID then mret tt
    else
      e ← on_sink (gets id);
      risk_result ← of_res (sink_risk e ticker_id side qty);
      if decide (risk_result = RiskCheckResult_ALLOWED)
      then newOrder order ticker_id price side qty else mret tt
  | OMOrderState_PENDING_NEW | OMOrderState_PENDING_CANCEL => mret tt
  end.

Definition moveOrders (ticker_id bid_price ask_price clip : Z) : M (OrderManager * E) unit :=
  let bid_order := (ticker_id, sideToIndex Side_BUY) in
  _ ← on_orders (get_om bid_order);
  _ ← moveOrder bid_order ticker_id bid_price Side_BUY clip;
  let ask_order := (ticker_id, sideToIndex Side_SELL) in
  _ ← on_orders (get_om ask_order);
  moveOrder ask_order ticker_id ask_price Side_SELL clip.
End operations.

(** ** The slots *)
Lemma om_lookup_alter p f m p' :
  om_lookup p' (om_alter p f m) =
    if decide (Z.to_nat p'.1 = Z.to_nat p.1 ∧ Z.to_nat p'.2 = Z.to_nat p.2)
    then f <$> om_lookup p' m else om_lookup p' m.
Proof.
  unfold om_lookup, om_alter. simpl. destruct (decide (Z.to_nat p'.1 = Z.to_nat p.1)) as [->|H1].
  - rewrite list_lookup_alter_eq. destruct (ticker_side_order_ m !! Z.to_nat p.1) as [os|]; simpl.
    + destruct (decide (Z.to_nat p'.2 = Z.to_nat p.2)) as [->|H2].
      * by rewrite list_lookup_alter_eq, decide_True.
      * rewrite list_lookup_alter_ne by congruence. by rewrite decide_False by tauto.
    + by case_decide.
  - rewrite list_lookup_alter_ne by congruence. by rewrite decide_False by tauto.
Qed.
Lemma om_lookup_next_id p i m : om_lookup p (set_next_order_id i m) = om_lookup p m.
Proof. done. Qed.
Lemma om_lookup_new t s :
  0 ≤ t < ME_MAX_TICKERS → s = Side_BUY ∨ s = Side_SELL →
  om_lookup (t, sideToIndex s) OrderManager_new = Some OMOrder_default.
Proof.
  intros Ht Hs. unfold om_lookup. cbn [ticker_side_order_ OrderManager_new fst snd].
  rewrite (lookup_replicate_2 (Z.to_nat ME_MAX_TICKERS)) by lia. by destruct Hs as [-> | ->].
Qed.
