(* ===== verification/FeatureEngine.v ===== *)
(** trading/strategy/feature_engine.h: the fair price and the aggressive trade ratio. *)
From S2P Require Export TradingTypes.

Definition Feature_INVALID : double := dnan.
Record FeatureEngine : Type := MkFeatureEngine {
  mkt_price_ : double;
  agg_trade_qty_ratio_ : double;
}.
Definition FeatureEngine_new : FeatureEngine := MkFeatureEngine Feature_INVALID Feature_INVALID.
Definition set_mkt_price (d : double) (f : FeatureEngine) : FeatureEngine :=
  MkFeatureEngine d (agg_trade_qty_ratio_ f).
Definition set_agg_trade_qty_ratio (d : double) (f : FeatureEngine) : FeatureEngine :=
  MkFeatureEngine (mkt_price_ f) d.

(** The products and their sum are computed in signed 64 bits, the sum of the quantities in unsigned
    32 bits. *)
Definition FeatureEngine_onOrderBookUpdate (bbo : BBO) : M FeatureEngine unit :=
  if two_sided bbo then
    bid ← signed 64 (bid_price_ bbo * ask_qty_ bbo);
    ask ← signed 64 (ask_price_ bbo * bid_qty_ bbo);
    sum ← signed 64 (bid + ask);
    modify (set_mkt_price
      (ddiv (double_of sum) (double_of (u32 (bid_qty_ bbo + ask_qty_ bbo)))))
  else mret tt.
Definition FeatureEngine_onTradeUpdate (market_update : MEMarketUpdate) (bbo : BBO) :
    M FeatureEngine unit :=
  if two_sided bbo then
    modify (set_agg_trade_qty_ratio
      (ddiv (double_of (upd_qty_ market_update))
         (double_of (if decide (upd_side_ market_update = Side_BUY) then ask_qty_ bbo else bid_qty_ bbo))))
  else mret tt.
