(* ===== verification/Strategies.v ===== *)
(** trading/strategy/market_maker.h and liquidity_taker.h: the two trading algorithms.

    Both act on the order manager, over any engine it sends through; the features and the top of the
    book are arguments. *)
From S2P Require Export OrderManager FeatureEngine.

Section strategies.
Context {E : Type} `{!RequestSink E} (ticker_cfg : list TradeEngineCfg).

(** [ticker_cfg_.at(ticker_id)]. *)
Definition ticker_cfg_at (ticker_id : Z) : M (OrderManager * E) TradeEngineCfg :=
  match ticker_cfg !! Z.to_nat ticker_id with Some c => mret c | None => raise OutOfRange end.

Definition MarketMaker_onOrderBookUpdate (features : FeatureEngine) (ticker_id : Z) (bbo : BBO) :
    M (OrderManager * E) unit :=
  let fair_price := mkt_price_ features in
  if two_sided bbo && dne fair_price Feature_INVALID then
    cfg ← ticker_cfg_at ticker_id;
    let clip := clip_ cfg in
    let threshold := threshold_ cfg in
    bid_price ← signed 64 (bid_price_ bbo -
      if dge (dsub fair_price (double_of (bid_price_ bbo))) threshold then 0 else 1);
    ask_price ← signed 64 (ask_price_ bbo +
      if dge (dsub (double_of (ask_price_ bbo)) fair_price) threshold then 0 else 1);
    moveOrders ticker_id bid_price ask_price clip
  else mret tt.

Definition LiquidityTaker_onTradeUpdate (features : FeatureEngine) (market_update : MEMarketUpdate)
    (bbo : BBO) : M (OrderManager * E) unit :=
  let agg_qty_ratio := agg_trade_qty_ratio_ features in
  if two_sided bbo && dne agg_qty_ratio Feature_INVALID then
    cfg ← ticker_cfg_at (upd_ticker_id_ market_update);
    let clip := clip_ cfg in
    let threshold := threshold_ cfg in
    if dge agg_qty_ratio threshold then
      if decide (upd_side_ market_update = Side_BUY)
      then moveOrders (upd_ticker_id_ market_update) (ask_price_ bbo) Price_INVALID clip
      else moveOrders (upd_ticker_id_ market_update) Price_INVALID (bid_price_ bbo) clip
    else mret tt
  else mret tt.
End strategies.
