(* ===== verification/MarketOrder.v ===== *)
(** trading/strategy/market_order.h and market_order.cpp: the nodes of the trading client's order
    book.  A pointer is [None] (nullptr) or the index of an object in its pool. *)
From S2P Require Export TradingTypes MemPool.

Record MarketOrder : Type := MkMarketOrder {
  mkt_order_id_ : Z;
  mkt_side_ : Side;
  mkt_price_ : Z;
  mkt_qty_ : Z;
  mkt_priority_ : Z;
  mkt_prev_order_ : option Z;
  mkt_next_order_ : option Z;
}.
Record MarketOrdersAtPrice : Type := MkMarketOrdersAtPrice {
  moap_side_ : Side;
  moap_price_ : Z;
  moap_first_mkt_order_ : option Z;
  moap_prev_entry_ : option Z;
  moap_next_entry_ : option Z;
}.

(** The default member initialisers. *)
#[export] Instance MarketOrder_init : ValueInit MarketOrder :=
  MkMarketOrder OrderId_INVALID Side_INVALID Price_INVALID Qty_INVALID Priority_INVALID None None.
#[export] Instance MarketOrdersAtPrice_init : ValueInit MarketOrdersAtPrice :=
  MkMarketOrdersAtPrice Side_INVALID Price_INVALID None None None.

(** Assignments to single fields. *)
Definition set_mkt_qty (v : Z) (o : MarketOrder) : MarketOrder :=
  MkMarketOrder (mkt_order_id_ o) (mkt_side_ o) (mkt_price_ o) v (mkt_priority_ o)
    (mkt_prev_order_ o) (mkt_next_order_ o).
Definition set_mkt_prev_order (v : option Z) (o : MarketOrder) : MarketOrder :=
  MkMarketOrder (mkt_order_id_ o) (mkt_side_ o) (mkt_price_ o) (mkt_qty_ o) (mkt_priority_ o)
    v (mkt_next_order_ o).
Definition set_mkt_next_order (v : option Z) (o : MarketOrder) : MarketOrder :=
  MkMarketOrder (mkt_order_id_ o) (mkt_side_ o) (mkt_price_ o) (mkt_qty_ o) (mkt_priority_ o)
    (mkt_prev_order_ o) v.
Definition set_moap_first (v : option Z) (l : MarketOrdersAtPrice) : MarketOrdersAtPrice :=
  MkMarketOrdersAtPrice (moap_side_ l) (moap_price_ l) v (moap_prev_entry_ l) (moap_next_entry_ l).
Definition set_moap_prev (v : option Z) (l : MarketOrdersAtPrice) : MarketOrdersAtPrice :=
  MkMarketOrdersAtPrice (moap_side_ l) (moap_price_ l) (moap_first_mkt_order_ l) v (moap_next_entry_ l).
Definition set_moap_next (v : option Z) (l : MarketOrdersAtPrice) : MarketOrdersAtPrice :=
  MkMarketOrdersAtPrice (moap_side_ l) (moap_price_ l) (moap_first_mkt_order_ l) (moap_prev_entry_ l) v.

(** [toString]; the nodes a node points to are read from their pools. *)
Definition MarketOrder_toString (orders : MemPool MarketOrder) (o : MarketOrder) : string :=
  let oid p := match p with
               | Some i => mkt_order_id_ (obj orders i)
               | None => OrderId_INVALID
               end in
  "MarketOrder" +:+ "[" +:+
  "oid:" +:+ orderIdToString (mkt_order_id_ o) +:+ " " +:+
  "side:" +:+ sideToString (mkt_side_ o) +:+ " " +:+
  "price:" +:+ priceToString (mkt_price_ o) +:+ " " +:+
  "qty:" +:+ qtyToString (mkt_qty_ o) +:+ " " +:+
  "prio:" +:+ priorityToString (mkt_priority_ o) +:+ " " +:+
  "prev:" +:+ orderIdToString (oid (mkt_prev_order_ o)) +:+ " " +:+
  "next:" +:+ orderIdToString (oid (mkt_next_order_ o)) +:+ "]".
Definition MarketOrdersAtPrice_toString (orders : MemPool MarketOrder)
    (levels : MemPool MarketOrdersAtPrice) (l : MarketOrdersAtPrice) : string :=
  let price p := match p with
                 | Some i => moap_price_ (obj levels i)
                 | None => Price_INVALID
                 end in
  "MarketOrdersAtPrice[" +:+
  "side:" +:+ sideToString (moap_side_ l) +:+ " " +:+
  "price:" +:+ priceToString (moap_price_ l) +:+ " " +:+
  "first_mkt_order:" +:+
    (match moap_first_mkt_order_ l with
     | Some i => MarketOrder_toString orders (obj orders i)
     | None => "null"
     end) +:+ " " +:+
  "prev:" +:+ priceToString (price (moap_prev_entry_ l)) +:+ " " +:+
  "next:" +:+ priceToString (price (moap_next_entry_ l)) +:+ "]".
