(* ===== verification/MarketOrderBook.v ===== *)
(** trading/strategy/market_order_book.{h,cpp}: the order book a trading client rebuilds from the
    market data.

    A pointer is [None] or the index of an object in its pool.  The tables are [std::array]s
    accessed with [at] ([OutOfRange]); the class does not initialise them, so their first contents
    are arguments of the constructor.  The book reports to the trade engine through the interface
    [BookListener], so it runs over any engine state.  [toString] of the whole book, logging and
    measurements are not modelled. *)
From S2P Require Export MarketOrder Feed.

Module MarketOrderBook.

Class BookListener (E : Type) := {
  listener_order_book_update : Z → Z → Side → BBO → M E unit;
  listener_trade_update : MEMarketUpdate → BBO → M E unit;
}.

Record MarketOrderBook : Type := MkMarketOrderBook {
  ticker_id_ : Z;
  oid_to_order_ : gmap Z Z;
  orders_at_price_pool_ : MemPool MarketOrdersAtPrice;
  bids_by_price_ : option Z;
  asks_by_price_ : option Z;
  price_orders_at_price_ : gmap Z Z;
  order_pool_ : MemPool MarketOrder;
  bbo_ : BBO;
}.
Definition MarketOrderBook_new (ticker_id : Z) (oid_mem price_mem : gmap Z Z) : res MarketOrderBook :=
  res_bind (MemPool_new ME_MAX_PRICE_LEVELS) (λ levels,
    res_bind (MemPool_new ME_MAX_ORDER_IDS) (λ orders,
      Ok (MkMarketOrderBook ticker_id oid_mem levels None None price_mem orders BBO_default))).

(** ** Assignments to members *)
Section setters.
Implicit Types b : MarketOrderBook.
Definition set_oid_to_order (m : gmap Z Z) b : MarketOrderBook :=
  MkMarketOrderBook (ticker_id_ b) m (orders_at_price_pool_ b) (bids_by_price_ b)
    (asks_by_price_ b) (price_orders_at_price_ b) (order_pool_ b) (bbo_ b).
Definition set_level_pool (p : MemPool MarketOrdersAtPrice) b : MarketOrderBook :=
  MkMarketOrderBook (ticker_id_ b) (oid_to_order_ b) p (bids_by_price_ b)
    (asks_by_price_ b) (price_orders_at_price_ b) (order_pool_ b) (bbo_ b).
Definition set_order_pool (p : MemPool MarketOrder) b : MarketOrderBook :=
  MkMarketOrderBook (ticker_id_ b) (oid_to_order_ b) (orders_at_price_pool_ b)
    (bids_by_price_ b) (asks_by_price_ b) (price_orders_at_price_ b) p (bbo_ b).
Definition set_price_map (m : gmap Z Z) b : MarketOrderBook :=
  MkMarketOrderBook (ticker_id_ b) (oid_to_order_ b) (orders_at_price_pool_ b)
    (bids_by_price_ b) (asks_by_price_ b) m (order_pool_ b) (bbo_ b).
Definition set_bbo (x : BBO) b : MarketOrderBook :=
  MkMarketOrderBook (ticker_id_ b) (oid_to_order_ b) (orders_at_price_pool_ b)
    (bids_by_price_ b) (asks_by_price_ b) (price_orders_at_price_ b) (order_pool_ b) x.
(** [(side == Side::BUY ? bids_by_price_ : asks_by_price_)], read and assigned. *)
Definition best_by_price (side : Side) b : option Z :=
  if decide (side = Side_BUY) then bids_by_price_ b else asks_by_price_ b.
Definition set_best_by_price (side : Side) (p : option Z) b : MarketOrderBook :=
  if decide (side = Side_BUY)
  then MkMarketOrderBook (ticker_id_ b) (oid_to_order_ b) (orders_at_price_pool_ b) p
         (asks_by_price_ b) (price_orders_at_price_ b) (order_pool_ b) (bbo_ b)
  else MkMarketOrderBook (ticker_id_ b) (oid_to_order_ b) (orders_at_price_pool_ b)
         (bids_by_price_ b) p (price_orders_at_price_ b) (order_pool_ b) (bbo_ b).
End setters.

(** ** Access through pointers and tables *)
Definition get_order (p : option Z) : M MarketOrderBook MarketOrder :=
  i ← deref p; gets (λ b, obj (order_pool_ b) i).
Definition put_order (p : option Z) (f : MarketOrder → MarketOrder) : M MarketOrderBook unit :=
  i ← deref p;
  modify (λ b, set_order_pool (set_obj i (f (obj (order_pool_ b) i)) (order_pool_ b)) b).
Definition get_level (p : option Z) : M MarketOrderBook MarketOrdersAtPrice :=
  i ← deref p; gets (λ b, obj (orders_at_price_pool_ b) i).
Definition put_level (p : option Z) (f : MarketOrdersAtPrice → MarketOrdersAtPrice) :
    M MarketOrderBook unit :=
  i ← deref p;
  modify (λ b, set_level_pool
    (set_obj i (f (obj (orders_at_price_pool_ b) i)) (orders_at_price_pool_ b)) b).
Definition on_order_pool {A} : M (MemPool MarketOrder) A → M MarketOrderBook A :=
  zoom order_pool_ set_order_pool.
Definition on_level_pool {A} : M (MemPool MarketOrdersAtPrice) A → M MarketOrderBook A :=
  zoom orders_at_price_pool_ set_level_pool.

(** [oid_to_order_.at(order_id)], read and assigned. *)
Definition mkt_oid_in_range (order_id : Z) : bool :=
  (0 <=? order_id) && (order_id <? ME_MAX_ORDER_IDS).
Definition oid_at (order_id : Z) : M MarketOrderBook (option Z) :=
  if mkt_oid_in_range order_id then gets (λ b, oid_to_order_ b !! order_id) else raise OutOfRange.
Definition oid_assign (order_id : Z) (p : option Z) : M MarketOrderBook unit :=
  if mkt_oid_in_range order_id
  then modify (λ b, set_oid_to_order (partial_alter (λ _, p) order_id (oid_to_order_ b)) b)
  else raise OutOfRange.

(** [price % ME_MAX_PRICE_LEVELS]: the price is converted to an unsigned 64-bit value. *)
Definition priceToIndex (price : Z) : Z := u64 price mod ME_MAX_PRICE_LEVELS.
(** [price_orders_at_price_.at(i)], read and assigned. *)
Definition price_map_at (i : Z) : M MarketOrderBook (option Z) :=
  if (0 <=? i) && (i <? ME_MAX_PRICE_LEVELS)
  then gets (λ b, price_orders_at_price_ b !! i) else raise OutOfRange.
Definition price_map_assign (i : Z) (p : option Z) : M MarketOrderBook unit :=
  if (0 <=? i) && (i <? ME_MAX_PRICE_LEVELS)
  then modify (λ b, set_price_map (partial_alter (λ _, p) i (price_orders_at_price_ b)) b)
  else raise OutOfRange.
Definition getOrdersAtPrice (price : Z) : M MarketOrderBook (option Z) :=
  price_map_at (priceToIndex price).

(** ** Price levels *)
(** [(side == SELL && price > level price) || (side == BUY && price < level price)]. *)
Definition worse_than (side : Side) (price level_price : Z) : bool :=
  (bool_decide (side = Side_SELL) && (level_price <? price)) ||
  (bool_decide (side = Side_BUY) && (price <? level_price)).

(** [while (add_after && target != best)]; the result is [add_after] and [target]. *)
Fixpoint find_target (fuel : nat) (side : Side) (price : Z) (best : option Z) (add_after : bool)
    (target : option Z) : M MarketOrderBook (bool * option Z) :=
  match fuel with
  | O => raise OutOfFuel
  | S fuel =>
    if add_after && negb (bool_decide (target = best)) then
      t ← get_level target;
      if worse_than side price (moap_price_ t)
      then find_target fuel side price best true (moap_next_entry_ t)
      else find_target fuel side price best false target
    else mret (add_after, target)
  end.

Definition addOrdersAtPrice (new_orders_at_price : option Z) : M MarketOrderBook unit :=
  n ← get_level new_orders_at_price;
  let side := moap_side_ n in
  let price := moap_price_ n in
  _ ← price_map_assign (priceToIndex price) new_orders_at_price;
  best_orders_by_price ← gets (best_by_price side);
  match best_orders_by_price with
  | None =>
    _ ← modify (set_best_by_price side new_orders_at_price);
    _ ← put_level new_orders_at_price (set_moap_next new_orders_at_price);
    put_level new_orders_at_price (set_moap_prev new_orders_at_price)
  | Some _ =>
    t ← get_level best_orders_by_price;
    at_next ← (if worse_than side price (moap_price_ t) then
                 let target := moap_next_entry_ t in
                 t ← get_level target;
                 mret (worse_than side price (moap_price_ t), target)
               else mret (false, best_orders_by_price));
    fuel ← gets (λ b, S (S (size (store_ (orders_at_price_pool_ b)))));
    found ← find_target fuel side price best_orders_by_price at_next.1 at_next.2;
    let '(add_after, target) := found in
    if (add_after : bool) then
      target ← (if decide (target = best_orders_by_price) then
                  b ← get_level best_orders_by_price;
                  mret (moap_prev_entry_ b)
                else mret target);
      _ ← put_level new_orders_at_price (set_moap_prev target);
      t ← get_level target;
      _ ← put_level (moap_next_entry_ t) (set_moap_prev new_orders_at_price);
      t ← get_level target;
      _ ← put_level new_orders_at_price (set_moap_next (moap_next_entry_ t));
      put_level target (set_moap_next new_orders_at_price)
    else
      t ← get_level target;
      _ ← put_level new_orders_at_price (set_moap_prev (moap_prev_entry_ t));
      _ ← put_level new_orders_at_price (set_moap_next target);
      t ← get_level target;
      _ ← put_level (moap_prev_entry_ t) (set_moap_next new_orders_at_price);
      _ ← put_level target (set_moap_prev new_orders_at_price);
      b ← get_level best_orders_by_price;
      if (bool_decide (side = Side_BUY) && (moap_price_ b <? price)) ||
         (bool_decide (side = Side_SELL) && (price <? moap_price_ b))
      then
        t ← get_level target;
        _ ← put_level target (set_moap_next
              (if decide (moap_next_entry_ t = best_orders_by_price)
               then new_orders_at_price else moap_next_entry_ t));
        modify (set_best_by_price side new_orders_at_price)
      else mret tt
  end.

Definition removeOrdersAtPrice (side : Side) (price : Z) : M MarketOrderBook unit :=
  best_orders_by_price ← gets (best_by_price side);
  orders_at_price ← getOrdersAtPrice price;
  l ← get_level orders_at_price;
  _ ← (if decide (moap_next_entry_ l = orders_at_price)
       then modify (set_best_by_price side None)
       else
         _ ← put_level (moap_prev_entry_ l) (set_moap_next (moap_next_entry_ l));
         l ← get_level orders_at_price;
         _ ← put_level (moap_next_entry_ l) (set_moap_prev (moap_prev_entry_ l));
         _ ← (if decide (orders_at_price = best_orders_by_price)
              then
                l ← get_level orders_at_price;
                modify (set_best_by_price side (moap_next_entry_ l))
              else mret tt);
         _ ← put_level orders_at_price (set_moap_next None);
         put_level orders_at_price (set_moap_prev None));
  _ ← price_map_assign (priceToIndex price) None;
  i ← deref orders_at_price;
  on_level_pool (deallocate i).

(** ** Orders *)
Definition removeOrder (order : option Z) : M MarketOrderBook unit :=
  o ← get_order order;
  orders_at_price ← getOrdersAtPrice (mkt_price_ o);
  _ ← (if decide (mkt_prev_order_ o = order)
       then removeOrdersAtPrice (mkt_side_ o) (mkt_price_ o)
       else
         let order_before := mkt_prev_order_ o in
         let order_after := mkt_next_order_ o in
         _ ← put_order order_before (set_mkt_next_order order_after);
         _ ← put_order order_after (set_mkt_prev_order order_before);
         l ← get_level orders_at_price;
         _ ← (if decide (moap_first_mkt_order_ l = order)
              then put_level orders_at_price (set_moap_first order_after)
              else mret tt);
         _ ← put_order order (set_mkt_next_order None);
         put_order order (set_mkt_prev_order None));
  o ← get_order order;
  _ ← oid_assign (mkt_order_id_ o) None;
  i ← deref order;
  on_order_pool (deallocate i).

Definition addOrder (order : option Z) : M MarketOrderBook unit :=
  o ← get_order order;
  orders_at_price ← getOrdersAtPrice (mkt_price_ o);
  _ ← (match orders_at_price with
       | None =>
         _ ← put_order order (set_mkt_prev_order order);
         _ ← put_order order (set_mkt_next_order order);
         new_orders_at_price ← on_level_pool
           (allocate (MkMarketOrdersAtPrice (mkt_side_ o) (mkt_price_ o) order None None));
         addOrdersAtPrice new_orders_at_price
       | Some _ =>
         l ← get_level orders_at_price;
         let first_order := moap_first_mkt_order_ l in
         f ← get_order first_order;
         _ ← put_order (mkt_prev_order_ f) (set_mkt_next_order order);
         f ← get_order first_order;
         _ ← put_order order (set_mkt_prev_order (mkt_prev_order_ f));
         _ ← put_order order (set_mkt_next_order first_order);
         put_order first_order (set_mkt_prev_order order)
       end);
  o ← get_order order;
  oid_assign (mkt_order_id_ o) order.

(** ** The top of the book *)
(** [for (order = first->next_order_; order != first; order = order->next_order_) qty += order->qty_]. *)
Fixpoint sum_orders (fuel : nat) (first order : option Z) (qty : Z) : M MarketOrderBook Z :=
  match fuel with
  | O => raise OutOfFuel
  | S fuel =>
    if decide (order = first) then mret qty
    else
      o ← get_order order;
      sum_orders fuel first (mkt_next_order_ o) (u32 (qty + mkt_qty_ o))
  end.
(** Price and quantity of the best level of one side. *)
Definition top_of (side : Side) : M MarketOrderBook (Z * Z) :=
  best ← gets (best_by_price side);
  match best with
  | None => mret (Price_INVALID, Qty_INVALID)
  | Some _ =>
    l ← get_level best;
    first ← get_order (moap_first_mkt_order_ l);
    fuel ← gets (λ b, S (size (store_ (order_pool_ b))));
    qty ← sum_orders fuel (moap_first_mkt_order_ l) (mkt_next_order_ first) (mkt_qty_ first);
    mret (moap_price_ l, qty)
  end.
Definition updateBBO (update_bid update_ask : bool) : M MarketOrderBook unit :=
  _ ← (if update_bid then
         top ← top_of Side_BUY;
         modify (λ b, set_bbo (MkBBO top.1 (ask_price_ (bbo_ b)) top.2 (ask_qty_ (bbo_ b))) b)
       else mret tt);
  if update_ask then
    top ← top_of Side_SELL;
    modify (λ b, set_bbo (MkBBO (bid_price_ (bbo_ b)) top.1 (bid_qty_ (bbo_ b)) top.2) b)
  else mret tt.

(** ** Clearing *)
(** The loop over [oid_to_order_]: [n] elements from index [oid]. *)
Fixpoint clear_orders (n : nat) (oid : Z) : M MarketOrderBook unit :=
  match n with
  | O => mret tt
  | S n =>
    order ← gets (λ b, oid_to_order_ b !! oid);
    _ ← (match order with Some i => on_order_pool (deallocate i) | None => mret tt end);
    clear_orders n (oid + 1)
  end.
(** [for (p = best->next_entry_; p != best; p = p->next_entry_) deallocate(p)], then the best. *)
Fixpoint clear_rest (fuel : nat) (best p : option Z) : M MarketOrderBook unit :=
  match fuel with
  | O => raise OutOfFuel
  | S fuel =>
    if decide (p = best) then mret tt
    else
      i ← deref p;
      _ ← on_level_pool (deallocate i);
      l ← get_level p;
      clear_rest fuel best (moap_next_entry_ l)
  end.
Definition clear_levels (side : Side) : M MarketOrderBook unit :=
  best ← gets (best_by_price side);
  match best with
  | None => mret tt
  | Some i =>
    l ← get_level best;
    fuel ← gets (λ b, S (size (store_ (orders_at_price_pool_ b))));
    _ ← clear_rest fuel best (moap_next_entry_ l);
    on_level_pool (deallocate i)
  end.
(** The CLEAR case; [price_orders_at_price_] is not reset. *)
Definition clear_book : M MarketOrderBook unit :=
  _ ← clear_orders (Z.to_nat ME_MAX_ORDER_IDS) 0;
  _ ← modify (set_oid_to_order ∅);
  _ ← clear_levels Side_BUY;
  _ ← clear_levels Side_SELL;
  _ ← modify (set_best_by_price Side_SELL None);
  modify (set_best_by_price Side_BUY None).

(** ** Market updates *)
(** The [switch] on the type of an update that is not a TRADE. *)
Definition update_orders (u : MEMarketUpdate) : M MarketOrderBook unit :=
  match upd_type_ u with
  | MarketUpdateType_ADD =>
    order ← on_order_pool (allocate (MkMarketOrder (upd_order_id_ u) (upd_side_ u) (upd_price_ u)
               (upd_qty_ u) (upd_priority_ u) None None));
    addOrder order
  | MarketUpdateType_MODIFY =>
    order ← oid_at (upd_order_id_ u);
    put_order order (set_mkt_qty (upd_qty_ u))
  | MarketUpdateType_CANCEL =>
    order ← oid_at (upd_order_id_ u);
    removeOrder order
  | MarketUpdateType_CLEAR => clear_book
  | _ => mret tt
  end.
(** [best && update's side is [side] && the update's price is at least as good as the best]. *)
Definition touches_best (side : Side) (u : MEMarketUpdate) : M MarketOrderBook bool :=
  best ← gets (best_by_price side);
  match best with
  | None => mret false
  | Some _ =>
    if decide (upd_side_ u = side) then
      l ← get_level best;
      mret (if decide (side = Side_BUY) then moap_price_ l <=? upd_price_ u
            else upd_price_ u <=? moap_price_ l)
    else mret false
  end.

(** The book's own part of [onMarketUpdate], before the trade engine is told. *)
Definition apply_market_update (u : MEMarketUpdate) : M MarketOrderBook unit :=
  bid_updated ← touches_best Side_BUY u;
  ask_updated ← touches_best Side_SELL u;
  match upd_type_ u with
  | MarketUpdateType_TRADE => mret tt
  | _ => _ ← update_orders u; updateBBO bid_updated ask_updated
  end.

Section listener.
Context {E : Type} `{!BookListener E}.
Definition onMarketUpdate (u : MEMarketUpdate) : M (MarketOrderBook * E) unit :=
  _ ← zoom fst (λ b s, (b, s.2)) (apply_market_update u);
  bbo ← gets (λ s, bbo_ s.1);
  zoom snd (λ e s, (s.1, e))
    (match upd_type_ u with
     | MarketUpdateType_TRADE => listener_trade_update u bbo
     | _ => listener_order_book_update (upd_ticker_id_ u) (upd_price_ u) (upd_side_ u) bbo
     end).
End listener.
End MarketOrderBook.
