(* ===== verification/MarketOrderBookInv.v ===== *)
(** The heap of the client's [MarketOrderBook] as a [view], and its accesses.

    The orders of the feed have no client, so a [MarketOrder] is read as a resting order of client
    0 whose client order id is its order id ([quote_of]).  With what each access of the heap does to
    the view, and with the client's own walk [addOrdersAtPrice], the book is an instance of
    [BookLaws]; its [removeOrder] and [addOrder] are the programs of [BookHeap]. *)
From S2P Require Export MarketOrderBook BookAbs.
Export MarketOrderBook.

Definition quote_of (o : MarketOrder) : resting :=
  MkResting 0 (mkt_order_id_ o) (mkt_order_id_ o) (mkt_side_ o) (mkt_price_ o) (mkt_qty_ o)
    (mkt_priority_ o).

Definition view_of (b : MarketOrderBook) : view resting (Z * Z) :=
  let lp := orders_at_price_pool_ b in
  let op := order_pool_ b in
  MkView (λ s, best_by_price (to_side s) b)
    (λ p, moap_side_ (obj lp p)) (λ p, moap_price_ (obj lp p))
    (λ p, moap_first_mkt_order_ (obj lp p)) (λ p, moap_prev_entry_ (obj lp p))
    (λ p, moap_next_entry_ (obj lp p)) (λ p, negb (is_free lp p))
    (λ o, quote_of (obj op o)) (λ o, mkt_prev_order_ (obj op o))
    (λ o, mkt_next_order_ (obj op o)) (λ o, negb (is_free op o))
    (λ i, price_orders_at_price_ b !! i)
    (λ k, if decide (k.1 = 0) then oid_to_order_ b !! k.2 else None).

Definition quote_ok (r : resting) : Prop :=
  0 ≤ r_qty r < 2 ^ 32 ∧ r_client_id r = 0 ∧ mkt_oid_in_range (r_client_order_id r) = true.

Record pools_ok (b : MarketOrderBook) : Prop := {
  po_orders : pool_wf (order_pool_ b);
  po_levels : pool_wf (orders_at_price_pool_ b);
  po_orders_size : store_size (order_pool_ b) = ME_MAX_ORDER_IDS;
  po_levels_size : store_size (orders_at_price_pool_ b) = ME_MAX_PRICE_LEVELS;
}.
Lemma mkt_priceToIndex_range price : 0 ≤ priceToIndex price < ME_MAX_PRICE_LEVELS.
Proof. apply Z.mod_pos_bound. done. Qed.

(** The slots the two pools hand out next: of the orders, and of the levels. *)
Definition slots_of (b : MarketOrderBook) : Z * Z :=
  (next_free_ (order_pool_ b), next_free_ (orders_at_price_pool_ b)).
Definition bump_order_slot (n : Z * Z) : Z * Z := ((n.1 + 1) mod ME_MAX_ORDER_IDS, n.2).
Definition bump_level_slot (n : Z * Z) : Z * Z := (n.1, (n.2 + 1) mod ME_MAX_PRICE_LEVELS).

(** [denotes b V n]: the heap of [b] is [V], and its pools are at the slots [n]. *)
Record denotes (b : MarketOrderBook) (V : view resting (Z * Z)) (n : Z * Z) : Prop := {
  dn_view : view_of b = V;
  dn_pools : pools_ok b;
  dn_slots : slots_of b = n;
}.
Lemma mkt_denotes_eq b V V' n : denotes b V n → V = V' → denotes b V' n.
Proof. by intros ? <-. Qed.

(** ** The accesses of the member functions, on views *)
Section accesses.
Context (b : MarketOrderBook) (V : view resting (Z * Z)) (n : Z * Z) (Hb : denotes b V n).

Ltac view_tac :=
  apply view_ext; simpl; intros; unfold insert, fn_insert;
  rewrite ?obj_set_obj, ?is_free_set_obj, ?obj_set_free, ?is_free_set_free,
    ?obj_allocated, ?is_free_allocated, ?lookup_partial_alter;
  repeat case_decide; subst; split_and?; done.
Ltac den := split; [|destruct (dn_pools _ _ _ Hb); split; simpl; auto with hft|apply Hb];
  rewrite <- (dn_view _ _ _ Hb); view_tac.

Lemma mkt_wp_get_order i (Φ : MarketOrder → MarketOrderBook → Prop) :
  (∀ x, quote_of x = v_data V i → mkt_prev_order_ x = v_oprev V i →
     mkt_next_order_ x = v_onext V i → Φ x b) →
  wp (get_order (Some i)) b Φ.
Proof. rewrite <- (dn_view _ _ _ Hb). intros H. by apply H. Qed.
Lemma mkt_wp_get_level p (Φ : MarketOrdersAtPrice → MarketOrderBook → Prop) :
  Φ (MkMarketOrdersAtPrice (v_lside V p) (v_lprice V p) (v_lfirst V p) (v_lprev V p) (v_lnext V p)) b →
  wp (get_level (Some p)) b Φ.
Proof.
  rewrite <- (dn_view _ _ _ Hb). intros H. unfold wp. simpl in *.
  by destruct (obj (orders_at_price_pool_ b) p).
Qed.
Lemma mkt_wp_get_best s (Φ : option Z → MarketOrderBook → Prop) :
  Φ (v_best V s) b → wp (gets (best_by_price (to_side s))) b Φ.
Proof. by rewrite <- (dn_view _ _ _ Hb). Qed.
Lemma mkt_wp_getOrdersAtPrice price (Φ : option Z → MarketOrderBook → Prop) :
  Φ (v_pmap V (priceToIndex price)) b → wp (getOrdersAtPrice price) b Φ.
Proof.
  rewrite <- (dn_view _ _ _ Hb). intros H. unfold wp, getOrdersAtPrice, price_map_at.
  pose proof (mkt_priceToIndex_range price). by rewrite (proj2 (andb_true_iff _ _)) by lia.
Qed.
Lemma wp_oid_at o (Φ : option Z → MarketOrderBook → Prop) :
  mkt_oid_in_range o = true → Φ (v_omap V (0, o)) b → wp (oid_at o) b Φ.
Proof. rewrite <- (dn_view _ _ _ Hb). intros Hr H. unfold wp, oid_at. by rewrite Hr. Qed.

Lemma mkt_wp_put_order_next i v (Φ : unit → MarketOrderBook → Prop) :
  (∀ b', denotes b' (vs_onext i v V) n → Φ tt b') →
  wp (put_order (Some i) (set_mkt_next_order v)) b Φ.
Proof. intros H. apply H. den. Qed.
Lemma mkt_wp_put_order_prev i v (Φ : unit → MarketOrderBook → Prop) :
  (∀ b', denotes b' (vs_oprev i v V) n → Φ tt b') →
  wp (put_order (Some i) (set_mkt_prev_order v)) b Φ.
Proof. intros H. apply H. den. Qed.
Lemma mkt_wp_put_order_qty i q (Φ : unit → MarketOrderBook → Prop) :
  (∀ b', denotes b' (vs_data i (set_r_qty q (v_data V i)) V) n → Φ tt b') →
  wp (put_order (Some i) (set_mkt_qty q)) b Φ.
Proof. intros H. apply H. den. Qed.
Lemma mkt_wp_put_level_first i v (Φ : unit → MarketOrderBook → Prop) :
  (∀ b', denotes b' (vs_lfirst i v V) n → Φ tt b') →
  wp (put_level (Some i) (set_moap_first v)) b Φ.
Proof. intros H. apply H. den. Qed.
Lemma mkt_wp_put_level_prev i v (Φ : unit → MarketOrderBook → Prop) :
  (∀ b', denotes b' (vs_lprev i v V) n → Φ tt b') →
  wp (put_level (Some i) (set_moap_prev v)) b Φ.
Proof. intros H. apply H. den. Qed.
Lemma mkt_wp_put_level_next i v (Φ : unit → MarketOrderBook → Prop) :
  (∀ b', denotes b' (vs_lnext i v V) n → Φ tt b') →
  wp (put_level (Some i) (set_moap_next v)) b Φ.
Proof. intros H. apply H. den. Qed.
Lemma mkt_wp_set_best s p (Φ : unit → MarketOrderBook → Prop) :
  (∀ b', denotes b' (vs_best s p V) n → Φ tt b') →
  wp (modify (set_best_by_price (to_side s) p)) b Φ.
Proof.
  intros H. apply H. destruct Hb as [<- [] <-]. destruct s; split; try done;
    apply view_ext; simpl; intros; try done; unfold insert, fn_insert;
    repeat case_decide; subst; try done; by destruct s.
Qed.
Lemma mkt_wp_price_map_assign price p (Φ : unit → MarketOrderBook → Prop) :
  (∀ b', denotes b' (vs_pmap (priceToIndex price) p V) n → Φ tt b') →
  wp (price_map_assign (priceToIndex price) p) b Φ.
Proof.
  intros H. unfold price_map_assign. pose proof (mkt_priceToIndex_range price).
  rewrite (proj2 (andb_true_iff _ _)) by lia. apply H. den.
Qed.
Lemma wp_oid_assign o p (Φ : unit → MarketOrderBook → Prop) :
  mkt_oid_in_range o = true →
  (∀ b', denotes b' (vs_omap (0, o) p V) n → Φ tt b') → wp (oid_assign o p) b Φ.
Proof.
  intros Hr H. unfold oid_assign. rewrite Hr. apply H.
  split; [|destruct (dn_pools _ _ _ Hb); split; simpl; auto with hft|apply Hb].
  rewrite <- (dn_view _ _ _ Hb). apply view_ext; try done.
  intros [c o']. simpl. unfold insert, fn_insert. rewrite lookup_partial_alter.
  repeat case_decide; simplify_eq; done.
Qed.
Lemma mkt_wp_dealloc_order i (Φ : unit → MarketOrderBook → Prop) :
  0 ≤ i < ME_MAX_ORDER_IDS →
  (∀ b', denotes b' (vs_olive i false V) n → Φ tt b') →
  wp (on_order_pool (deallocate i)) b Φ.
Proof.
  intros Hi H. apply wp_zoom. pose proof (po_orders_size _ (dn_pools _ _ _ Hb)).
  unfold wp. rewrite deallocate_ok by (unfold in_store; lia). apply H. den.
Qed.
Lemma mkt_wp_dealloc_level i (Φ : unit → MarketOrderBook → Prop) :
  0 ≤ i < ME_MAX_PRICE_LEVELS →
  (∀ b', denotes b' (vs_llive i false V) n → Φ tt b') →
  wp (on_level_pool (deallocate i)) b Φ.
Proof.
  intros Hi H. apply wp_zoom. pose proof (po_levels_size _ (dn_pools _ _ _ Hb)).
  unfold wp. rewrite deallocate_ok by (unfold in_store; lia). apply H. den.
Qed.
Lemma mkt_wp_alloc_order x (Φ : option Z → MarketOrderBook → Prop) :
  v_olive V n.1 = false → mkt_prev_order_ x = None → mkt_next_order_ x = None →
  (∀ b', denotes b' (vs_order n.1 (quote_of x) V) (bump_order_slot n) → Φ (Some n.1) b') →
  wp (on_order_pool (allocate x)) b Φ.
Proof.
  rewrite <- (dn_slots _ _ _ Hb), <- (dn_view _ _ _ Hb). simpl. intros Hf Hp Hn H.
  apply wp_zoom. unfold wp. apply negb_false_iff in Hf.
  rewrite allocate_free by (done || apply (dn_pools _ _ _ Hb)). apply H. split.
  - view_tac; congruence.
  - destruct (dn_pools _ _ _ Hb). split; simpl; auto with hft.
  - unfold slots_of, bump_order_slot. simpl. by rewrite (po_orders_size _ (dn_pools _ _ _ Hb)).
Qed.
Lemma mkt_wp_alloc_level x (Φ : option Z → MarketOrderBook → Prop) :
  v_llive V n.2 = false → moap_prev_entry_ x = None → moap_next_entry_ x = None →
  (∀ b', denotes b' (vs_level n.2 (moap_side_ x) (moap_price_ x) (moap_first_mkt_order_ x) V)
     (bump_level_slot n) → Φ (Some n.2) b') →
  wp (on_level_pool (allocate x)) b Φ.
Proof.
  rewrite <- (dn_slots _ _ _ Hb), <- (dn_view _ _ _ Hb). simpl. intros Hf Hp Hn H.
  apply wp_zoom. unfold wp. apply negb_false_iff in Hf.
  rewrite allocate_free by (done || apply (dn_pools _ _ _ Hb)). apply H. split.
  - view_tac; congruence.
  - destruct (dn_pools _ _ _ Hb). split; simpl; auto with hft.
  - unfold slots_of, bump_level_slot. simpl. by rewrite (po_levels_size _ (dn_pools _ _ _ Hb)).
Qed.
End accesses.

(** [mps] runs [addOrdersAtPrice] up to the next conditional, keeping track of the view. *)
Ltac mps_rule :=
  lazymatch goal with
  | |- wp (mret _) _ _ => apply wp_ret
  | |- wp (gets (best_by_price (to_side _))) _ _ => eapply mkt_wp_get_best; [eassumption|]
  | |- wp (get_level (Some _)) _ _ => eapply mkt_wp_get_level; [eassumption|]
  | |- wp (put_level (Some _) (set_moap_prev _)) _ _ =>
    eapply mkt_wp_put_level_prev; [eassumption|intros ? ?]
  | |- wp (put_level (Some _) (set_moap_next _)) _ _ =>
    eapply mkt_wp_put_level_next; [eassumption|intros ? ?]
  | |- wp (modify (set_best_by_price (to_side _) _)) _ _ =>
    eapply mkt_wp_set_best; [eassumption|intros ? ?]
  | |- wp (price_map_assign _ _) _ _ => eapply mkt_wp_price_map_assign; [eassumption|intros ? ?]
  end.
Ltac mps :=
  repeat (lazymatch goal with
    | |- wp (_ ≫= _) _ _ => apply wp_bind
    | _ => mps_rule
    end; cbn -[wp to_side obj ME_MAX_PRICE_LEVELS priceToIndex get_level put_level gets modify
      find_target worse_than insert]).

(** ** addOrdersAtPrice *)
Lemma worse_than_side s price level_price :
  worse_than (to_side s) price level_price = bool_decide (better s level_price price).
Proof. unfold worse_than. destruct s; simpl; case_bool_decide; lia. Qed.

Section walk.
Context (b : MarketOrderBook) (W : view resting (Z * Z)) (n : Z * Z) (Hb : denotes b W n).
Context (s : bool) (px : Z) (ls : list Z) (p : Z) (Hlk : linkable W s px ls p).

Lemma worse_spec q : q ∈ ls →
  worse_than (to_side s) px (v_lprice W q) = bool_decide (¬ better s px (v_lprice W q)).
Proof.
  intros Hq. rewrite worse_than_side. apply bool_decide_ext.
  split; [destruct s; simpl; lia|by apply (not_better_lt _ _ _ _ _ Hlk)].
Qed.
Lemma walk_next pre t suf : ls = pre ++ t :: suf → v_lnext W t = head (suf ++ ls).
Proof.
  intros Hls. pose proof (lk_ring _ _ _ _ _ Hlk) as Hr. rewrite Hls in Hr |- * at 1.
  rewrite (ring_next_head _ _ _ _ _ Hr). by destruct suf, pre.
Qed.

(** Where the walk stops: before the first level that is worse than [px], or back at the best level
    after the whole side. *)
Definition stop_at (r : bool * option Z) : Prop :=
  (r = (true, head ls) ∧ ∀ q, q ∈ ls → ¬ better s px (v_lprice W q)) ∨
  ∃ pre t suf, r = (false, Some t) ∧ ls = pre ++ t :: suf ∧
    (∀ q, q ∈ pre → ¬ better s px (v_lprice W q)) ∧ better s px (v_lprice W t).

Lemma find_target_stop fuel best t :
  wp (find_target (S fuel) (to_side s) px best false t) b (λ r b', b' = b ∧ r = (false, t)).
Proof. cbn [find_target]. by apply wp_ret. Qed.
Lemma find_target_round fuel best :
  wp (find_target (S fuel) (to_side s) px best true best) b (λ r b', b' = b ∧ r = (true, best)).
Proof. cbn [find_target]. rewrite bool_decide_true by done. by apply wp_ret. Qed.
Lemma mkt_wp_find_target fuel pre t suf :
  ls = pre ++ t :: suf → pre ≠ [] → (length suf < fuel)%nat →
  (∀ q, q ∈ pre → ¬ better s px (v_lprice W q)) →
  wp (find_target (S fuel) (to_side s) px (head ls) true (Some t)) b (λ r b', b' = b ∧ stop_at r).
Proof.
  revert pre t suf. induction fuel as [|fuel IH]; intros pre t suf Hls Hne Hf Hpre; [lia|].
  assert (t ∈ ls) as Ht by (rewrite Hls; apply elem_of_insert; auto).
  remember (S fuel) as f eqn:Ef. cbn [find_target].
  rewrite bool_decide_false.
  2:{ intros E. pose proof (lk_nodup _ _ _ _ _ Hlk) as Hnd.
    rewrite Hls in E, Hnd. destruct pre as [|y pre]; [done|]. injection E as <-.
    apply (NoDup_app_cons_inv (t :: pre)) in Hnd as [Hn _]. by apply Hn; left. }
  cbn [andb negb]. mps. rewrite worse_spec by done. subst f.
  destruct (bool_decide_reflect (¬ better s px (v_lprice W t))) as [Hnb|Hnb].
  2:{ eapply wp_mono; [apply find_target_stop|]. intros r ? [-> ->]. split; [done|].
      right. exists pre, t, suf. split_and!; auto. by apply dec_stable. }
  rewrite (walk_next pre t suf Hls).
  assert (∀ q, q ∈ pre ++ [t] → ¬ better s px (v_lprice W q)) as Hpre'.
  { intros q [?| ->%list_elem_of_singleton]%elem_of_app; auto. }
  destruct suf as [|y suf].
  - eapply wp_mono; [apply find_target_round|]. intros r ? [-> ->]. split; [done|].
    left. split; [done|]. intros q. rewrite Hls. apply Hpre'.
  - apply (IH (pre ++ [t]) y suf); [by rewrite <- (assoc_L (++))|by destruct pre|simpl in *; lia|done].
Qed.

(** The comparisons before the loop. *)
Definition start_at (best : option Z) : M MarketOrderBook (bool * option Z) :=
  t ← get_level best;
  if worse_than (to_side s) px (moap_price_ t) then
    let target := moap_next_entry_ t in
    t ← get_level target;
    mret (worse_than (to_side s) px (moap_price_ t), target)
  else mret (false, best).
Lemma wp_start_at :
  ls ≠ [] → wp (start_at (head ls)) b (λ r b', b' = b ∧ ∀ fuel, (length ls < fuel)%nat →
    wp (find_target fuel (to_side s) px (head ls) r.1 r.2) b (λ r b', b' = b ∧ stop_at r)).
Proof.
  intros Hne. assert (∃ best suf, ls = best :: suf) as (best & suf & Els).
  { clear -Hne. destruct ls; [done|eauto]. }
  assert (best ∈ ls) as Hbest by (rewrite Els; left).
  assert (head ls = Some best) as Hhd by by rewrite Els.
  assert (∀ P : nat → Prop,
    (∀ fuel, (length suf < S fuel)%nat → P (S (S fuel))) →
    b = b ∧ ∀ fuel, (length ls < fuel)%nat → P fuel) as Hfuel.
  { intros P H. split; [done|]. intros [|[|fuel]] Hf; rewrite Els in Hf; simpl in Hf; [lia..|].
    apply H. lia. }
  unfold start_at. rewrite Hhd. mps. rewrite worse_spec by done.
  destruct (bool_decide_reflect (¬ better s px (v_lprice W best))) as [Hnb|Hnb].
  2:{ mps. apply Hfuel. intros fuel _.
      eapply wp_mono; [apply find_target_stop|]. intros r ? [-> ->].
      split; [done|]. right. exists [], best, suf. split_and!; try done.
      - by intros q ?%not_elem_of_nil.
      - by apply dec_stable. }
  rewrite (walk_next [] best suf Els).
  destruct suf as [|y suf]; cbn [app head]; rewrite ?Hhd.
  - mps. rewrite worse_spec, bool_decide_true by done. apply Hfuel. intros fuel _.
    eapply wp_mono; [apply find_target_round|]. intros r ? [-> ->]. split; [done|].
    left. split; [by rewrite Hhd|]. intros q. by rewrite Els, list_elem_of_singleton; intros ->.
  - assert (y ∈ ls) as Hy by (rewrite Els; right; left).
    mps. rewrite worse_spec by done. apply Hfuel. intros fuel Hf.
    destruct (bool_decide_reflect (¬ better s px (v_lprice W y))) as [Hnb'|Hnb'].
    + rewrite <- Hhd. apply (mkt_wp_find_target (S fuel) [best] y suf); [done|done|simpl in Hf; lia|].
      by intros q ->%list_elem_of_singleton.
    + eapply wp_mono; [apply find_target_stop|]. intros r ? [-> ->]. split; [done|].
      right. exists [best], y, suf. split_and!; try done; [|by apply dec_stable].
      by intros q ->%list_elem_of_singleton.
Qed.

Lemma mkt_levels_fuel : (length ls ≤ size (store_ (orders_at_price_pool_ b)))%nat.
Proof.
  apply live_count; [apply Hlk|]. apply Forall_forall. intros q Hq.
  pose proof (lk_live _ _ _ _ _ Hlk q Hq) as Hl.
  rewrite <- (dn_view _ _ _ Hb) in Hl. simpl in Hl. unfold live. by destruct (is_free _ _).
Qed.

End walk.

(** When a level is linked before the best level, the successor of the best level is not itself, so
    the assignment after the linking changes nothing. *)
Lemma best_next_moved (W : view resting (Z * Z)) s px p best suf z :
  linkable W s px (best :: suf) p → v_lprev W best = Some z →
  <[z := Some p]> (<[p := Some best]> (v_lnext W)) best ≠ Some best.
Proof.
  intros [Hr Hnd _ _ _ _ Hp _ _] Hz E.
  assert (p ≠ best) by (intros ->; apply Hp; left).
  destruct (decide (z = best)) as [->|Hzb]; [rewrite fn_lookup_insert in E; congruence|].
  rewrite !fn_lookup_insert_ne in E by done.
  apply (ring_next_self _ _ [] best suf Hnd Hr) in E. simpl in E. subst suf.
  apply Hzb. by pose proof (ring_prev_last _ _ [] best [] Hr) as [= <-]%(eq_trans (eq_sym Hz)).
Qed.

Lemma mkt_addOrdersAtPrice_ok b W n s px ls p :
  denotes b W n → linkable W s px ls p →
  wp (addOrdersAtPrice (Some p)) b (λ _ b', ∃ l1 l2 z x,
    placed W s px ls p l1 l2 z x ∧ denotes b' (level_linked priceToIndex W s px p l1 l2 z x) n).
Proof.
  intros Hb Hlk. pose proof Hlk as [Hring Hnd Hlive Hbest Hsorted Hfresh Hp Hside Hprice].
  unfold addOrdersAtPrice. apply wp_bind. eapply mkt_wp_get_level; [eassumption|]. cbn [moap_side_ moap_price_].
  rewrite Hprice, Hside. mps. rewrite Hbest.
  set (W1 := vs_pmap (priceToIndex px) (Some p) W) in *.
  assert (linkable W1 s px ls p) as Hlk1 by by split.
  destruct (decide (ls = [])) as [Hls|Hls].
  { rewrite Hls. simpl. mps. exists [], [], p, p. unfold placed.
    split; [by split_and!; try done; intros q ?%not_elem_of_nil|].
    eapply mkt_denotes_eq; [done|]. unfold W1. view_ext_tac. }
  destruct (head ls) as [best|] eqn:Hhead; [|by apply head_None in Hhead].
  rewrite <- Hhead.
  apply wp_bind_assoc. eapply wp_mono; [by eapply (wp_start_at b' W1 n ltac:(eassumption) s px ls p Hlk1)|].
  intros at_next ? [-> Hwalk]. apply wp_bind, wp_gets, wp_bind.
  eapply wp_mono; [apply Hwalk|].
  { pose proof (mkt_levels_fuel b' W1 n ltac:(eassumption) s px ls p Hlk1). lia. }
  clear Hwalk at_next. intros r b1 [-> [[-> Hworse]|(pre & t & suf & -> & Hls' & Hpre & Hbt)]].
  - rewrite decide_True by done. rewrite Hhead. apply head_Some in Hhead as [suf Els].
    pose proof Hring as Hr. rewrite Els in Hr. destruct (ring_prev _ _ _ _ Hr) as (t & Hl & Hbt & _).
    rewrite <- Els in Hl. apply last_Some in Hl as [pre Hls'].
    assert (t ∈ ls) as Ht by (rewrite Hls'; apply elem_of_insert; auto).
    destruct (placed_after W1 s px ls p Hlk1 pre t Hls') as (x & Hx & Hxin & Hhx & Hplaced).
    { intros q Hq. apply Hworse. rewrite Hls'. apply elem_of_app. auto. }
    { by apply Hworse. }
    assert (t ≠ p ∧ x ≠ p) as [Htp Hxp] by (split; intros ->; auto).
    simpl in Hx. mps. rewrite Hbt. mps. rewrite Hx. mps.
    exists ls, [], t, x. split; [done|]. eapply mkt_denotes_eq; [eassumption|].
    unfold W1. view_ext_tac.
  - assert (t ∈ ls) as Ht by (rewrite Hls'; apply elem_of_insert; auto).
    destruct (placed_before W1 s px ls p Hlk1 pre t suf Hls' Hpre Hbt) as (z & Hz & Hzin & Hplaced).
    assert (t ≠ p ∧ z ≠ p) as [Htp Hzp] by (split; intros ->; auto).
    simpl in Hz, Hbt. mps. rewrite fn_lookup_insert_ne, Hz by done. mps. rewrite Hhead. mps.
    assert (bool_decide (to_side s = Side_BUY) && (v_lprice W best <? px)
        || bool_decide (to_side s = Side_SELL) && (px <? v_lprice W best)
      = bool_decide (better s px (v_lprice W best))) as ->.
    { by destruct s; simpl; case_bool_decide; repeat case_bool_decide; simplify_eq; lia. }
    destruct pre as [|y pre]; rewrite Hls' in Hhead; injection Hhead as ->.
    + rewrite bool_decide_true by done.
      assert (<[z := Some p]> (<[p := Some best]> (v_lnext W)) best ≠ Some best) as Hnx.
      { simpl in Hls'. subst ls. by eapply best_next_moved. }
      mps. rewrite decide_False in * by done.
      exists [], (best :: suf), z, best. split; [done|].
      eapply mkt_denotes_eq; [eassumption|]. unfold W1. view_ext_tac.
    + rewrite bool_decide_false by (apply Hpre; left). mps.
      exists (best :: pre), (t :: suf), z, t. split; [done|].
      eapply mkt_denotes_eq; [eassumption|]. unfold W1. view_ext_tac.
Qed.

(** ** The shared member functions *)
#[export] Instance MarketOrderBook_ops : BookOps MarketOrderBook resting := {|
  on_data := quote_of;
  on_prev := mkt_prev_order_;
  on_next := mkt_next_order_;
  ln_side := moap_side_;
  ln_price := moap_price_;
  ln_first := moap_first_mkt_order_;
  ln_prev := moap_prev_entry_;
  ln_next := moap_next_entry_;
  op_get_order := get_order;
  op_put_oprev i v := put_order i (set_mkt_prev_order v);
  op_put_onext i v := put_order i (set_mkt_next_order v);
  op_get_level := get_level;
  op_put_lfirst i v := put_level i (set_moap_first v);
  op_put_lprev i v := put_level i (set_moap_prev v);
  op_put_lnext i v := put_level i (set_moap_next v);
  op_get_best side := gets (best_by_price side);
  op_set_best side p := modify (set_best_by_price side p);
  op_level_at := getOrdersAtPrice;
  op_level_assign price := price_map_assign (priceToIndex price);
  op_key_assign o := oid_assign (mkt_order_id_ o);
  op_free_order i := on_order_pool (deallocate i);
  op_free_level i := on_level_pool (deallocate i);
  op_new_level side price first :=
    on_level_pool (allocate (MkMarketOrdersAtPrice side price first None None));
  op_link_level := addOrdersAtPrice;
|}.
Lemma mkt_removeOrder_heap : removeOrder = heap_removeOrder.
Proof. reflexivity. Qed.
Lemma mkt_addOrder_heap : addOrder = heap_addOrder.
Proof. reflexivity. Qed.

#[export] Program Instance MarketOrderBook_laws :
  BookLaws MarketOrderBook resting (Z * Z) (Z * Z) priceToIndex quote_ok := {|
  heap_is := denotes;
  level_slot := snd;
  next_level_slot := bump_level_slot;
|}.
Next Obligation. intros b V n i Φ Hb H. eapply mkt_wp_get_order; [exact Hb|]. exact H. Qed.
Next Obligation. intros b V n p Φ Hb H. eapply mkt_wp_get_level; [exact Hb|]. by apply H. Qed.
Next Obligation. intros. by eapply mkt_wp_get_best. Qed.
Next Obligation. intros. by eapply mkt_wp_getOrdersAtPrice. Qed.
Next Obligation. intros. by eapply mkt_wp_put_order_next. Qed.
Next Obligation. intros. by eapply mkt_wp_put_order_prev. Qed.
Next Obligation. intros. by eapply mkt_wp_put_level_first. Qed.
Next Obligation. intros. by eapply mkt_wp_put_level_prev. Qed.
Next Obligation. intros. by eapply mkt_wp_put_level_next. Qed.
Next Obligation. intros. by eapply mkt_wp_set_best. Qed.
Next Obligation. intros. by eapply mkt_wp_price_map_assign. Qed.
Next Obligation. intros b V n x p Φ Hb (_ & _ & Hr) H. by eapply wp_oid_assign. Qed.
Next Obligation. intros. by eapply mkt_wp_dealloc_order. Qed.
Next Obligation. intros. by eapply mkt_wp_dealloc_level. Qed.
Next Obligation. intros b V n ? side price first Φ Hb <- Hf H. by eapply mkt_wp_alloc_level. Qed.
Next Obligation. intros. by apply mkt_addOrdersAtPrice_ok. Qed.
