(* ===== verification/MarketOrderBookRefine.v ===== *)
(** The client's [MarketOrderBook] refines the abstract book.

    [quotes b k]: the book [b] of the code holds the abstract book [k], whose orders are quotes (client
    0).  [book_update] says what an update does to an abstract book; [update_orders] computes it, and
    [updateBBO] reports the top of the result for the sides the update touched. *)
From S2P Require Export MarketOrderBookInv MEOrderBookLaws.

(** ** What an update means *)
Definition quote_key (oid : Z) : Z * Z := (0, oid).
Definition quote_of_update (u : MEMarketUpdate) : resting :=
  MkResting 0 (upd_order_id_ u) (upd_order_id_ u) (upd_side_ u) (upd_price_ u) (upd_qty_ u)
    (upd_priority_ u).
Definition is_buy (side : Side) : bool := bool_decide (side = Side_BUY).
Definition rest_in_book (r : resting) (k : sbook) : sbook :=
  let s := is_buy (r_side r) in s_set_levels s (rest_order s r (s_levels s k)) k.

Definition book_update (u : MEMarketUpdate) (k : sbook) : sbook :=
  match upd_type_ u with
  | MarketUpdateType_ADD => rest_in_book (quote_of_update u) k
  | MarketUpdateType_MODIFY => requantify_book (quote_key (upd_order_id_ u)) (upd_qty_ u) k
  | MarketUpdateType_CANCEL => cancel_in_book (quote_key (upd_order_id_ u)) k
  | MarketUpdateType_CLEAR => MkSBook [] []
  | _ => k
  end.

(** The price and the quantity (32 bits) of the best level of a side. *)
Definition spec_top (s : bool) (k : sbook) : Z * Z :=
  match s_levels s k with
  | [] => (Price_INVALID, Qty_INVALID)
  | (px, rs) :: _ => (px, u32 (zsum r_qty rs))
  end.
Definition bbo_side (s : bool) (x : BBO) : Z * Z :=
  if s then (bid_price_ x, bid_qty_ x) else (ask_price_ x, ask_qty_ x).
(** The update is on side [s] and at least as good as its best price. *)
Definition touches (s : bool) (u : MEMarketUpdate) (k : sbook) : bool :=
  match s_levels s k with
  | [] => false
  | (px, _) :: _ =>
    bool_decide (upd_side_ u = to_side s) && bool_decide (¬ better s px (upd_price_ u))
  end.

(** ** What the code needs of an update *)
Definition quotes (b : MarketOrderBook) (k : sbook) : Prop :=
  ∃ V L, denotes b V (slots_of b) ∧ vinv priceToIndex quote_ok V L ∧ abs_book V L = k.
Definition has_slots (b : MarketOrderBook) : bool :=
  is_free (order_pool_ b) (next_free_ (order_pool_ b)) &&
  is_free (orders_at_price_pool_ b) (next_free_ (orders_at_price_pool_ b)).
(** An ADD needs a fresh id, a side, and that its price shares its slot with no other price of the
    book; a MODIFY or a CANCEL an order. *)
Definition takes (u : MEMarketUpdate) (k : sbook) : Prop :=
  match upd_type_ u with
  | MarketUpdateType_ADD =>
    mkt_oid_in_range (upd_order_id_ u) = true ∧ find_order (quote_key (upd_order_id_ u)) k = None ∧
    0 ≤ upd_qty_ u < 2 ^ 32 ∧ upd_side_ u = to_side (is_buy (upd_side_ u)) ∧
    no_collision (is_buy (upd_side_ u)) (upd_price_ u) priceToIndex k = true
  | MarketUpdateType_MODIFY =>
    is_Some (find_order (quote_key (upd_order_id_ u)) k) ∧ 0 ≤ upd_qty_ u < 2 ^ 32
  | MarketUpdateType_CANCEL => is_Some (find_order (quote_key (upd_order_id_ u)) k)
  | MarketUpdateType_CLEAR => False
  | _ => True
  end.
(** An ADD also needs the next slot of each pool. *)
Definition updatable (u : MEMarketUpdate) (b : MarketOrderBook) (k : sbook) : Prop :=
  takes u k ∧ (upd_type_ u = MarketUpdateType_ADD → has_slots b = true).

Section refine.
Implicit Types (b : MarketOrderBook) (V : view resting (Z * Z)) (L : layout).
#[local] Abbreviation vinv := (vinv priceToIndex quote_ok).

Lemma quotes_intro b V L n : denotes b V n → vinv V L → quotes b (abs_book V L).
Proof. intros Hb Hi. exists V, L. split_and!; [|done|done]. by rewrite (dn_slots _ _ _ Hb). Qed.

Lemma find_none_fresh V L key :
  vinv V L → find_order key (abs_book V L) = None → v_omap V key = None.
Proof. intros Hi. rewrite (omap_find V L key Hi). by destruct (v_omap V key). Qed.

Lemma add_update_ok u b k :
  upd_type_ u = MarketUpdateType_ADD → quotes b k → updatable u b k →
  wp (update_orders u) b (λ _ b', quotes b' (rest_in_book (quote_of_update u) k)).
Proof.
  intros Ht (V & L & Hb & Hinv & <-). unfold updatable, takes, update_orders. rewrite Ht.
  intros [(Hr & Hf & Hq & Hs & Hnc) Hslots]. specialize (Hslots eq_refl). pose proof (dn_pools _ _ _ Hb) as [[_ Hno] [_ Hnl] Eo El].
  rewrite Eo in Hno. rewrite El in Hnl.
  apply andb_true_iff in Hslots as [Hso Hsl].
  assert (v_olive V (slots_of b).1 = false ∧ v_llive V (slots_of b).2 = false) as [Hol Hll].
  { rewrite <- (dn_view _ _ _ Hb). simpl. by rewrite Hso, Hsl. }
  apply wp_bind. eapply (mkt_wp_alloc_order b V _ Hb); [done..|]. intros b1 Hb1.
  set (s := is_buy (upd_side_ u)) in *. rewrite mkt_addOrder_heap.
  eapply wp_mono.
  { refine (heap_addOrder_rest priceToIndex quote_ok b1 V L (bump_order_slot (slots_of b)) Hinv s
      (slots_of b).1 (quote_of_update u) Hs Hol Hno _ _ _ Hnl Hb1).
    - done.
    - by apply (find_none_fresh V L).
    - by eapply no_collision_slot. }
  intros _ b2 (V2 & L2 & n2 & Hb2 & Hinv2 & _ & Habs). unfold rest_in_book. simpl. fold s.
  rewrite <- Habs. by eapply quotes_intro.
Qed.

(** The order of an id, in the view. *)
Lemma find_quote V L oid r :
  vinv V L → find_order (quote_key oid) (abs_book V L) = Some r →
  ∃ o s, v_omap V (quote_key oid) = Some o ∧ o ∈ ords (L s) ∧ v_olive V o = true ∧ v_data V o = r ∧
    r_key r = quote_key oid ∧ mkt_oid_in_range oid = true.
Proof.
  intros Hinv. rewrite (omap_find V L _ Hinv). intros (o & Ho & ->)%fmap_Some.
  pose proof (vi_wf _ _ Hinv) as Hwf. apply (wf_omap _ _ _ Hwf) in Ho as Ho'. destruct Ho' as [Hl Hk].
  apply (wf_olive _ _ _ Hwf) in Hl as Hs. destruct Hs as [s Hs].
  destruct (vi_orders _ _ Hinv o Hl) as (_ & _ & Hr). injection Hk as _ Hid. rewrite Hid in Hr.
  exists o, s. split_and!; try done. by apply (wf_omap _ _ _ Hwf).
Qed.

Lemma update_orders_ok u b k :
  quotes b k → updatable u b k → wp (update_orders u) b (λ _ b', quotes b' (book_update u k)).
Proof.
  intros Hq Hu. unfold book_update. destruct (upd_type_ u) eqn:Ht;
    try (unfold update_orders; rewrite Ht; by apply wp_ret).
  - unfold updatable, takes in Hu. rewrite Ht in Hu. by destruct Hu.
  - by apply add_update_ok.
  - destruct Hq as (V & L & Hb & Hinv & <-). unfold updatable, takes, update_orders in *. rewrite Ht in *.
    destruct Hu as [[[r Hr] Hqty] _].
    destruct (find_quote V L _ r Hinv Hr) as (o & s & Ho & Hs & _ & <- & Hk & Hrange).
    apply wp_bind. eapply (wp_oid_at b V _ Hb); [done|]. fold (quote_key (upd_order_id_ u)). rewrite Ho.
    eapply (mkt_wp_put_order_qty b V _ Hb). intros b' Hb'.
    rewrite <- Hk, <- (requantify_abs V (vs_data o (set_r_qty (upd_qty_ u) (v_data V o)) V) L s o)
      by done.
    eapply quotes_intro; [done|]. apply vinv_requantify with s; [done..|].
    by destruct (vi_orders _ _ Hinv o (wf_order_live _ _ _ _ _ (vi_wf _ _ Hinv) Hs)) as [_ ?].
  - destruct Hq as (V & L & Hb & Hinv & <-). unfold updatable, takes, update_orders in *. rewrite Ht in *.
    destruct Hu as [[r Hr] _].
    destruct (find_quote V L _ r Hinv Hr) as (o & s & Ho & Hs & _ & <- & Hk & Hrange).
    apply wp_bind. eapply (wp_oid_at b V _ Hb); [done|]. fold (quote_key (upd_order_id_ u)). rewrite Ho.
    rewrite mkt_removeOrder_heap. eapply wp_mono.
    { by apply (heap_removeOrder_cancel priceToIndex quote_ok b V L (slots_of b) o (quote_key (upd_order_id_ u))). }
    intros _ b' (V' & L' & Hb' & Hinv' & <-). by eapply quotes_intro.
Qed.

(** ** The top of the book *)
Lemma quotes_set_bbo x b k : quotes b k → quotes (set_bbo x b) k.
Proof.
  intros (V & L & [<- [] Hs] & Hinv & <-). by exists (view_of b), L.
Qed.

Lemma sum_orders_ok b V n os first pre suf fuel qty :
  denotes b V n → ring (v_onext V) (v_oprev V) os → NoDup os → head os = first →
  os = pre ++ suf → pre ≠ [] → (length suf < fuel)%nat → 0 ≤ qty < 2 ^ 32 →
  wp (sum_orders fuel first (head (suf ++ os)) qty) b
    (λ q b', b' = b ∧ q = u32 (qty + zsum (λ o, r_qty (v_data V o)) suf)).
Proof.
  intros Hb Hr Hnd Hfirst. revert pre suf qty. induction fuel as [|fuel IH]; [lia|].
  intros pre suf qty Hos Hpre Hf Hq. cbn [sum_orders]. destruct suf as [|o suf].
  - rewrite decide_True by done. apply wp_ret. unfold zsum. simpl. by rewrite Z.add_0_r, u32_id.
  - cbn [app head]. rewrite decide_False.
    2:{ rewrite <- Hfirst, Hos. destruct pre as [|o' pre]; [done|]. intros [= <-].
        rewrite Hos in Hnd. apply (NoDup_app_cons_inv (o :: pre)) in Hnd as [Hn _]. by apply Hn; left. }
    apply wp_bind. eapply (mkt_wp_get_order b V n Hb). intros x Hx _ Hnx.
    assert (mkt_next_order_ x = head (suf ++ os)) as ->.
    { rewrite Hnx. rewrite Hos in Hr |- *. rewrite (ring_next_head _ _ _ _ _ Hr). by destruct suf, pre. }
    assert (mkt_qty_ x = r_qty (v_data V o)) as -> by by rewrite <- Hx.
    eapply wp_mono; [apply (IH (pre ++ [o]) suf)|].
    + by rewrite <- (assoc_L (++)).
    + by destruct pre.
    + simpl in Hf. lia.
    + apply u32_range.
    + intros q ? [-> ->]. split; [done|]. rewrite zsum_cons. unfold u32, wrap. rewrite Zplus_mod_idemp_l. f_equal. lia.
Qed.

Lemma level_fuel b V L n s p os :
  denotes b V n → vinv V L → (p, os) ∈ L s → (length os ≤ size (store_ (order_pool_ b)))%nat.
Proof.
  intros Hb Hinv Hin. pose proof (vi_wf _ _ Hinv) as Hwf. apply live_count.
  - pose proof (sw_orders _ _ _ (wf_sides _ _ _ Hwf s)) as Hnd.
    apply list_elem_of_split in Hin as (l1 & l2 & HL). rewrite HL in Hnd.
    by apply ords_focus_NoDup in Hnd as [? _].
  - apply Forall_forall. intros o Ho. assert (o ∈ ords (L s)) as Hos by (apply ords_elem; eauto).
    pose proof (wf_order_live _ _ _ _ _ Hwf Hos) as Hl.
    rewrite <- (dn_view _ _ _ Hb) in Hl. simpl in Hl. unfold live. by destruct (is_free _ _).
Qed.

Lemma top_of_ok b k s :
  quotes b k → wp (top_of (to_side s)) b (λ r b', b' = b ∧ r = spec_top s k).
Proof.
  intros (V & L & Hb & Hinv & <-). unfold top_of, spec_top. rewrite s_levels_abs.
  apply wp_bind. eapply (mkt_wp_get_best b V _ Hb). unfold abs.
  destruct (L s) as [|[p os] l2] eqn:HL.
  { rewrite (no_level V L s Hinv HL). by apply wp_ret. }
  destruct (first_level V L s p os l2 Hinv HL) as (o & os' & -> & -> & Hfo & _).
  assert ((p, o :: os') ∈ L s) as Hin by (rewrite HL; left).
  pose proof (wf_level _ _ _ _ _ _ (vi_wf _ _ Hinv) Hin) as [_ _ _ Hr _].
  assert (o ∈ ords (L s)) as Ho by (rewrite HL; left).
  destruct (vi_orders _ _ Hinv o (wf_order_live _ _ _ _ _ (vi_wf _ _ Hinv) Ho)) as [Hq _].
  pose proof (sw_orders _ _ _ (wf_sides _ _ _ (vi_wf _ _ Hinv) s)) as Hnd.
  rewrite HL in Hnd. apply (ords_focus_NoDup []) in Hnd as [Hnd _].
  apply wp_bind. eapply (mkt_wp_get_level b V _ Hb). cbn [moap_first_mkt_order_ moap_price_]. rewrite Hfo.
  apply wp_bind. eapply (mkt_wp_get_order b V _ Hb). intros x Hx _ Hnx.
  apply wp_bind, wp_gets, wp_bind.
  assert (mkt_next_order_ x = head (os' ++ (o :: os'))) as ->.
  { rewrite Hnx. rewrite (ring_next_head _ _ [] o os' Hr). by destruct os'. }
  assert (mkt_qty_ x = r_qty (v_data V o)) as -> by by rewrite <- Hx.
  eapply wp_mono; [apply (sum_orders_ok b V (slots_of b) (o :: os') (Some o) [o] os'); try done|].
  - pose proof (level_fuel b V L (slots_of b) s p _ Hb Hinv Hin) as Hf. simpl in Hf. lia.
  - intros q ? [-> ->]. apply wp_ret. split; [done|]. simpl. do 2 f_equal.
    unfold zsum. simpl. f_equal. clear. induction os' as [|w os' IH]; simpl; [done|]. by rewrite IH.
Qed.

Lemma touches_best_ok b k s u :
  quotes b k → wp (touches_best (to_side s) u) b (λ r b', b' = b ∧ r = touches s u k).
Proof.
  intros (V & L & Hb & Hinv & <-). unfold touches_best, touches. rewrite s_levels_abs.
  apply wp_bind. eapply (mkt_wp_get_best b V _ Hb). unfold abs.
  destruct (L s) as [|[p os] l2] eqn:HL.
  { rewrite (no_level V L s Hinv HL). by apply wp_ret. }
  destruct (first_level V L s p os l2 Hinv HL) as (o & os' & -> & -> & _ & _). simpl.
  case_decide as Hs; [|rewrite bool_decide_false by done; by apply wp_ret].
  apply wp_bind. eapply (mkt_wp_get_level b V _ Hb). apply wp_ret. split; [done|].
  rewrite (bool_decide_true (upd_side_ u = _)) by done. destruct s; simpl; case_bool_decide; lia.
Qed.

Lemma bbo_side_bid x t : bbo_side true (MkBBO t.1 (ask_price_ x) t.2 (ask_qty_ x)) = t.
Proof. by destruct t. Qed.
Lemma bbo_side_ask x t : bbo_side false (MkBBO (bid_price_ x) t.1 (bid_qty_ x) t.2) = t.
Proof. by destruct t. Qed.
Lemma updateBBO_ok b k bid ask :
  quotes b k → wp (updateBBO bid ask) b (λ _ b', quotes b' k ∧
    bbo_side true (bbo_ b') = (if bid then spec_top true k else bbo_side true (bbo_ b)) ∧
    bbo_side false (bbo_ b') = (if ask then spec_top false k else bbo_side false (bbo_ b))).
Proof.
  intros Hb. unfold updateBBO. apply wp_bind.
  apply (wp_mono _ _ (λ _ b1, quotes b1 k ∧
    bbo_side true (bbo_ b1) = (if bid then spec_top true k else bbo_side true (bbo_ b)) ∧
    bbo_side false (bbo_ b1) = bbo_side false (bbo_ b))).
  { destruct bid; [|by apply wp_ret]. apply wp_bind. eapply wp_mono; [by apply (top_of_ok b k true)|].
    intros r ? [-> ->]. apply wp_modify. split_and!; [by apply quotes_set_bbo|apply bbo_side_bid|done]. }
  intros _ b1 (Hb1 & Hbid & Hask). destruct ask; [|by apply wp_ret].
  apply wp_bind. eapply wp_mono; [by apply (top_of_ok b1 k false)|].
  intros r ? [-> ->]. apply wp_modify. split_and!; [by apply quotes_set_bbo|done|apply bbo_side_ask].
Qed.

(** The updates of the orders leave the instrument and the BBO alone. *)
Definition own (b : MarketOrderBook) : Z * BBO := (ticker_id_ b, bbo_ b).
Lemma keeps_put_order p f : keeps own (put_order p f).
Proof. unfold put_order. keeps_tac. Qed.
Lemma keeps_put_level p f : keeps own (put_level p f).
Proof. unfold put_level. keeps_tac. Qed.
Lemma keeps_get_order p : keeps own (get_order p).
Proof. unfold get_order. keeps_tac. Qed.
Lemma keeps_get_level p : keeps own (get_level p).
Proof. unfold get_level. keeps_tac. Qed.
Lemma keeps_set_best s p : keeps own (modify (set_best_by_price s p)).
Proof. apply keeps_modify. intros b. unfold set_best_by_price. by case_decide. Qed.
Lemma keeps_order_pool {A} (m : M (MemPool MarketOrder) A) : keeps own (on_order_pool m).
Proof. by apply keeps_zoom. Qed.
Lemma keeps_level_pool {A} (m : M (MemPool MarketOrdersAtPrice) A) : keeps own (on_level_pool m).
Proof. by apply keeps_zoom. Qed.
#[local] Hint Resolve keeps_put_order keeps_put_level keeps_get_order keeps_get_level keeps_set_best
  keeps_order_pool keeps_level_pool : keeps.
Lemma keeps_price_map_assign i p : keeps own (price_map_assign i p).
Proof. unfold price_map_assign. keeps_tac. Qed.
Lemma keeps_getOrdersAtPrice price : keeps own (getOrdersAtPrice price).
Proof. unfold getOrdersAtPrice, price_map_at. keeps_tac. Qed.
Lemma keeps_oid_assign o p : keeps own (oid_assign o p).
Proof. unfold oid_assign. keeps_tac. Qed.
Lemma keeps_oid_at o : keeps own (oid_at o).
Proof. unfold oid_at. keeps_tac. Qed.
Lemma keeps_find_target fuel s px best add t : keeps own (find_target fuel s px best add t).
Proof. revert add t. induction fuel; intros; cbn [find_target]; keeps_tac. Qed.
#[local] Hint Resolve keeps_price_map_assign keeps_getOrdersAtPrice keeps_oid_assign keeps_oid_at
  keeps_find_target : keeps.
Lemma keeps_addOrdersAtPrice p : keeps own (addOrdersAtPrice p).
Proof. unfold addOrdersAtPrice. keeps_tac. Qed.
Lemma keeps_removeOrdersAtPrice s px : keeps own (removeOrdersAtPrice s px).
Proof. unfold removeOrdersAtPrice. keeps_tac. Qed.
#[local] Hint Resolve keeps_addOrdersAtPrice keeps_removeOrdersAtPrice : keeps.
Lemma keeps_addOrder p : keeps own (addOrder p).
Proof. unfold addOrder. keeps_tac. Qed.
Lemma keeps_removeOrder p : keeps own (removeOrder p).
Proof. unfold removeOrder. keeps_tac. Qed.
Lemma keeps_clear_orders n oid : keeps own (clear_orders n oid).
Proof. revert oid. induction n; intros; cbn [clear_orders]; keeps_tac. Qed.
Lemma keeps_clear_rest fuel best p : keeps own (clear_rest fuel best p).
Proof. revert p. induction fuel; intros; cbn [clear_rest]; keeps_tac. Qed.
#[local] Hint Resolve keeps_addOrder keeps_removeOrder keeps_clear_orders keeps_clear_rest : keeps.
Lemma keeps_clear_levels s : keeps own (clear_levels s).
Proof. unfold clear_levels. keeps_tac. Qed.
#[local] Hint Resolve keeps_clear_levels : keeps.
Lemma keeps_update_orders u : keeps own (update_orders u).
Proof. unfold update_orders, clear_book. keeps_tac. Qed.

(** The whole update. *)
Definition is_trade (u : MEMarketUpdate) : bool := bool_decide (upd_type_ u = MarketUpdateType_TRADE).
Lemma apply_market_update_ok u b k :
  quotes b k → updatable u b k →
  wp (apply_market_update u) b (λ _ b', quotes b' (book_update u k) ∧
    ∀ s, bbo_side s (bbo_ b') = if touches s u k && negb (is_trade u)
                                then spec_top s (book_update u k) else bbo_side s (bbo_ b)).
Proof.
  intros Hb Hu. unfold apply_market_update.
  apply wp_bind. eapply wp_mono; [by apply (touches_best_ok b k true)|]. intros bid ? [-> ->].
  apply wp_bind. eapply wp_mono; [by apply (touches_best_ok b k false)|]. intros ask ? [-> ->].
  assert (wp (_ ← update_orders u; updateBBO (touches true u k) (touches false u k)) b (λ _ b',
    quotes b' (book_update u k) ∧ ∀ s, bbo_side s (bbo_ b') =
      if touches s u k then spec_top s (book_update u k) else bbo_side s (bbo_ b))) as Hwp.
  { apply wp_bind. eapply wp_mono; [apply (wp_keeps own); [apply keeps_update_orders|by apply update_orders_ok]|].
    intros _ b1 [Hb1 [= _ E]]. eapply wp_mono; [by apply updateBBO_ok|].
    intros _ b2 (Hb2 & Hbid & Hask). split; [done|]. rewrite E in Hbid, Hask. by intros []. }
  unfold is_trade, book_update in *. destruct (upd_type_ u); simpl;
    try (eapply wp_mono; [exact Hwp|]; intros _ b' [? H]; split; [done|]; intros s; rewrite (H s);
      by rewrite andb_true_r).
  apply wp_ret. split; [done|]. intros s. by rewrite andb_false_r.
Qed.
End refine.
