(* ===== verification/MarketOrderBookClear.v ===== *)
(** What the CLEAR of the client's order book does: both sides become empty and every node goes back to
    its pool, but [price_orders_at_price_] still leads to the freed levels. *)
From S2P Require Export MarketOrderBookRefine.

Section clear.
Implicit Types (b : MarketOrderBook) (V : view resting (Z * Z)) (L : layout) (n : Z * Z).
#[local] Abbreviation vinv := (vinv priceToIndex quote_ok).

(** The parts of the heap the deallocations leave alone when they free the levels [ls]. *)
Record linked_as (ls : list Z) V V' : Prop := {
  la_llive q : q ∉ ls → v_llive V' q = v_llive V q;
  la_best : v_best V' = v_best V;
  la_lnext : v_lnext V' = v_lnext V;
  la_pmap : v_pmap V' = v_pmap V;
}.
#[local] Instance linked_as_preorder ls : PreOrder (linked_as ls).
Proof.
  split; [done|]. intros V1 V2 V3 [Hl1 ???] [Hl2 ???]. split; try congruence.
  intros q Hq. by rewrite Hl2, Hl1.
Qed.
Lemma linked_as_weaken ls V V' : linked_as [] V V' → linked_as ls V V'.
Proof. intros [H ???]. split; try done. intros q _. apply H, not_elem_of_nil. Qed.

Lemma clear_orders_ok count oid b V n :
  denotes b V n → (∀ k o, v_omap V k = Some o → 0 ≤ o < ME_MAX_ORDER_IDS) →
  wp (clear_orders count oid) b (λ _ b', ∃ V', denotes b' V' n ∧ linked_as [] V V' ∧ v_omap V' = v_omap V).
Proof.
  intros Hb Hr. revert oid b V Hb Hr. induction count as [|count IH]; intros oid b V Hb Hr.
  { apply wp_ret. by exists V. }
  cbn [clear_orders]. apply wp_bind, wp_gets, wp_bind.
  apply (wp_mono _ _ (λ _ b1, ∃ V1, denotes b1 V1 n ∧ linked_as [] V V1 ∧ v_omap V1 = v_omap V)).
  - destruct (oid_to_order_ b !! oid) as [i|] eqn:Hi; [|apply wp_ret; by exists V].
    eapply (mkt_wp_dealloc_order b V n Hb).
    + apply (Hr (0, oid)). by rewrite <- (dn_view _ _ _ Hb).
    + intros b1 Hb1. by exists (vs_olive i false V).
  - intros _ b1 (V1 & Hb1 & H1 & Ho1). eapply wp_mono; [apply (IH (oid + 1) b1 V1 Hb1)|].
    + intros k o. rewrite Ho1. apply Hr.
    + intros _ b2 (V2 & Hb2 & H2 & Ho2). exists V2. split_and!; [done|by etransitivity|congruence].
Qed.

Lemma clear_rest_ok fuel b V n ls best pre suf :
  denotes b V n → NoDup ls → head ls = best →
  (∀ pre t suf, ls = pre ++ t :: suf → v_lnext V t = head (suf ++ ls)) →
  (∀ p, p ∈ ls → 0 ≤ p < ME_MAX_PRICE_LEVELS) → ls = pre ++ suf → pre ≠ [] →
  (length suf < fuel)%nat →
  wp (clear_rest fuel best (head (suf ++ ls))) b (λ _ b', ∃ V', denotes b' V' n ∧ linked_as ls V V').
Proof.
  intros Hb Hnd Hbest Hnext Hrange.
  revert b V Hb pre suf Hnext.
  induction fuel as [|fuel IH]; [lia|]. intros b V Hb pre suf Hnext Hls Hpre Hf.
  cbn [clear_rest]. destruct suf as [|p suf].
  { rewrite decide_True by done. apply wp_ret. by exists V. }
  cbn [app head]. rewrite decide_False.
  2:{ rewrite <- Hbest, Hls. destruct pre as [|q pre]; [done|]. intros [= <-].
      rewrite Hls in Hnd. apply (NoDup_app_cons_inv (p :: pre)) in Hnd as [Hn _]. by apply Hn; left. }
  apply wp_bind, wp_deref, wp_bind.
  eapply (mkt_wp_dealloc_level b V n Hb); [apply Hrange; rewrite Hls; apply elem_of_insert; auto|].
  intros b1 Hb1. apply wp_bind. eapply (mkt_wp_get_level b1 _ n Hb1). cbn [moap_next_entry_ v_lnext vs_llive].
  rewrite (Hnext pre p suf Hls).
  eapply wp_mono; [apply (IH b1 _ Hb1 (pre ++ [p]) suf)|].
  - exact Hnext.
  - by rewrite <- (assoc_L (++)).
  - by destruct pre.
  - simpl in Hf. lia.
  - intros _ b2 (V2 & Hb2 & H2). exists V2. split; [done|]. etransitivity; [|exact H2]. split; try done.
    intros q Hq. simpl. rewrite fn_lookup_insert_ne; [done|]. intros ->. apply Hq. rewrite Hls.
    apply elem_of_insert. auto.
Qed.

Lemma clear_levels_ok b V V0 L n s ls :
  denotes b V n → vinv V0 L → linked_as ls V0 V → (∀ q, q ∈ lvls (L s) → q ∉ ls) →
  wp (clear_levels (to_side s)) b (λ _ b', ∃ V', denotes b' V' n ∧ linked_as (lvls (L s)) V V').
Proof.
  intros Hb Hinv [Hll Hbest Hnx _] Hfresh. pose proof (vi_wf _ _ Hinv) as Hwf.
  pose proof (wf_sides _ _ _ Hwf s) as [HSb HSr HSn _ _ _].
  assert (∀ q, q ∈ lvls (L s) → v_llive V0 q = true) as Hlive.
  { intros q Hq. apply (wf_llive _ _ _ Hwf). eauto. }
  unfold clear_levels. apply wp_bind. eapply (mkt_wp_get_best b V n Hb). rewrite Hbest, HSb.
  destruct (lvls (L s)) as [|p ps] eqn:Els; [by apply wp_ret; exists V|]. rewrite <- Els in *.
  assert (head (lvls (L s)) = Some p) as -> by by rewrite Els.
  apply wp_bind. eapply (mkt_wp_get_level b V n Hb). cbn [moap_next_entry_]. apply wp_bind, wp_gets, wp_bind.
  assert (v_lnext V p = head (ps ++ lvls (L s))) as ->.
  { rewrite Hnx, Els. rewrite Els in HSr. rewrite (ring_next_head _ _ [] p ps HSr). by destruct ps. }
  assert (length (lvls (L s)) ≤ size (store_ (orders_at_price_pool_ b)))%nat as Hfuel.
  { apply live_count; [done|]. apply Forall_forall. intros q Hq. pose proof (Hll q (Hfresh q Hq)) as Hq'.
    rewrite Hlive in Hq' by done. rewrite <- (dn_view _ _ _ Hb) in Hq'. simpl in Hq'. unfold live.
    by destruct (is_free _ _). }
  eapply wp_mono; [apply (clear_rest_ok _ b V n (lvls (L s)) (Some p) [p] ps Hb HSn)|].
  - by rewrite Els.
  - intros pre t suf E. rewrite Hnx, E. rewrite E in HSr.
    rewrite (ring_next_head _ _ _ _ _ HSr). by destruct suf, pre.
  - intros q Hq. by apply (vi_llive _ _ Hinv), Hlive.
  - done.
  - done.
  - rewrite Els in Hfuel. simpl in Hfuel. lia.
  - intros _ b1 (V1 & Hb1 & H1).
    eapply (mkt_wp_dealloc_level b1 V1 n Hb1).
    { apply (vi_llive _ _ Hinv), Hlive. rewrite Els. left. }
    intros b2 Hb2. exists (vs_llive p false V1). split; [done|]. etransitivity; [exact H1|].
    split; try done. intros q Hq. simpl. rewrite fn_lookup_insert_ne; [done|].
    intros ->. apply Hq. rewrite Els. left.
Qed.

Lemma clear_book_ok b V L n :
  denotes b V n → vinv V L →
  wp clear_book b (λ _ b', ∃ V', denotes b' V' n ∧ v_pmap V' = v_pmap V ∧ (∀ s, v_best V' s = None)).
Proof.
  intros Hb Hinv. pose proof (vi_wf _ _ Hinv) as Hwf. unfold clear_book. apply wp_bind.
  eapply wp_mono; [apply (clear_orders_ok _ 0 b V n Hb)|].
  { intros k o Ho. apply (vi_olive _ _ Hinv). by apply (wf_omap _ _ _ Hwf) in Ho as [? _]. }
  intros _ b1 (V1 & Hb1 & H1 & _). apply wp_bind, wp_modify.
  assert (∃ V2, denotes (set_oid_to_order ∅ b1) V2 n ∧ linked_as [] V1 V2) as (V2 & Hb2 & H2).
  { exists (view_of (set_oid_to_order ∅ b1)). destruct Hb1 as [<- [] <-]. by split. }
  assert (linked_as [] V V2) as HV2 by by etransitivity.
  apply wp_bind. eapply wp_mono; [apply (clear_levels_ok _ V2 V L n true [] Hb2 Hinv HV2)|].
  { intros q _. apply not_elem_of_nil. }
  intros _ b3 (V3 & Hb3 & H3).
  assert (linked_as (lvls (L true)) V V3) as HV3.
  { etransitivity; [by apply linked_as_weaken|done]. }
  apply wp_bind. eapply wp_mono; [apply (clear_levels_ok _ V3 V L n false _ Hb3 Hinv HV3)|].
  { intros q Hq Hq'. by pose proof (wf_levels_disjoint _ _ _ _ _ _ Hwf Hq Hq'). }
  intros _ b4 (V4 & Hb4 & H4). apply wp_bind. eapply (mkt_wp_set_best b4 V4 n Hb4 false). intros b5 Hb5.
  eapply (mkt_wp_set_best b5 _ n Hb5 true). intros b6 Hb6. eexists. split; [exact Hb6|]. split.
  - simpl. by rewrite (la_pmap _ _ _ H4), (la_pmap _ _ _ HV3).
  - by intros [].
Qed.

(** An order added at a price whose slot holds a level joins that level, wherever it is, and leaves the
    best levels alone. *)
Definition tops (b : MarketOrderBook) : option Z * option Z := (bids_by_price_ b, asks_by_price_ b).
Lemma addOrder_joins i b p :
  price_orders_at_price_ b !! priceToIndex (mkt_price_ (obj (order_pool_ b) i)) = Some p →
  wlp (addOrder (Some i)) b (λ _ b', tops b' = tops b).
Proof.
  intros Hp. unfold addOrder. apply wlp_bind. intros o s1 [= <- <-]. apply wlp_bind.
  intros l s2 Hl. assert (l = Some p ∧ s2 = b) as [-> ->].
  { unfold getOrdersAtPrice, price_map_at in Hl. case_match; [|done]. injection Hl as <- <-. by rewrite Hp. }
  intros a b' E. eapply (keeps_bind tops); [| |exact E].
  - unfold put_order, get_order, get_level. keeps_tac.
  - unfold get_order, oid_assign. keeps_tac.
Qed.
(** The ADD of an update, with the slot of its price taken. *)
Lemma add_joins u b V n p :
  denotes b V n → v_pmap V (priceToIndex (upd_price_ u)) = Some p → upd_type_ u = MarketUpdateType_ADD →
  wlp (update_orders u) b (λ _ b', tops b' = tops b).
Proof.
  intros Hb Hp Ht. unfold update_orders. rewrite Ht. apply wlp_bind. intros q b1 E.
  apply zoom_inv in E as (op & E & ->). pose proof (po_orders _ (dn_pools _ _ _ Hb)) as Hwf.
  destruct (is_free (order_pool_ b) (next_free_ (order_pool_ b))) eqn:Hf.
  - rewrite allocate_free in E by done. injection E as <- <-.
    eapply wlp_mono; [eapply (addOrder_joins _ _ p)|done].
    simpl. rewrite obj_allocated, decide_True by done. rewrite <- (dn_view _ _ _ Hb) in Hp. exact Hp.
  - rewrite allocate_busy in E by done. injection E as <- <-. by intros [] b'.
Qed.
End clear.
