(* ===== verification/MarketOrderBookProps.v ===== *)
(** What the client's order book guarantees: updates refine the abstract book, and the BBO follows the
    book once its side is not empty.  The exceptions are theorems too: the first order of an empty
    side does not reach the BBO, an update of an unknown order ends the process, and after a CLEAR
    the price table still leads to the freed levels. *)
From S2P Require Export MarketOrderBookClear.

Lemma quotes_tidy b k : quotes b k → tidy k.
Proof. intros (V & L & _ & Hinv & <-). by eapply abs_tidy. Qed.

(** A MODIFY or a CANCEL names the side and the price of its order. *)
Definition faithful (u : MEMarketUpdate) (k : sbook) : Prop :=
  match upd_type_ u with
  | MarketUpdateType_MODIFY | MarketUpdateType_CANCEL =>
    ∀ r, find_order (quote_key (upd_order_id_ u)) k = Some r → upd_side_ u = r_side r ∧ upd_price_ u = r_price r
  | _ => True
  end.
(** The update is the first order of an empty side. *)
Definition opens (s : bool) (u : MEMarketUpdate) (k : sbook) : Prop :=
  upd_type_ u = MarketUpdateType_ADD ∧ is_buy (upd_side_ u) = s ∧ s_levels s k = [].

(** An order of the first level is touched by an update that names it. *)
Lemma first_level_touched s px rs ls r u k :
  tidy k → s_levels s k = (px, rs) :: ls → r ∈ rs → r_key r = quote_key (upd_order_id_ u) →
  upd_type_ u = MarketUpdateType_MODIFY ∨ upd_type_ u = MarketUpdateType_CANCEL →
  faithful u k → touches s u k = true.
Proof.
  intros Hk Hl Hr Hkey Ht Hf. assert ((px, rs) ∈ s_levels s k) as Hin by (rewrite Hl; left).
  destruct (td_level _ Hk _ _ _ Hin) as [_ Hlv]. destruct (Hlv r Hr) as [Hs Hp].
  pose proof (tidy_find k r Hk (level_order _ _ _ _ _ Hin Hr)) as Hfind. rewrite Hkey in Hfind.
  unfold touches. rewrite Hl. unfold faithful in Hf.
  assert (upd_side_ u = r_side r ∧ upd_price_ u = r_price r) as [-> ->].
  { destruct Ht as [E|E]; rewrite E in Hf; by apply Hf. }
  rewrite Hs, Hp, !bool_decide_true; [done| |done]. destruct s; simpl; lia.
Qed.

(** What the update does not touch keeps its top. *)
Lemma top_untouched s u k :
  tidy k → faithful u k → ¬ opens s u k → upd_type_ u ≠ MarketUpdateType_CLEAR →
  (upd_type_ u = MarketUpdateType_ADD → upd_side_ u = to_side (is_buy (upd_side_ u))) →
  touches s u k = false → spec_top s (book_update u k) = spec_top s k.
Proof.
  intros Hk Hf Hop Hc Hside Ht. unfold book_update. destruct (upd_type_ u) eqn:Hty; try done.
  - unfold rest_in_book. simpl. set (s' := is_buy (upd_side_ u)) in *.
    destruct (decide (s' = s)) as [E|Hne].
    + unfold spec_top. rewrite E, s_levels_set. unfold touches in Ht.
      destruct (s_levels s k) as [|[px rs] ls] eqn:Hl; [by destruct Hop|].
      rewrite (bool_decide_true (_ = _)) in Ht by (rewrite Hside by done; by rewrite E).
      case_bool_decide as Hb; [done|]. simpl.
      assert (px =? upd_price_ u = false) as -> by (destruct s; simpl in Hb; lia).
      rewrite decide_False by (destruct s; simpl in *; lia). done.
    + assert (s = negb s') as -> by by destruct s, s'. unfold spec_top. by rewrite s_levels_set_other.
  - assert (∀ px rs ls, s_levels s k = (px, rs) :: ls → requantified (quote_key (upd_order_id_ u)) (upd_qty_ u) <$> rs = rs) as H.
    { intros px rs ls Hl. rewrite <- (list_fmap_id rs) at 2. apply list_fmap_ext.
      intros i r Hr%list_elem_of_lookup_2. unfold requantified. case_decide as Hkey; [|done].
      rewrite (first_level_touched s px rs ls r u k) in Ht; auto. done. }
    unfold spec_top. destruct s; simpl in *; unfold requantify;
      destruct (_ k) as [|[px rs] ls]; simpl; try done; by rewrite (H px rs ls).
  - assert (∀ px rs ls, s_levels s k = (px, rs) :: ls →
      filter (λ r, r_key r ≠ quote_key (upd_order_id_ u)) rs = rs ∧ rs ≠ []) as H.
    { intros px rs ls Hl. split.
      - apply filter_all. intros r Hr Hkey. rewrite (first_level_touched s px rs ls r u k) in Ht; auto. done.
      - apply (td_level _ Hk s px). rewrite Hl. left. }
    unfold spec_top. destruct s; simpl in *; destruct (_ k) as [|[px rs] ls]; simpl; try done;
      destruct (H px rs ls eq_refl) as [-> ?]; by destruct rs.
Qed.

(** ** The new book *)
Definition market_book0 (ticker_id : Z) : MarketOrderBook :=
  MkMarketOrderBook ticker_id ∅ (empty_pool ME_MAX_PRICE_LEVELS) None None ∅
    (empty_pool ME_MAX_ORDER_IDS) BBO_default.
Lemma MarketOrderBook_new_ok ticker_id : MarketOrderBook_new ticker_id ∅ ∅ = Ok (market_book0 ticker_id).
Proof. reflexivity. Qed.
Lemma market_book0_quotes ticker_id : quotes (market_book0 ticker_id) empty_book.
Proof.
  exists (view_of (market_book0 ticker_id)), (λ _, []). split_and!; [| |done].
  - split; [done| |done]. split; [apply (empty_pool_wf 20)|apply (empty_pool_wf 8)| |]; done.
  - apply vinv_empty; simpl; try done; [by intros []|]. intros k. by case_decide.
Qed.

(** ** Updates *)
(** C17: the client's book computes its specification.  For a book that holds the abstract book [k], an
    update [u] that the book can take (an ADD of a fresh id with a slot in both pools and a price
    whose table slot is not another price's; a MODIFY or CANCEL of an order of the book) is
    processed without fault and leaves a book that holds [book_update u k]: the new order at the
    back of the queue of its price and the levels sorted best first, the quantity replaced in
    place, or the order gone and its level with it when it was the last. On each side, the BBO is
    recomputed from the new book exactly when the update is on that side and at least as good as the
    price that was best before, and otherwise left alone. *)
Theorem market_book_refines u b k :
  quotes b k → updatable u b k →
  ∃ b', apply_market_update u b = Ok (tt, b') ∧ quotes b' (book_update u k) ∧
    ∀ s, bbo_side s (bbo_ b') = if touches s u k && negb (is_trade u)
                                then spec_top s (book_update u k) else bbo_side s (bbo_ b).
Proof.
  intros Hb Hu. destruct (proj1 (wp_ok _ _ _) (apply_market_update_ok u b k Hb Hu)) as ([] & b' & E & H).
  by exists b'.
Qed.

(** C18: the BBO follows the book.  If the BBO of side [s] shows the best price of the book and the sum of
    the quantities at it, it does so after every update the book can take whose side and price are
    those of its order, except the first order of an empty side. *)
Theorem bbo_follows_book s u b k b' :
  quotes b k → updatable u b k → faithful u k → ¬ opens s u k →
  bbo_side s (bbo_ b) = spec_top s k → apply_market_update u b = Ok (tt, b') →
  quotes b' (book_update u k) ∧ bbo_side s (bbo_ b') = spec_top s (book_update u k).
Proof.
  intros Hb Hu Hf Hop Hbbo E. pose proof (apply_market_update_ok u b k Hb Hu) as H.
  unfold wp in H. rewrite E in H. destruct H as [Hb' Hs]. split; [done|]. rewrite Hs.
  unfold is_trade. case_bool_decide as Ht; simpl.
  { rewrite andb_false_r, Hbbo. unfold book_update. by rewrite Ht. }
  rewrite andb_true_r. destruct (touches s u k) eqn:Htouch; [done|].
  rewrite Hbbo. symmetry. apply top_untouched; try done.
  - by eapply quotes_tidy.
  - intros E'. unfold updatable, takes in Hu. rewrite E' in Hu. tauto.
  - intros E'. unfold updatable, takes in Hu. rewrite E' in Hu. tauto.
Qed.

(** The first order of an empty side does not reach the BBO.  The flags [bid_updated] and
    [ask_updated] are computed before the update and need a best level, so after an ADD on an
    empty side the book has the order and the BBO of that side is what it was. *)
Theorem bbo_misses_first_order s u b k :
  quotes b k → updatable u b k → opens s u k →
  ∃ b', apply_market_update u b = Ok (tt, b') ∧ quotes b' (book_update u k) ∧
    spec_top s (book_update u k) = (upd_price_ u, upd_qty_ u) ∧
    bbo_side s (bbo_ b') = bbo_side s (bbo_ b).
Proof.
  intros Hb Hu (Hadd & Hside & Hempty).
  destruct (proj1 (wp_ok _ _ _) (apply_market_update_ok u b k Hb Hu)) as ([] & b' & E & Hb' & Hs).
  exists b'. split_and!; [done|done| |].
  - unfold updatable, takes in Hu. rewrite Hadd in Hu. destruct Hu as [(_ & _ & Hq & _) _].
    unfold book_update, spec_top. rewrite Hadd. unfold rest_in_book. simpl. rewrite Hside, s_levels_set, Hempty.
    simpl. unfold zsum. simpl. by rewrite Z.add_0_r, u32_id.
  - rewrite Hs. unfold touches. by rewrite Hempty.
Qed.

(** An update of an order the book does not have ends the process.  A MODIFY or a CANCEL of an id
    below 2^20 without an order dereferences the null pointer of the table; one of a larger id
    makes [at] throw inside a [noexcept] function. *)
Theorem unknown_order_faults u b k :
  quotes b k → upd_type_ u = MarketUpdateType_MODIFY ∨ upd_type_ u = MarketUpdateType_CANCEL →
  find_order (quote_key (upd_order_id_ u)) k = None →
  apply_market_update u b =
    Err (if mkt_oid_in_range (upd_order_id_ u) then NullDeref else OutOfRange).
Proof.
  intros Hq Ht Hf. unfold apply_market_update.
  destruct (proj1 (wp_ok _ _ _) (touches_best_ok b k true u Hq)) as (r1 & ? & E1 & -> & _).
  destruct (proj1 (wp_ok _ _ _) (touches_best_ok b k false u Hq)) as (r2 & ? & E2 & -> & _).
  change (to_side true) with Side_BUY in E1. change (to_side false) with Side_SELL in E2.
  rewrite (bind_Ok _ _ _ _ _ E1), (bind_Ok _ _ _ _ _ E2).
  assert (update_orders u b = Err (if mkt_oid_in_range (upd_order_id_ u) then NullDeref else OutOfRange)) as Hup.
  { destruct Hq as (V & L & Hb & Hinv & <-). apply (find_none_fresh V L _ Hinv) in Hf.
    rewrite <- (dn_view _ _ _ Hb) in Hf. simpl in Hf.
    unfold update_orders. destruct Ht as [-> | ->]; unfold oid_at;
      destruct (mkt_oid_in_range (upd_order_id_ u)); try done; mrun; by rewrite Hf. }
  destruct Ht as [-> | ->]; by apply bind_Err.
Qed.

Lemma no_best_touches b s u : best_by_price s b = None → touches_best s u b = Ok (false, b).
Proof. intros E. unfold touches_best. mrun. by rewrite E. Qed.
Lemma top_of_empty b s :
  best_by_price s b = None → top_of s b = Ok ((Price_INVALID, Qty_INVALID), b).
Proof. intros E. unfold top_of. mrun. by rewrite E. Qed.
Lemma updateBBO_empty b bid ask :
  (∀ s, best_by_price s b = None) → ∃ x, updateBBO bid ask b = Ok (tt, set_bbo x b).
Proof.
  intros Hn. unfold updateBBO. assert (∀ x, best_by_price Side_SELL (set_bbo x b) = None) as Ha.
  { intros x. apply (Hn Side_SELL). }
  assert (b = set_bbo (bbo_ b) b) as Eb by by destruct b.
  destruct bid, ask; rewrite ?(bind_Ok _ _ _ _ _ (bind_Ok _ _ _ _ _ (top_of_empty b Side_BUY (Hn _)))).
  - eexists. rewrite (bind_Ok _ _ _ _ _ (top_of_empty _ Side_SELL (Ha _))). reflexivity.
  - eexists. reflexivity.
  - exists (MkBBO (bid_price_ (bbo_ b)) Price_INVALID (bid_qty_ (bbo_ b)) Qty_INVALID).
    rewrite (bind_Ok _ _ _ tt b eq_refl), (bind_Ok _ _ _ _ _ (top_of_empty b Side_SELL (Hn _))). reflexivity.
  - exists (bbo_ b). by rewrite <- Eb.
Qed.

(** C40: a CLEAR does not clear the price table.  From any book with a level of price [px], a CLEAR returns and
    empties both sides, but the table still leads to the freed level: if a later ADD at a price with
    that slot returns, both sides are still empty, so the order is in no level that the BBO or
    [toString] can see. *)
Theorem clear_hides_prices c b k s px rs :
  quotes b k → upd_type_ c = MarketUpdateType_CLEAR → (px, rs) ∈ s_levels s k →
  ∃ b1, apply_market_update c b = Ok (tt, b1) ∧ bids_by_price_ b1 = None ∧ asks_by_price_ b1 = None ∧
    ∀ u b2, upd_type_ u = MarketUpdateType_ADD → priceToIndex (upd_price_ u) = priceToIndex px →
      apply_market_update u b1 = Ok (tt, b2) → bids_by_price_ b2 = None ∧ asks_by_price_ b2 = None.
Proof.
  intros Hq Hc Hl.
  destruct (proj1 (wp_ok _ _ _) (touches_best_ok b k true c Hq)) as (r1 & ? & E1 & -> & _).
  destruct (proj1 (wp_ok _ _ _) (touches_best_ok b k false c Hq)) as (r2 & ? & E2 & -> & _).
  change (to_side true) with Side_BUY in E1. change (to_side false) with Side_SELL in E2.
  destruct Hq as (V & L & Hb & Hinv & <-).
  rewrite s_levels_abs in Hl. apply list_elem_of_fmap in Hl as ([p os] & [= -> _] & Hin).
  destruct (wf_level_live _ _ _ _ _ _ (vi_wf _ _ Hinv) Hin) as [_ Hpm].
  destruct (proj1 (wp_ok _ _ _) (clear_book_ok b V L _ Hb Hinv)) as ([] & b' & Eb' & V' & Hb' & HV' & Hbest).
  assert (∀ s, best_by_price s b' = None) as Hn.
  { intros side. rewrite <- (dn_view _ _ _ Hb') in Hbest. unfold best_by_price.
    case_decide; [exact (Hbest true)|exact (Hbest false)]. }
  destruct (updateBBO_empty b' r1 r2 Hn) as [x Ex]. exists (set_bbo x b').
  assert (apply_market_update c b = Ok (tt, set_bbo x b')) as E.
  { unfold apply_market_update. rewrite (bind_Ok _ _ _ _ _ E1), (bind_Ok _ _ _ _ _ E2), Hc.
    rewrite <- Ex. refine (bind_Ok _ (λ _, updateBBO r1 r2) b tt b' _). unfold update_orders. by rewrite Hc. }
  split_and!; [done|exact (Hn Side_BUY)|exact (Hn Side_SELL)|]. clear E.
  intros u b2 Hu Hidx E. unfold apply_market_update in E.
  rewrite !(bind_Ok _ _ _ _ _ (no_best_touches (set_bbo x b') _ u (Hn _))), Hu in E.
  assert (denotes (set_bbo x b') V' (slots_of b)) as Hb1 by (destruct Hb' as [? [] ?]; by split).
  assert (wlp (_ ← update_orders u; updateBBO false false) (set_bbo x b')
    (λ _ b2, tops b2 = tops (set_bbo x b'))) as H.
  { apply wlp_bind. eapply wlp_mono; [apply (add_joins u _ V' (slots_of b) p Hb1)|].
    - by rewrite HV', Hidx.
    - done.
    - intros [] b3 Hb3. by apply wlp_ret. }
  specialize (H tt b2 E). unfold tops in H. simpl in H.
  assert (bids_by_price_ b' = None) as Hbid by exact (Hn Side_BUY).
  assert (asks_by_price_ b' = None) as Hask by exact (Hn Side_SELL).
  rewrite Hbid, Hask in H. by injection H.
Qed.

(** ** Examples *)
Definition update_of (type : MarketUpdateType) (oid price qty prio : Z) : MEMarketUpdate :=
  MkMEMarketUpdate type oid 3 Side_BUY price qty prio.
Definition updated (u : MEMarketUpdate) (b : MarketOrderBook) : MarketOrderBook :=
  match apply_market_update u b with Ok (_, b') => b' | Err _ => b end.
Lemma updated_quotes u b k : quotes b k → updatable u b k → quotes (updated u b) (book_update u k).
Proof.
  intros Hb Hu. pose proof (apply_market_update_ok u b k Hb Hu) as H. unfold wp in H. unfold updated.
  by destruct (apply_market_update u b) as [[[] b']|]; [destruct H|].
Qed.
Definition bid1 : MEMarketUpdate := update_of MarketUpdateType_ADD 1 100 5 1.
Definition bid2 : MEMarketUpdate := update_of MarketUpdateType_ADD 2 101 7 1.
Definition cancel2 : MEMarketUpdate := update_of MarketUpdateType_CANCEL 2 101 0 1.
Definition cancel7 : MEMarketUpdate := update_of MarketUpdateType_CANCEL 7 101 0 1.
Definition market_book1 : MarketOrderBook := updated bid1 (market_book0 3).
Definition market_book2 : MarketOrderBook := updated bid2 market_book1.
Definition quoted1 : sbook := book_update bid1 empty_book.
Definition quoted2 : sbook := book_update bid2 quoted1.
Lemma bid1_updatable : updatable bid1 (market_book0 3) empty_book.
Proof. split; [split_and!|intros _]; vm_compute; reflexivity || discriminate. Qed.
Lemma market_book1_quotes : quotes market_book1 quoted1.
Proof. apply updated_quotes; [apply market_book0_quotes|exact bid1_updatable]. Qed.
Lemma bid2_updatable : updatable bid2 market_book1 quoted1.
Proof. split; [split_and!|intros _]; vm_compute; reflexivity || discriminate. Qed.
Lemma market_book2_quotes : quotes market_book2 quoted2.
Proof. apply updated_quotes; [exact market_book1_quotes|exact bid2_updatable]. Qed.

Lemma market_book_refines_witness :
  ∃ b', apply_market_update bid1 (market_book0 3) = Ok (tt, b') ∧ quotes b' quoted1 ∧
    ∀ s, bbo_side s (bbo_ b') = if touches s bid1 empty_book && negb (is_trade bid1)
                                then spec_top s quoted1 else bbo_side s (bbo_ (market_book0 3)).
Proof. apply (market_book_refines bid1 (market_book0 3) empty_book (market_book0_quotes 3) bid1_updatable). Defined.

Lemma bbo_follows_book_witness :
  spec_top true quoted2 = (101, 7) ∧ spec_top true (book_update cancel2 quoted2) = (100, 5) ∧
  quotes (updated cancel2 market_book2) (book_update cancel2 quoted2) ∧
  bbo_side true (bbo_ (updated cancel2 market_book2)) = spec_top true (book_update cancel2 quoted2).
Proof.
  split; [vm_compute; reflexivity|]. split; [vm_compute; reflexivity|].
  apply (bbo_follows_book true cancel2 market_book2 quoted2).
  - exact market_book2_quotes.
  - split; [vm_compute; eauto|done].
  - vm_compute. intros r [= <-]. split; reflexivity.
  - by intros [? _].
  - vm_compute. reflexivity.
  - vm_compute. reflexivity.
Defined.

Lemma bbo_misses_first_order_witness :
  ∃ b', apply_market_update bid1 (market_book0 3) = Ok (tt, b') ∧ quotes b' quoted1 ∧
    spec_top true quoted1 = (100, 5) ∧ bbo_side true (bbo_ b') = (Price_INVALID, Qty_INVALID).
Proof.
  apply (bbo_misses_first_order true bid1 (market_book0 3) empty_book (market_book0_quotes 3) bid1_updatable).
  split_and!; reflexivity.
Defined.

Lemma unknown_order_faults_witness : apply_market_update cancel7 market_book2 = Err NullDeref.
Proof.
  apply (unknown_order_faults cancel7 market_book2 quoted2); [exact market_book2_quotes|by right|].
  vm_compute. reflexivity.
Defined.

Definition clear3 : MEMarketUpdate := clear_message 3.
Lemma clear_hides_prices_witness :
  ∃ b1, apply_market_update clear3 market_book1 = Ok (tt, b1) ∧ bids_by_price_ b1 = None ∧ asks_by_price_ b1 = None ∧
    ∀ u b2, upd_type_ u = MarketUpdateType_ADD → priceToIndex (upd_price_ u) = priceToIndex 100 →
      apply_market_update u b1 = Ok (tt, b2) → bids_by_price_ b2 = None ∧ asks_by_price_ b2 = None.
Proof.
  apply (clear_hides_prices clear3 market_book1 quoted1 true 100 [quote_of_update bid1]).
  - exact market_book1_quotes.
  - reflexivity.
  - vm_compute. left.
Defined.
(** Such an ADD does return, and the table has its order. *)
Lemma clear_then_add :
  match apply_market_update (update_of MarketUpdateType_ADD 8 100 5 1) (updated clear3 market_book1) with
  | Ok (_, b2) => oid_to_order_ b2 !! 8 = Some 1 ∧ bids_by_price_ b2 = None
  | Err _ => False
  end.
Proof. vm_compute. split; reflexivity. Qed.
