(* ===== verification/MarketOrderBookText.v ===== *)
(** [MarketOrderBook::toString]: the text of the client's order book, the function of [BookText] over
    this book's accesses. *)
From S2P Require Export BookText MarketOrderBookProps.

(** One [printer] loop: the total quantity (32 bits) and the number of the orders of a level. *)
Fixpoint mkt_sum_orders_at (fuel : nat) (first o_itr : option Z) (qty num_orders : Z) :
    M MarketOrderBook (Z * Z) :=
  match fuel with
  | O => raise OutOfFuel
  | S fuel =>
      o ← get_order o_itr;
      let qty := u32 (qty + mkt_qty_ o) in
      let num_orders := u64 (num_orders + 1) in
      if decide (mkt_next_order_ o = first) then mret (qty, num_orders)
      else mkt_sum_orders_at fuel first (mkt_next_order_ o) qty num_orders
  end.

(** [p ? p->mkt_order_id_ : OrderId_INVALID]. *)
Definition mkt_neighbour_id (p : option Z) : M MarketOrderBook Z :=
  match p with
  | None => mret OrderId_INVALID
  | Some _ => o ← get_order p; mret (mkt_order_id_ o)
  end.

(** The other loop of [printer]: the orders of a level. *)
Fixpoint mkt_print_orders_at (fuel : nat) (detailed : bool) (first o_itr : option Z) (ss : string) :
    M MarketOrderBook string :=
  match fuel with
  | O => raise OutOfFuel
  | S fuel =>
      o ← get_order o_itr;
      ss ← (if detailed then
              prev ← mkt_neighbour_id (mkt_prev_order_ o);
              next ← mkt_neighbour_id (mkt_next_order_ o);
              mret (ss +:+ order_entry (mkt_order_id_ o) (mkt_qty_ o) prev next)
            else mret ss);
      if decide (mkt_next_order_ o = first) then mret ss
      else mkt_print_orders_at fuel detailed first (mkt_next_order_ o) ss
  end.

Definition mkt_printer (fuel : nat) (detailed sanity_check : bool) (itr : option Z) (side : Side)
    (last_price : Z) (ss : string) : M MarketOrderBook (string * Z) :=
  l ← get_level itr;
  '(qty, num_orders) ← mkt_sum_orders_at fuel (moap_first_mkt_order_ l) (moap_first_mkt_order_ l) 0 0;
  prev ← get_level (moap_prev_entry_ l);
  next ← get_level (moap_next_entry_ l);
  let ss := ss +:+ level_header (moap_price_ l) (moap_price_ prev) (moap_price_ next) qty num_orders in
  ss ← mkt_print_orders_at fuel detailed (moap_first_mkt_order_ l) (moap_first_mkt_order_ l) ss;
  let ss := ss +:+ newline in
  if sanity_check then
    if (bool_decide (side = Side_SELL) && (moap_price_ l <=? last_price)) ||
       (bool_decide (side = Side_BUY) && (last_price <=? moap_price_ l))
    then FATAL
    else mret (ss, moap_price_ l)
  else mret (ss, last_price).

(** The levels of a side. *)
Fixpoint mkt_print_levels (fuel ofuel : nat) (detailed validity_check : bool) (side : Side)
    (best itr : option Z) (count last_price : Z) (ss : string) : M MarketOrderBook string :=
  match fuel with
  | O => raise OutOfFuel
  | S fuel =>
      match itr with
      | None => mret ss
      | Some _ =>
          let ss := ss +:+ level_prefix side count in
          l ← get_level itr;
          let next_itr := if decide (moap_next_entry_ l = best) then None else moap_next_entry_ l in
          '(ss, last_price) ← mkt_printer ofuel detailed validity_check itr side last_price ss;
          mkt_print_levels fuel ofuel detailed validity_check side best next_itr (u64 (count + 1))
            last_price ss
      end
  end.

(** [toString]; the fuel is the number of blocks of each pool that were ever used. *)
Definition mkt_toString (detailed validity_check : bool) : M MarketOrderBook string :=
  ticker_id ← gets ticker_id_;
  fuel ← gets (λ b, S (size (store_ (orders_at_price_pool_ b))));
  ofuel ← gets (λ b, size (store_ (order_pool_ b)));
  let ss := "Ticker:"%string +:+ tickerIdToString ticker_id +:+ newline in
  asks ← gets (best_by_price Side_SELL);
  ss ← mkt_print_levels fuel ofuel detailed validity_check Side_SELL asks asks 0 Price_MIN ss;
  let ss := ss +:+ book_middle in
  bids ← gets (best_by_price Side_BUY);
  mkt_print_levels fuel ofuel detailed validity_check Side_BUY bids bids 0 Price_INVALID ss.

Lemma mkt_toString_heap detailed validity_check b :
  mkt_toString detailed validity_check b =
    heap_toString (S (size (store_ (orders_at_price_pool_ b)))) (size (store_ (order_pool_ b)))
      (ticker_id_ b) detailed validity_check b.
Proof. reflexivity. Qed.

Lemma mkt_toString_text detailed validity_check b k :
  quotes b k → (validity_check = true → ∀ s, best_within s k = true) →
  mkt_toString detailed validity_check b = Ok (book_text detailed (ticker_id_ b) k, b).
Proof.
  intros (V & L & Hb & Hinv & <-) Hck. rewrite mkt_toString_heap.
  pose proof (dn_view _ _ _ Hb) as HV.
  eapply heap_toString_ok; [exact Hb|exact Hinv|..|exact Hck].
  - intros s. apply Nat.lt_succ_r. eapply levels_counted; [exact Hinv|].
    intros q Hq. rewrite <- HV in Hq. simpl in Hq. unfold live. by destruct (is_free _ _).
  - intros s q qs. eapply orders_counted; [exact Hinv|].
    intros o Ho. rewrite <- HV in Ho. simpl in Ho. unfold live. by destruct (is_free _ _).
Qed.
