(* ===== verification/BookMirror.v ===== *)
(** The client's order book is the exchange's.

    [anon_book k] is the book [k] without the clients of its orders, which the feed does not carry.
    Applied in order, the updates of a request turn the anonymised book before it into the
    anonymised book after it, level by level and queue by queue, so a [MarketOrderBook] that is
    given the updates of its instrument holds the exchange's book, time priority included. *)
From S2P Require Export MarketOrderBookProps EngineFeed.

(** ** Anonymised books *)
Definition anonymous (r : resting) : resting :=
  MkResting 0 (r_market_order_id r) (r_market_order_id r) (r_side r) (r_price r) (r_qty r) (r_priority r).
Definition anon_levels (ls : levels) : levels :=
  (λ l : Z * list resting, (l.1, anonymous <$> l.2)) <$> ls.
Definition anon_book (k : sbook) : sbook := MkSBook (anon_levels (s_bids k)) (anon_levels (s_asks k)).

Lemma s_levels_anon s k : s_levels s (anon_book k) = anon_levels (s_levels s k).
Proof. by destruct s. Qed.
Lemma anon_set_levels s ls k :
  anon_book (s_set_levels s ls k) = s_set_levels s (anon_levels ls) (anon_book k).
Proof. by destruct s. Qed.
Lemma orders_of_anon ls : orders_of (anon_levels ls) = anonymous <$> orders_of ls.
Proof.
  induction ls as [|[px rs] ls IH]; [done|].
  simpl. fold (anon_levels ls). rewrite !orders_of_cons, fmap_app. by f_equal.
Qed.
Lemma all_orders_anon k : all_orders (anon_book k) = anonymous <$> all_orders k.
Proof. unfold all_orders. simpl. by rewrite !orders_of_anon, fmap_app. Qed.

Lemma anon_rest_order s r ls :
  rest_order s (anonymous r) (anon_levels ls) = anon_levels (rest_order s r ls).
Proof.
  induction ls as [|[px rs] ls IH]; simpl; [done|]. fold (anon_levels ls).
  destruct (px =? r_price r); simpl; [by rewrite fmap_app|].
  case_decide; simpl; [done|]. by rewrite IH.
Qed.
(** The key [key] is the id [id] among the orders [rs]. *)
Definition names (id : Z) (key : Z * Z) (rs : list resting) : Prop :=
  ∀ r, r ∈ rs → r_market_order_id r = id ↔ r_key r = key.
Lemma anon_filter id key rs :
  names id key rs →
  filter (λ r, r_key r ≠ quote_key id) (anonymous <$> rs) = anonymous <$> filter (λ r, r_key r ≠ key) rs.
Proof.
  induction rs as [|r rs IH]; intros Hn; [done|]. rewrite fmap_cons, !filter_cons.
  assert (r_key (anonymous r) ≠ quote_key id ↔ r_key r ≠ key) as Hd.
  { rewrite <- (Hn r) by left. unfold r_key, quote_key. simpl. split; congruence. }
  rewrite (decide_ext _ _ _ _ Hd), IH by (intros r' Hr'; apply Hn; by right). by case_decide.
Qed.
Lemma anon_cancel id key ls :
  names id key (orders_of ls) →
  cancel_order (quote_key id) (anon_levels ls) = anon_levels (cancel_order key ls).
Proof.
  induction ls as [|[px rs] ls IH]; intros Hn; simpl; [done|]. fold (anon_levels ls).
  rewrite orders_of_cons in Hn. rewrite (anon_filter id key) by (intros r Hr; apply Hn, elem_of_app; auto).
  rewrite IH by (intros r Hr; apply Hn, elem_of_app; auto). by destruct (filter _ rs).
Qed.
Lemma anon_requantify id key q ls :
  names id key (orders_of ls) →
  requantify (quote_key id) q (anon_levels ls) = anon_levels (requantify key q ls).
Proof.
  induction ls as [|[px rs] ls IH]; intros Hn; [done|].
  rewrite orders_of_cons in Hn. simpl. fold (anon_levels ls) (requantify key q ls).
  fold (requantify (quote_key id) q (anon_levels ls)) (anon_levels (requantify key q ls)).
  rewrite IH by (intros r Hr; apply Hn, elem_of_app; auto). do 2 f_equal.
  rewrite <- !list_fmap_compose. apply list_fmap_ext. intros i r Hr%list_elem_of_lookup_2.
  assert (r_key (anonymous r) = quote_key id ↔ r_key r = key) as Hd.
  { rewrite <- (Hn r) by (apply elem_of_app; auto). unfold r_key, quote_key. simpl. split; congruence. }
  simpl. unfold requantified. rewrite (decide_ext _ _ _ _ Hd). by case_decide.
Qed.

(** ** Books whose orders have different keys and different ids *)
Record clean (k : sbook) : Prop := {
  cl_keys : NoDup (r_key <$> all_orders k);
  cl_ids : NoDup (r_market_order_id <$> all_orders k);
  cl_levels s lv : lv ∈ s_levels s k → lv.2 ≠ [];
  cl_qty r : r ∈ all_orders k → 0 ≤ r_qty r < 2 ^ 32;
}.
Lemma NoDup_fmap_eq {A B} (f : A → B) l x y :
  NoDup (f <$> l) → x ∈ l → y ∈ l → f x = f y → x = y.
Proof.
  intros Hnd (i & Hi)%list_elem_of_lookup (j & Hj)%list_elem_of_lookup E.
  assert (i = j) as ->; [|congruence].
  apply (NoDup_lookup (f <$> l) i j (f x) Hnd); rewrite list_lookup_fmap; [by rewrite Hi|].
  rewrite Hj. simpl. by rewrite E.
Qed.
Lemma clean_names k r : clean k → r ∈ all_orders k → names (r_market_order_id r) (r_key r) (all_orders k).
Proof.
  intros Hk Hr r' Hr'. split; intros E.
  - by rewrite (NoDup_fmap_eq _ _ r' r (cl_ids _ Hk)).
  - by rewrite (NoDup_fmap_eq _ _ r' r (cl_keys _ Hk)).
Qed.
Lemma anon_find k r :
  clean k → r ∈ all_orders k → find_order (quote_key (r_market_order_id r)) (anon_book k) = Some (anonymous r).
Proof.
  intros Hk Hr. apply find_order_unique; [|done|].
  - rewrite all_orders_anon. by apply list_elem_of_fmap_2.
  - rewrite all_orders_anon. intros ? (r' & -> & Hr')%list_elem_of_fmap [= E].
    by rewrite (NoDup_fmap_eq _ _ r' r (cl_ids _ Hk)).
Qed.
Lemma anon_find_none k id :
  (∀ r, r ∈ all_orders k → r_market_order_id r ≠ id) → find_order (quote_key id) (anon_book k) = None.
Proof.
  intros Hid. apply find_order_none. rewrite all_orders_anon.
  intros ? (r & -> & Hr)%list_elem_of_fmap [= E]. by apply (Hid r).
Qed.
Lemma names_side id key s k : names id key (all_orders k) → names id key (orders_of (s_levels s k)).
Proof. intros Hn r Hr. apply Hn, all_orders_elem. eauto. Qed.
Lemma anon_cancel_book id key k :
  names id key (all_orders k) → cancel_in_book (quote_key id) (anon_book k) = anon_book (cancel_in_book key k).
Proof.
  intros Hn. unfold cancel_in_book, anon_book. simpl.
  f_equal; apply anon_cancel; [exact (names_side _ _ true _ Hn)|exact (names_side _ _ false _ Hn)].
Qed.
Lemma anon_requantify_book id key q k :
  names id key (all_orders k) →
  requantify_book (quote_key id) q (anon_book k) = anon_book (requantify_book key q k).
Proof.
  intros Hn. unfold requantify_book, anon_book. simpl.
  f_equal; apply anon_requantify; [exact (names_side _ _ true _ Hn)|exact (names_side _ _ false _ Hn)].
Qed.

(** ** The first order of a side *)
Lemma orders_drop_first px rs ls : orders_of (drop_first px rs ls) = rs ++ orders_of ls.
Proof. by destruct rs. Qed.
Section first_order.
Context (k : sbook) (s : bool) (px : Z) (r : resting) (rs : list resting) (ls : levels).
Context (Hk : clean k) (Hs : s_levels s k = (px, r :: rs) :: ls).

Lemma first_perm :
  all_orders k ≡ₚ r :: (rs ++ orders_of ls) ++ orders_of (s_levels (negb s) k).
Proof. by rewrite (all_orders_side s), Hs, orders_of_cons. Qed.
Lemma first_elem : r ∈ all_orders k.
Proof. rewrite first_perm. left. Qed.
Lemma first_others r' :
  r' ∈ rs ++ orders_of ls ∨ r' ∈ orders_of (s_levels (negb s) k) → r_key r' ≠ r_key r.
Proof.
  intros Hr' E. pose proof (cl_keys _ Hk) as Hnd. rewrite first_perm in Hnd. simpl in Hnd.
  apply NoDup_cons in Hnd as [Hn _]. apply Hn. rewrite <- E. apply list_elem_of_fmap_2.
  by apply elem_of_app.
Qed.
Lemma sbook_sides k1 k2 s' :
  s_levels s' k1 = s_levels s' k2 → s_levels (negb s') k1 = s_levels (negb s') k2 → k1 = k2.
Proof. intros H1 H2. apply sbook_ext. by destruct s'; intros []. Qed.

Lemma cancel_first : cancel_in_book (r_key r) k = s_set_levels s (drop_first px rs ls) k.
Proof.
  assert (∀ s', s_levels s' (cancel_in_book (r_key r) k) = cancel_order (r_key r) (s_levels s' k)) as Hc
    by by intros [].
  apply (sbook_sides _ _ s); rewrite Hc, ?s_levels_set, ?s_levels_set_other.
  - assert (cancel_order (r_key r) [(px, [] ++ r :: rs)] = drop_first px ([] ++ rs) []) as E1.
    { apply cancel_order_level; [done|]. intros r' Hr'. apply first_others. left. apply elem_of_app. auto. }
    assert (cancel_order (r_key r) ls = ls) as E2.
    { apply cancel_order_absent. intros lv Hlv. split; [apply (cl_levels _ Hk s); rewrite Hs; by right|].
      intros r' Hr'. apply first_others. left. apply elem_of_app. right. destruct lv as [p os].
      apply list_elem_of_split in Hlv as (l1 & l2 & ->). rewrite orders_of_app, orders_of_cons, !elem_of_app. auto. }
    rewrite Hs, cons_app, cancel_order_app, E2. simpl in E1 |- *. rewrite E1. by destruct rs.
  - apply cancel_order_absent. intros lv Hlv. split; [by eapply cl_levels|].
    intros r' Hr'. apply first_others. right. destruct lv as [p os].
    apply list_elem_of_split in Hlv as (l1 & l2 & ->). rewrite orders_of_app, orders_of_cons, !elem_of_app. auto.
Qed.
Lemma requantify_absent key q ls' : (∀ r', r' ∈ orders_of ls' → r_key r' ≠ key) → requantify key q ls' = ls'.
Proof.
  intros Hne. unfold requantify. rewrite <- (list_fmap_id ls') at 2. apply list_fmap_ext.
  intros i [p os] Hlv%list_elem_of_lookup_2. simpl. f_equal.
  rewrite <- (list_fmap_id os) at 2. apply list_fmap_ext. intros j r' Hr'%list_elem_of_lookup_2.
  unfold requantified. rewrite decide_False; [done|]. apply Hne.
  apply list_elem_of_split in Hlv as (l1 & l2 & ->). rewrite orders_of_app, orders_of_cons, !elem_of_app. auto.
Qed.
Lemma requantify_first q :
  requantify_book (r_key r) q k = s_set_levels s ((px, set_r_qty q r :: rs) :: ls) k.
Proof.
  assert (∀ s', s_levels s' (requantify_book (r_key r) q k) = requantify (r_key r) q (s_levels s' k)) as Hc
    by by intros [].
  apply (sbook_sides _ _ s); rewrite Hc, ?s_levels_set, ?s_levels_set_other.
  - rewrite Hs.
    assert ((px, requantified (r_key r) q <$> rs) :: requantify (r_key r) q ls = (px, rs) :: ls) as E.
    { apply (requantify_absent (r_key r) q ((px, rs) :: ls)). intros r' Hr'. apply first_others. by left. }
    injection E as E1 E2.
    change (requantify (r_key r) q ((px, r :: rs) :: ls)) with
      ((px, requantified (r_key r) q r :: (requantified (r_key r) q <$> rs)) :: requantify (r_key r) q ls).
    rewrite E1, E2. unfold requantified. by rewrite decide_True.
  - apply requantify_absent. intros r' Hr'. apply first_others. by right.
Qed.

Lemma set_perm l' : all_orders (s_set_levels s l' k) ≡ₚ orders_of l' ++ orders_of (s_levels (negb s) k).
Proof. by rewrite (all_orders_side s), s_levels_set, s_levels_set_other. Qed.
Lemma set_levels_nonempty l' :
  (∀ lv, lv ∈ l' → lv.2 ≠ []) → ∀ s' lv, lv ∈ s_levels s' (s_set_levels s l' k) → lv.2 ≠ [].
Proof.
  intros Hl s' lv. destruct (decide (s' = s)) as [->|Hne]; [rewrite s_levels_set; apply Hl|].
  assert (s' = negb s) as -> by by destruct s, s'. rewrite s_levels_set_other. apply (cl_levels _ Hk).
Qed.
Lemma clean_drop : clean (s_set_levels s (drop_first px rs ls) k).
Proof.
  pose proof Hk as [Hkeys Hids Hlv Hq]. rewrite first_perm in Hkeys, Hids. simpl in Hkeys, Hids.
  apply NoDup_cons in Hkeys as [_ ?], Hids as [_ ?]. split.
  - by rewrite set_perm, orders_drop_first.
  - by rewrite set_perm, orders_drop_first.
  - apply set_levels_nonempty. intros lv Hlv'. destruct rs as [|r' rs']; simpl in Hlv'.
    + apply (Hlv s). rewrite Hs. by right.
    + apply elem_of_cons in Hlv' as [->|Hlv']; [done|]. apply (Hlv s). rewrite Hs. by right.
  - intros r'. rewrite set_perm, orders_drop_first. intros Hr'. apply Hq. rewrite first_perm. by right.
Qed.
Lemma clean_part q : 0 ≤ q < 2 ^ 32 → clean (s_set_levels s ((px, set_r_qty q r :: rs) :: ls) k).
Proof.
  intros Hqq. pose proof Hk as [Hkeys Hids Hlv Hq]. rewrite first_perm in Hkeys, Hids.
  split.
  - by rewrite set_perm, orders_of_cons.
  - by rewrite set_perm, orders_of_cons.
  - apply set_levels_nonempty. intros lv [->|Hlv']%elem_of_cons; [done|]. apply (Hlv s). rewrite Hs. by right.
  - intros r'. rewrite set_perm, orders_of_cons. intros [->|Hr']%elem_of_cons; [done|].
    apply Hq. rewrite first_perm. by right.
Qed.
End first_order.

(** ** Sequences of updates *)
Fixpoint takes_all (us : list MEMarketUpdate) (k : sbook) : Prop :=
  match us with
  | [] => True
  | u :: us => takes u k ∧ takes_all us (book_update u k)
  end.
Definition book_updates (us : list MEMarketUpdate) (k : sbook) : sbook :=
  foldl (λ k u, book_update u k) k us.
(** The updates [us] are accepted by the anonymised book [k] and make it the anonymised book [k']. *)
Definition mirrors (us : list MEMarketUpdate) (k k' : sbook) : Prop :=
  takes_all us (anon_book k) ∧ book_updates us (anon_book k) = anon_book k'.
Lemma takes_all_app us1 us2 k :
  takes_all (us1 ++ us2) k ↔ takes_all us1 k ∧ takes_all us2 (book_updates us1 k).
Proof. revert k. induction us1 as [|u us1 IH]; intros k; simpl; [tauto|]. rewrite IH. tauto. Qed.
Lemma mirrors_nil k : mirrors [] k k.
Proof. done. Qed.
Lemma mirrors_app us1 us2 k k1 k2 : mirrors us1 k k1 → mirrors us2 k1 k2 → mirrors (us1 ++ us2) k k2.
Proof.
  intros [H1 E1] [H2 E2]. unfold mirrors, book_updates in *.
  rewrite takes_all_app, foldl_app. unfold book_updates. by rewrite E1.
Qed.
Lemma mirrors_one u k k' : takes u (anon_book k) → book_update u (anon_book k) = anon_book k' → mirrors [u] k k'.
Proof. by intros ? ?. Qed.

(** A fill of the first order of a side. *)
Lemma fill_mirrors t k px r rs ls leaves :
  clean k → s_levels (negb (t_side t)) k = (px, r :: rs) :: ls → 0 < leaves →
  mirrors (fill_updates t (MkFill r leaves)) k
    (s_set_levels (negb (t_side t)) (if r_qty r <=? leaves then drop_first px rs ls
      else (px, set_r_qty (r_qty r - leaves) r :: rs) :: ls) k).
Proof.
  intros Hk Hs Hl. pose proof (first_elem _ _ _ _ _ _ Hs) as Hr.
  pose proof (clean_names _ _ Hk Hr) as Hn. pose proof (anon_find _ _ Hk Hr) as Hf.
  pose proof (cl_qty _ Hk _ Hr) as Hq.
  eapply (mirrors_app [_] [_] k k); [by apply mirrors_one|]. unfold f_qty. simpl.
  destruct (r_qty r <=? leaves) eqn:Hle.
  - rewrite (proj2 (Z.eqb_eq _ 0)) by lia. apply mirrors_one.
    + unfold takes. simpl. rewrite Hf. eauto.
    + unfold book_update. simpl. rewrite (anon_cancel_book _ _ _ Hn). f_equal. by apply cancel_first.
  - rewrite (proj2 (Z.eqb_neq _ 0)) by lia. rewrite Z.min_l by lia. apply mirrors_one.
    + unfold takes. simpl. rewrite Hf. split; [eauto|lia].
    + unfold book_update. simpl. rewrite (anon_requantify_book _ _ _ _ Hn). f_equal. by apply requantify_first.
Qed.

Lemma s_set_levels_twice s l1 l2 k : s_set_levels s l2 (s_set_levels s l1 k) = s_set_levels s l2 k.
Proof. by destruct s. Qed.
Lemma s_set_levels_same s k : s_set_levels s (s_levels s k) k = k.
Proof. by destruct s, k. Qed.

Lemma fills_mirror t fuel : ∀ k leaves rest leaves' fs,
  (length (orders_of (s_levels (negb (t_side t)) k)) < fuel)%nat → clean k → 0 ≤ leaves →
  sweep t (s_levels (negb (t_side t)) k) leaves = (rest, leaves', fs) →
  mirrors (concat (fill_updates t <$> fs)) k (s_set_levels (negb (t_side t)) rest k) ∧
  clean (s_set_levels (negb (t_side t)) rest k).
Proof.
  set (s := negb (t_side t)). induction fuel as [|fuel IH]; [lia|].
  intros k leaves rest leaves' fs Hf Hk Hl Hsw.
  assert ((leaves = 0 ∨ (match s_levels s k with [] => True | (px, _) :: _ => crosses t px = false end)) ∨
    ∃ px rs ls, s_levels s k = (px, rs) :: ls ∧ crosses t px = true ∧ leaves ≠ 0)
    as [Hstop|(px & rs & ls & Hs & Hc & Hl0)].
  { destruct (decide (leaves = 0)); [auto|]. destruct (s_levels s k) as [|[px rs] ls]; [auto|].
    destruct (crosses t px) eqn:Hc; [right; eauto 10|auto]. }
  { rewrite sweep_stop in Hsw by done. simplify_eq. rewrite s_set_levels_same. split; [apply mirrors_nil|done]. }
  destruct rs as [|r rs].
  { exfalso. apply (cl_levels _ Hk s (px, [])); [rewrite Hs; left|done]. }
  pose proof (fill_mirrors t k px r rs ls leaves Hk Hs ltac:(lia)) as Hfill. fold s in Hfill.
  pose proof (cl_qty _ Hk _ (first_elem _ _ _ _ _ _ Hs)) as Hq.
  rewrite Hs in Hsw. destruct (r_qty r <=? leaves) eqn:Hle.
  - rewrite sweep_take in Hsw by (done || lia).
    destruct (sweep t (drop_first px rs ls) (leaves - r_qty r)) as [[rest1 lv1] fs1] eqn:Hsw1. simplify_eq.
    destruct (IH (s_set_levels s (drop_first px rs ls) k) (leaves - r_qty r) rest leaves' fs1) as [Hm Hc'].
    + rewrite s_levels_set, orders_drop_first. rewrite Hs, orders_of_cons in Hf. simpl in Hf. lia.
    + by eapply clean_drop.
    + lia.
    + by rewrite s_levels_set.
    + rewrite s_set_levels_twice in Hm, Hc'. split; [|done].
      rewrite fmap_cons, concat_cons. by eapply mirrors_app.
  - rewrite sweep_partial in Hsw by (done || lia). simplify_eq. cbn [fmap list_fmap concat].
    rewrite app_nil_r. split; [done|]. eapply clean_part; [done|done|lia].
Qed.

(** ** The operations of the exchange's book *)
Lemma is_buy_side s : is_buy (to_side s) = s.
Proof. by destruct s. Qed.
Lemma no_collision_anon s price index k : no_collision s price index (anon_book k) = no_collision s price index k.
Proof.
  assert (∀ (P : Z → bool) ls, forallb (λ l : Z * list resting, P l.1) (anon_levels ls) =
    forallb (λ l : Z * list resting, P l.1) ls) as H.
  { intros P ls. induction ls as [|[px rs] ls IH]; [done|]. simpl. by f_equal. }
  unfold no_collision. rewrite !s_levels_anon.
  by rewrite (H (λ x, (x =? price) || negb (index x =? index price))),
    (H (λ x, negb (index x =? index price))).
Qed.
Lemma taken_ids rs leaves fs rest leaves' r :
  taken rs leaves fs rest leaves' → r ∈ rest →
  ∃ r', r' ∈ rs ∧ r_market_order_id r' = r_market_order_id r ∧ r_key r' = r_key r.
Proof.
  induction 1 as [|r0 rs leaves fs rest leaves' _ _ _ IH|r0 rs leaves]; intros Hr; [eauto| |].
  - destruct (IH Hr) as (r' & ? & ?). exists r'. split; [by right|done].
  - apply elem_of_cons in Hr as [->|Hr]; [exists r0|exists r]; split; try done; [left|by right].
Qed.

Lemma spec_add_mirrors t qty k :
  clean k → (∀ r, r ∈ all_orders k → r_market_order_id r ≠ t_market_order_id t) →
  mkt_oid_in_range (t_market_order_id t) = true → 0 ≤ qty < 2 ^ 32 →
  (let '(opp, leaves, _) := sweep_of t qty k in
   (leaves =? 0) || no_collision (t_side t) (t_price t) MarketOrderBook.priceToIndex
                      (s_set_levels (negb (t_side t)) opp k) = true) →
  mirrors (out_updates (spec_add t qty k)) k (out_book (spec_add t qty k)).
Proof.
  intros Hk Hids Hrange Hqty Hnc. unfold spec_add, sweep_of in *.
  destruct (sweep t _ qty) as [[opp leaves] fs] eqn:Hsw.
  assert (∀ r, r ∈ orders_of (s_levels (negb (t_side t)) k) → 0 ≤ r_qty r) as Hq.
  { intros r Hr. destruct (cl_qty _ Hk r) as [? _]; [|done]. apply all_orders_elem. eauto. }
  destruct (fills_mirror t _ k qty opp leaves fs (Nat.lt_succ_diag_r _) Hk (proj1 Hqty) Hsw) as [Hm Hk1].
  pose proof (sweep_leaves_range _ _ _ _ _ _ Hq (proj1 Hqty) Hsw) as Hlv.
  pose proof (sweep_taken _ _ _ _ _ _ Hq (proj1 Hqty) Hsw) as Htk.
  set (k1 := s_set_levels (negb (t_side t)) opp k) in *.
  destruct (leaves =? 0) eqn:Hz; [done|]. simpl in Hnc |- *.
  eapply mirrors_app; [exact Hm|]. set (prio := next_priority _ _). apply mirrors_one.
  - unfold takes. simpl. rewrite is_buy_side, no_collision_anon. split_and!; [done| |lia|lia|done|done].
    apply anon_find_none. intros r [s Hr]%all_orders_elem. unfold k1 in Hr.
    destruct (decide (s = negb (t_side t))) as [->|Hne].
    + rewrite s_levels_set in Hr. destruct (taken_ids _ _ _ _ _ _ Htk Hr) as (r' & Hr' & <- & _).
      apply Hids, all_orders_elem. eauto.
    + assert (s = negb (negb (t_side t))) as -> by by destruct s, (t_side t).
      rewrite s_levels_set_other in Hr. apply Hids, all_orders_elem. eauto.
  - unfold book_update, rest_in_book. simpl. rewrite is_buy_side, s_levels_anon.
    match goal with |- context [rest_order _ (quote_of_update ?u) _] =>
      change (quote_of_update u) with (anonymous (MkResting (t_client_id t) (t_client_order_id t)
        (t_market_order_id t) (to_side (t_side t)) (t_price t) leaves prio)) end.
    by rewrite anon_rest_order, anon_set_levels.
Qed.

Lemma spec_cancel_mirrors c o tk k :
  clean k → mirrors (out_updates (spec_cancel c o tk k)) k (out_book (spec_cancel c o tk k)).
Proof.
  intros Hk. unfold spec_cancel. destruct (find_order (c, o) k) as [r|] eqn:Hf; [|apply mirrors_nil].
  assert (r ∈ all_orders k ∧ r_key r = (c, o)) as [Hr Hkey].
  { unfold find_order in Hf. destruct (list_find _ _) as [[i r']|] eqn:E; [|done]. injection Hf as <-.
    apply list_find_Some in E as (Hi & Hkey & _). split; [by eapply list_elem_of_lookup_2|done]. }
  apply mirrors_one.
  - unfold takes. simpl. rewrite (anon_find _ _ Hk Hr). eauto.
  - unfold book_update. simpl. rewrite <- Hkey. apply anon_cancel_book, clean_names; done.
Qed.

(** ** The engine's runs *)
Lemma represents_clean n b k : represents b k → listed n (all_orders k) → clean k.
Proof.
  intros (V & L & _ & Hinv & <-) [Hk Hi _]. split; [done|done| |].
  - intros s [px rs] Hlv. by eapply td_level; [eapply abs_tidy|].
  - intros r [s Hr]%all_orders_elem. rewrite s_levels_abs, orders_of_abs in Hr.
    apply list_elem_of_fmap in Hr as (o & -> & Ho).
    apply (wf_order_live _ _ _ _ _ (vi_wf _ _ Hinv)) in Ho. by destruct (vi_orders _ _ Hinv o Ho).
Qed.
Lemma spec_process_mirrors r b k :
  represents b k → servable r b k → 0 ≤ next_market_order_id_ b < ME_MAX_ORDER_IDS →
  listed (next_market_order_id_ b) (all_orders k) →
  let o := spec_process r (next_market_order_id_ b) k in mirrors (out_updates o) k (out_book o).
Proof.
  intros Hb Hs Hid Hl. pose proof (represents_clean _ _ _ Hb Hl) as Hk.
  unfold spec_process, servable in *. destruct (req_type_ r); try done.
  - destruct Hs as (_ & [_ _ Hq _ _ Hnc _] & _). apply spec_add_mirrors; try done.
    + intros r' Hr'. destruct Hl as [_ _ Hr]. rewrite Forall_forall in Hr. specialize (Hr r' Hr').
      simpl in *. lia.
    + simpl. unfold mkt_oid_in_range. lia.
  - by apply spec_cancel_mirrors.
Qed.

(** The updates of one instrument. *)
Definition updates_of (t : Z) (us : list MEMarketUpdate) : list MEMarketUpdate :=
  filter (λ u, upd_ticker_id_ u = t) us.
Lemma updates_of_about t us : Forall (about t) us → updates_of t us = us.
Proof. intros H. apply filter_all. intros u Hu. rewrite Forall_forall in H. by destruct (H u Hu). Qed.
Lemma updates_of_other t t' us : Forall (about t') us → t ≠ t' → updates_of t us = [].
Proof.
  intros H Hne. unfold updates_of. induction H as [|u us [Hu _] _ IH]; [done|].
  by rewrite filter_cons_False by congruence.
Qed.

Lemma engine_run_mirrors m ks us :
  engine_run m ks us → ∀ i k, ks !! i = Some k → mirrors (updates_of (Z.of_nat i) us) empty_book k.
Proof.
  induction 1 as [qi qr qm m Hm|m ks us m' _ IH E
    |m ks us r rest b k m' nr nu rs0 us0 Hprev IH Hwf Hc Ht Hbk Hk Hserv Hid out Hsink Hrun]; intros i k' Hk'.
  - apply lookup_replicate in Hk' as [-> _]. apply mirrors_nil.
  - by apply IH.
  - apply engine_run_shown in Hprev as [Hb _ Hs _].
    destruct (Hs _ _ _ Hk Hbk) as [Hid0 [_ Hl]].
    pose proof (Forall2_lookup_lr _ _ _ _ _ _ Hb Hbk Hk) as Hrep.
    unfold updates_of. rewrite filter_app. fold (updates_of (Z.of_nat i) us) (updates_of (Z.of_nat i) (out_updates out)).
    pose proof (spec_process_about r (next_market_order_id_ b) k) as Habout. fold out in Habout.
    destruct (decide (i = Z.to_nat (req_ticker_id_ r))) as [->|Hne].
    + rewrite list_lookup_insert_eq in Hk' by (by eapply lookup_lt_Some). injection Hk' as <-.
      eapply mirrors_app; [by apply IH|]. rewrite Z2Nat.id by done.
      rewrite (updates_of_about _ _ Habout). by apply spec_process_mirrors.
    + rewrite list_lookup_insert_ne in Hk' by done. rewrite (updates_of_other _ _ _ Habout) by lia.
      rewrite app_nil_r. by apply IH.
Qed.

(** ** The client's book on a sequence of updates *)
Fixpoint run_updates (us : list MEMarketUpdate) : M MarketOrderBook unit :=
  match us with
  | [] => mret tt
  | u :: us => _ ← apply_market_update u; run_updates us
  end.
(** Whenever an ADD comes, the pools have their next slot free. *)
Fixpoint roomy (us : list MEMarketUpdate) (b : MarketOrderBook) : Prop :=
  match us with
  | [] => True
  | u :: us =>
    (upd_type_ u = MarketUpdateType_ADD → has_slots b = true) ∧
    ∀ b', apply_market_update u b = Ok (tt, b') → roomy us b'
  end.
Lemma run_updates_ok us b k :
  quotes b k → takes_all us k → roomy us b →
  wp (run_updates us) b (λ _ b', quotes b' (book_updates us k)).
Proof.
  revert b k. induction us as [|u us IH]; intros b k Hb; simpl; [by intros; apply wp_ret|].
  intros [Hu Hus] [Hroom Hnext]. apply wp_bind.
  destruct (proj1 (wp_ok _ _ _) (apply_market_update_ok u b k Hb (conj Hu Hroom))) as ([] & b' & E & Hb' & _).
  apply wp_ok. exists tt, b'. split; [done|]. by apply IH, Hnext.
Qed.

Lemma rebuilt_book m ks us t k :
  engine_run m ks us → 0 ≤ t → ks !! Z.to_nat t = Some k →
  roomy (updates_of t us) (market_book0 t) →
  ∃ b', run_updates (updates_of t us) (market_book0 t) = Ok (tt, b') ∧ quotes b' (anon_book k).
Proof.
  intros Hrun Ht Hk Hroom. destruct (engine_run_mirrors m ks us Hrun _ _ Hk) as [Htakes E].
  rewrite Z2Nat.id in Htakes, E by done.
  destruct (proj1 (wp_ok _ _ _) (run_updates_ok _ _ _ (market_book0_quotes t) Htakes Hroom)) as ([] & b' & Eb & Hb').
  exists b'. split; [done|]. unfold book_updates in *. change empty_book with (anon_book empty_book) in Hb'.
  by rewrite E in Hb'.
Qed.

