(* ===== verification/MarketOrderBookRoom.v ===== *)
(** The pools of a client order book are roomy for a while.

    A new book takes its objects from its pools in ascending order of their slots.  As long as fewer
    objects were allocated than there are slots, the slots from [next_free_] on have never been used,
    whatever was given back meanwhile: a book takes any updates of at most 255 new orders. *)
From S2P Require Export BookMirror.
Import MarketOrderBook.

(** ** Slots that were never used *)
Record unused {T} `{!ValueInit T} (size n : Z) (p : MemPool T) : Prop := {
  un_size : store_size p = size;
  un_next : 0 ≤ next_free_ p ≤ n;
  un_free i : next_free_ p ≤ i → is_free p i = true;
}.
Section unused.
Context {T : Type} `{!ValueInit T} (size : Z).
Implicit Types p : MemPool T.
Lemma unused_set_obj n i x p : unused size n p → unused size n (set_obj i x p).
Proof. intros [? ? H]. split; [done..|]. intros j Hj. rewrite is_free_set_obj. by apply H. Qed.
Lemma unused_deallocate n i : ∀ p, unused size n p → wlp (deallocate i) p (λ _ p', unused size n p').
Proof.
  intros p [? ? H]. unfold deallocate. apply wlp_bind, wlp_gets, wlp_bind, wlp_ASSERT. intros _. apply wlp_modify.
  split; [done..|]. intros j Hj. unfold is_free, set_free. rewrite block_set_block. case_decide; [done|by apply H].
Qed.
Lemma unused_allocate n x p :
  unused size n p → n + 1 < size ≤ 2 ^ 20 → (∃ k, 0 ≤ k ∧ size = 2 ^ k) →
  wlp (allocate x) p (λ _ p', unused size (n + 1) p').
Proof.
  intros [Hs Hn Hf] Hlt (k & Hk & Ek). unfold allocate.
  cbn [allocate_from]. apply wlp_bind, wlp_gets, wlp_bind, wlp_gets, wlp_bind. unfold exchange_is_free.
  apply wlp_bind, wlp_gets. unfold in_store. rewrite Hs, (proj2 (Z.leb_le _ _)), (proj2 (Z.ltb_lt _ _)) by lia.
  apply wlp_bind, wlp_gets, wlp_bind, wlp_modify, wlp_ret. rewrite (Hf (next_free_ p)) by lia.
  apply wlp_bind, wlp_modify, wlp_bind, wlp_modify, wlp_ret. apply unused_set_obj.
  assert (Z.land (u64 (next_free_ p + 1)) (u64 (size - 1)) = next_free_ p + 1) as ->.
  { rewrite !u64_id by lia. replace (size - 1) with (Z.ones k) by (rewrite Z.ones_equiv; lia).
    rewrite Z.land_ones, <- Ek by done. apply Z.mod_small. lia. }
  split; simpl; [done|lia|]. intros j Hj. specialize (Hf j ltac:(lia)).
  unfold is_free, MemPool.block in *. simpl. by rewrite lookup_insert_ne by lia.
Qed.
End unused.

(** ** Operations that take nothing *)
(** At most [x] orders and [y] levels were allocated. *)
Definition spent (x y : Z) (b : MarketOrderBook) : Prop :=
  unused ME_MAX_ORDER_IDS x (order_pool_ b) ∧ unused ME_MAX_PRICE_LEVELS y (orders_at_price_pool_ b).
Definition pools (b : MarketOrderBook) := (order_pool_ b, orders_at_price_pool_ b).

Section stays.
Context (x y : Z).
Definition stays {A} (m : M MarketOrderBook A) : Prop := ∀ b, spent x y b → wlp m b (λ _ b', spent x y b').
Lemma stays_keeps {A} (m : M MarketOrderBook A) : keeps pools m → stays m.
Proof. intros Hk b Hb a b' E. apply Hk in E. injection E as Eo El. unfold spent. by rewrite Eo, El. Qed.
Lemma stays_bind {A B} (m : M MarketOrderBook A) (k : A → M MarketOrderBook B) :
  stays m → (∀ a, stays (k a)) → stays (m ≫= k).
Proof. intros Hm Hk b Hb. apply wlp_bind. intros a b' E. apply Hk. by eapply Hm. Qed.
Lemma stays_put_order p f : stays (put_order p f).
Proof.
  intros b [Ho Hl]. unfold put_order. apply wlp_bind. destruct p; [apply wlp_ret|apply wlp_raise].
  apply wlp_modify. split; [|done]. by apply unused_set_obj.
Qed.
Lemma stays_put_level p f : stays (put_level p f).
Proof.
  intros b [Ho Hl]. unfold put_level. apply wlp_bind. destruct p; [apply wlp_ret|apply wlp_raise].
  apply wlp_modify. split; [done|]. by apply unused_set_obj.
Qed.
Lemma stays_drop_order i : stays (on_order_pool (deallocate i)).
Proof.
  intros b [Ho Hl]. apply wlp_zoom. eapply wlp_mono; [by apply unused_deallocate|]. by intros [] p Hp.
Qed.
Lemma stays_drop_level i : stays (on_level_pool (deallocate i)).
Proof.
  intros b [Ho Hl]. apply wlp_zoom. eapply wlp_mono; [by apply unused_deallocate|]. by intros [] p Hp.
Qed.
Lemma keeps_pools_best s p : keeps pools (modify (set_best_by_price s p)).
Proof. apply keeps_modify. intros b. unfold set_best_by_price. by case_decide. Qed.
Lemma keeps_pools_order p : keeps pools (get_order p).
Proof. unfold get_order. keeps_tac. Qed.
Lemma keeps_pools_level p : keeps pools (get_level p).
Proof. unfold get_level. keeps_tac. Qed.
#[local] Hint Resolve keeps_pools_best keeps_pools_order keeps_pools_level : keeps.
#[local] Hint Resolve stays_put_order stays_put_level stays_drop_order stays_drop_level : stays.
Ltac stays_tac :=
  repeat (intros; lazymatch goal with
    | |- stays (_ ≫= _) => apply stays_bind
    | |- stays (match _ with _ => _ end) => case_match
    | |- stays _ => first [solve [auto with stays] | apply stays_keeps; keeps_tac]
    end).
Lemma stays_find_target fuel s px best add t : stays (find_target fuel s px best add t).
Proof. revert add t. induction fuel; intros; cbn [find_target]; stays_tac. Qed.
#[local] Hint Resolve stays_find_target : stays.
Lemma stays_addOrdersAtPrice p : stays (addOrdersAtPrice p).
Proof. unfold addOrdersAtPrice, price_map_assign. stays_tac. Qed.
Lemma stays_removeOrdersAtPrice s px : stays (removeOrdersAtPrice s px).
Proof. unfold removeOrdersAtPrice, getOrdersAtPrice, price_map_at, price_map_assign. stays_tac. Qed.
#[local] Hint Resolve stays_addOrdersAtPrice stays_removeOrdersAtPrice : stays.
Lemma stays_removeOrder p : stays (removeOrder p).
Proof. unfold removeOrder, getOrdersAtPrice, price_map_at, oid_assign. stays_tac. Qed.
Lemma stays_clear_orders n oid : stays (clear_orders n oid).
Proof. revert oid. induction n; intros; cbn [clear_orders]; stays_tac. Qed.
Lemma stays_clear_rest fuel best p : stays (clear_rest fuel best p).
Proof. revert p. induction fuel; intros; cbn [clear_rest]; stays_tac. Qed.
#[local] Hint Resolve stays_removeOrder stays_clear_orders stays_clear_rest : stays.
Lemma stays_clear_levels s : stays (clear_levels s).
Proof. unfold clear_levels. stays_tac. Qed.
#[local] Hint Resolve stays_clear_levels : stays.
Lemma stays_update_orders u : upd_type_ u ≠ MarketUpdateType_ADD → stays (update_orders u).
Proof.
  intros Hu. unfold update_orders, clear_book, oid_at. destruct (upd_type_ u) eqn:E; try done; stays_tac.
Qed.
Lemma stays_sum_orders fuel first p q : stays (sum_orders fuel first p q).
Proof. revert p q. induction fuel; intros; cbn [sum_orders]; stays_tac. Qed.
#[local] Hint Resolve stays_sum_orders : stays.
Lemma stays_updateBBO bid ask : stays (updateBBO bid ask).
Proof. unfold updateBBO, top_of. stays_tac. Qed.
Lemma stays_touches_best s u : stays (touches_best s u).
Proof. unfold touches_best. stays_tac. Qed.
End stays.

(** ** An ADD takes at most one object of each pool *)
Lemma spent_more x y x' y' b : spent x y b → x ≤ x' → y ≤ y' → spent x' y' b.
Proof. intros [[? ? ?] [? ? ?]] Hx Hy. split; split; try done; lia. Qed.
Lemma wlp_stays {A B} x y (m : M MarketOrderBook A) (k : A → M MarketOrderBook B) b Φ :
  stays x y m → spent x y b → (∀ a b', spent x y b' → wlp (k a) b' Φ) → wlp (m ≫= k) b Φ.
Proof. intros Hm Hb Hk. apply wlp_bind. intros a b' E. by apply Hk, (Hm b Hb a). Qed.

Lemma addOrder_spends x y p b :
  spent x y b → y + 1 < ME_MAX_PRICE_LEVELS → wlp (addOrder p) b (λ _ b', spent x (y + 1) b').
Proof.
  intros Hb Hy. unfold addOrder.
  eapply wlp_stays; [apply stays_keeps, keeps_pools_order|done|]. clear b Hb. intros o b Hb.
  eapply wlp_stays; [|exact Hb|].
  { apply stays_keeps. unfold getOrdersAtPrice, price_map_at. keeps_tac. }
  clear b Hb. intros orders_at_price b Hb.
  assert (∀ b', spent x (y + 1) b' → wlp (o ← get_order p; oid_assign (mkt_order_id_ o) p) b'
    (λ _ b'', spent x (y + 1) b'')) as Hend.
  { intros b' Hb'. eapply wlp_stays; [apply stays_keeps, keeps_pools_order|done|]. clear b' Hb'. intros o' b' Hb'.
    refine (stays_keeps x (y + 1) _ _ b' Hb'). unfold oid_assign. keeps_tac. }
  apply wlp_bind. destruct orders_at_price as [l|].
  - eapply wlp_mono; [|intros a b' Hb'; apply (Hend b'), (spent_more x y); [exact Hb'|lia..]].
    match goal with |- wlp ?m b _ => assert (stays x y m) as Hs; [|exact (Hs b Hb)] end.
    repeat first [apply stays_put_order | apply stays_keeps, keeps_pools_order
      | apply stays_keeps, keeps_pools_level | apply stays_bind; [|intros ?]].
  - eapply wlp_stays; [apply stays_put_order|done|]. clear b Hb. intros _ b Hb.
    eapply wlp_stays; [apply stays_put_order|done|]. clear b Hb. intros _ b [Ho Hl].
    apply wlp_bind, wlp_zoom. eapply wlp_mono.
    { apply (unused_allocate ME_MAX_PRICE_LEVELS y); [done|split; [lia|done]|by exists 8]. }
    intros q p' Hp'. eapply wlp_mono; [apply (stays_addOrdersAtPrice x (y + 1)); by split|].
    intros a b' Hb'. by apply (Hend b').
Qed.
Lemma update_spends u n b :
  spent n n b → (upd_type_ u = MarketUpdateType_ADD → n + 1 < ME_MAX_PRICE_LEVELS) →
  wlp (apply_market_update u) b (λ _ b',
    spent (if decide (upd_type_ u = MarketUpdateType_ADD) then n + 1 else n)
          (if decide (upd_type_ u = MarketUpdateType_ADD) then n + 1 else n) b').
Proof.
  intros Hb Hn. unfold apply_market_update.
  eapply wlp_stays; [apply stays_touches_best|done|]. clear b Hb. intros bid b Hb.
  eapply wlp_stays; [apply stays_touches_best|done|]. clear b Hb. intros ask b Hb.
  assert (wlp (_ ← update_orders u; updateBBO bid ask) b (λ _ b',
    spent (if decide (upd_type_ u = MarketUpdateType_ADD) then n + 1 else n)
          (if decide (upd_type_ u = MarketUpdateType_ADD) then n + 1 else n) b')) as H.
  { apply wlp_bind. case_decide as Hu.
    - specialize (Hn Hu). unfold update_orders. rewrite Hu. apply wlp_bind, wlp_zoom. destruct Hb as [Ho Hl]. eapply wlp_mono.
      { apply (unused_allocate ME_MAX_ORDER_IDS n); [done| |by exists 20].
        unfold ME_MAX_PRICE_LEVELS, ME_MAX_ORDER_IDS in *. lia. }
      intros q p' Hp'. eapply wlp_mono; [apply (addOrder_spends (n + 1) n); [by split|done]|].
      intros a b' Hb'. by apply stays_updateBBO.
    - intros [] b' E. apply (stays_update_orders n n u Hu b Hb) in E. by apply stays_updateBBO. }
  destruct (upd_type_ u); try exact H. by apply wlp_ret.
Qed.

(** ** A book has room for 255 orders *)
Definition is_add (u : MEMarketUpdate) : bool := bool_decide (upd_type_ u = MarketUpdateType_ADD).
Definition adds (us : list MEMarketUpdate) : Z := Z.of_nat (length (List.filter is_add us)).
Lemma spent_slots n b : spent n n b → has_slots b = true.
Proof. intros [[_ _ Ho] [_ _ Hl]]. unfold has_slots. by rewrite Ho, Hl. Qed.
Lemma spent_roomy n us b : spent n n b → n + adds us < ME_MAX_PRICE_LEVELS → roomy us b.
Proof.
  revert n b. induction us as [|u us IH]; intros n b Hb Hn; [done|]. cbn [roomy].
  split; [intros _; by eapply spent_slots|]. intros b' E. unfold adds in *. cbn [List.filter] in Hn.
  unfold is_add at 1 in Hn. case_bool_decide as Hu.
  - apply (IH (n + 1)); [|simpl in Hn; lia].
    apply (update_spends u n b Hb) in E; [by rewrite decide_True in E|simpl in Hn; lia].
  - apply (IH n); [|lia]. apply (update_spends u n b Hb) in E; [by rewrite decide_False in E|done].
Qed.
Lemma roomy_few t us : adds us < ME_MAX_PRICE_LEVELS → roomy us (market_book0 t).
Proof. intros H. apply (spent_roomy 0); [|lia]. by split; split. Qed.
