(* ===== verification/BookMirrorText.v ===== *)
(** The two ends of the feed print the same book. *)
From S2P Require Import BookMirror MEOrderBookText MarketOrderBookText.

(** The text does not show the clients, and the client's order ids are the exchange's market order
    ids. *)
Lemma orders_text_anon detailed prev first rs :
  orders_text detailed prev first (anonymous <$> rs) = orders_text detailed prev first rs.
Proof.
  revert prev. induction rs as [|r rs IH]; intros prev; [done|].
  rewrite fmap_cons. cbn [orders_text]. rewrite IH. by destruct rs.
Qed.
Lemma level_text_anon detailed prev next l :
  level_text detailed prev next (l.1, anonymous <$> l.2) = level_text detailed prev next l.
Proof.
  destruct l as [px rs]. unfold level_text. cbn [fst snd].
  rewrite length_fmap, fmap_last.
  assert (zsum r_qty (anonymous <$> rs) = zsum r_qty rs) as ->.
  { induction rs as [|r rs IH]; [done|]. by rewrite fmap_cons, !zsum_cons, IH. }
  f_equal. f_equal. destruct rs as [|r rs]; [done|].
  destruct (list.last (r :: rs)) as [z|]; [|done].
  exact (orders_text_anon detailed (r_market_order_id z) (r_market_order_id r) (r :: rs)).
Qed.
Lemma levels_text_anon detailed side count prev first ls :
  levels_text detailed side count prev first (anon_levels ls) =
  levels_text detailed side count prev first ls.
Proof.
  revert count prev. induction ls as [|l ls IH]; intros count prev; [done|].
  change (anon_levels (l :: ls)) with ((l.1, anonymous <$> l.2) :: anon_levels ls).
  cbn [levels_text]. rewrite IH, level_text_anon. by destruct ls.
Qed.
Lemma last_level_anon (l : Z * list resting) ls :
  list.last (anon_levels (l :: ls)) =
  (λ l : Z * list resting, (l.1, anonymous <$> l.2)) <$> list.last (l :: ls).
Proof. exact (fmap_last _ (l :: ls)). Qed.
Lemma side_text_anon detailed s ls : side_text detailed s (anon_levels ls) = side_text detailed s ls.
Proof.
  unfold side_text. destruct ls as [|l ls]; [done|].
  pose proof (last_level_anon l ls) as E.
  change (anon_levels (l :: ls)) with ((l.1, anonymous <$> l.2) :: anon_levels ls) in *.
  cbv iota beta. rewrite E. destruct (list.last (l :: ls)) as [z|]; [|done].
  exact (levels_text_anon detailed (to_side s) 0 z.1 l.1 (l :: ls)).
Qed.
Lemma book_text_anon detailed ticker_id k :
  book_text detailed ticker_id (anon_book k) = book_text detailed ticker_id k.
Proof. unfold book_text. simpl. by rewrite !side_text_anon. Qed.
Lemma best_within_anon s k : best_within s (anon_book k) = best_within s k.
Proof. unfold best_within. rewrite s_levels_anon. by destruct (s_levels s k) as [|[px rs] ls]. Qed.

(** The exchange and its clients print the same book.  Let the engine run from its start and
    publish [us].  The book of instrument [t] in the engine, and a new client book that has processed
    the updates of [t] in order (with a free slot in its pools for each ADD), print the same text
    after the line with the instrument: the same levels with the same totals, and in detail the same
    orders in the same order. *)
Theorem books_print_alike detailed validity_check m ks us t k b :
  engine_run m ks us → 0 ≤ t →
  ks !! Z.to_nat t = Some k → ticker_order_book_ m !! Z.to_nat t = Some b →
  roomy (updates_of t us) (market_book0 t) →
  (validity_check = true → ∀ s, best_within s k = true) →
  toString detailed validity_check b = Ok (book_text detailed (MEOrderBook.ticker_id_ b) k, b) ∧
  ∃ b', run_updates (updates_of t us) (market_book0 t) = Ok (tt, b') ∧
    mkt_toString detailed validity_check b' =
      Ok (book_text detailed (ticker_id_ b') k, b').
Proof.
  intros Hrun Ht Hk Hb Hroom Hck. split.
  - apply toString_text; [|done].
    exact (Forall2_lookup_lr _ _ _ _ _ _ (es_books _ _ _ (engine_run_shown _ _ _ Hrun)) Hb Hk).
  - destruct (rebuilt_book m ks us t k Hrun Ht Hk Hroom) as (b' & Eb & Hb'). exists b'. split; [done|].
    rewrite (mkt_toString_text detailed validity_check b' _ Hb'), book_text_anon; [done|].
    intros Hc s. rewrite best_within_anon. by apply Hck.
Qed.
Lemma books_print_alike_witness :
  ∃ b b', ticker_order_book_ engine1 !! 3%nat = Some b ∧
    toString true true b = Ok (book_text true (MEOrderBook.ticker_id_ b) (out_book sell_outcome), b) ∧
    run_updates (updates_of 3 (out_updates sell_outcome)) (market_book0 3) = Ok (tt, b').
Proof.
  assert (∃ b, ticker_order_book_ engine1 !! 3%nat = Some b) as [b Hb].
  { apply lookup_lt_is_Some. vm_compute. lia. }
  destruct (books_print_alike true true engine1 (<[3%nat := out_book sell_outcome]> ks0)
    (out_updates sell_outcome) 3 (out_book sell_outcome) b) as [H1 (b' & H2 & _)].
  - exact engine1_run.
  - done.
  - reflexivity.
  - exact Hb.
  - split; [intros _; vm_compute; reflexivity|]. intros b' _. exact I.
  - intros _ []; vm_compute; reflexivity.
  - exists b, b'. split; [exact Hb|]. split; [exact H1|exact H2].
Defined.
