(* ===== verification/TradeEngine.v ===== *)
(** trading/strategy/trade_engine.{h,cpp}: the thread that ties the client's components together.

    The engine owns the order books, the position keeper, the risk manager, the feature engine and
    the order manager, and runs one trading algorithm, chosen by the [AlgoType] it was built with
    (any other type leaves the default callbacks, which only log).  It is the [RequestSink] of the order
    manager and the [BookListener] of the books.  [last_event_time_] and the life of the thread are in
    [TradeEngineThread], the destructor in [ClientDestroy]; logging and measurements are not modelled. *)
From S2P Require Export Strategies MarketOrderBook LFQueue.
Export MarketOrderBook.

(** What the order manager sees of the engine: the outgoing queue, the positions and the limits. *)
Record EngineCore : Type := MkEngineCore {
  client_id_ : Z;
  outgoing_ogw_requests_ : LFQueue MEClientRequest;
  position_keeper_ : PositionKeeper;
  risk_manager_ : RiskManager;
}.
Definition set_ogw_requests (q : LFQueue MEClientRequest) (c : EngineCore) : EngineCore :=
  MkEngineCore (client_id_ c) q (position_keeper_ c) (risk_manager_ c).
Definition set_position_keeper (pk : PositionKeeper) (c : EngineCore) : EngineCore :=
  MkEngineCore (client_id_ c) (outgoing_ogw_requests_ c) pk (risk_manager_ c).

Definition sendClientRequest (client_request : MEClientRequest) : M EngineCore unit :=
  zoom outgoing_ogw_requests_ set_ogw_requests
    (next_write ← getNextToWriteTo;
     _ ← write_slot next_write client_request;
     _ ← updateWriteIndex;
     mret tt).
#[export] Instance EngineCore_sink : RequestSink EngineCore := {|
  sink_client_id := client_id_;
  sink_request := sendClientRequest;
  sink_risk c := checkPreTradeRisk (risk_manager_ c) (position_keeper_ c);
|}.

(** The engine without its order books and incoming queues. *)
Record EngineState : Type := MkEngineState {
  algo_type_ : AlgoType;
  ticker_cfg_ : list TradeEngineCfg;
  feature_engine_ : FeatureEngine;
  order_manager_ : OrderManager;
  core_ : EngineCore;
}.
Definition set_features (f : FeatureEngine) (e : EngineState) : EngineState :=
  MkEngineState (algo_type_ e) (ticker_cfg_ e) f (order_manager_ e) (core_ e).
Definition set_trading (s : OrderManager * EngineCore) (e : EngineState) : EngineState :=
  MkEngineState (algo_type_ e) (ticker_cfg_ e) (feature_engine_ e) s.1 s.2.
Definition set_core (c : EngineCore) (e : EngineState) : EngineState :=
  MkEngineState (algo_type_ e) (ticker_cfg_ e) (feature_engine_ e) (order_manager_ e) c.

Definition on_trading {A} : M (OrderManager * EngineCore) A → M EngineState A :=
  zoom (λ e, (order_manager_ e, core_ e)) set_trading.
Definition on_positions {A} : M PositionKeeper A → M EngineState A :=
  zoom (λ e, position_keeper_ (core_ e)) (λ pk e, set_core (set_position_keeper pk (core_ e)) e).

(** [algoOnOrderBookUpdate_] and [algoOnTradeUpdate_], as the constructor and the algorithm's
    constructor set them. *)
Definition algoOnOrderBookUpdate (ticker_id : Z) (bbo : BBO) : M EngineState unit :=
  e ← gets id;
  match algo_type_ e with
  | AlgoType_MAKER =>
    on_trading (MarketMaker_onOrderBookUpdate (ticker_cfg_ e) (feature_engine_ e) ticker_id bbo)
  | _ => mret tt
  end.
Definition algoOnTradeUpdate (market_update : MEMarketUpdate) (bbo : BBO) : M EngineState unit :=
  e ← gets id;
  match algo_type_ e with
  | AlgoType_TAKER =>
    on_trading (LiquidityTaker_onTradeUpdate (ticker_cfg_ e) (feature_engine_ e) market_update bbo)
  | _ => mret tt
  end.
Definition algoOnOrderUpdate (client_response : MEClientResponse) : M EngineState unit :=
  e ← gets id;
  match algo_type_ e with
  | AlgoType_MAKER | AlgoType_TAKER => on_trading (on_orders (onOrderUpdate client_response))
  | _ => mret tt
  end.

Definition engine_onOrderBookUpdate (ticker_id price : Z) (side : Side) (bbo : BBO) : M EngineState unit :=
  _ ← on_positions (PositionKeeper_updateBBO ticker_id bbo);
  _ ← zoom feature_engine_ set_features (FeatureEngine_onOrderBookUpdate bbo);
  algoOnOrderBookUpdate ticker_id bbo.
Definition engine_onTradeUpdate (market_update : MEMarketUpdate) (bbo : BBO) : M EngineState unit :=
  _ ← zoom feature_engine_ set_features (FeatureEngine_onTradeUpdate market_update bbo);
  algoOnTradeUpdate market_update bbo.
Definition engine_onOrderUpdate (client_response : MEClientResponse) : M EngineState unit :=
  _ ← (match resp_type_ client_response with
       | ClientResponseType_FILLED => on_positions (PositionKeeper_addFill client_response)
       | _ => mret tt
       end);
  algoOnOrderUpdate client_response.
#[export] Instance EngineState_listener : BookListener EngineState := {|
  listener_order_book_update := engine_onOrderBookUpdate;
  listener_trade_update := engine_onTradeUpdate;
|}.

(** ** The thread *)
Record TradeEngine : Type := MkTradeEngine {
  ticker_order_book_ : list MarketOrderBook;
  incoming_ogw_responses_ : LFQueue MEClientResponse;
  incoming_md_updates_ : LFQueue MEMarketUpdate;
  engine_ : EngineState;
}.
Definition set_books (bs : list MarketOrderBook) (t : TradeEngine) : TradeEngine :=
  MkTradeEngine bs (incoming_ogw_responses_ t) (incoming_md_updates_ t) (engine_ t).
Definition set_responses (q : LFQueue MEClientResponse) (t : TradeEngine) : TradeEngine :=
  MkTradeEngine (ticker_order_book_ t) q (incoming_md_updates_ t) (engine_ t).
Definition set_md_updates (q : LFQueue MEMarketUpdate) (t : TradeEngine) : TradeEngine :=
  MkTradeEngine (ticker_order_book_ t) (incoming_ogw_responses_ t) q (engine_ t).
Definition set_engine (e : EngineState) (t : TradeEngine) : TradeEngine :=
  MkTradeEngine (ticker_order_book_ t) (incoming_ogw_responses_ t) (incoming_md_updates_ t) e.

(** The constructor; the three memories are what the uninitialised arrays hold. *)
Definition TradeEngine_new (client_id : Z) (algo_type : AlgoType) (ticker_cfg : list TradeEngineCfg)
    (client_requests : LFQueue MEClientRequest) (client_responses : LFQueue MEClientResponse)
    (market_updates : LFQueue MEMarketUpdate) (oid_mem price_mem : gmap Z Z) (vwap_mem : list double) :
    res TradeEngine :=
  let fix books (n : nat) (i : Z) : res (list MarketOrderBook) :=
    match n with
    | O => Ok []
    | S n => res_bind (MarketOrderBook_new i oid_mem price_mem)
               (λ b, res_bind (books n (i + 1)) (λ bs, Ok (b :: bs)))
    end in
  res_bind (books (Z.to_nat ME_MAX_TICKERS) 0) (λ bs,
    Ok (MkTradeEngine bs client_responses market_updates
          (MkEngineState algo_type ticker_cfg FeatureEngine_new OrderManager_new
             (MkEngineCore client_id client_requests (PositionKeeper_new vwap_mem)
                (RiskManager_new ticker_cfg))))).

Definition on_responses {A} : M (LFQueue MEClientResponse) A → M TradeEngine A :=
  zoom incoming_ogw_responses_ set_responses.
Definition on_md {A} : M (LFQueue MEMarketUpdate) A → M TradeEngine A :=
  zoom incoming_md_updates_ set_md_updates.

(** The body of the first loop of [run], for the response in slot [i]. *)
Definition process_response (i : Z) : M TradeEngine unit :=
  client_response ← on_responses (read_slot MEClientResponse_default (Some i));
  _ ← zoom engine_ set_engine (engine_onOrderUpdate client_response);
  _ ← on_responses updateReadIndex;
  mret tt.
(** The body of the second loop.  [ticker_order_book_[t]->onMarketUpdate]. *)
Definition on_market_book (ticker_id : Z) (m : M (MarketOrderBook * EngineState) unit) :
    M TradeEngine unit :=
  bs ← gets ticker_order_book_;
  match bs !! Z.to_nat ticker_id with
  | Some b =>
    e ← gets engine_;
    r ← of_res (m (b, e));
    _ ← modify (set_books (<[Z.to_nat ticker_id := r.2.1]> bs));
    modify (set_engine r.2.2)
  | None => raise OutOfBounds
  end.
Definition process_update (i : Z) : M TradeEngine unit :=
  market_update ← on_md (read_slot MEMarketUpdate_default (Some i));
  n ← gets (λ t, Z.of_nat (length (ticker_order_book_ t)));
  _ ← ASSERT (upd_ticker_id_ market_update <? n);
  _ ← on_market_book (upd_ticker_id_ market_update) (onMarketUpdate market_update);
  _ ← on_md updateReadIndex;
  mret tt.

(** The two loops of [run]: [for (p = getNextToRead(); p; p = getNextToRead())]. *)
Fixpoint process_responses (fuel : nat) : M TradeEngine unit :=
  match fuel with
  | O => raise OutOfFuel
  | S fuel =>
    client_response ← on_responses getNextToRead;
    match client_response with
    | Some i => _ ← process_response i; process_responses fuel
    | None => mret tt
    end
  end.
Fixpoint process_updates (fuel : nat) : M TradeEngine unit :=
  match fuel with
  | O => raise OutOfFuel
  | S fuel =>
    market_update ← on_md getNextToRead;
    match market_update with
    | Some i => _ ← process_update i; process_updates fuel
    | None => mret tt
    end
  end.
Definition engine_round : M TradeEngine unit :=
  n ← gets (λ t, length (contents MEClientResponse_default (incoming_ogw_responses_ t)));
  _ ← process_responses (S n);
  k ← gets (λ t, length (contents MEMarketUpdate_default (incoming_md_updates_ t)));
  process_updates (S k).
