(* ===== verification/TradeEngineThread.v ===== *)
(** trading/strategy/trade_engine.{h,cpp}: the life of the trade engine's thread.

    [run] and [stop] are programs of two threads.  [run_at] is the place of the engine's thread in
    [run], [stop_at] that of the main thread in [stop]; an event is one iteration of a loop of the
    engine's thread, or one step of the main thread, which looks at one queue at a time.  [clock i] is
    what the [i]-th call of [getCurrentNanos] returns; [bbos] is what the pointers [bbo_] of the positions
    point to.  What [stop] logs while it waits is left out. *)
From S2P Require Export TradeEngine Measurements.

(** [RunTest] is before [while (run_)], the next two in its loops, [RunEnded] after [run]. *)
Inductive run_point : Type := RunTest | RunResponses | RunUpdates | RunEnded.
(** [stop] is about to look at a queue, about to log the positions, or has returned; the text is what it
    logged. *)
Inductive stop_point : Type :=
  | StopResponses | StopUpdates | StopLog | Stopped (positions : string).
#[export] Instance run_point_eq_dec : EqDecision run_point.
Proof. solve_decision. Defined.

Record EngineThread : Type := MkEngineThread {
  th_engine : TradeEngine;
  last_event_time_ : Z;
  run_ : bool;
  th_calls : nat;
  run_at : run_point;
  stop_at : stop_point;
}.
Definition set_th_engine (t : TradeEngine) (s : EngineThread) : EngineThread :=
  MkEngineThread t (last_event_time_ s) (run_ s) (th_calls s) (run_at s) (stop_at s).
Definition set_last_event_time (n : Z) (s : EngineThread) : EngineThread :=
  MkEngineThread (th_engine s) n (run_ s) (th_calls s) (run_at s) (stop_at s).
Definition set_run (b : bool) (s : EngineThread) : EngineThread :=
  MkEngineThread (th_engine s) (last_event_time_ s) b (th_calls s) (run_at s) (stop_at s).
Definition set_th_calls (n : nat) (s : EngineThread) : EngineThread :=
  MkEngineThread (th_engine s) (last_event_time_ s) (run_ s) n (run_at s) (stop_at s).
Definition set_run_at (p : run_point) (s : EngineThread) : EngineThread :=
  MkEngineThread (th_engine s) (last_event_time_ s) (run_ s) (th_calls s) p (stop_at s).
Definition set_stop_at (p : stop_point) (s : EngineThread) : EngineThread :=
  MkEngineThread (th_engine s) (last_event_time_ s) (run_ s) (th_calls s) (run_at s) p.
Definition on_th_engine {A} : M TradeEngine A → M EngineThread A := zoom th_engine set_th_engine.

Section thread.
Context (clock : nat → Z) (bbos : TradeEngine → Z → option BBO).

Definition getCurrentNanos : M EngineThread Z :=
  n ← gets th_calls;
  _ ← modify (set_th_calls (S n));
  mret (clock n).
Definition initLastEventTime : M EngineThread unit :=
  n ← getCurrentNanos; modify (set_last_event_time n).
Definition silentSeconds : M EngineThread Z :=
  n ← getCurrentNanos;
  last ← gets last_event_time_;
  d ← signed 64 (n - last);
  mret (Z.quot d NANOS_TO_SECS).

(** [run], one iteration of a loop at a time. *)
Definition run_step : M EngineThread unit :=
  p ← gets run_at;
  match p with
  | RunTest => run ← gets run_; modify (set_run_at (if run : bool then RunResponses else RunEnded))
  | RunResponses =>
    client_response ← on_th_engine (on_responses getNextToRead);
    match client_response with
    | Some i => _ ← on_th_engine (process_response i); initLastEventTime
    | None => modify (set_run_at RunUpdates)
    end
  | RunUpdates =>
    market_update ← on_th_engine (on_md getNextToRead);
    match market_update with
    | Some i => _ ← on_th_engine (process_update i); initLastEventTime
    | None => modify (set_run_at RunTest)
    end
  | RunEnded => mret tt
  end.

(** [stop], one access to the queues at a time. *)
Definition stop_step : M EngineThread unit :=
  p ← gets stop_at;
  match p with
  | StopResponses =>
    n ← on_th_engine (on_responses queue_size);
    modify (set_stop_at (if n =? 0 then StopUpdates else StopResponses))
  | StopUpdates =>
    n ← on_th_engine (on_md queue_size);
    modify (set_stop_at (if n =? 0 then StopLog else StopResponses))
  | StopLog =>
    t ← gets th_engine;
    positions ← of_res (PositionKeeper_toString (bbos t) (position_keeper_ (core_ (engine_ t))));
    _ ← modify (set_run false);
    modify (set_stop_at (Stopped positions))
  | Stopped _ => mret tt
  end.

(** What happens next: a step of one of the two threads, or an element arrives in a queue. *)
Inductive thread_event : Type :=
  | ThRun | ThStop | ThResponse (r : MEClientResponse) | ThUpdate (u : MEMarketUpdate).
Definition thread_step (ev : thread_event) : M EngineThread unit :=
  match ev with
  | ThRun => run_step
  | ThStop => stop_step
  | ThResponse r => on_th_engine (on_responses (push r))
  | ThUpdate u => on_th_engine (on_md (push u))
  end.
Fixpoint thread_steps (evs : list thread_event) : M EngineThread unit :=
  match evs with
  | [] => mret tt
  | ev :: evs => _ ← thread_step ev; thread_steps evs
  end.
End thread.

(** * What the steps do *)

Abbreviation waiting_responses t := (contents MEClientResponse_default (incoming_ogw_responses_ t)).
Abbreviation waiting_updates t := (contents MEMarketUpdate_default (incoming_md_updates_ t)).

(** The two queues, which are all that the loops of [run] test. *)
Definition queues (t : TradeEngine) : LFQueue MEClientResponse * LFQueue MEMarketUpdate :=
  (incoming_ogw_responses_ t, incoming_md_updates_ t).
Definition queues_wf (t : TradeEngine) : Prop :=
  queue_wf (incoming_ogw_responses_ t) ∧ queue_wf (incoming_md_updates_ t).

Lemma on_th_engine_ok {A} (m : M TradeEngine A) s a t :
  m (th_engine s) = Ok (a, t) → on_th_engine m s = Ok (a, set_th_engine t s).
Proof. intros E. unfold on_th_engine, zoom. by rewrite E. Qed.
Lemma on_th_engine_same {A} (m : M TradeEngine A) s a :
  m (th_engine s) = Ok (a, th_engine s) → on_th_engine m s = Ok (a, s).
Proof. intros E. rewrite (on_th_engine_ok _ _ _ _ E). by destruct s. Qed.
Lemma on_responses_same {A} (m : M _ A) t a :
  m (incoming_ogw_responses_ t) = Ok (a, incoming_ogw_responses_ t) → on_responses m t = Ok (a, t).
Proof. intros E. unfold on_responses, zoom. rewrite E. by destruct t. Qed.
Lemma on_md_same {A} (m : M _ A) t a :
  m (incoming_md_updates_ t) = Ok (a, incoming_md_updates_ t) → on_md m t = Ok (a, t).
Proof. intros E. unfold on_md, zoom. rewrite E. by destruct t. Qed.

Lemma process_response_queues t i t' :
  queues_wf t → getNextToRead (incoming_ogw_responses_ t) = Ok (Some i, incoming_ogw_responses_ t) →
  process_response i t = Ok (tt, t') →
  queues t' = (popped (incoming_ogw_responses_ t), incoming_md_updates_ t).
Proof.
  intros [Hr _] Hi H.
  destruct (read_some MEClientResponse_default _ i _ Hr Hi) as (_ & r & Er & Eu & _).
  unfold process_response in H. rewrite (bind_Ok _ _ _ r t) in H by (by apply on_responses_same).
  unfold mbind at 1, M_bind at 1 in H. destruct (zoom _ _ _ t) as [[[] t1]|] eqn:E1; [|done].
  apply zoom_inv in E1 as (e & _ & ->).
  erewrite bind_Ok in H by (unfold on_responses, zoom; simpl; by rewrite Eu). by injection H as <-.
Qed.
Lemma keeps_on_market_book k m : keeps queues (on_market_book k m).
Proof. unfold on_market_book. keeps_tac. Qed.
Lemma process_update_queues t i t' :
  queues_wf t → getNextToRead (incoming_md_updates_ t) = Ok (Some i, incoming_md_updates_ t) →
  process_update i t = Ok (tt, t') →
  queues t' = (incoming_ogw_responses_ t, popped (incoming_md_updates_ t)).
Proof.
  intros [_ Hu] Hi H.
  destruct (read_some MEMarketUpdate_default _ i _ Hu Hi) as (_ & u & Er & Eu & _).
  unfold process_update in H. rewrite (bind_Ok _ _ _ u t) in H by (by apply on_md_same).
  rewrite gets_bind in H. unfold ASSERT in H. case_match; [|done].
  rewrite (bind_Ok (mret tt) _ t tt t) in H by done.
  unfold mbind at 1, M_bind at 1 in H. destruct (on_market_book _ _ t) as [[[] t1]|] eqn:E1; [|done].
  apply keeps_on_market_book in E1. injection E1 as Eq1 Eq2. rewrite <- Eq2 in Eu.
  erewrite bind_Ok in H by (unfold on_md, zoom; by rewrite Eu).
  injection H as <-. unfold queues. simpl. by rewrite Eq1, Eq2.
Qed.

(** ** The rounds of the engine are what [run] does *)
Section rounds.
Context (clock : nat → Z) (bbos : TradeEngine → Z → option BBO).

(** [n] iterations of the engine's thread lead from [s] to [t] and [p]. *)
Definition runs_to (n : nat) (s : EngineThread) (t : TradeEngine) (p : run_point) : Prop :=
  ∃ time calls, thread_steps clock bbos (replicate n ThRun) s =
    Ok (tt, MkEngineThread t time (run_ s) calls p (stop_at s)).
Lemma runs_to_step n s s' t p :
  run_step clock s = Ok (tt, s') → run_ s' = run_ s → stop_at s' = stop_at s →
  runs_to n s' t p → runs_to (S n) s t p.
Proof.
  intros E Hr Hs (time & calls & H). exists time, calls. rewrite <- Hr, <- Hs, <- H.
  cbn [replicate thread_steps thread_step]. by rewrite (bind_Ok _ _ _ _ _ E).
Qed.
Lemma thread_steps_app evs1 evs2 s :
  thread_steps clock bbos (evs1 ++ evs2) s =
  (_ ← thread_steps clock bbos evs1; thread_steps clock bbos evs2) s.
Proof.
  revert s. induction evs1 as [|ev evs1 IH]; intros s; [done|]. simpl. unfold mbind, M_bind in *.
  destruct (thread_step _ _ _ s) as [[[] s']|]; [|done]. apply IH.
Qed.
(** An iteration that takes an element, and the one that finds none. *)
Definition taken (s : EngineThread) (t : TradeEngine) : EngineThread :=
  MkEngineThread t (clock (th_calls s)) (run_ s) (S (th_calls s)) (run_at s) (stop_at s).
Lemma runs_responses fuel s t :
  run_at s = RunResponses → process_responses fuel (th_engine s) = Ok (tt, t) → ∃ n, runs_to n s t RunUpdates.
Proof.
  revert s. induction fuel as [|fuel IH]; intros s Hp E; [done|]. cbn [process_responses] in E.
  unfold mbind at 1, M_bind at 1 in E.
  destruct (on_responses getNextToRead (th_engine s)) as [[[i|] t1]|] eqn:Eg; [| |done].
  - unfold mbind, M_bind in E. destruct (process_response i t1) as [[[] t2]|] eqn:Ep; [|done].
    destruct (IH (taken s t2) Hp E) as [n Hn]. exists (S n).
    refine (runs_to_step n s (taken s t2) t _ _ eq_refl eq_refl Hn).
    unfold run_step. rewrite gets_bind, Hp. erewrite bind_Ok by (apply on_th_engine_ok, Eg). cbv beta iota.
    by erewrite bind_Ok by (apply on_th_engine_ok, Ep).
  - injection E as <-. exists 1%nat.
    refine (runs_to_step 0 s (set_run_at RunUpdates (set_th_engine t1 s)) t1 _ _ eq_refl eq_refl _).
    + unfold run_step. rewrite gets_bind, Hp. by erewrite bind_Ok by (apply on_th_engine_ok, Eg).
    + by exists (last_event_time_ s), (th_calls s).
Qed.
Lemma runs_updates fuel s t :
  run_at s = RunUpdates → process_updates fuel (th_engine s) = Ok (tt, t) → ∃ n, runs_to n s t RunTest.
Proof.
  revert s. induction fuel as [|fuel IH]; intros s Hp E; [done|]. cbn [process_updates] in E.
  unfold mbind at 1, M_bind at 1 in E.
  destruct (on_md getNextToRead (th_engine s)) as [[[i|] t1]|] eqn:Eg; [| |done].
  - unfold mbind, M_bind in E. destruct (process_update i t1) as [[[] t2]|] eqn:Ep; [|done].
    destruct (IH (taken s t2) Hp E) as [n Hn]. exists (S n).
    refine (runs_to_step n s (taken s t2) t _ _ eq_refl eq_refl Hn).
    unfold run_step. rewrite gets_bind, Hp. erewrite bind_Ok by (apply on_th_engine_ok, Eg). cbv beta iota.
    by erewrite bind_Ok by (apply on_th_engine_ok, Ep).
  - injection E as <-. exists 1%nat.
    refine (runs_to_step 0 s (set_run_at RunTest (set_th_engine t1 s)) t1 _ _ eq_refl eq_refl _).
    + unfold run_step. rewrite gets_bind, Hp. by erewrite bind_Ok by (apply on_th_engine_ok, Eg).
    + by exists (last_event_time_ s), (th_calls s).
Qed.
(** While [run_] is set the thread's iterations are whole rounds of [engine_round]. *)
Theorem runs_round s t :
  run_at s = RunTest → run_ s = true → engine_round (th_engine s) = Ok (tt, t) →
  ∃ n, runs_to n s t RunTest.
Proof.
  intros Hp Hr E. unfold engine_round in E. rewrite gets_bind in E. unfold mbind at 1, M_bind at 1 in E.
  destruct (process_responses _ (th_engine s)) as [[[] t1]|] eqn:E1; [|done]. rewrite gets_bind in E.
  destruct (runs_responses _ (set_run_at RunResponses s) t1 eq_refl E1) as [n Hn].
  destruct Hn as (time & calls & En).
  destruct (runs_updates _ (MkEngineThread t1 time (run_ s) calls RunUpdates (stop_at s)) t eq_refl E)
    as (k & time' & calls' & Ek).
  exists (S (n + k)). apply (runs_to_step _ s (set_run_at RunResponses s)); try done.
  - unfold run_step. by rewrite gets_bind, Hp, gets_bind, Hr.
  - exists time', calls'. rewrite replicate_add, thread_steps_app. rewrite (bind_Ok _ _ _ _ _ En). done.
Qed.
End rounds.

(** * [stop] returns *)

Definition events_of (ev : thread_event → bool) (evs : list thread_event) : nat := length (List.filter ev evs).
Definition is_run (ev : thread_event) : bool := match ev with ThRun => true | _ => false end.
Definition is_stop (ev : thread_event) : bool := match ev with ThStop => true | _ => false end.
(** Nothing arrives. *)
Definition quiet_event (ev : thread_event) : bool := is_run ev || is_stop ev.

(** Elements left, and the steps the engine's thread needs to take them all. *)
Definition waiting (s : EngineThread) : nat :=
  length (waiting_responses (th_engine s)) + length (waiting_updates (th_engine s)).
Definition work (s : EngineThread) : nat :=
  match waiting s with
  | O => O
  | n =>
    match run_at s with
    | RunTest => n + 2
    | RunResponses => n + 1
    | RunUpdates => n + match waiting_responses (th_engine s) with [] => 0 | _ => 3 end
    | RunEnded => n
    end
  end.
(** Steps the main thread is from its return, once the queues are empty, and the engine's thread from
    its end, once [run_] is false. *)
Definition to_stop (s : EngineThread) : nat :=
  match stop_at s with StopResponses => 3 | StopUpdates => 2 | StopLog => 1 | Stopped _ => 0 end.
Definition to_end (s : EngineThread) : nat :=
  match run_at s with RunResponses => 3 | RunUpdates => 2 | RunTest => 1 | RunEnded => 0 end.

Section stop.
Context (clock : nat → Z) (bbos : TradeEngine → Z → option BBO) (Inv : TradeEngine → Prop).

(** In a state of [Inv] no element the thread takes makes it fault, and the positions can be printed. *)
Record never_faults : Prop := {
  nf_response t i : Inv t → getNextToRead (incoming_ogw_responses_ t) = Ok (Some i, incoming_ogw_responses_ t) →
    wp (process_response i) t (λ _, Inv);
  nf_update t i : Inv t → getNextToRead (incoming_md_updates_ t) = Ok (Some i, incoming_md_updates_ t) →
    wp (process_update i) t (λ _, Inv);
  nf_print t : Inv t →
    ∃ text, PositionKeeper_toString (bbos t) (position_keeper_ (core_ (engine_ t))) = Ok text;
}.

Definition returned (p : stop_point) : bool := match p with Stopped _ => true | _ => false end.
(** What the main thread has seen stays true while nothing arrives. *)
Definition seen (t : TradeEngine) (p : stop_point) : Prop :=
  match p with
  | StopResponses => True
  | StopUpdates => waiting_responses t = []
  | StopLog => waiting_responses t = [] ∧ waiting_updates t = []
  | Stopped positions => waiting_responses t = [] ∧ waiting_updates t = [] ∧
      PositionKeeper_toString (bbos t) (position_keeper_ (core_ (engine_ t))) = Ok positions
  end.
Record thread_ok (s : EngineThread) : Prop := {
  to_inv : Inv (th_engine s);
  to_wf : queues_wf (th_engine s);
  to_run : run_ s = negb (returned (stop_at s));
  to_alive : run_at s = RunEnded → run_ s = false;
  to_seen : seen (th_engine s) (stop_at s);
}.

Hypothesis Hnf : never_faults.

Lemma waiting_zero s : waiting s = 0%nat ↔ waiting_responses (th_engine s) = [] ∧ waiting_updates (th_engine s) = [].
Proof. unfold waiting. rewrite <- !length_zero_iff_nil. lia. Qed.
Lemma work_zero s : work s = 0%nat ↔ waiting s = 0%nat.
Proof. unfold work. destruct (waiting s); [done|]. destruct (run_at s); lia. Qed.
Lemma seen_returned s : thread_ok s → run_ s = false → waiting s = 0%nat.
Proof.
  intros Hs Hr. rewrite (to_run _ Hs) in Hr. apply waiting_zero.
  pose proof (to_seen _ Hs) as H. destruct (stop_at s); simpl in *; try done. tauto.
Qed.

(** A pointer the thread got: the step takes the oldest element. *)
Lemma after_processing m s t :
  m (th_engine s) = Ok (tt, t) →
  (_ ← on_th_engine m; initLastEventTime clock) s =
    Ok (tt, MkEngineThread t (clock (th_calls s)) (run_ s) (S (th_calls s)) (run_at s) (stop_at s)).
Proof. intros E. by rewrite (bind_Ok _ _ _ _ _ (on_th_engine_ok _ _ _ _ E)). Qed.
Lemma poll_responses s :
  queues_wf (th_engine s) →
  on_th_engine (on_responses getNextToRead) s =
    Ok (match waiting_responses (th_engine s) with
        | [] => None | _ => Some (read_pos_ (incoming_ogw_responses_ (th_engine s))) end, s).
Proof.
  intros [Hr _]. apply on_th_engine_same, on_responses_same.
  destruct (waiting_responses _) as [|r rs] eqn:E; [by eapply getNextToRead_nil|].
  by destruct (read_cons _ _ _ _ Hr E) as (-> & _).
Qed.
Lemma poll_updates s :
  queues_wf (th_engine s) →
  on_th_engine (on_md getNextToRead) s =
    Ok (match waiting_updates (th_engine s) with
        | [] => None | _ => Some (read_pos_ (incoming_md_updates_ (th_engine s))) end, s).
Proof.
  intros [_ Hu]. apply on_th_engine_same, on_md_same.
  destruct (waiting_updates _) as [|r rs] eqn:E; [by eapply getNextToRead_nil|].
  by destruct (read_cons _ _ _ _ Hu E) as (-> & _).
Qed.

(** What the engine's thread may do to a state. *)
Definition run_progress (s s' : EngineThread) : Prop :=
  thread_ok s' ∧ stop_at s' = stop_at s ∧ (work s' ≤ pred (work s))%nat ∧
  (run_ s = false → (to_end s' ≤ pred (to_end s))%nat).

Lemma run_moves s p :
  thread_ok s → (work (set_run_at p s) ≤ pred (work s))%nat → (p = RunEnded → run_ s = false) →
  (run_ s = false → (to_end (set_run_at p s) ≤ pred (to_end s))%nat) →
  run_progress s (set_run_at p s).
Proof. intros [? ? ? ? ?] Hw Hp He. by split_and!; [split|..]. Qed.
Lemma run_takes s t n k :
  thread_ok s → Inv t → queues_wf t → run_ s = true → waiting s ≠ 0%nat →
  (length (waiting_responses t) ≤ length (waiting_responses (th_engine s)))%nat →
  waiting s = S (length (waiting_responses t) + length (waiting_updates t)) →
  run_progress s (MkEngineThread t n (run_ s) k (run_at s) (stop_at s)).
Proof.
  intros [_ Hwf Hrun Hal Hseen] Ht Hwf' Hr Hne Hle Hw. split_and!; [|done| |congruence].
  - split; simpl; [done..|]. destruct (stop_at s); simpl in *; [done| | |congruence].
    + apply length_zero_iff_nil. rewrite Hseen in Hle. simpl in Hle. lia.
    + exfalso. apply Hne. by apply waiting_zero.
  - unfold work at 2. rewrite Hw. unfold work, waiting. simpl.
    destruct (run_at s); [..|by rewrite Hal in Hr]; simpl.
    + destruct (_ + _)%nat; lia.
    + destruct (_ + _)%nat; lia.
    + destruct (waiting_responses t) eqn:E, (waiting_responses (th_engine s)); simpl in *; try lia;
        destruct (length (waiting_updates t)); lia.
Qed.
Lemma takes_response t r rs :
  Inv t → queues_wf t → waiting_responses t = r :: rs →
  ∃ t', process_response (read_pos_ (incoming_ogw_responses_ t)) t = Ok (tt, t') ∧ Inv t' ∧
    queues_wf t' ∧ waiting_responses t' = rs ∧ waiting_updates t' = waiting_updates t.
Proof.
  intros Ht Hwf Hr. destruct (read_cons _ _ _ _ (proj1 Hwf) Hr) as (Eg & _ & _ & Hwf' & Hc).
  destruct (proj1 (wp_ok _ _ _) (nf_response Hnf t _ Ht Eg)) as ([] & t' & E & Ht').
  exists t'. pose proof (process_response_queues t _ t' Hwf Eg E) as [= Er Eu].
  unfold queues_wf. rewrite Er, Eu. split_and!; try done. by destruct Hwf.
Qed.
Lemma takes_update t u us :
  Inv t → queues_wf t → waiting_updates t = u :: us →
  ∃ t', process_update (read_pos_ (incoming_md_updates_ t)) t = Ok (tt, t') ∧ Inv t' ∧
    queues_wf t' ∧ waiting_responses t' = waiting_responses t ∧ waiting_updates t' = us.
Proof.
  intros Ht Hwf Hu. destruct (read_cons _ _ _ _ (proj2 Hwf) Hu) as (Eg & _ & _ & Hwf' & Hc).
  destruct (proj1 (wp_ok _ _ _) (nf_update Hnf t _ Ht Eg)) as ([] & t' & E & Ht').
  exists t'. pose proof (process_update_queues t _ t' Hwf Eg E) as [= Er Eu].
  unfold queues_wf. rewrite Er, Eu. split_and!; try done. by destruct Hwf.
Qed.

Lemma run_step_ok s : thread_ok s → wp (run_step clock) s (λ _ s', run_progress s s').
Proof.
  intros Hs. pose proof Hs as [Ht Hwf Hrun Hal Hseen].
  assert (run_ s = false → waiting s = 0%nat) as Hquiet by (by apply seen_returned).
  assert (waiting s ≠ 0%nat → run_ s = true) as Hbusy by (destruct (run_ s); tauto).
  unfold run_step, wp. rewrite gets_bind. destruct (run_at s) eqn:Hp.
  - rewrite gets_bind. apply run_moves; [done|..]; unfold work, to_end; rewrite ?Hp;
      change (waiting (set_run_at ?p s)) with (waiting s).
    + destruct (run_ s); [|by rewrite Hquiet]. destruct (waiting s); simpl; lia.
    + by destruct (run_ s).
    + by intros ->.
  - rewrite (bind_Ok _ _ _ _ _ (poll_responses s Hwf)).
    destruct (waiting_responses (th_engine s)) as [|r rs] eqn:Hr.
    + apply run_moves; [done|..]; unfold work, to_end; rewrite ?Hp; [|done|simpl; lia].
      change (waiting (set_run_at ?p s)) with (waiting s). simpl. rewrite Hr. destruct (waiting s); lia.
    + destruct (takes_response _ _ _ Ht Hwf Hr) as (t & E & Ht' & Hwf' & Er & Eu).
      rewrite (after_processing _ _ _ E). unfold waiting in *. rewrite Hr in *. simpl in *.
      apply run_takes; unfold waiting; rewrite ?Er, ?Eu, ?Hr; simpl; auto with lia.
  - rewrite (bind_Ok _ _ _ _ _ (poll_updates s Hwf)).
    destruct (waiting_updates (th_engine s)) as [|u us] eqn:Hu.
    + apply run_moves; [done|..]; unfold work, to_end; rewrite ?Hp; [|done|simpl; lia].
      change (waiting (set_run_at ?p s)) with (waiting s). unfold waiting. rewrite Hu. simpl.
      destruct (waiting_responses (th_engine s)); simpl; lia.
    + destruct (takes_update _ _ _ Ht Hwf Hu) as (t & E & Ht' & Hwf' & Er & Eu).
      rewrite (after_processing _ _ _ E). unfold waiting in *. rewrite Hu in *. simpl in *.
      apply run_takes; unfold waiting; rewrite ?Er, ?Eu, ?Hu; simpl; auto with lia.
  - specialize (Hal eq_refl). split_and!; [done..| |].
    + unfold work. rewrite (Hquiet Hal). lia.
    + unfold to_end. rewrite Hp. lia.
Qed.

(** What the main thread may do to a state. *)
Definition stop_progress (s s' : EngineThread) : Prop :=
  thread_ok s' ∧ th_engine s' = th_engine s ∧ run_at s' = run_at s ∧
  (waiting s = 0%nat → (to_stop s' ≤ pred (to_stop s))%nat) ∧
  (returned (stop_at s) = true → s' = s).

Lemma stop_moves s p :
  thread_ok s → returned (stop_at s) = false → returned p = false → seen (th_engine s) p →
  (waiting s = 0%nat → (to_stop (set_stop_at p s) ≤ pred (to_stop s))%nat) →
  stop_progress s (set_stop_at p s).
Proof.
  intros [? ? Hrun ? ?] Hn Hp Hseen Hle. split_and!; [|done|done|done|congruence].
  split; simpl; [done..| |done|done]. by rewrite Hrun, Hn, Hp.
Qed.
Lemma stop_step_ok s : thread_ok s → wp (stop_step bbos) s (λ _ s', stop_progress s s').
Proof.
  intros Hs. pose proof Hs as [Ht Hwf Hrun Hal Hseen]. pose proof (waiting_zero s) as Hw.
  unfold stop_step, wp. rewrite gets_bind. unfold to_stop in *.
  destruct (stop_at s) as [| | |positions] eqn:Hp.
  - erewrite bind_Ok by (apply on_th_engine_same, on_responses_same, (queue_size_ok MEClientResponse_default), (proj1 Hwf)).
    apply stop_moves; try done; rewrite ?Hp; try done.
    + by case_match.
    + destruct (waiting_responses (th_engine s)) eqn:Er; done.
    + intros [E _]%Hw. unfold to_stop. rewrite E, Hp. simpl. lia.
  - erewrite bind_Ok by (apply on_th_engine_same, on_md_same, (queue_size_ok MEMarketUpdate_default), (proj2 Hwf)).
    apply stop_moves; try done; rewrite ?Hp; try done.
    + by case_match.
    + destruct (waiting_updates (th_engine s)) eqn:Eu; done.
    + intros [_ E]%Hw. unfold to_stop. rewrite E, Hp. simpl. lia.
  - rewrite gets_bind. destruct (nf_print Hnf _ Ht) as [text E]. unfold of_res. rewrite E.
    change (stop_progress s (set_stop_at (Stopped text) (set_run false s))).
    split_and!; [|done|done|unfold to_stop; simpl; lia|by rewrite Hp].
    split; simpl; try done. by destruct Hseen.
  - split_and!; try done. intros _. unfold to_stop. rewrite Hp. lia.
Qed.

Definition steps_progress (evs : list thread_event) (s s' : EngineThread) : Prop :=
  thread_ok s' ∧
  (work s' ≤ work s - events_of is_run evs)%nat ∧
  (work s = 0%nat → (to_stop s' ≤ to_stop s - events_of is_stop evs)%nat) ∧
  (run_ s = false → run_ s' = false ∧ (to_end s' ≤ to_end s - events_of is_run evs)%nat).

Lemma events_of_cons ev p evs :
  events_of p (ev :: evs) = ((if p ev then 1 else 0) + events_of p evs)%nat.
Proof. unfold events_of. simpl. by destruct (p ev). Qed.
Lemma thread_step_progress ev s :
  quiet_event ev = true → thread_ok s → wp (thread_step clock bbos ev) s (λ _ s', steps_progress [ev] s s').
Proof.
  intros Hq Hs. unfold steps_progress, events_of. destruct ev; simpl; [| |done|done].
  - eapply wp_mono; [by apply run_step_ok|]. intros _ s' (Hs' & Hstop & Hwork & Hend).
    assert (to_stop s' = to_stop s) as Ets by (unfold to_stop; by rewrite Hstop).
    split_and!; [done|lia|lia|]. intros Hr. specialize (Hend Hr).
    split; [by rewrite (to_run _ Hs'), Hstop, <- (to_run _ Hs)|lia].
  - eapply wp_mono; [by apply stop_step_ok|]. intros _ s' (Hs' & Heng & Hat & Hstop & Hret).
    assert (work s' = work s) as Ew by (unfold work, waiting; by rewrite Heng, Hat).
    split_and!; [done|lia| |].
    + intros Hw%work_zero. specialize (Hstop Hw). lia.
    + intros Hr. rewrite Hret; [split; [done|lia]|].
      rewrite (to_run _ Hs) in Hr. by destruct (returned (stop_at s)).
Qed.
Lemma thread_steps_progress evs s :
  forallb quiet_event evs = true → thread_ok s →
  wp (thread_steps clock bbos evs) s (λ _ s', steps_progress evs s s').
Proof.
  revert s. induction evs as [|ev evs IH]; intros s Hq Hs.
  - apply wp_ret. unfold steps_progress, events_of. simpl. split_and!; [done|lia|lia|]. intros Hr. by split; [|lia].
  - simpl in Hq. apply andb_true_iff in Hq as [Hev Hevs]. cbn [thread_steps]. apply wp_bind.
    eapply wp_mono; [by apply thread_step_progress|]. intros _ s1 (Hs1 & Hw1 & Ht1 & He1).
    eapply wp_mono; [by apply IH|]. intros _ s2 (Hs2 & Hw2 & Ht2 & He2).
    unfold steps_progress. rewrite !events_of_cons in *. change (events_of ?p []) with 0%nat in *.
    split_and!; [done|lia| |].
    { intros Hz. specialize (Ht1 Hz). assert (work s1 = 0%nat) as Hz1 by lia. specialize (Ht2 Hz1). lia. }
    intros Hr. destruct (He1 Hr) as [Hr1 ?]. destruct (He2 Hr1). split; [done|lia].
Qed.
End stop.

(** A schedule long enough for both threads to end. *)
Lemma both_end clock bbos Inv s evs1 evs2 evs3 :
  never_faults bbos Inv →
  thread_ok bbos Inv s → run_ s = true → stop_at s = StopResponses →
  forallb quiet_event (evs1 ++ evs2 ++ evs3) = true →
  (waiting s + 3 ≤ events_of is_run evs1)%nat → (3 ≤ events_of is_stop evs2)%nat →
  (3 ≤ events_of is_run evs3)%nat →
  ∃ s' positions, thread_steps clock bbos (evs1 ++ evs2 ++ evs3) s = Ok (tt, s') ∧
    stop_at s' = Stopped positions ∧ run_at s' = RunEnded ∧ run_ s' = false ∧
    waiting_responses (th_engine s') = [] ∧ waiting_updates (th_engine s') = [] ∧
    PositionKeeper_toString (bbos (th_engine s')) (position_keeper_ (core_ (engine_ (th_engine s')))) =
      Ok positions.
Proof.
  intros Hnf Hs Hr Hstop Hq H1 H2 H3.
  rewrite !forallb_app in Hq. apply andb_true_iff in Hq as [Hq1 [Hq2 Hq3]%andb_true_iff].
  assert (work s ≤ waiting s + 3)%nat as Hwork
    by (unfold work; destruct (waiting s); [lia|]; destruct (run_at s); repeat case_match; lia).
  destruct (proj1 (wp_ok _ _ _) (thread_steps_progress clock bbos Inv Hnf evs1 s Hq1 Hs))
    as ([] & s1 & E1 & Hs1 & Hw1 & _ & _).
  destruct (proj1 (wp_ok _ _ _) (thread_steps_progress clock bbos Inv Hnf evs2 s1 Hq2 Hs1))
    as ([] & s2 & E2 & Hs2 & _ & Ht2 & _).
  destruct (proj1 (wp_ok _ _ _) (thread_steps_progress clock bbos Inv Hnf evs3 s2 Hq3 Hs2))
    as ([] & s3 & E3 & Hs3 & _ & Ht3 & He3).
  assert (work s1 = 0%nat ∧ (to_stop s1 ≤ 3)%nat) as [Hz Hle]
    by (split; [lia|unfold to_stop; destruct (stop_at s1); lia]).
  assert (to_stop s2 = 0%nat) as Hz2 by (specialize (Ht2 Hz); lia).
  assert (run_ s2 = false) as Hr2.
  { rewrite (to_run _ _ _ Hs2). unfold to_stop in Hz2. by destruct (stop_at s2). }
  destruct (He3 Hr2) as [Hr3 Hend].
  assert (run_at s3 = RunEnded) as Hat3.
  { assert (to_end s2 ≤ 3)%nat by (unfold to_end; destruct (run_at s2); lia).
    assert (to_end s3 = 0%nat) as Hz3 by lia. unfold to_end in Hz3. by destruct (run_at s3). }
  pose proof (to_run _ _ _ Hs3) as Hrun3. pose proof (to_seen _ _ _ Hs3) as Hseen.
  rewrite Hr3 in Hrun3. destruct (stop_at s3) as [| | |positions] eqn:Hstop3; [done..|].
  destruct Hseen as (Er & Eu & Etext). exists s3, positions. split_and!; try done.
  by rewrite thread_steps_app, (bind_Ok _ _ _ _ _ E1), thread_steps_app, (bind_Ok _ _ _ _ _ E2).
Qed.
(** C25: [stop] returns.  When nothing arrives any more and the thread's processing does not fault, any
    schedule that gives the engine's thread an iteration for each waiting element and three more, then
    the main thread three steps, makes [stop] return with the positions logged as they are when all has
    been processed, both queues empty; three more iterations end [run]. *)
Theorem stop_returns clock bbos Inv s evs1 evs2 evs3 :
  never_faults bbos Inv →
  Inv (th_engine s) → queues_wf (th_engine s) →
  run_ s = true → stop_at s = StopResponses → run_at s ≠ RunEnded →
  forallb quiet_event (evs1 ++ evs2 ++ evs3) = true →
  (waiting s + 3 ≤ events_of is_run evs1)%nat → (3 ≤ events_of is_stop evs2)%nat →
  (3 ≤ events_of is_run evs3)%nat →
  ∃ s' positions, thread_steps clock bbos (evs1 ++ evs2 ++ evs3) s = Ok (tt, s') ∧
    stop_at s' = Stopped positions ∧ run_at s' = RunEnded ∧ run_ s' = false ∧
    waiting_responses (th_engine s') = [] ∧ waiting_updates (th_engine s') = [] ∧
    PositionKeeper_toString (bbos (th_engine s')) (position_keeper_ (core_ (engine_ (th_engine s')))) =
      Ok positions.
Proof.
  intros Hnf Ht Hwf Hr Hstop Hat Hq H1 H2 H3.
  apply (both_end clock bbos Inv); try done. split; rewrite ?Hstop; done.
Qed.

(** ** A run *)
Definition th_fill : MEClientResponse :=
  MkMEClientResponse ClientResponseType_FILLED 1 2 7 9 Side_BUY 100 5 0.
Definition th_trade : MEMarketUpdate := MkMEMarketUpdate MarketUpdateType_TRADE 0 2 Side_BUY 100 5 0.
Definition th_start : TradeEngine :=
  match TradeEngine_new 1 AlgoType_RANDOM [] new_queue (pushed th_fill new_queue)
          (pushed th_trade new_queue) ∅ ∅ (replicate 3 dzero) with
  | Ok t => t
  | Err _ => MkTradeEngine [] new_queue new_queue
      (MkEngineState AlgoType_RANDOM [] FeatureEngine_new OrderManager_new
         (MkEngineCore 0 new_queue (PositionKeeper_new []) (RiskManager_new [])))
  end.
Definition after {S A} (m : M S A) (s : S) : S := match m s with Ok (_, s') => s' | Err _ => s end.
Definition th_r : TradeEngine := after (process_response 0) th_start.
Definition th_u : TradeEngine := after (process_update 0) th_start.
Definition th_ru : TradeEngine := after (process_update 0) th_r.
Definition th_ur : TradeEngine := after (process_response 0) th_u.
Definition th_inv (t : TradeEngine) : Prop :=
  t = th_start ∨ t = th_r ∨ t = th_u ∨ t = th_ru ∨ t = th_ur.
Definition th_state0 : EngineThread := MkEngineThread th_start 0 true 0 RunUpdates StopResponses.
Definition th_clock (i : nat) : Z := 1000 * Z.of_nat i.
Definition no_bbos (t : TradeEngine) (i : Z) : option BBO := None.

Lemma to_state {S} (m : M S unit) s s' (Inv : S → Prop) : m s = Ok (tt, s') → Inv s' → wp m s (λ _, Inv).
Proof. intros E H. unfold wp. by rewrite E. Qed.
Lemma th_steps :
  process_response 0 th_start = Ok (tt, th_r) ∧ process_update 0 th_start = Ok (tt, th_u) ∧
  process_update 0 th_r = Ok (tt, th_ru) ∧ process_response 0 th_u = Ok (tt, th_ur).
Proof. split_and!; vm_compute; reflexivity. Qed.
(** The thread goes on to the state of [H], or there is nothing to take. *)
Ltac goes_on H :=
  match goal with
  | Hi : _ = Ok (Some ?i, _) |- _ =>
    vm_compute in Hi; first [discriminate Hi | injection Hi as <-; apply (to_state _ _ _ _ H); unfold th_inv; tauto]
  end.
Lemma th_inv_never_faults : never_faults no_bbos th_inv.
Proof.
  destruct th_steps as (Er & Eu & Eru & Eur). split.
  - intros t i [-> | [-> | [-> | [-> | ->]]]] Hi; [goes_on Er|goes_on Er|goes_on Eur|goes_on Er|goes_on Er].
  - intros t i [-> | [-> | [-> | [-> | ->]]]] Hi; [goes_on Eu|goes_on Eru|goes_on Eu|goes_on Eu|goes_on Eu].
  - intros t [-> | [-> | [-> | [-> | ->]]]]; eexists; vm_compute; reflexivity.
Qed.
Lemma th_start_wf : queues_wf th_start.
Proof. split; (split; [by exists 18|vm_compute|vm_compute; done]); done. Qed.

Lemma stop_returns_witness :
  ∃ s' positions, thread_steps th_clock no_bbos
      ((replicate 4 ThRun ++ [ThStop] ++ replicate 3 ThRun) ++ replicate 3 ThStop ++ replicate 3 ThRun) th_state0 =
      Ok (tt, s') ∧
    stop_at s' = Stopped positions ∧ run_at s' = RunEnded ∧ run_ s' = false ∧
    waiting_responses (th_engine s') = [] ∧ waiting_updates (th_engine s') = [] ∧
    PositionKeeper_toString (no_bbos (th_engine s')) (position_keeper_ (core_ (engine_ (th_engine s')))) =
      Ok positions.
Proof.
  apply (stop_returns th_clock no_bbos th_inv th_state0); try (vm_compute; lia || reflexivity).
  - exact th_inv_never_faults.
  - by left.
  - exact th_start_wf.
  - discriminate.
Defined.

(** [stop] looks at one queue after the other: a fill that arrives in between stays in its queue, and is
    in neither the positions that are logged nor those the engine ends with. *)
Definition th_idle : EngineThread :=
  MkEngineThread (set_responses new_queue (set_md_updates new_queue th_start)) 0 true 0 RunUpdates StopResponses.
Example stop_misses_fill :
  let s := after (thread_steps th_clock no_bbos
                    [ThStop; ThResponse th_fill; ThStop; ThStop; ThRun; ThRun]) th_idle in
  run_at s = RunEnded ∧ returned (stop_at s) = true ∧ waiting_responses (th_engine s) = [th_fill] ∧
  (position_ <$> ticker_position_ (position_keeper_ (core_ (engine_ (th_engine s))))) = replicate 8 0.
Proof. vm_compute. done. Qed.
