(* ===== verification/ClientDestroy.v ===== *)
(** The destructors of [MarketOrderBook] and [TradeEngine] (market_order_book.cpp, trade_engine.cpp), and
    what both programs log of their books when they end.

    As in [EngineDestroy] the result of a destructor is the text it logs.  The thread of the engine is not
    waited for: the destructor yields once, and the model is what it does if the thread has ended. *)
From S2P Require Import EngineDestroy BookMirror MarketOrderBookText BookMirrorText TradeEngineThread.
Import MarketOrderBook.

Definition MarketOrderBook_destroy : M MarketOrderBook string :=
  text ← mkt_toString false true;
  _ ← modify (set_best_by_price Side_SELL None);
  _ ← modify (set_best_by_price Side_BUY None);
  _ ← modify (set_oid_to_order ∅);
  mret text.
Fixpoint destroy_market_books (bs : list MarketOrderBook) : res (list string) :=
  match bs with
  | [] => Ok []
  | order_book :: bs =>
      res_bind (MarketOrderBook_destroy order_book) (λ r,
        res_bind (destroy_market_books bs) (λ texts, Ok (r.1 :: texts)))
  end.
Definition TradeEngine_destroy : M EngineThread (list string) :=
  _ ← modify (set_run false);
  t ← gets th_engine;
  texts ← of_res (destroy_market_books (TradeEngine.ticker_order_book_ t));
  _ ← on_th_engine (modify (TradeEngine.set_books []));
  mret texts.

(** * The books of the client *)

Lemma keeps_get_level_id p : keeps ticker_id_ (get_level p).
Proof. unfold get_level. keeps_tac. Qed.
Lemma keeps_get_order_id p : keeps ticker_id_ (get_order p).
Proof. unfold get_order. keeps_tac. Qed.
#[local] Hint Resolve keeps_get_level_id keeps_get_order_id : keeps.
Lemma keeps_sum_orders fuel first p q : keeps ticker_id_ (sum_orders fuel first p q).
Proof. revert p q. induction fuel; intros; cbn [sum_orders]; keeps_tac. Qed.
#[local] Hint Resolve keeps_sum_orders : keeps.
Lemma keeps_top_of s : keeps ticker_id_ (top_of s).
Proof. unfold top_of. keeps_tac. Qed.
Lemma keeps_touches_best s u : keeps ticker_id_ (touches_best s u).
Proof. unfold touches_best. keeps_tac. Qed.
#[local] Hint Resolve keeps_top_of keeps_touches_best : keeps.
Lemma keeps_update_orders_id u : keeps ticker_id_ (update_orders u).
Proof. intros s a s' E. apply keeps_update_orders in E. by injection E. Qed.
#[local] Hint Resolve keeps_update_orders_id : keeps.
Lemma keeps_apply_market_update u : keeps ticker_id_ (apply_market_update u).
Proof. unfold apply_market_update, updateBBO. keeps_tac. Qed.
Lemma run_updates_ticker us b b' : run_updates us b = Ok (tt, b') → ticker_id_ b' = ticker_id_ b.
Proof.
  revert b. induction us as [|u us IH]; intros b E; [by injection E as <-|].
  cbn [run_updates] in E. unfold mbind, M_bind in E.
  destruct (apply_market_update u b) as [[[] b1]|] eqn:E1; [|done].
  rewrite (IH _ E). by apply (keeps_apply_market_update u b tt).
Qed.

(** What an update of the engine's queue does to its books: the book of the instrument takes it. *)
Lemma onMarketUpdate_book {E} `{!BookListener E} u (b : MarketOrderBook) (e : E) r :
  onMarketUpdate u (b, e) = Ok r → apply_market_update u b = Ok (tt, r.2.1).
Proof.
  unfold onMarketUpdate, mbind, M_bind, zoom, gets. simpl.
  destruct (apply_market_update u b) as [[[] b1]|]; [|done]. simpl.
  destruct (_ e) as [[[] e1]|]; [|done]. by intros [= <-].
Qed.
Lemma process_update_books t i u us t' :
  queues_wf t → waiting_updates t = u :: us →
  getNextToRead (incoming_md_updates_ t) = Ok (Some i, incoming_md_updates_ t) →
  process_update i t = Ok (tt, t') →
  ∃ b b', TradeEngine.ticker_order_book_ t !! Z.to_nat (upd_ticker_id_ u) = Some b ∧
    apply_market_update u b = Ok (tt, b') ∧
    TradeEngine.ticker_order_book_ t' = <[Z.to_nat (upd_ticker_id_ u) := b']> (TradeEngine.ticker_order_book_ t).
Proof.
  intros [_ Hq] Hu Hi H. destruct (read_cons _ _ _ _ Hq Hu) as (Ei & Er & _ & _).
  rewrite Hi in Ei. injection Ei as ->.
  unfold process_update in H. rewrite (bind_Ok _ _ _ u t) in H by (by apply on_md_same).
  rewrite gets_bind in H.
  unfold ASSERT in H. destruct (upd_ticker_id_ u <? _); [|done]. rewrite (bind_Ok (mret tt) _ t tt t) in H by done.
  unfold mbind at 1, M_bind at 1 in H. destruct (on_market_book _ _ t) as [[[] t1]|] eqn:E1; [|done].
  unfold mbind, M_bind in H. destruct (on_md _ t1) as [[updated t2]|] eqn:E2; [|done]. injection H as <-.
  apply zoom_inv in E2 as (q & _ & ->). simpl. clear Hi Er.
  unfold on_market_book in E1. rewrite gets_bind in E1.
  destruct (TradeEngine.ticker_order_book_ t !! _) as [b|] eqn:Hb; [|done]. rewrite gets_bind in E1.
  destruct (onMarketUpdate u (b, engine_ t)) as [r|] eqn:Em; [|done].
  injection E1 as <-. exists b, r.2.1. split_and!; [done| |done]. by eapply onMarketUpdate_book.
Qed.

(** The updates that arrive during a schedule. *)
Definition arrivals (evs : list thread_event) : list MEMarketUpdate :=
  omap (λ ev, match ev with ThUpdate u => Some u | _ => None end) evs.
(** From [t] to [t'] the updates [us] were taken, each by the book of its instrument. *)
Definition took (us : list MEMarketUpdate) (t t' : TradeEngine) : Prop :=
  length (TradeEngine.ticker_order_book_ t') = length (TradeEngine.ticker_order_book_ t) ∧
  ∀ i b, TradeEngine.ticker_order_book_ t !! i = Some b →
    ∃ b', TradeEngine.ticker_order_book_ t' !! i = Some b' ∧
      run_updates (updates_of (Z.of_nat i) us) b = Ok (tt, b').
Lemma run_updates_app us us' b :
  run_updates (us ++ us') b = (_ ← run_updates us; run_updates us') b.
Proof.
  revert b. induction us as [|u us IH]; intros b; [done|]. simpl. unfold mbind, M_bind in *.
  destruct (apply_market_update u b) as [[[] b1]|]; [|done]. apply IH.
Qed.
Lemma took_trans us1 us2 t1 t2 t3 : took us1 t1 t2 → took us2 t2 t3 → took (us1 ++ us2) t1 t3.
Proof.
  intros [L1 H1] [L2 H2]. split; [congruence|]. intros i b Hb. destruct (H1 i b Hb) as (b2 & Hb2 & E2). destruct (H2 i b2 Hb2) as (b3 & Hb3 & E3).
  exists b3. split; [done|]. unfold updates_of in *. rewrite filter_app, run_updates_app.
  by rewrite (bind_Ok _ _ _ _ _ E2).
Qed.
Lemma took_none t t' : TradeEngine.ticker_order_book_ t' = TradeEngine.ticker_order_book_ t → took [] t t'.
Proof. intros E. split; [by rewrite E|]. intros i b Hb. exists b. by rewrite E. Qed.
Lemma took_one u t t' b b' :
  0 ≤ upd_ticker_id_ u → TradeEngine.ticker_order_book_ t !! Z.to_nat (upd_ticker_id_ u) = Some b →
  apply_market_update u b = Ok (tt, b') →
  TradeEngine.ticker_order_book_ t' = <[Z.to_nat (upd_ticker_id_ u) := b']> (TradeEngine.ticker_order_book_ t) →
  took [u] t t'.
Proof.
  intros Hu Hb Eb Hbs. split; [by rewrite Hbs, length_insert|]. intros i b0 Hb0. unfold updates_of. rewrite filter_cons, filter_nil, Hbs.
  destruct (decide (upd_ticker_id_ u = Z.of_nat i)) as [Et|Et].
  - rewrite Et, Nat2Z.id in Hb |- *. rewrite Hb in Hb0. injection Hb0 as <-. exists b'.
    split; [rewrite list_lookup_insert_eq; [done|by eapply lookup_lt_Some]|].
    cbn [run_updates]. by rewrite (bind_Ok _ _ _ _ _ Eb).
  - exists b0. by rewrite list_lookup_insert_ne by lia.
Qed.

(** What a step took of what was waiting and of what arrives. *)
Definition steps_took (us : list MEMarketUpdate) (t t' : TradeEngine) : Prop :=
  queues_wf t' ∧ ∃ ps, waiting_updates t ++ us = ps ++ waiting_updates t' ∧ took ps t t'.
Lemma steps_took_same t t' :
  queues_wf t' → waiting_updates t' = waiting_updates t →
  TradeEngine.ticker_order_book_ t' = TradeEngine.ticker_order_book_ t → steps_took [] t t'.
Proof.
  intros Hwf Hu Hb. split; [done|]. exists []. split; [by rewrite Hu, (right_id_L [] (++))|by apply took_none].
Qed.
Lemma keeps_process_response i : keeps TradeEngine.ticker_order_book_ (process_response i).
Proof. unfold process_response, on_responses. keeps_tac; by apply keeps_zoom. Qed.
Lemma run_step_took clock s s' :
  queues_wf (th_engine s) → Forall (λ u, 0 ≤ upd_ticker_id_ u) (waiting_updates (th_engine s)) →
  run_step clock s = Ok (tt, s') → steps_took [] (th_engine s) (th_engine s').
Proof.
  intros Hwf Hus E. unfold run_step in E. rewrite gets_bind in E. destruct (run_at s).
  - rewrite gets_bind in E. injection E as <-. by apply steps_took_same.
  - rewrite (bind_Ok _ _ _ _ _ (poll_responses s Hwf)) in E.
    destruct (waiting_responses (th_engine s)) as [|r rs] eqn:Hr; [injection E as <-; by apply steps_took_same|].
    destruct (read_cons _ _ _ _ (proj1 Hwf) Hr) as (Ei & _ & _ & Hwf' & _).
    destruct (process_response (read_pos_ (incoming_ogw_responses_ (th_engine s))) (th_engine s))
      as [[[] t1]|] eqn:Ep; [|unfold mbind, M_bind, on_th_engine, zoom in E; by rewrite Ep in E].
    rewrite (after_processing clock _ _ _ Ep) in E. injection E as <-.
    pose proof (process_response_queues _ _ _ Hwf Ei Ep) as [= Er Eu].
    apply steps_took_same; simpl; [split; [by rewrite Er|rewrite Eu; apply Hwf]|by rewrite Eu|].
    by eapply keeps_process_response.
  - rewrite (bind_Ok _ _ _ _ _ (poll_updates s Hwf)) in E.
    destruct (waiting_updates (th_engine s)) as [|u us] eqn:Hu; [injection E as <-; by apply steps_took_same|].
    destruct (read_cons _ _ _ _ (proj2 Hwf) Hu) as (Ei & _ & _ & Hwf' & Hc).
    destruct (process_update (read_pos_ (incoming_md_updates_ (th_engine s))) (th_engine s))
      as [[[] t1]|] eqn:Ep; [|unfold mbind, M_bind, on_th_engine, zoom in E; by rewrite Ep in E].
    rewrite (after_processing clock _ _ _ Ep) in E. injection E as <-.
    pose proof (process_update_queues _ _ _ Hwf Ei Ep) as [= Er Eu].
    destruct (process_update_books _ _ _ _ _ Hwf Hu Ei Ep) as (b & b' & Hb & Eb & Hbs).
    split; simpl; [split; [rewrite Er; apply Hwf|by rewrite Eu]|]. exists [u].
    rewrite Eu, Hc, Hu, (right_id_L [] (++)). split; [done|].
    apply Forall_cons in Hus as [Hut _]. by eapply took_one.
  - injection E as <-. by apply steps_took_same.
Qed.
Lemma stop_step_took bbos s s' :
  queues_wf (th_engine s) → stop_step bbos s = Ok (tt, s') → steps_took [] (th_engine s) (th_engine s').
Proof.
  intros Hwf E. assert (th_engine s' = th_engine s) as ->; [|by apply steps_took_same].
  unfold stop_step in E. rewrite gets_bind in E. destruct (stop_at s).
  - erewrite bind_Ok in E by (apply on_th_engine_same, on_responses_same,
      (queue_size_ok MEClientResponse_default), (proj1 Hwf)). by injection E as <-.
  - erewrite bind_Ok in E by (apply on_th_engine_same, on_md_same,
      (queue_size_ok MEMarketUpdate_default), (proj2 Hwf)). by injection E as <-.
  - rewrite gets_bind in E. unfold mbind at 1, M_bind at 1, of_res in E.
    destruct (PositionKeeper_toString _ _); [|done]. by injection E as <-.
  - by injection E as <-.
Qed.
Lemma thread_step_took clock bbos ev s s' :
  queues_wf (th_engine s) → Forall (λ u, 0 ≤ upd_ticker_id_ u) (waiting_updates (th_engine s)) →
  thread_step clock bbos ev s = Ok (tt, s') → steps_took (arrivals [ev]) (th_engine s) (th_engine s').
Proof.
  intros Hwf Hus E. destruct ev as [| |r|u]; [by eapply run_step_took|by eapply stop_step_took|..].
  - apply zoom_inv in E as (t & E & ->). apply zoom_inv in E as (q & E & ->). destruct Hwf as [Hr Hu].
    destruct (push_some MEClientResponse_default _ _ _ _ Hr E) as [Hq _]. by apply steps_took_same.
  - apply zoom_inv in E as (t & E & ->). apply zoom_inv in E as (q & E & ->). destruct Hwf as [Hr Hu].
    destruct (push_some MEMarketUpdate_default _ _ _ _ Hu E) as [Hq Hc].
    split; [done|]. exists []. simpl. by split; [rewrite Hc|apply took_none].
Qed.
Lemma thread_steps_took clock bbos evs s s' :
  queues_wf (th_engine s) →
  Forall (λ u, 0 ≤ upd_ticker_id_ u) (waiting_updates (th_engine s) ++ arrivals evs) →
  thread_steps clock bbos evs s = Ok (tt, s') → steps_took (arrivals evs) (th_engine s) (th_engine s').
Proof.
  revert s. induction evs as [|ev evs IH]; intros s Hwf Hus E; [injection E as <-; by apply steps_took_same|].
  cbn [thread_steps] in E. unfold mbind, M_bind in E.
  destruct (thread_step clock bbos ev s) as [[[] s1]|] eqn:E1; [|done].
  assert (arrivals (ev :: evs) = arrivals [ev] ++ arrivals evs) as Ea by (by destruct ev).
  rewrite Ea in *. rewrite !Forall_app in Hus. destruct Hus as (Hw & Ha & Hb).
  destruct (thread_step_took _ _ _ _ _ Hwf Hw E1) as (Hwf1 & ps1 & Ep1 & Ht1).
  assert (Forall (λ u, 0 ≤ upd_ticker_id_ u) (ps1 ++ waiting_updates (th_engine s1))) as Hw1
    by (rewrite <- Ep1; by apply Forall_app).
  apply Forall_app in Hw1 as [_ Hw1].
  destruct (IH s1 Hwf1) as (Hwf2 & ps2 & Ep2 & Ht2); [by apply Forall_app|done|].
  split; [done|]. exists (ps1 ++ ps2). split; [|by eapply took_trans].
  by rewrite (assoc_L (++)), Ep1, <- !(assoc_L (++)), Ep2.
Qed.

(** * What is logged *)
Lemma destroy_market_books_text bs ks i :
  Forall2 (λ b k, quotes b (anon_book k)) bs ks → Forall (λ k, ∀ s, best_within s k = true) ks →
  ticker_id_ <$> bs = seqZ i (Z.of_nat (length bs)) →
  destroy_market_books bs = Ok (imap (λ n k, book_text false (i + Z.of_nat n) k) ks).
Proof.
  intros Hbs. revert i. induction Hbs as [|b k bs ks Hb _ IH]; intros i Hks Hi; [done|].
  apply Forall_cons in Hks as [Hk Hks]. rewrite fmap_cons, seqZ_cons in Hi by (simpl; lia).
  injection Hi as Hi Hrest. cbn [destroy_market_books]. unfold MarketOrderBook_destroy.
  assert (mkt_toString false true b = Ok (book_text false (ticker_id_ b) k, b)) as E.
  { rewrite (mkt_toString_text false true b _ Hb), book_text_anon; [done|].
    intros _ s. by rewrite best_within_anon. }
  rewrite (bind_Ok _ _ _ _ _ E). simpl. rewrite (IH (Z.succ i)); [|done|rewrite Hrest; f_equal; simpl; lia].
  simpl. rewrite Z.add_0_r, Hi. do 2 f_equal. apply imap_ext. intros n k' _. simpl. f_equal. lia.
Qed.
Lemma engine_run_tickers m ks us : engine_run m ks us → Forall (λ u, 0 ≤ upd_ticker_id_ u) us.
Proof.
  induction 1 as [| |m ks us r rest b k m' nr nu rs0 us0 _ IH _ _ Ht]; [done..|].
  apply Forall_app. split; [done|]. eapply Forall_impl; [apply spec_process_about|].
  intros u [E _]. lia.
Qed.
Lemma TradeEngine_new_books id algo cfg q rs md vm t :
  TradeEngine_new id algo cfg q rs md ∅ ∅ vm = Ok t →
  TradeEngine.ticker_order_book_ t = market_book0 <$> seqZ 0 8 ∧
  incoming_ogw_responses_ t = rs ∧ incoming_md_updates_ t = md.
Proof. intros [= <-]. done. Qed.

Lemma took_books m ks us t t' :
  engine_run m ks us → TradeEngine.ticker_order_book_ t = market_book0 <$> seqZ 0 8 → took us t t' →
  (∀ i, roomy (updates_of i us) (market_book0 i)) →
  Forall2 (λ b k, quotes b (anon_book k)) (TradeEngine.ticker_order_book_ t') ks ∧
  ticker_id_ <$> TradeEngine.ticker_order_book_ t' = seqZ 0 8.
Proof.
  intros Hrun Hb [Hlen Htook] Hroom. rewrite Hb in Hlen.
  assert (length ks = 8%nat) as Hks.
  { rewrite <- (Forall2_length _ _ _ (es_books _ _ _ (engine_run_shown _ _ _ Hrun))).
    pose proof (f_equal length (engine_run_instruments _ _ _ Hrun)) as H. unfold instruments in H.
    by rewrite length_fmap in H. }
  assert (∀ i b, TradeEngine.ticker_order_book_ t' !! i = Some b →
    run_updates (updates_of (Z.of_nat i) us) (market_book0 (Z.of_nat i)) = Ok (tt, b)) as Hrunb.
  { intros i b Hi. pose proof (lookup_lt_Some _ _ _ Hi) as Hlt. rewrite Hlen in Hlt. simpl in Hlt.
    destruct (Htook i (market_book0 (Z.of_nat i))) as (b' & Hb' & E).
    { rewrite Hb, list_lookup_fmap, lookup_seqZ_lt by lia. done. }
    rewrite Hi in Hb'. by injection Hb' as ->. }
  split.
  - apply Forall2_same_length_lookup. split; [by rewrite Hlen, Hks|]. intros i b k Hi Hk.
    destruct (rebuilt_book m ks us (Z.of_nat i) k Hrun) as (b2 & E2 & Hq); [lia|by rewrite Nat2Z.id|done|].
    rewrite (Hrunb _ _ Hi) in E2. by injection E2 as <-.
  - apply list_eq. intros i. rewrite list_lookup_fmap.
    destruct (TradeEngine.ticker_order_book_ t' !! i) as [b|] eqn:Hi.
    + pose proof (lookup_lt_Some _ _ _ Hi) as Hlt. rewrite Hlen in Hlt. simpl in Hlt.
      rewrite lookup_seqZ_lt by lia. simpl. by rewrite (run_updates_ticker _ _ _ (Hrunb _ _ Hi)).
    + apply lookup_ge_None in Hi. rewrite Hlen in Hi. symmetry. apply lookup_ge_None. exact Hi.
Qed.

(** What the destructors log, with the updates that arrive during a schedule. *)
Lemma logged_alike clock bbos m ks us run id algo cfg q vm s evs s' :
  engine_run m ks us →
  TradeEngine_new id algo cfg q new_queue new_queue ∅ ∅ vm = Ok (th_engine s) →
  thread_steps clock bbos evs s = Ok (tt, s') → arrivals evs = us →
  waiting_updates (th_engine s') = [] →
  (∀ i, roomy (updates_of i us) (market_book0 i)) →
  Forall (λ k, ∀ side, best_within side k = true) ks →
  let texts := imap (λ n k, book_text false (Z.of_nat n) k) ks in
  MatchingEngine_destroy (m, run) = Ok (texts, (MatchingEngine.set_books [] m, false)) ∧
  TradeEngine_destroy s' =
    Ok (texts, set_th_engine (TradeEngine.set_books [] (th_engine s')) (set_run false s')).
Proof.
  intros Hrun Hnew Hsteps Harr Hw Hroom Hks texts.
  split; [by eapply MatchingEngine_destroy_text|].
  destruct (TradeEngine_new_books _ _ _ _ _ _ _ _ Hnew) as (Hb & Hr & Hu).
  assert (queues_wf (th_engine s)) as Hwf by (unfold queues_wf; rewrite Hr, Hu; split; apply new_queue_wf).
  assert (waiting_updates (th_engine s) = []) as Hw0 by (by rewrite Hu).
  assert (steps_took us (th_engine s) (th_engine s')) as (_ & ps & Eps & Hlen & Htook).
  { rewrite <- Harr. eapply thread_steps_took; [done| |done]. rewrite Hw0, Harr. by eapply engine_run_tickers. }
  rewrite Hw0, Hw, (right_id_L [] (++)) in Eps. simpl in Eps. subst ps.
  destruct (took_books m ks us _ _ Hrun Hb (conj Hlen Htook) Hroom) as [Hbooks Hids].
  unfold TradeEngine_destroy. mrun. simpl.
  rewrite (destroy_market_books_text _ ks 0 Hbooks Hks); [done|].
  assert (length (TradeEngine.ticker_order_book_ (th_engine s')) = 8%nat) as ->
    by (by rewrite Hlen, Hb). done.
Qed.

Definition alike_thread : EngineThread :=
  MkEngineThread (set_responses new_queue (set_md_updates new_queue th_start)) 0 true 0 RunTest StopResponses.
Definition alike_events : list thread_event :=
  [ThRun; ThUpdate (List.hd MEMarketUpdate_default (out_updates sell_outcome)); ThRun; ThRun; ThRun].
