(* ===== verification/ObserverClient.v ===== *)
(** A client that only watches, from its construction to its destructor.

    A trade engine built without an algorithm ([RANDOM], which runs in [main], or an invalid type) sends
    nothing and is answered nothing: its positions stay flat.  Given the updates of a matching
    engine, with prices that the products of the feature engine can hold and few enough for its queue and
    pools, its steps do not fault, so [stop] returns, the thread ends, and the destructor logs the
    exchange's books.  The lines the engine logs meanwhile are not modelled, so neither is the life of
    its logger (see [LoggerProps.logger_lifetime]); the bounds of the theorem keep well below it. *)
From S2P Require Export EngineDestroy BookMirror MarketOrderBookText BookMirrorText.
From S2P Require Export MarketOrderBookRoom TradeEngineThread ClientDestroy.
Import MarketOrderBook.

(** ** What keeps the features and the positions from faulting *)
Definition price_limit : Z := 2 ^ 30.
Definition price_small (price : Z) : Prop := - price_limit ≤ price ≤ price_limit.
(** A side of the BBO is empty or within the limits. *)
Definition side_small (x : Z * Z) : Prop :=
  (x.1 = Price_INVALID ∨ price_small x.1) ∧ 0 ≤ x.2 < 2 ^ 32.
Definition bbo_small (x : BBO) : Prop := ∀ s, side_small (bbo_side s x).

Definition no_algorithm (algo : AlgoType) : Prop := algo ≠ AlgoType_MAKER ∧ algo ≠ AlgoType_TAKER.
Record watching (e : EngineState) : Prop := {
  wa_algo : no_algorithm (algo_type_ e);
  wa_flat : Forall (λ p, position_ p = 0) (ticker_position_ (position_keeper_ (core_ e)));
  wa_positions : length (ticker_position_ (position_keeper_ (core_ e))) = 8%nat;
}.

Lemma product_small price qty : price_small price → 0 ≤ qty < 2 ^ 32 → - 2 ^ 62 ≤ price * qty ≤ 2 ^ 62 - 2 ^ 30.
Proof. unfold price_small, price_limit. intros. split; nia. Qed.
Lemma signed_in {S} z : - 2 ^ 63 ≤ z < 2 ^ 63 → signed (S := S) 64 z = mret z.
Proof.
  intros H. unfold signed, in_i. change (2 ^ (64 - 1)) with (2 ^ 63).
  by rewrite (proj2 (Z.leb_le _ _)), (proj2 (Z.ltb_lt _ _)) by lia.
Qed.
Lemma features_ok bbo f : bbo_small bbo → wp (FeatureEngine_onOrderBookUpdate bbo) f (λ _ _, True).
Proof.
  intros Hb. unfold FeatureEngine_onOrderBookUpdate. destruct (two_sided bbo) eqn:Ht; [|by apply wp_ret].
  unfold two_sided in Ht. apply andb_true_iff in Ht as [H1%negb_true_iff%Z.eqb_neq H2%negb_true_iff%Z.eqb_neq].
  destruct (Hb true) as [[?|Hbid] Hbq], (Hb false) as [[?|Hask] Haq]; try done. simpl in *.
  pose proof (product_small _ _ Hbid Haq). pose proof (product_small _ _ Hask Hbq).
  repeat (apply wp_bind; rewrite signed_in by lia; apply wp_ret). by apply wp_modify.
Qed.

(** ** What the books report *)
Lemma updateBBO_flat bbo p : position_ p = 0 → PositionInfo_updateBBO bbo p = Ok (tt, p).
Proof. intros H. unfold PositionInfo_updateBBO. by rewrite gets_bind, H. Qed.
Lemma positions_ok t bbo pk :
  Forall (λ p, position_ p = 0) (ticker_position_ pk) → (Z.to_nat t < length (ticker_position_ pk))%nat →
  PositionKeeper_updateBBO t bbo pk = Ok (tt, pk).
Proof.
  intros Hflat [p Hp]%lookup_lt_is_Some_2. unfold PositionKeeper_updateBBO, on_position. rewrite gets_bind, Hp.
  rewrite (bind_Ok _ _ _ (tt, p) pk).
  2:{ unfold of_res. rewrite updateBBO_flat; [done|]. by eapply Forall_lookup_1 in Hflat. }
  unfold modify. simpl. rewrite list_insert_id by done. by destruct pk.
Qed.
Lemma no_algo_book t bbo e : no_algorithm (algo_type_ e) → algoOnOrderBookUpdate t bbo e = Ok (tt, e).
Proof. intros [H _]. unfold algoOnOrderBookUpdate. rewrite gets_bind. simpl. by destruct (algo_type_ e). Qed.
Lemma no_algo_trade u bbo e : no_algorithm (algo_type_ e) → algoOnTradeUpdate u bbo e = Ok (tt, e).
Proof. intros [_ H]. unfold algoOnTradeUpdate. rewrite gets_bind. simpl. by destruct (algo_type_ e). Qed.
Lemma watching_features f e : watching e → watching (set_features f e).
Proof. by intros []. Qed.
Lemma listener_book_ok t px side bbo e :
  watching e → bbo_small bbo → 0 ≤ t < 8 →
  wp (engine_onOrderBookUpdate t px side bbo) e (λ _ e', watching e').
Proof.
  intros He Hb Ht. pose proof He as [Halgo Hflat Hlen]. unfold engine_onOrderBookUpdate.
  apply wp_bind, wp_zoom. unfold wp at 1. rewrite positions_ok by (done || (rewrite Hlen; lia)).
  assert (set_core (set_position_keeper (position_keeper_ (core_ e)) (core_ e)) e = e) as -> by (by destruct e as [? ? ? ? []]).
  apply wp_bind, wp_zoom. eapply wp_mono; [by apply features_ok|]. intros _ f _.
  apply wp_ok. eexists tt, _. split; [by apply no_algo_book|by apply watching_features].
Qed.
Lemma listener_trade_ok u bbo e : watching e → wp (engine_onTradeUpdate u bbo) e (λ _ e', watching e').
Proof.
  intros He. unfold engine_onTradeUpdate. apply wp_bind, wp_zoom.
  assert (∀ f, wp (FeatureEngine_onTradeUpdate u bbo) f (λ _ _, True)) as H
    by (intros f; unfold FeatureEngine_onTradeUpdate; by case_match).
  eapply wp_mono; [apply H|]. intros _ f _. apply wp_ok. eexists tt, _.
  split; [by apply no_algo_trade, He|by apply watching_features].
Qed.

(** ** The prices of a book *)
Definition priced (k : sbook) : Prop := ∀ s, Forall (λ lv : Z * list resting, price_small lv.1) (s_levels s k).
Lemma rest_order_priced s r ls :
  price_small (r_price r) → Forall (λ lv : Z * list resting, price_small lv.1) ls →
  Forall (λ lv : Z * list resting, price_small lv.1) (rest_order s r ls).
Proof.
  intros Hr. induction 1 as [|[px rs] ls Hpx Hls IH]; cbn [rest_order]; [by apply Forall_singleton|].
  case_match; [by apply Forall_cons|]. case_decide; by repeat apply Forall_cons_2.
Qed.
Lemma cancel_order_priced key ls :
  Forall (λ lv : Z * list resting, price_small lv.1) ls →
  Forall (λ lv : Z * list resting, price_small lv.1) (cancel_order key ls).
Proof.
  induction 1 as [|[px rs] ls Hpx Hls IH]; [by constructor|]. cbn [cancel_order]. case_match; [done|by apply Forall_cons].
Qed.
Lemma requantify_priced key q ls :
  Forall (λ lv : Z * list resting, price_small lv.1) ls →
  Forall (λ lv : Z * list resting, price_small lv.1) (requantify key q ls).
Proof. intros H. by apply Forall_fmap. Qed.
Lemma book_update_priced u k : price_small (upd_price_ u) → priced k → priced (book_update u k).
Proof.
  intros Hu Hk s. unfold book_update. destruct (upd_type_ u); try apply Hk.
  - by destruct s.
  - unfold rest_in_book. set (s' := is_buy _). destruct (decide (s = s')) as [->|Hne].
    + rewrite s_levels_set. by apply rest_order_priced.
    + assert (s = negb s') as -> by (by destruct s, s'). rewrite s_levels_set_other. apply Hk.
  - specialize (Hk s). destruct s; by apply requantify_priced.
  - specialize (Hk s). destruct s; by apply cancel_order_priced.
Qed.
Lemma spec_top_small s k : priced k → side_small (spec_top s k).
Proof.
  intros Hk. unfold spec_top, side_small. specialize (Hk s). destruct (s_levels s k) as [|[px rs] ls]; simpl.
  - split; [by left|done].
  - apply Forall_cons in Hk as [? _]. split; [by right|apply u32_range].
Qed.

Lemma book_updates_priced us k :
  Forall (λ u, price_small (upd_price_ u)) us → priced k → priced (book_updates us k).
Proof.
  intros H. revert k. induction H as [|u us Hu _ IH]; intros k Hk; [done|]. by apply IH, book_update_priced.
Qed.
Lemma priced_best_within s k : priced (anon_book k) → best_within s k = true.
Proof.
  intros Hk. specialize (Hk s). rewrite s_levels_anon in Hk. unfold best_within.
  destruct (s_levels s k) as [|[px rs] ls]; [done|]. apply Forall_cons in Hk as [Hpx _]. simpl in Hpx.
  apply bool_decide_true. unfold price_small, price_limit, better, Price_INVALID, Price_MIN in *. destruct s; lia.
Qed.

(** ** A book and what is to come *)
Record book_ready (us : list MEMarketUpdate) (b : MarketOrderBook) : Prop := {
  br_book : ∃ k, quotes b k ∧ takes_all us k ∧ priced k;
  br_room : roomy us b;
  br_bbo : bbo_small (bbo_ b);
}.
Lemma book_ready_step u us b :
  price_small (upd_price_ u) → book_ready (u :: us) b →
  wp (apply_market_update u) b (λ _ b', book_ready us b').
Proof.
  intros Hu [(k & Hb & [Hk Htakes] & Hp) [Hroom Hnext] Hbbo].
  destruct (proj1 (wp_ok _ _ _) (apply_market_update_ok u b k Hb (conj Hk Hroom))) as ([] & b' & E & Hb' & Hbb).
  apply wp_ok. exists tt, b'. split; [done|]. pose proof (book_update_priced u k Hu Hp) as Hp'. split.
  - eauto.
  - by apply Hnext.
  - intros s. rewrite Hbb. case_match; [by apply spec_top_small|apply Hbbo].
Qed.

(** ** The whole engine *)
(** What is asked of an update, and of the updates to come for an engine. *)
Definition update_small (u : MEMarketUpdate) : Prop := 0 ≤ upd_ticker_id_ u < 8 ∧ price_small (upd_price_ u).
Record observing (fut : list MEMarketUpdate) (t : TradeEngine) : Prop := {
  ob_queues : queues_wf t;
  ob_room : write_pos_ (incoming_md_updates_ t) + Z.of_nat (length fut) < q_size (incoming_md_updates_ t);
  ob_answers : waiting_responses t = [];
  ob_updates : Forall update_small (waiting_updates t ++ fut);
  ob_count : length (TradeEngine.ticker_order_book_ t) = 8%nat;
  ob_books i b : TradeEngine.ticker_order_book_ t !! i = Some b →
    book_ready (updates_of (Z.of_nat i) (waiting_updates t ++ fut)) b;
  ob_engine : watching (engine_ t);
}.

Lemma onMarketUpdate_ready u us b e :
  update_small u → book_ready (u :: us) b → watching e →
  wp (onMarketUpdate u) (b, e) (λ _ r, book_ready us r.1 ∧ watching r.2).
Proof.
  intros [Ht Hpx] Hb He. unfold onMarketUpdate. apply wp_bind, wp_zoom.
  apply (wp_mono _ _ (λ _ b', book_ready us b')); [by apply book_ready_step|].
  intros _ b' Hb'. apply wp_bind, wp_gets, wp_zoom. simpl.
  pose proof (br_bbo _ _ Hb') as Hbbo.
  destruct (upd_type_ u);
    (apply (wp_mono _ _ (λ _ e', watching e'));
     [first [by apply listener_trade_ok|by apply listener_book_ok]|done]).
Qed.

(** The step of the engine's thread that takes an update. *)
Lemma updates_of_cons t u us :
  updates_of t (u :: us) = if decide (upd_ticker_id_ u = t) then u :: updates_of t us else updates_of t us.
Proof. unfold updates_of. by rewrite filter_cons. Qed.
Lemma observing_step fut t u us :
  observing fut t → waiting_updates t = u :: us →
  wp (process_update (read_pos_ (incoming_md_updates_ t))) t (λ _ t', observing fut t').
Proof.
  intros [Hwf Hroom Hans Hus Hcount Hbooks He] Hu.
  destruct (read_cons _ _ _ _ (proj2 Hwf) Hu) as (Ei & Er & Eu & Hwf' & Hc).
  rewrite Hu in Hus, Hbooks. cbn [app] in Hus, Hbooks. apply Forall_cons in Hus as [Hsmall Hus].
  unfold process_update. eapply wp_bind_Ok; [by apply on_md_same|]. apply wp_bind, wp_gets.
  pose proof Hsmall as [Ht _]. unfold ASSERT. rewrite Hcount, (proj2 (Z.ltb_lt _ _)) by lia.
  apply wp_bind, wp_ret. unfold on_market_book.
  destruct (lookup_lt_is_Some_2 (TradeEngine.ticker_order_book_ t) (Z.to_nat (upd_ticker_id_ u))) as [b Hb]; [lia|].
  pose proof (Hbooks _ _ Hb) as Hready. rewrite updates_of_cons, Z2Nat.id, decide_True in Hready by (done || lia).
  destruct (proj1 (wp_ok _ _ _) (onMarketUpdate_ready u _ b (engine_ t) Hsmall Hready He)) as ([] & [b' e'] & E & Hb' & He').
  apply wp_bind, wp_bind, wp_gets. rewrite Hb. apply wp_bind, wp_gets. unfold of_res. rewrite E. apply wp_bind, wp_ret.
  apply wp_bind, wp_modify, wp_modify. apply wp_bind, wp_zoom. unfold wp at 1. simpl. rewrite Eu.
  apply wp_ret. split; simpl.
  - split; [apply Hwf|done].
  - done.
  - done.
  - by rewrite Hc.
  - by rewrite length_insert.
  - intros i b0 Hi. rewrite Hc. destruct (decide (i = Z.to_nat (upd_ticker_id_ u))) as [->|Hne].
    + rewrite list_lookup_insert_eq in Hi by (by eapply lookup_lt_Some). injection Hi as <-.
      by rewrite Z2Nat.id by lia.
    + rewrite list_lookup_insert_ne in Hi by done. specialize (Hbooks i b0 Hi).
      rewrite updates_of_cons, decide_False in Hbooks by lia. done.
  - done.
Qed.

Lemma print_flat bbo p : position_ p = 0 → ∃ text, PositionInfo_toString bbo p = Ok (text, p).
Proof.
  intros H. assert (∀ s, print_vwap s p = Ok (print_double dzero, p)) as E
    by (intros s; unfold print_vwap; by rewrite gets_bind, H).
  unfold PositionInfo_toString. rewrite gets_bind, (bind_Ok _ _ _ _ _ (E _)), (bind_Ok _ _ _ _ _ (E _)). eauto.
Qed.
Lemma print_positions_flat ps bbos i pnl vol ss :
  Forall (λ p, position_ p = 0) ps → ∃ text, print_positions ps bbos i pnl vol ss = Ok text.
Proof.
  intros H. revert i pnl vol ss. induction H as [|p ps Hp _ IH]; intros i pnl vol ss; [by eexists|].
  cbn [print_positions]. destruct (print_flat (bbos i) p Hp) as [text ->]. apply IH.
Qed.

Lemma observing_never_faults bbos fut : never_faults bbos (observing fut).
Proof.
  split.
  - intros t i Ht Hi. rewrite (getNextToRead_nil MEClientResponse_default) in Hi; [done|..]; apply Ht.
  - intros t i Ht Hi. pose proof (ob_queues _ _ Ht) as [_ Hq].
    destruct (read_some MEMarketUpdate_default _ i _ Hq Hi) as (_ & u & _ & _ & _ & Hc).
    destruct (read_cons _ _ _ _ Hq Hc) as (Ei & _). rewrite Hi in Ei. injection Ei as ->.
    by eapply observing_step.
  - intros t Ht. apply print_positions_flat, Ht.
Qed.

(** An update arrives. *)
Lemma observing_arrival fut u t :
  observing (u :: fut) t → wp (on_md (push u)) t (λ _ t', observing fut t').
Proof.
  intros [Hwf Hroom Hans Hus Hcount Hbooks He]. apply wp_zoom. simpl in Hroom.
  eapply wp_mono.
  { apply (queue_room_push MEMarketUpdate_default u _ (length fut) (waiting_updates t)). split_and!; [apply Hwf|done|lia]. }
  intros [] q [(Hq & Hc & Hr) _]. split; simpl; rewrite ?Hc, <- ?(assoc_L (++)); try done.
  split; [apply Hwf|done].
Qed.

(** ** The feed arrives while the thread runs *)
Definition feeding (ev : thread_event) : bool :=
  match ev with ThRun | ThUpdate _ => true | _ => false end.
Definition fed (bbos : TradeEngine → Z → option BBO) (fut : list MEMarketUpdate) (s : EngineThread) : Prop :=
  thread_ok bbos (observing fut) s ∧ run_ s = true ∧ stop_at s = StopResponses.
Lemma fed_step clock bbos ev fut s :
  feeding ev = true → fed bbos (arrivals [ev] ++ fut) s →
  wp (thread_step clock bbos ev) s (λ _ s', fed bbos fut s').
Proof.
  intros Hev (Hs & Hr & Hstop). destruct ev as [| |r|u]; [|done|done|]; simpl in Hs |- *.
  - eapply wp_mono; [by apply run_step_ok; [apply observing_never_faults|]|].
    intros [] s' (Hs' & Hst & _ & _). rewrite Hstop in Hst. split_and!; [done| |done].
    by rewrite (to_run _ _ _ Hs'), Hst.
  - apply wp_zoom. eapply wp_mono; [by apply observing_arrival, (to_inv _ _ _ Hs)|]. intros [] t' Ht'.
    split_and!; [|done|done]. destruct Hs as [_ _ Hrun Hal _].
    split; simpl; [done|by apply (ob_queues _ _ Ht')|done|done|by rewrite Hstop].
Qed.
Lemma arrivals_cons ev evs : arrivals (ev :: evs) = arrivals [ev] ++ arrivals evs.
Proof. by destruct ev. Qed.
Lemma fed_steps clock bbos evs fut s :
  forallb feeding evs = true → fed bbos (arrivals evs ++ fut) s →
  wp (thread_steps clock bbos evs) s (λ _ s', fed bbos fut s').
Proof.
  revert s. induction evs as [|ev evs IH]; intros s Hf Hs; [by apply wp_ret|].
  simpl in Hf. apply andb_true_iff in Hf as [Hev Hevs]. rewrite arrivals_cons, <- (assoc_L (++)) in Hs.
  cbn [thread_steps]. apply wp_bind. eapply wp_mono; [by apply fed_step|]. intros [] s1 Hs1. by apply IH.
Qed.
Lemma quiet_arrivals evs : forallb quiet_event evs = true → arrivals evs = [].
Proof.
  induction evs as [|ev evs IH]; [done|]. cbn [forallb]. intros [Hev Hevs]%andb_true_iff.
  rewrite arrivals_cons, IH by done. by destruct ev.
Qed.

(** ** A new observer *)
Lemma engine_run_small m ks us : engine_run m ks us → Forall (λ u, 0 ≤ upd_ticker_id_ u < 8) us.
Proof.
  induction 1 as [| |m ks us r rest b k m' nr nu rs0 us0 Hrun IH _ _ Ht Hb]; [done..|].
  apply Forall_app. split; [done|]. eapply Forall_impl; [apply spec_process_about|].
  intros u [-> _]. apply lookup_lt_Some in Hb.
  pose proof (f_equal length (engine_run_instruments _ _ _ Hrun)) as Hl. unfold instruments in Hl.
  rewrite length_fmap, length_seqZ in Hl. lia.
Qed.
Lemma engine_run_count m ks us : engine_run m ks us → length ks = 8%nat.
Proof.
  intros Hrun. rewrite <- (Forall2_length _ _ _ (es_books _ _ _ (engine_run_shown _ _ _ Hrun))).
  pose proof (f_equal length (engine_run_instruments _ _ _ Hrun)) as H. unfold instruments in H.
  by rewrite length_fmap, length_seqZ in H.
Qed.
Lemma engine_run_within m ks us :
  engine_run m ks us → Forall (λ u, price_small (upd_price_ u)) us →
  Forall (λ k, ∀ side, best_within side k = true) ks.
Proof.
  intros Hrun Hpx. apply Forall_lookup_2. intros i k Hk side.
  destruct (engine_run_mirrors _ _ _ Hrun _ _ Hk) as [_ E]. apply priced_best_within. rewrite <- E.
  apply book_updates_priced; [|by intros []].
  rewrite Forall_forall in *. intros u [_ Hu]%list_elem_of_filter. by apply Hpx.
Qed.
Lemma TradeEngine_new_watching id algo cfg q rs md vm t :
  no_algorithm algo → TradeEngine_new id algo cfg q rs md ∅ ∅ vm = Ok t → watching (engine_ t).
Proof. intros Ha [= <-]. split; [done| |done]. by repeat apply Forall_cons_2. Qed.
Lemma observing_new m ks us id algo cfg q vm t :
  engine_run m ks us → no_algorithm algo → TradeEngine_new id algo cfg q new_queue new_queue ∅ ∅ vm = Ok t →
  Forall (λ u, price_small (upd_price_ u)) us → Z.of_nat (length us) < 2 ^ 18 →
  (∀ i, adds (updates_of i us) < ME_MAX_PRICE_LEVELS) →
  observing us t.
Proof.
  intros Hrun Ha Hnew Hpx Hlen Hroom. destruct (TradeEngine_new_books _ _ _ _ _ _ _ _ Hnew) as (Hb & Hr & Hu).
  split; rewrite ?Hb, ?Hr, ?Hu; try done.
  - unfold queues_wf. rewrite Hr, Hu. split; apply new_queue_wf.
  - simpl. pose proof (engine_run_small _ _ _ Hrun) as Ht. rewrite Forall_forall in *. unfold update_small. auto.
  - intros i b Hi. rewrite list_lookup_fmap in Hi. apply fmap_Some in Hi as (j & Hj & ->).
    apply lookup_seqZ in Hj as [-> Hi]. rewrite Z.add_0_l. change (contents _ new_queue ++ us) with us.
    destruct (lookup_lt_is_Some_2 ks i) as [k Hk]; [rewrite (engine_run_count _ _ _ Hrun); lia|].
    destruct (engine_run_mirrors _ _ _ Hrun _ _ Hk) as [Htakes _]. split; [|by apply roomy_few|].
    + exists empty_book. split_and!; [apply market_book0_quotes|done|]. intros s. by destruct s.
    + intros s. by destruct s; (split; [left|]).
  - by eapply TradeEngine_new_watching.
Qed.

