(* ===== verification/TradingMain.v ===== *)
(** trading/trading_main.cpp: the command line and the RANDOM algorithm.

    The RANDOM algorithm runs in [main]: it writes requests to the queue of the order gateway, whose
    thread takes them meanwhile, and two lines for each to the engine's log, whose thread writes them to
    the file.  What the random generators draw in an iteration, the times that are logged, what else
    happens to the log and how many requests the gateway takes after each send, is a [draw]; a run is the
    list of its draws.  The progress lines of [main]'s own log are left out. *)
From Stdlib Require Import Ascii.
From S2P Require Export TradeEngine Logger LoggerProps Measurements.

(** * The command line *)

(** [std::isspace] in the "C" locale. *)
Definition isspace (c : ascii) : bool :=
  let n := Z.of_N (N_of_ascii c) in (n =? 32) || ((9 <=? n) && (n <=? 13)).
Definition digit_value (c : ascii) : option Z :=
  let n := Z.of_N (N_of_ascii c) in if (48 <=? n) && (n <=? 57) then Some (n - 48) else None.
Fixpoint skip_spaces (s : string) : string :=
  match s with String c s' => if isspace c then skip_spaces s' else s | EmptyString => s end.
(** The longest prefix of digits, as a number added to [acc]. *)
Fixpoint strtol_digits (s : string) (acc : Z) : Z :=
  match s with
  | String c s' => match digit_value c with Some d => strtol_digits s' (10 * acc + d) | None => acc end
  | EmptyString => acc
  end.
(** A number must start with a digit. *)
Definition strtol_number (s : string) : option Z :=
  match s with
  | String c _ => match digit_value c with Some _ => Some (strtol_digits s 0) | None => None end
  | EmptyString => None
  end.
(** [std::stoi]: the exceptions it throws leave [main]. *)
Definition stoi (s : string) : res Z :=
  let value :=
    match skip_spaces s with
    | String c s' =>
        if Ascii.eqb c "-"%char then Z.opp <$> strtol_number s'
        else if Ascii.eqb c "+"%char then strtol_number s' else strtol_number (String c s')
    | EmptyString => None
    end in
  match value with Some z => if in_i 32 z then Ok z else Err Terminate | None => Err Terminate end.

Definition RiskCfg_default : RiskCfg := MkRiskCfg 0 0 dzero.
Definition TradeEngineCfg_default : TradeEngineCfg := MkTradeEngineCfg 0 dzero RiskCfg_default.

Section main.
(** [std::stod]: the double nearest to the number the string starts with, or an exception. *)
Context (stod : string → res double).

(** [argv[i]] as a [std::string]; the pointer after the last argument is null. *)
Definition arg (argv : list string) (i : nat) : res string :=
  match argv !! i with
  | Some s => Ok s
  | None => if decide (i = length argv) then Err NullDeref else Err OutOfBounds
  end.
Definition arg_qty (argv : list string) (i : nat) : res Z :=
  res_bind (arg argv i) (λ s, res_map u32 (stoi s)).
Definition arg_double (argv : list string) (i : nat) : res double := res_bind (arg argv i) stod.

(** The five arguments of an instrument, in the order of the initialiser. *)
Definition parse_cfg (argv : list string) (i : nat) : res TradeEngineCfg :=
  res_bind (arg_qty argv i) (λ clip,
  res_bind (arg_double argv (i + 1)) (λ threshold,
  res_bind (arg_qty argv (i + 2)) (λ max_order_size,
  res_bind (arg_qty argv (i + 3)) (λ max_position,
  res_bind (arg_double argv (i + 4)) (λ max_loss,
    Ok (MkTradeEngineCfg clip threshold (MkRiskCfg max_order_size max_position max_loss))))))).
(** The loop over the instruments; [fuel] bounds the arguments that are left. *)
Fixpoint parse_cfgs (fuel : nat) (argv : list string) (i next_ticker_id : nat)
    (ticker_cfg : list TradeEngineCfg) : res (list TradeEngineCfg) :=
  match fuel with
  | O => Err OutOfFuel
  | S fuel =>
      if decide (i < length argv)%nat then
        res_bind (parse_cfg argv i) (λ cfg,
          if decide (next_ticker_id < length ticker_cfg)%nat then
            parse_cfgs fuel argv (i + 5) (S next_ticker_id) (<[next_ticker_id := cfg]> ticker_cfg)
          else Err OutOfRange)
      else Ok ticker_cfg
  end.
(** What [main] reads from the command line: the client, the algorithm and the configuration. *)
Definition parse_args (argv : list string) : res (Z * AlgoType * list TradeEngineCfg) :=
  if decide (length argv < 3)%nat then Err Exit
  else
    res_bind (arg argv 1) (λ a1, res_bind (stoi a1) (λ client_id,
    res_bind (arg argv 2) (λ a2,
    res_bind (parse_cfgs (S (length argv)) argv 3 0
      (replicate (Z.to_nat ME_MAX_TICKERS) TradeEngineCfg_default)) (λ ticker_cfg,
      Ok (u32 client_id, stringToAlgoType a2, ticker_cfg))))).
End main.

(** * The RANDOM algorithm *)
Definition ORDERS_PER_CLIENT : Z := 100000000.

(** What surrounds a call of [sendClientRequest]: the times it logs, what the logger's other users do
    before each of its two lines, line by line, and how many requests the gateway takes afterwards. *)
Record sending : Type := MkSending {
  s_before : list logger_cmd;
  s_time_str : string;
  s_between : list logger_cmd;
  s_ttt_time_str : string;
  s_ttt_nanos : Z;
  s_taken : nat;
}.
Record draw : Type := MkDraw {
  d_ticker_id : Z;
  d_price_offset : Z;
  d_qty : Z;
  d_side : Z;
  d_cxl_index : Z;
  d_new : sending;
  d_cancel : sending;
}.
Record RandomRun : Type := MkRandomRun {
  rr_order_id : Z;
  client_requests_vec : list MEClientRequest;
  rr_core : EngineCore;
  rr_logger : Logger;
}.
Definition set_rr_core (c : EngineCore) (r : RandomRun) : RandomRun :=
  MkRandomRun (rr_order_id r) (client_requests_vec r) c (rr_logger r).
Definition set_rr_logger (l : Logger) (r : RandomRun) : RandomRun :=
  MkRandomRun (rr_order_id r) (client_requests_vec r) (rr_core r) l.
Definition on_core {A} : M EngineCore A → M RandomRun A := zoom rr_core set_rr_core.
Definition on_logger {A} : M Logger A → M RandomRun A := zoom rr_logger set_rr_logger.

(** The gateway thread takes up to [n] requests. *)
Fixpoint gateway_takes (n : nat) : M EngineCore unit :=
  match n with
  | O => mret tt
  | S n => _ ← zoom outgoing_ogw_requests_ set_ogw_requests (pop MEClientRequest_default); gateway_takes n
  end.
(** [vector[i]]. *)
Definition vector_at {S A} (l : list A) (i : Z) : M S A :=
  match (if 0 <=? i then l !! Z.to_nat i else None) with Some a => mret a | None => raise OutOfBounds end.
Definition cancel_of (r : MEClientRequest) : MEClientRequest :=
  MkMEClientRequest ClientRequestType_CANCEL (req_client_id_ r) (req_ticker_id_ r) (req_order_id_ r)
    (req_side_ r) (req_price_ r) (req_qty_ r).

Section logging.
(** [__FILE__] of trade_engine.cpp. *)
Context (file : string).

(** The line [sendClientRequest] logs, and that of [TTT_MEASURE]. *)
Definition sending_line (client_request : MEClientRequest) (time_str : string) : M Logger unit :=
  log ("%:% %() % Sending %" +:+ newline)
    [Arg_cstr file; Arg (LogType_INTEGER 65); Arg_cstr "sendClientRequest"; Arg_string time_str;
     Arg_cstr (c_str (MEClientRequest_toString client_request))].
Definition ttt_line (time_str : string) (nanos : Z) : M Logger unit :=
  TTT_MEASURE "T10_TradeEngine_LFQueue_write" time_str nanos.
(** [sendClientRequest] with its log, and what the other threads do about it. *)
Definition sendClientRequest_logged (client_request : MEClientRequest) (x : sending) : M RandomRun unit :=
  _ ← on_logger (run_cmds (s_before x));
  _ ← on_logger (sending_line client_request (s_time_str x));
  _ ← on_core (sendClientRequest client_request);
  _ ← on_logger (run_cmds (s_between x));
  _ ← on_logger (ttt_line (s_ttt_time_str x) (s_ttt_nanos x));
  on_core (gateway_takes (s_taken x)).

(** The body of the loop. *)
Definition random_order (client_id : Z) (ticker_base_price : list Z) (d : draw) : M RandomRun unit :=
  let ticker_id := d_ticker_id d in
  base ← vector_at ticker_base_price ticker_id;
  price ← signed 64 (base + d_price_offset d);
  let side := if d_side d =? 0 then Side_SELL else Side_BUY in
  order_id ← gets rr_order_id;
  _ ← modify (λ r, MkRandomRun (u64 (order_id + 1)) (client_requests_vec r) (rr_core r) (rr_logger r));
  let new_request :=
    MkMEClientRequest ClientRequestType_NEW client_id ticker_id order_id side price (d_qty d) in
  _ ← sendClientRequest_logged new_request (d_new d);
  _ ← modify (λ r, MkRandomRun (rr_order_id r) (client_requests_vec r ++ [new_request]) (rr_core r)
                     (rr_logger r));
  vec ← gets client_requests_vec;
  cxl_request ← vector_at vec (d_cxl_index d);
  sendClientRequest_logged (cancel_of cxl_request) (d_cancel d).
Fixpoint random_orders (client_id : Z) (ticker_base_price : list Z) (ds : list draw) : M RandomRun unit :=
  match ds with
  | [] => mret tt
  | d :: ds => _ ← random_order client_id ticker_base_price d; random_orders client_id ticker_base_price ds
  end.
Definition random_start (client_id : Z) (core : EngineCore) (logger : Logger) : RandomRun :=
  MkRandomRun (u32 (client_id * 1000)) [] core logger.

(** * What the RANDOM algorithm sends *)

Definition new_of (client_id : Z) (base : list Z) (order_id : Z) (d : draw) : MEClientRequest :=
  MkMEClientRequest ClientRequestType_NEW client_id (d_ticker_id d) order_id
    (if d_side d =? 0 then Side_SELL else Side_BUY)
    (nth (Z.to_nat (d_ticker_id d)) base 0 + d_price_offset d) (d_qty d).
(** Each iteration sends an order and cancels one of those it has sent, [sent] and this one. *)
Fixpoint random_sends (client_id : Z) (base : list Z) (order_id : Z) (sent : list MEClientRequest)
    (ds : list draw) : list (MEClientRequest * sending) :=
  match ds with
  | [] => []
  | d :: ds =>
      let new := new_of client_id base order_id d in
      (new, d_new d) :: (cancel_of (nth (Z.to_nat (d_cxl_index d)) (sent ++ [new]) new), d_cancel d) ::
      random_sends client_id base (u64 (order_id + 1)) (sent ++ [new]) ds
  end.
(** What happens to the log around a request. *)
Definition send_cmds (p : MEClientRequest * sending) : list logger_cmd :=
  s_before p.2 ++
  Cmd_log ("%:% %() % Sending %" +:+ newline)
    [Arg_cstr file; Arg (LogType_INTEGER 65); Arg_cstr "sendClientRequest"; Arg_string (s_time_str p.2);
     Arg_cstr (c_str (MEClientRequest_toString p.1))] ::
  s_between p.2 ++
  [Cmd_log ("% TTT T10_TradeEngine_LFQueue_write %" +:+ newline)
     [Arg_string (s_ttt_time_str p.2); Arg (LogType_LONG_INTEGER (s_ttt_nanos p.2))]].
(** The ranges of the distributions; [n] orders were sent before.  What others log fits its format. *)
Definition sending_ok (x : sending) : Prop := Forall cmd_ok (s_before x) ∧ Forall cmd_ok (s_between x).
Definition draw_ok (n : nat) (d : draw) : Prop :=
  0 ≤ d_ticker_id d < ME_MAX_TICKERS ∧ 1 ≤ d_price_offset d ≤ 10 ∧ 2 ≤ d_qty d ≤ 101 ∧
  0 ≤ d_side d ≤ 1 ∧ 0 ≤ d_cxl_index d ≤ Z.of_nat n ∧ sending_ok (d_new d) ∧ sending_ok (d_cancel d).
Fixpoint draws_ok (n : nat) (ds : list draw) : Prop :=
  match ds with [] => True | d :: ds => draw_ok n d ∧ draws_ok (S n) ds end.
Definition base_prices_ok (base : list Z) : Prop :=
  Z.of_nat (length base) = ME_MAX_TICKERS ∧ Forall (λ p, 100 ≤ p ≤ 199) base.

(** ** The effect on the queue of requests and on the log *)
Abbreviation request_history := (history MEClientRequest_default 18).
(** The state after [ps] requests on the queue, with a logger that has [n] positions left and whose
    text is [w]. *)
Record run_state (ps : list MEClientRequest) (n : Z) (w : string) (r : RandomRun) : Prop := {
  rs_history : ∃ os, request_history (outgoing_ogw_requests_ (rr_core r)) ps os;
  rs_logger : logger_wf (rr_logger r);
  rs_room : room (rr_logger r) = n;
  rs_written : written (rr_logger r) = w;
}.
(** The queue of requests holds 2^18 in its life: from such a state the computation puts [rs] on it and
    runs [cs] on the log, and returns with [Q], or it faults on the pointer that one of the queues gave
    it, which takes a queue at its end. *)
Definition delivers {A} (m : M RandomRun A) (r : RandomRun) (rs : list MEClientRequest)
    (cs : list logger_cmd) (Q : A → RandomRun → Prop) : Prop :=
  ∀ ps n w, run_state ps n w r →
  (∃ a r', m r = Ok (a, r') ∧
    run_state (ps ++ rs) (n - zsum cmd_elements cs) (w +:+ cmds_text cs) r' ∧ Q a r') ∨
  (∃ f, m r = Err f ∧ (f = NullDeref ∨ f = OutOfBounds) ∧
    (2 ^ 18 ≤ Z.of_nat (length ps + length rs) ∨ n ≤ zsum cmd_elements cs)).
(** The order id and the requests sent are as in [r]. *)
Definition same_orders {A} (r : RandomRun) (_ : A) (r' : RandomRun) : Prop :=
  rr_order_id r' = rr_order_id r ∧ client_requests_vec r' = client_requests_vec r.

Lemma cmds_text_app cs cs' : cmds_text (cs ++ cs') = cmds_text cs +:+ cmds_text cs'.
Proof. induction cs as [|c cs IH]; simpl; [done|]. by rewrite IH, (assoc_L String.append). Qed.
Lemma cmd_elements_nonneg cs : 0 ≤ zsum cmd_elements cs.
Proof. apply zsum_nonneg, Forall_true. intros []; simpl; lia. Qed.

Lemma delivers_ret {A} (a : A) r (Q : A → RandomRun → Prop) : Q a r → delivers (mret a) r [] [] Q.
Proof.
  intros HQ ps n w Hr. left. exists a, r. rewrite zsum_nil, Z.sub_0_r, (right_id_L [] (++)). simpl.
  by rewrite (right_id_L EmptyString String.append).
Qed.
Lemma delivers_bind {A B} (m : M RandomRun A) (k : A → M RandomRun B) r rs1 rs2 cs1 cs2 Q R :
  delivers m r rs1 cs1 Q → (∀ a r', Q a r' → delivers (k a) r' rs2 cs2 R) →
  delivers (m ≫= k) r (rs1 ++ rs2) (cs1 ++ cs2) R.
Proof.
  intros Hm Hk ps n w Hr. rewrite zsum_app, cmds_text_app.
  pose proof (cmd_elements_nonneg cs1). pose proof (cmd_elements_nonneg cs2).
  destruct (Hm ps n w Hr) as [(a & r' & E & Hr' & HQ)|(f & E & Hf & Hl)].
  - rewrite (bind_Ok _ _ _ _ _ E), (assoc_L (++)), (assoc_L String.append), Z.sub_add_distr.
    destruct (Hk a r' HQ _ _ _ Hr') as [H'|(f & Ef & Hf & Hl)]; [by left|right].
    exists f. split_and!; [done..|]. rewrite length_app in *. lia.
  - right. exists f. rewrite (bind_Err _ _ _ _ E). split_and!; [done..|]. rewrite length_app. lia.
Qed.
Lemma delivers_step {A B} (m : M RandomRun A) (k : A → M RandomRun B) r a r' rs cs R :
  m r = Ok (a, r') → (∀ ps n w, run_state ps n w r → run_state ps n w r') →
  delivers (k a) r' rs cs R → delivers (m ≫= k) r rs cs R.
Proof. intros E Hr Hk ps n w Hs. rewrite (bind_Ok _ _ _ _ _ E). apply Hk. auto. Qed.
Lemma delivers_mono {A} (m : M RandomRun A) r rs cs (Q R : A → RandomRun → Prop) :
  delivers m r rs cs Q → (∀ a r', Q a r' → R a r') → delivers m r rs cs R.
Proof.
  intros Hm HQ ps n w Hr. destruct (Hm ps n w Hr) as [(a & r' & ? & ? & ?)|?]; [left|by right].
  exists a, r'. auto.
Qed.

Lemma send_delivers q r : delivers (on_core (sendClientRequest q)) r [q] [] (same_orders r).
Proof.
  intros ps n w [[os Hh] Hl Hn Hw]. unfold on_core, sendClientRequest, zoom.
  destruct (history_inv MEClientRequest_default 18 _ ps os ltac:(lia) Hh) as (Hwf & Hs & _ & Hp & _).
  change (next_write ← getNextToWriteTo; _ ← write_slot next_write q; _ ← updateWriteIndex; mret tt)
    with (push q).
  destruct (can_push (outgoing_ogw_requests_ (rr_core r))) eqn:Hc.
  - pose proof (push_ok q _ Hwf Hc) as E. left. rewrite E. eexists _, _. split; [done|].
    rewrite zsum_nil, Z.sub_0_r. simpl. rewrite (right_id_L EmptyString String.append).
    split; [|done]. split; [|done..]. exists os. simpl. by eapply history_push.
  - right. rewrite (push_fault q _ Hwf Hc). eexists. split; [done|].
    split; [case_match; auto|left]. unfold can_push in Hc. rewrite Hp, Hs in Hc. simpl. lia.
Qed.
Lemma takes_delivers k r : delivers (on_core (gateway_takes k)) r [] [] (same_orders r).
Proof.
  intros ps n w [[os Hh] Hl Hn Hw]. left. rewrite zsum_nil, Z.sub_0_r, (right_id_L [] (++)). simpl.
  rewrite (right_id_L EmptyString String.append).
  enough (∃ c os', gateway_takes k (rr_core r) = Ok (tt, c) ∧
    request_history (outgoing_ogw_requests_ c) ps os') as (c & os' & E & Hh').
  { unfold on_core, zoom. rewrite E. eexists _, _. split; [done|]. split; [|done]. split; [eauto|done..]. }
  clear Hl Hn Hw. revert Hh. generalize (rr_core r) as c. revert os.
  induction k as [|k IH]; intros os c Hh; [by exists c, os|].
  destruct (history_inv MEClientRequest_default 18 _ ps os ltac:(lia) Hh) as (Hwf & _). cbn [gateway_takes].
  destruct (contents MEClientRequest_default (outgoing_ogw_requests_ c)) as [|v vs] eqn:Hc.
  - pose proof (pop_empty _ _ Hwf Hc) as E.
    erewrite bind_Ok by (unfold zoom; by rewrite E). apply (IH os); by eapply history_pop_empty.
  - destruct (pop_ok _ v vs _ Hwf Hc) as (E & _).
    erewrite bind_Ok by (unfold zoom; by rewrite E). apply (IH (os ++ [v])); by eapply history_pop.
Qed.
Lemma cmds_deliver cs r :
  Forall cmd_ok cs → delivers (on_logger (run_cmds cs)) r [] cs (same_orders r).
Proof.
  intros Hcs ps n w [Hh Hl <- <-]. unfold on_logger, zoom. rewrite (right_id_L [] (++)).
  destruct (run_cmds_ok cs _ Hl Hcs) as [(l & -> & ? & ? & ?)|(f & -> & Hf & Hn)]; [left|right; eauto 6].
  by eexists _, _.
Qed.
Lemma line_delivers fmt args r :
  slots (pieces_of fmt) = length args →
  delivers (on_logger (log fmt args)) r [] [Cmd_log fmt args] (same_orders r).
Proof.
  intros Hn. assert (∀ l, log fmt args l = run_cmds [Cmd_log fmt args] l) as E.
  { intros l. cbn [run_cmds]. rewrite bind_unit. simpl. by destruct (log fmt args l) as [[[] ?]|]. }
  intros ps n w Hr. unfold on_logger, zoom. rewrite E. by apply cmds_deliver; [apply Forall_singleton|].
Qed.

(** A request is put on the queue, and its two lines in the log. *)
Lemma logged_delivers q x r :
  sending_ok x → delivers (sendClientRequest_logged q x) r [q] (send_cmds (q, x)) (same_orders r).
Proof.
  intros [Hb Hm]. unfold sendClientRequest_logged, send_cmds. cbn [fst snd].
  set (line := Cmd_log _ _). set (ttt := Cmd_log (_ +:+ _) _).
  change [q] with ([] ++ [] ++ [q] ++ [] ++ [] ++ @nil MEClientRequest).
  replace (s_before x ++ line :: s_between x ++ [ttt]) with
    (s_before x ++ [line] ++ [] ++ s_between x ++ [ttt] ++ []) by done.
  eapply delivers_bind; [by apply cmds_deliver|]. intros _ r1 [H1 V1].
  eapply delivers_bind; [by apply line_delivers|]. intros _ r2 [H2 V2].
  eapply delivers_bind; [apply send_delivers|]. intros _ r3 [H3 V3].
  eapply delivers_bind; [by apply cmds_deliver|]. intros _ r4 [H4 V4].
  eapply delivers_bind; [by apply line_delivers|]. intros _ r5 [H5 V5].
  eapply delivers_mono; [apply takes_delivers|]. intros [] r6 [H6 V6]. split; congruence.
Qed.

Lemma vector_at_ok {S A} (l : list A) i x (s : S) :
  0 ≤ i → l !! Z.to_nat i = Some x → vector_at l i s = Ok (x, s).
Proof. intros Hi Hx. unfold vector_at. by rewrite (proj2 (Z.leb_le _ _) Hi), Hx. Qed.
Lemma run_state_orders ps n w r o v :
  run_state ps n w r → run_state ps n w (MkRandomRun o v (rr_core r) (rr_logger r)).
Proof. by intros []. Qed.

(** An iteration of the loop. *)
Lemma random_order_delivers client_id base d r :
  base_prices_ok base → draw_ok (length (client_requests_vec r)) d →
  let new := new_of client_id base (rr_order_id r) d in
  let cxl := cancel_of (nth (Z.to_nat (d_cxl_index d)) (client_requests_vec r ++ [new]) new) in
  delivers (random_order client_id base d) r [new; cxl] (send_cmds (new, d_new d) ++ send_cmds (cxl, d_cancel d))
    (λ _ r', rr_order_id r' = u64 (rr_order_id r + 1) ∧
             client_requests_vec r' = client_requests_vec r ++ [new]).
Proof.
  intros [Hlen Hbase] (Ht & Hoff & Hqty & Hside & Hcxl & Hnew & Hcan) new cxl. unfold random_order.
  destruct (lookup_lt_is_Some_2 base (Z.to_nat (d_ticker_id d))) as [p Hp]; [lia|].
  assert (100 ≤ p ≤ 199) as Hpr by (rewrite Forall_lookup in Hbase; eauto).
  assert (signed 64 (p + d_price_offset d) r = Ok (p + d_price_offset d, r)) as Es.
  { unfold signed, in_i. rewrite (proj2 (Z.leb_le _ _)), (proj2 (Z.ltb_lt _ _)); [done|lia|lia]. }
  eapply delivers_step; [exact (vector_at_ok _ _ _ _ (proj1 Ht) Hp)|done|].
  eapply delivers_step; [exact Es|done|]. eapply delivers_step; [reflexivity|done|].
  eapply delivers_step; [reflexivity|intros *; apply run_state_orders|].
  assert (MkMEClientRequest ClientRequestType_NEW client_id (d_ticker_id d) (rr_order_id r)
    (if d_side d =? 0 then Side_SELL else Side_BUY) (p + d_price_offset d) (d_qty d) = new) as ->.
  { unfold new, new_of. by rewrite (nth_lookup_Some _ _ _ _ Hp). }
  change [new; cxl] with ([new] ++ [cxl]).
  eapply delivers_bind; [by apply logged_delivers|]. intros _ r1 [Ho1 Hv1]. simpl in Ho1, Hv1.
  eapply delivers_step; [reflexivity|intros *; apply run_state_orders|].
  eapply delivers_step; [reflexivity|done|]. cbn [client_requests_vec]. rewrite Hv1.
  destruct (lookup_lt_is_Some_2 (client_requests_vec r ++ [new]) (Z.to_nat (d_cxl_index d))) as [y Hy].
  { rewrite length_app. simpl. lia. }
  eapply delivers_step; [exact (vector_at_ok _ _ _ _ (proj1 Hcxl) Hy)|done|].
  unfold cxl. rewrite (nth_lookup_Some _ _ _ _ Hy).
  eapply delivers_mono; [by apply logged_delivers|]. intros _ r2 [Ho2 Hv2]. simpl in Ho2, Hv2.
  split; congruence.
Qed.
Lemma random_orders_deliver client_id base ds r :
  base_prices_ok base → draws_ok (length (client_requests_vec r)) ds →
  let sends := random_sends client_id base (rr_order_id r) (client_requests_vec r) ds in
  delivers (random_orders client_id base ds) r sends.*1 (sends ≫= send_cmds) (λ _ _, True).
Proof.
  intros Hbase. revert r. induction ds as [|d ds IH]; intros r Hds; [by apply delivers_ret|].
  destruct Hds as [Hd Hds]. cbn [random_orders random_sends].
  set (new := new_of client_id base (rr_order_id r) d). set (c := cancel_of _).
  set (rest := random_sends _ _ _ _ _).
  change (delivers (_ ← random_order client_id base d; random_orders client_id base ds) r
    ([new; c] ++ rest.*1) (send_cmds (new, d_new d) ++ send_cmds (c, d_cancel d) ++ (rest ≫= send_cmds))
    (λ _ _, True)).
  rewrite (assoc_L (++) (send_cmds (new, _))).
  eapply delivers_bind; [by apply random_order_delivers|].
  intros _ r' [Ho Hv]. unfold rest. unfold new. rewrite <- Ho, <- Hv. apply IH.
  rewrite Hv, length_app. simpl. by rewrite Nat.add_1_r.
Qed.
Lemma length_random_sends client_id base order_id sent ds :
  length (random_sends client_id base order_id sent ds) = (2 * length ds)%nat.
Proof. revert order_id sent. induction ds as [|d ds IH]; intros; simpl; [done|]. rewrite IH. lia. Qed.

(** C24: what the RANDOM algorithm sends and logs. From a queue of requests on which [ps] was written
    and a logger with room for [room l] elements, for all draws in the ranges of the distributions,
    however the gateway takes the requests, and whatever whole lines the logger's other users log and
    write to the file between its own, the loop either returns, having written after [ps] exactly the
    specified requests (each iteration a new order at a price of 101 to 209 and the cancel of an order
    it sent before or this one) and added to the log, with those lines, exactly the two lines of each
    request; or it faults on the pointer that one of the two queues gave it. It returns only if the
    requests are at most 2^18 in all and the elements logged at most the room; it faults only if the
    requests reach 2^18 or the elements logged the room (2^23 for a new logger). *)
Theorem random_orders_send client_id base ds core l ps os :
  base_prices_ok base → draws_ok 0 ds →
  history MEClientRequest_default 18 (outgoing_ogw_requests_ core) ps os → logger_wf l →
  let sends := random_sends client_id base (u32 (client_id * 1000)) [] ds in
  let cmds := sends ≫= send_cmds in
  (∃ r os', random_orders client_id base ds (random_start client_id core l) = Ok (tt, r) ∧
     history MEClientRequest_default 18 (outgoing_ogw_requests_ (rr_core r)) (ps ++ sends.*1) os' ∧
     written (rr_logger r) = written l +:+ cmds_text cmds ∧
     Z.of_nat (length ps + 2 * length ds) ≤ 2 ^ 18 ∧ zsum cmd_elements cmds ≤ room l) ∨
  (∃ f, random_orders client_id base ds (random_start client_id core l) = Err f ∧
     (f = NullDeref ∨ f = OutOfBounds) ∧
     (2 ^ 18 ≤ Z.of_nat (length ps + 2 * length ds) ∨ room l ≤ zsum cmd_elements cmds)).
Proof.
  intros Hbase Hds Hh Hl sends cmds.
  assert (run_state ps (room l) (written l) (random_start client_id core l)) as Hr by (split; eauto).
  assert (length sends.*1 = (2 * length ds)%nat) as Hlen by (by rewrite length_fmap; apply length_random_sends).
  assert (delivers (random_orders client_id base ds) (random_start client_id core l) sends.*1 cmds (λ _ _, True))
    as Hrun by by apply random_orders_deliver.
  destruct (Hrun _ _ _ Hr) as [([] & r & E & [[os' Hh'] Hl' Hn Hw] & _)|(f & E & Hf & Hend)].
  - left. exists r, os'. split_and!; [done..| |].
    + destruct (history_inv MEClientRequest_default 18 _ _ os' ltac:(lia) Hh') as ([_ [_ Hp] _] & Hs & _ & Hq & _).
      rewrite length_app, Hlen in Hq. lia.
    + pose proof (room_nonneg _ Hl'). lia.
  - right. exists f. by rewrite <- Hlen.
Qed.

(** The RANDOM algorithm never gets through.  [main] asks for 10^8 iterations, and the queue of
    requests is used up after 2^18 requests, taken or not, if the log was not before: the run faults in
    the 131073rd iteration or earlier. *)
Theorem random_never_completes client_id base ds core l os :
  base_prices_ok base → draws_ok 0 ds → Z.of_nat (length ds) = ORDERS_PER_CLIENT →
  history MEClientRequest_default 18 (outgoing_ogw_requests_ core) [] os → logger_wf l →
  ∃ f, random_orders client_id base ds (random_start client_id core l) = Err f ∧
    (f = NullDeref ∨ f = OutOfBounds).
Proof.
  intros Hbase Hds Hlen Hh Hl. unfold ORDERS_PER_CLIENT in Hlen.
  assert (run_state [] (room l) (written l) (random_start client_id core l)) as Hr by (split; eauto).
  destruct (random_orders_deliver client_id base ds (random_start client_id core l) Hbase Hds _ _ _ Hr)
    as [([] & r & E & [[os' Hh'] _ _ _] & _)|(f & E & Hf & _)]; [|by exists f].
  destruct (history_inv MEClientRequest_default 18 _ _ os' ltac:(lia) Hh') as ([_ [_ Hp] _] & Hs & _ & Hq & _).
  rewrite (left_id_L [] (++)), length_fmap, length_random_sends in Hq. lia.
Qed.
End logging.

(** A client before its first order with a new log, a draw and a run of 10^8 times that draw. *)
Definition random_queue : LFQueue MEClientRequest := MkLFQueue ∅ (2 ^ 18) 0 0.
Definition random_core : EngineCore :=
  MkEngineCore 3 random_queue (PositionKeeper_new []) (RiskManager_new []).
Definition random_log : Logger := MkLogger (MkLFQueue ∅ LOG_QUEUE_SIZE 0 0) EmptyString true.
Definition base8 : list Z := [100; 199; 150; 120; 130; 140; 160; 170].
Definition sending1 : sending := MkSending [Cmd_flush] "09:30:00" [Cmd_log "taken %" [Arg_cstr "1"]] "09:30:01" 7 1.
Definition draw1 : draw := MkDraw 1 10 25 1 0 sending1 (MkSending [] "09:30:02" [] "09:30:03" 9 0).
Definition draws2 : list draw := [draw1; MkDraw 2 1 2 0 1 sending1 sending1].
Lemma base8_ok : base_prices_ok base8.
Proof. split; [done|]. repeat constructor; lia. Qed.
Lemma random_core_history : history MEClientRequest_default 18 (outgoing_ogw_requests_ random_core) [] [].
Proof. by apply history_new. Qed.
Lemma random_log_wf : logger_wf random_log.
Proof. split; simpl; unfold LOG_QUEUE_SIZE; [by exists 23|lia|lia]. Qed.
Lemma replicate_draws n k : draws_ok k (replicate n draw1).
Proof.
  revert k. induction n as [|n IH]; intros k; [done|]. split; [|apply IH].
  repeat split; simpl; try lia; repeat constructor.
Qed.

Lemma random_orders_send_witness :
  let sends := random_sends 3 base8 (u32 (3 * 1000)) [] draws2 in
  ∃ r, random_orders "trade_engine.cpp" 3 base8 draws2 (random_start 3 random_core random_log) = Ok (tt, r) ∧
    written (rr_logger r) = written random_log +:+ cmds_text (sends ≫= send_cmds "trade_engine.cpp") ∧
    sends.*1 =
      [MkMEClientRequest ClientRequestType_NEW 3 1 3000 Side_BUY 209 25;
       MkMEClientRequest ClientRequestType_CANCEL 3 1 3000 Side_BUY 209 25;
       MkMEClientRequest ClientRequestType_NEW 3 2 3001 Side_SELL 151 2;
       MkMEClientRequest ClientRequestType_CANCEL 3 2 3001 Side_SELL 151 2].
Proof.
  destruct (random_orders_send "trade_engine.cpp" 3 base8 draws2 random_core random_log [] [] base8_ok)
    as [(r & os & E & _ & Hw & _)|(f & _ & _ & [H|H])].
  - repeat split; simpl; try lia; repeat constructor.
  - exact random_core_history.
  - exact random_log_wf.
  - exists r. split_and!; [exact E|exact Hw|vm_compute; reflexivity].
  - simpl in H. lia.
  - vm_compute in H. done.
Defined.
Lemma random_never_completes_witness :
  ∃ f, random_orders "trade_engine.cpp" 3 base8 (replicate (Z.to_nat ORDERS_PER_CLIENT) draw1)
      (random_start 3 random_core random_log) = Err f ∧ (f = NullDeref ∨ f = OutOfBounds).
Proof.
  apply (random_never_completes "trade_engine.cpp" 3 base8 _ random_core random_log []).
  - exact base8_ok.
  - apply replicate_draws.
  - rewrite length_replicate. apply Z2Nat.id. unfold ORDERS_PER_CLIENT. lia.
  - exact random_core_history.
  - exact random_log_wf.
Defined.

(** * What the command line means *)

Lemma pretty_N_char_digit (x : N) : digit_value (pretty_N_char (x `mod` 10)) = Some (Z.of_N (x `mod` 10)).
Proof.
  assert (x `mod` 10 < 10)%N as Hx by (apply N.mod_lt; lia).
  set (d := (x `mod` 10)%N) in *. clearbody d.
  destruct d as [|p]; [done|]. by do 4 (destruct p as [p|p|]; try done; try lia).
Qed.
Lemma strtol_pretty_go (x : N) s : strtol_digits (pretty_N_go x s) 0 = strtol_digits s (Z.of_N x).
Proof.
  revert s. induction (N.lt_wf_0 x) as [x _ IH]. intros s.
  destruct (decide (0 < x)%N) as [Hx|Hx].
  - rewrite pretty_N_go_step by done. rewrite IH by (apply N.div_lt; lia).
    cbn [strtol_digits]. rewrite pretty_N_char_digit. f_equal.
    pose proof (N.div_mod x 10 ltac:(done)). lia.
  - assert (x = 0%N) as -> by lia. by rewrite pretty_N_go_0.
Qed.
Lemma pretty_go_head (x : N) s :
  (0 < x)%N → ∃ y s', pretty_N_go x s = String (pretty_N_char (y `mod` 10)) s'.
Proof.
  revert s. induction (N.lt_wf_0 x) as [x _ IH]. intros s Hx.
  rewrite pretty_N_go_step by done.
  destruct (N.eq_0_gt_0_cases (x `div` 10)) as [->|Hd]; [rewrite pretty_N_go_0; eauto|].
  apply IH; [apply N.div_lt; lia|done].
Qed.
(** A number starts with a digit, which is neither a space nor a sign. *)
Lemma stoi_digit c s :
  is_Some (digit_value c) → stoi (String c s) =
    (let z := strtol_digits (String c s) 0 in if in_i 32 z then Ok z else Err Terminate).
Proof.
  intros [d Hd]. unfold stoi.
  assert (isspace c = false ∧ Ascii.eqb c "-" = false ∧ Ascii.eqb c "+" = false) as (Hs & Hm & Hp).
  { unfold digit_value in Hd. case_match eqn:E; [|done]. unfold isspace.
    split; [lia|]. split; apply Ascii.eqb_neq; intros ->; done. }
  cbn [skip_spaces]. rewrite Hs, Hm, Hp. unfold strtol_number. by rewrite Hd.
Qed.
Lemma stoi_pretty z : 0 ≤ z < 2 ^ 31 → stoi (pretty z) = Ok z.
Proof.
  intros Hz. destruct (decide (z = 0)) as [->|Hne]; [done|].
  assert (pretty z = pretty_N_go (Z.to_N z) EmptyString) as E.
  { destruct z as [|p|p]; [done| |lia]. unfold pretty, pretty_Z, pretty, pretty_positive, pretty, pretty_N.
    by rewrite decide_False by done. }
  destruct (pretty_go_head (Z.to_N z) EmptyString) as (y & s' & Eh); [lia|].
  rewrite E, Eh, stoi_digit by (rewrite pretty_N_char_digit; eauto).
  rewrite <- Eh, strtol_pretty_go. cbn zeta. simpl. rewrite Z2N.id by lia.
  unfold in_i. by rewrite (proj2 (Z.leb_le _ _)), (proj2 (Z.ltb_lt _ _)) by lia.
Qed.

Section args.
Context (stod : string → res double) (print : double → string).

(** The five arguments that describe an instrument. *)
Definition cfg_args (cfg : TradeEngineCfg) : list string :=
  [pretty (clip_ cfg); print (threshold_ cfg); pretty (max_order_size_ (risk_cfg_ cfg));
   pretty (max_position_ (risk_cfg_ cfg)); print (max_loss_ (risk_cfg_ cfg))].
(** Quantities that fit an [int], and doubles whose text [stod] reads back. *)
Definition cfg_ok (cfg : TradeEngineCfg) : Prop :=
  0 ≤ clip_ cfg < 2 ^ 31 ∧ 0 ≤ max_order_size_ (risk_cfg_ cfg) < 2 ^ 31 ∧
  0 ≤ max_position_ (risk_cfg_ cfg) < 2 ^ 31 ∧
  stod (print (threshold_ cfg)) = Ok (threshold_ cfg) ∧
  stod (print (max_loss_ (risk_cfg_ cfg))) = Ok (max_loss_ (risk_cfg_ cfg)).

Lemma arg_at pre x post j : arg (pre ++ x :: post) (length pre + j) = arg (x :: post) j.
Proof.
  unfold arg. rewrite lookup_app_r by lia. replace (length pre + j - length pre)%nat with j by lia.
  destruct (_ !! j); [done|]. rewrite length_app. by repeat case_decide; try lia.
Qed.
Lemma arg_qty_pretty argv i z : arg argv i = Ok (pretty z) → 0 ≤ z < 2 ^ 31 → arg_qty argv i = Ok z.
Proof.
  intros E Hz. unfold arg_qty. rewrite E. cbn [res_bind]. rewrite stoi_pretty by done. simpl.
  by rewrite u32_id by lia.
Qed.

Lemma parse_cfg_args pre cfg post :
  cfg_ok cfg → parse_cfg stod (pre ++ cfg_args cfg ++ post) (length pre) = Ok cfg.
Proof.
  intros (Hc & Ho & Hp & Ht & Hm). unfold parse_cfg.
  set (argv := pre ++ cfg_args cfg ++ post).
  assert (∀ j, arg argv (length pre + j) = arg (cfg_args cfg ++ post) j) as Harg by (intros; apply arg_at).
  rewrite (arg_qty_pretty argv (length pre) (clip_ cfg)); [|by rewrite <- (Nat.add_0_r (length pre)), Harg|done].
  rewrite (arg_qty_pretty argv _ (max_order_size_ (risk_cfg_ cfg))); [|by rewrite Harg|done].
  rewrite (arg_qty_pretty argv _ (max_position_ (risk_cfg_ cfg))); [|by rewrite Harg|done].
  unfold arg_double. rewrite !Harg. simpl. rewrite Ht. simpl. rewrite Hm. simpl. by destruct cfg as [? ? []].
Qed.
Lemma parse_cfgs_args fuel pre cfgs done k :
  Forall cfg_ok cfgs → (length cfgs ≤ k)%nat → (length cfgs < fuel)%nat →
  parse_cfgs stod fuel (pre ++ mjoin (cfg_args <$> cfgs)) (length pre) (length done)
    (done ++ replicate k TradeEngineCfg_default) =
  Ok (done ++ cfgs ++ replicate (k - length cfgs) TradeEngineCfg_default).
Proof.
  intros Hok. revert fuel pre done k. induction Hok as [|cfg cfgs Hcfg _ IH];
    intros [|fuel] pre done [|k] Hk Hfuel; simpl in Hk, Hfuel; try lia.
  1,2: cbn [parse_cfgs]; rewrite decide_False by (rewrite length_app; simpl; lia); by rewrite ?Nat.sub_0_r.
  rewrite fmap_cons. change (mjoin (?x :: ?l)) with (x ++ mjoin l). cbn [parse_cfgs].
  rewrite decide_True by (rewrite !length_app; simpl; lia).
  rewrite (parse_cfg_args pre cfg _ Hcfg). cbn [res_bind].
  rewrite decide_True by (rewrite length_app, length_replicate; lia).
  rewrite insert_app_r_alt, Nat.sub_diag by lia. cbn [replicate].
  specialize (IH fuel (pre ++ cfg_args cfg) (done ++ [cfg]) k ltac:(lia) ltac:(lia)).
  rewrite !length_app, <- !(assoc_L (++)) in IH. simpl in IH.
  rewrite !Nat.add_1_r in IH. exact IH.
Qed.

Lemma length_cfg_args cfgs : length (mjoin (cfg_args <$> cfgs)) = (5 * length cfgs)%nat.
Proof.
  induction cfgs as [|cfg cfgs IH]; [done|]. rewrite fmap_cons.
  change (mjoin (cfg_args cfg :: (cfg_args <$> cfgs))) with (cfg_args cfg ++ mjoin (cfg_args <$> cfgs)).
  rewrite length_app, IH. simpl. lia.
Qed.

(** C35: the command line says what it means.  The arguments of up to 8 instruments, their quantities in
    the range of an [int] and their doubles printed so that [stod] reads them back, are parsed into
    exactly those configurations, the default for the other instruments, the client id and the
    algorithm. *)
Theorem parse_args_roundtrip program client_id algo cfgs :
  0 ≤ client_id < 2 ^ 31 → Forall cfg_ok cfgs → Z.of_nat (length cfgs) ≤ ME_MAX_TICKERS →
  parse_args stod ([program; pretty client_id; algoTypeToString algo] ++ mjoin (cfg_args <$> cfgs)) =
    Ok (client_id, stringToAlgoType (algoTypeToString algo),
        cfgs ++ replicate (Z.to_nat ME_MAX_TICKERS - length cfgs) TradeEngineCfg_default).
Proof.
  intros Hid Hok Hlen.
  set (head := [program; pretty client_id; algoTypeToString algo]).
  set (argv := head ++ mjoin (cfg_args <$> cfgs)).
  assert (length argv = 3 + 5 * length cfgs)%nat as Hargv
    by (unfold argv; rewrite length_app, length_cfg_args; done).
  assert (parse_cfgs stod (S (length argv)) argv 3 0
    (replicate (Z.to_nat ME_MAX_TICKERS) TradeEngineCfg_default) =
    Ok (cfgs ++ replicate (Z.to_nat ME_MAX_TICKERS - length cfgs) TradeEngineCfg_default)) as E
    by (apply (parse_cfgs_args (S (length argv)) head cfgs []); [done|lia|lia]).
  unfold parse_args. rewrite decide_False by lia.
  change (arg argv 1) with (Ok (pretty client_id)). cbn [res_bind].
  rewrite stoi_pretty by done. cbn [res_bind].
  change (arg argv 2) with (Ok (algoTypeToString algo)). cbn [res_bind].
  rewrite E. cbn [res_bind]. by rewrite u32_id by lia.
Qed.
End args.

Definition example_cfg : TradeEngineCfg := MkTradeEngineCfg 10 dhalf (MkRiskCfg 100 500 (double_of (-1000))).
Definition read_double (s : string) : res double :=
  if String.eqb s "0.5" then Ok dhalf else if String.eqb s "-1000" then Ok (double_of (-1000)) else Err Terminate.
Example parse_one_instrument :
  parse_args read_double ["trading_main"; "1"; "MAKER"; "10"; "0.5"; "100"; "500"; "-1000"] =
    Ok (1, AlgoType_MAKER, example_cfg :: replicate 7 TradeEngineCfg_default).
Proof. vm_compute. reflexivity. Qed.
Lemma parse_args_roundtrip_witness :
  parse_args read_double
    (["trading_main"; "1"; algoTypeToString AlgoType_MAKER] ++ mjoin (cfg_args print_double <$> [example_cfg])) =
    Ok (1, AlgoType_MAKER, example_cfg :: replicate 7 TradeEngineCfg_default) ∧
  cfg_args print_double example_cfg = ["10"; "0.5"; "100"; "500"; "-1000"]%string.
Proof.
  split; [|vm_compute; reflexivity].
  change "1"%string with (pretty 1).
  apply (parse_args_roundtrip read_double print_double "trading_main" 1 AlgoType_MAKER [example_cfg]).
  - lia.
  - repeat constructor; first [vm_compute; reflexivity | vm_compute; discriminate].
  - vm_compute. discriminate.
Defined.
(** A group of arguments that is not complete, and one instrument too many. *)
Example parse_incomplete :
  parse_args read_double ["trading_main"; "1"; "MAKER"; "10"; "0.5"; "100"] = Err NullDeref.
Proof. vm_compute. reflexivity. Qed.
Example parse_too_many :
  parse_args read_double
    (["trading_main"; "1"; "MAKER"] ++ mjoin (replicate 9 ["10"; "0.5"; "100"; "500"; "-1000"])) = Err OutOfRange.
Proof. vm_compute. reflexivity. Qed.
(** A negative limit becomes a large one. *)
Example negative_quantity : arg_qty ["-1"] 0 = Ok Qty_INVALID.
Proof. vm_compute. reflexivity. Qed.
