(* ===== verification/ClientProcess.v ===== *)
(** trading/trading_main.cpp: the client's process.

    The global objects are [unique_ptr]s: [None] until [make_unique] and after [reset].  The command line
    and the loop of the RANDOM algorithm are those of [TradingMain].  What the generators draw, the
    readings of the clock and what the uninitialised arrays hold are arguments; the progress lines of the
    loop, sleeping and the latency of a single order, which is not used, are left out. *)
From S2P Require Import ExchangeProcess OrderGateway MarketDataConsumer TradingMain TradeEngineThread ClientDestroy.

Section process.
Context (setThreadCore : Z → bool) (kernel : trace → syscall → Z).
Context (getifaddrs : option (list ifaddr)).
Context (getaddrinfo : string → string → addrinfo_hints → option (list addrinfo)).
Context (stod : string → res double).

(** The constructor of [MarketDataConsumer], and [startSnapshotSync] with its system calls. *)
Definition MarketDataConsumer_open (market_updates : LFQueue MEMarketUpdate)
    (iface incremental_ip : string) (incremental_port : Z) : M trace MarketDataConsumer :=
  _ ← mcast_subscriber kernel getifaddrs getaddrinfo incremental_ip iface incremental_port;
  mret (MarketDataConsumer_new market_updates).
Definition startSnapshotSync_calls (iface snapshot_ip : string) (snapshot_port : Z) :
    M (MarketDataConsumer * trace) unit :=
  _ ← modify (λ s, (set_incremental_queued ∅ (set_snapshot_queued ∅ s.1), s.2));
  _ ← zoom snd (λ tr s, (s.1, tr))
        (mcast_subscriber kernel getifaddrs getaddrinfo snapshot_ip iface snapshot_port);
  mret tt.

Record ClientProcess : Type := MkClientProcess {
  cp_trace : trace;
  cp_logger : LoggerThread;
  trade_engine : option EngineThread;
  order_gateway : option (OrderGateway * bool);
  market_data_consumer : option (MarketDataConsumer * bool);
}.
Definition set_cp_trace (tr : trace) (x : ClientProcess) : ClientProcess :=
  MkClientProcess tr (cp_logger x) (trade_engine x) (order_gateway x) (market_data_consumer x).
Definition set_cp_logger (l : LoggerThread) (x : ClientProcess) : ClientProcess :=
  MkClientProcess (cp_trace x) l (trade_engine x) (order_gateway x) (market_data_consumer x).
Definition set_trade_engine (e : option EngineThread) (x : ClientProcess) : ClientProcess :=
  MkClientProcess (cp_trace x) (cp_logger x) e (order_gateway x) (market_data_consumer x).
Definition set_order_gateway (g : option (OrderGateway * bool)) (x : ClientProcess) : ClientProcess :=
  MkClientProcess (cp_trace x) (cp_logger x) (trade_engine x) g (market_data_consumer x).
Definition set_consumer (c : option (MarketDataConsumer * bool)) (x : ClientProcess) : ClientProcess :=
  MkClientProcess (cp_trace x) (cp_logger x) (trade_engine x) (order_gateway x) c.
Definition ClientProcess_new : ClientProcess :=
  MkClientProcess [] (MkLoggerThread true None) None None None.

Definition on_cp_trace {A} : M trace A → M ClientProcess A := zoom cp_trace set_cp_trace.
Definition on_cp_logger {A} : M LoggerThread A → M ClientProcess A := zoom cp_logger set_cp_logger.
(** A member function of [*trade_engine]. *)
Definition on_trade_engine {A} (m : M EngineThread A) : M ClientProcess A :=
  p ← gets trade_engine;
  s ← deref p;
  r ← of_res (m s);
  _ ← modify (set_trade_engine (Some r.2));
  mret r.1.
Definition start_trade_engine : M ClientProcess unit :=
  on_trade_engine (zoom run_ set_run (start setThreadCore)).
Definition start_order_gateway (ip iface : string) (port : Z) : M ClientProcess unit :=
  p ← gets order_gateway;
  g ← deref p;
  tr ← gets cp_trace;
  r ← of_res (OrderGateway_start setThreadCore kernel getifaddrs getaddrinfo ip iface port (g.2, tr));
  _ ← modify (set_cp_trace r.2.2);
  modify (set_order_gateway (Some (g.1, r.2.1))).
Definition start_consumer : M ClientProcess unit :=
  p ← gets market_data_consumer;
  c ← deref p;
  run ← of_res (start setThreadCore c.2);
  modify (set_consumer (Some (c.1, run.2))).

(** The part of [main] for the RANDOM algorithm: the orders, and the values of the line that reports
    them: how many, the nanoseconds they took and the average. *)
Definition random_algorithm (file : string) (logger : Logger) (client_id : Z)
    (ticker_base_price : list Z) (ds : list draw) (start_time end_time : Z) : M EngineThread (Z * Z * Z) :=
  core ← gets (λ s, core_ (engine_ (th_engine s)));
  r ← of_res (random_orders file client_id ticker_base_price ds (random_start client_id core logger));
  _ ← on_th_engine (modify (λ t, set_engine (set_core (rr_core r.2) (engine_ t)) t));
  total_time_ns ← signed 64 (end_time - start_time);
  mret (ORDERS_PER_CLIENT * 2, total_time_ns, u64 total_time_ns / (ORDERS_PER_CLIENT * 2)).

(** [stop] of the engine, [sched] being what its thread and the main thread do until it returns. *)
Definition stop_trade_engine (clock : nat → Z) (bbos : TradeEngine → Z → option BBO)
    (sched : list thread_event) : M EngineThread string :=
  _ ← modify (set_stop_at StopResponses);
  _ ← thread_steps clock bbos sched;
  p ← gets stop_at;
  match p with Stopped positions => mret positions | _ => raise OutOfFuel end.
Definition stop_consumer : M ClientProcess unit :=
  p ← gets market_data_consumer; c ← deref p; modify (set_consumer (Some (c.1, false))).
Definition stop_order_gateway : M ClientProcess unit :=
  p ← gets order_gateway; g ← deref p; modify (set_order_gateway (Some (g.1, false))).
(** [reset]: the destructors of the gateway and the consumer stop them, that of the engine logs its books. *)
Definition reset_order_gateway : M ClientProcess unit := modify (set_order_gateway None).
Definition reset_consumer : M ClientProcess unit := modify (set_consumer None).
Definition reset_trade_engine : M ClientProcess (list string) :=
  p ← gets trade_engine;
  match p with
  | None => mret []
  | Some s =>
      r ← of_res (TradeEngine_destroy s);
      _ ← modify (set_trade_engine None);
      mret r.1
  end.

(** What [main] takes from outside: whether its log opens, the memory of the engine's arrays, the name of
    a source file and the engine's log as its threads have left it, what the generators draw, the clock,
    and the schedule of [stop]. *)
Record ClientWorld : Type := MkClientWorld {
  cw_file_opens : bool;
  cw_oid_mem : gmap Z Z;
  cw_price_mem : gmap Z Z;
  cw_vwap_mem : list double;
  cw_file : string;
  cw_engine_log : Logger;
  cw_base_prices : list Z;
  cw_draws : list draw;
  cw_start_time : Z;
  cw_end_time : Z;
  cw_clock : nat → Z;
  cw_bbos : TradeEngine → Z → option BBO;
  cw_sched : list thread_event;
}.
(** [main] after the command line: the figures of the RANDOM algorithm, the positions [stop] logs and the
    texts of the books. *)
Definition run_client (w : ClientWorld) (client_id : Z) (algo_type : AlgoType)
    (client_requests : LFQueue MEClientRequest) (client_responses : LFQueue MEClientResponse)
    (market_updates : LFQueue MEMarketUpdate) (ticker_cfg : list TradeEngineCfg) :
    M ClientProcess (option (Z * Z * Z) * string * list string) :=
  engine ← of_res (TradeEngine_new client_id algo_type ticker_cfg client_requests client_responses
    market_updates (cw_oid_mem w) (cw_price_mem w) (cw_vwap_mem w));
  _ ← modify (set_trade_engine (Some (MkEngineThread engine 0 false 0 RunTest StopResponses)));
  _ ← start_trade_engine;
  _ ← modify (set_order_gateway (Some (OrderGateway_new client_id client_requests client_responses, false)));
  _ ← start_order_gateway "127.0.0.1" "lo" 12345;
  consumer ← on_cp_trace (MarketDataConsumer_open market_updates "lo" "233.252.14.3" 20001);
  _ ← modify (set_consumer (Some (consumer, false)));
  _ ← start_consumer;
  _ ← on_trade_engine (initLastEventTime (cw_clock w));
  figures ← (if decide (algo_type = AlgoType_RANDOM) then
               r ← on_trade_engine (random_algorithm (cw_file w) (cw_engine_log w) client_id (cw_base_prices w) (cw_draws w)
                     (cw_start_time w) (cw_end_time w));
               mret (Some r)
             else mret None);
  positions ← on_trade_engine (stop_trade_engine (cw_clock w) (cw_bbos w) (cw_sched w));
  _ ← stop_consumer;
  _ ← stop_order_gateway;
  _ ← reset_order_gateway;
  _ ← reset_consumer;
  texts ← reset_trade_engine;
  _ ← on_cp_logger Logger_close;
  mret (figures, positions, texts).
Definition trading_main (w : ClientWorld) (argv : list string) :
    M ClientProcess (option (Z * Z * Z) * string * list string) :=
  _ ← (if decide (length argv < 3)%nat then FATAL else mret tt);
  client_id ← of_res (res_bind (arg argv 1) stoi);
  algo ← of_res (arg argv 2);
  _ ← on_cp_logger (Logger_open setThreadCore (cw_file_opens w));
  client_requests ← of_res (LFQueue_new ME_MAX_CLIENT_UPDATES);
  client_responses ← of_res (LFQueue_new ME_MAX_CLIENT_UPDATES);
  market_updates ← of_res (LFQueue_new ME_MAX_MARKET_UPDATES);
  ticker_cfg ← of_res (parse_cfgs stod (S (length argv)) argv 3 0
    (replicate (Z.to_nat ME_MAX_TICKERS) TradeEngineCfg_default));
  run_client w (u32 client_id) (stringToAlgoType algo) client_requests client_responses market_updates ticker_cfg.
End process.

(** [main] reads the command line as [parse_args] does, and does not get past its first [start]. *)
Lemma trading_main_ends setThreadCore kernel getifaddrs getaddrinfo stod w argv :
  cw_file_opens w = true →
  trading_main setThreadCore kernel getifaddrs getaddrinfo stod w argv ClientProcess_new =
    res_bind (parse_args stod argv) (λ _, Err Terminate).
Proof.
  intros Hopen. unfold trading_main, parse_args. case_decide; [done|].
  unfold mbind at 1, M_bind at 1. cbn [mret M_ret].
  destruct (arg argv 1) as [a1|]; [|done]. cbn [res_bind].
  unfold mbind at 1, M_bind at 1. unfold of_res at 1. destruct (stoi a1) as [client_id|]; [|done].
  unfold mbind at 1, M_bind at 1. unfold of_res at 1. cbn [res_bind].
  destruct (arg argv 2) as [algo|]; [|done]. cbn [res_bind].
  rewrite Hopen. do 4 erewrite bind_Ok by reflexivity.
  unfold mbind at 1, M_bind at 1. unfold of_res at 1.
  destruct (parse_cfgs _ _ _ _ _ _) as [ticker_cfg|]; [|done]. cbn [res_bind].
  reflexivity.
Qed.

(** C26: neither program gets past the start of its first component. [createAndStartThread] returns the
    running thread in a [unique_ptr] that every [start] drops, so that its destructor calls
    [std::terminate]. When their log files open, the exchange ends so whatever else the system answers;
    the client ends with the fault of its command line, or so; and no other component's [start] returns,
    should one be reached. *)
Theorem processes_end setThreadCore kernel getifaddrs getaddrinfo stod w argv cid_mem price_mem :
  cw_file_opens w = true →
  exchange_main setThreadCore kernel getifaddrs getaddrinfo true cid_mem price_mem ExchangeProcess_new =
    Err Terminate ∧
  trading_main setThreadCore kernel getifaddrs getaddrinfo stod w argv ClientProcess_new =
    res_bind (parse_args stod argv) (λ _, Err Terminate) ∧
  (∀ p, wlp (start_publisher setThreadCore) p (λ _ _, False)) ∧
  (∀ iface port p,
    wlp (start_order_server setThreadCore kernel getifaddrs getaddrinfo iface port) p (λ _ _, False)) ∧
  (∀ ip iface port p,
    wlp (start_order_gateway setThreadCore kernel getifaddrs getaddrinfo ip iface port) p (λ _ _, False)) ∧
  (∀ p, wlp (start_consumer setThreadCore) p (λ _ _, False)).
Proof.
  intros Hopen.
  destruct (start_never_returns setThreadCore kernel getifaddrs getaddrinfo) as (Hstart & Hpub & Hsrv & Hgw).
  split_and!; [by apply (exchange_main_ends _ _ _ _ true)|by apply trading_main_ends|..].
  - intros p. apply wlp_bind, wlp_gets, wlp_bind. intros q s _. apply wlp_bind, wlp_of_res. intros r E.
    by rewrite Hpub in E.
  - intros iface port p. apply wlp_bind, wlp_gets, wlp_bind. intros q s _. apply wlp_bind, wlp_gets, wlp_bind.
    apply wlp_of_res. intros [a st] E. destruct (Hsrv _ _ _ _ _ E).
  - intros ip iface port p. apply wlp_bind, wlp_gets, wlp_bind. intros q s _. apply wlp_bind, wlp_gets, wlp_bind.
    apply wlp_of_res. intros [a st] E. destruct (Hgw _ _ _ _ _ _ E).
  - intros p. apply wlp_bind, wlp_gets, wlp_bind. intros q s _. apply wlp_bind, wlp_of_res. intros r E.
    by rewrite Hstart in E.
Qed.
Definition client_world : ClientWorld :=
  MkClientWorld true ∅ ∅ (replicate 3 dzero) "trade_engine.cpp" random_log base8 [] 0 0 th_clock no_bbos [].
Lemma processes_end_witness :
  trading_main (λ _, true) (linux_like 0) interfaces numeric_host read_double client_world
    ["trading_main"; "1"; "MAKER"; "10"; "0.5"; "100"; "500"; "-1000"] ClientProcess_new = Err Terminate ∧
  trading_main (λ _, true) (linux_like 0) interfaces numeric_host read_double client_world
    ["trading_main"; "1"] ClientProcess_new = Err Exit.
Proof.
  destruct (processes_end (λ _, true) (linux_like 0) interfaces numeric_host read_double client_world
    ["trading_main"; "1"; "MAKER"; "10"; "0.5"; "100"; "500"; "-1000"] ∅ ∅ eq_refl) as (_ & E & _).
  split; [|reflexivity]. etransitivity; [exact E|]. vm_compute. reflexivity.
Defined.
