(* ===== verification/TradingProtocol.v ===== *)
(** The contract between the trading client and its exchange, and the protocol of one order slot.

    The rest of the world is a contract.  [serves] and [fills] say what an exchange may answer: it accepts
    new orders, cancels or refuses to cancel, and fills what it has accepted, in any order and any
    number of steps, one response per step; the queues of the engine are the connection (OrderGateway
    and OrderServerProps show that the connection neither loses, repeats nor reorders).  [step] interleaves it
    with the loop bodies of the engine's thread and with arbitrary market data.  [flow] says that the
    responses on their way bring a slot of the order manager to what the exchange has. *)
From S2P Require Export TradeEngine.

(** ** The exchange's side *)
Record open_order : Type := MkOpenOrder {
  oo_id : Z;
  oo_ticker : Z;
  oo_side : Side;
  oo_leaves : Z;
}.
Definition opened (r : MEClientRequest) : list open_order :=
  if req_qty_ r =? 0 then []
  else [MkOpenOrder (req_order_id_ r) (req_ticker_id_ r) (req_side_ r) (req_qty_ r)].
Definition remaining (o : open_order) (e : Z) : list open_order :=
  if oo_leaves o =? e then []
  else [MkOpenOrder (oo_id o) (oo_ticker o) (oo_side o) (oo_leaves o - e)].

(** The answer to a request, and the open orders before and after. *)
Inductive serves : MEClientRequest → list open_order → list open_order → MEClientResponse → Prop :=
  | serves_new r X c m :
      req_type_ r = ClientRequestType_NEW →
      serves r X (X ++ opened r)
        (MkMEClientResponse ClientResponseType_ACCEPTED c (req_ticker_id_ r) (req_order_id_ r) m
           (req_side_ r) (req_price_ r) 0 (req_qty_ r))
  | serves_cancel r X1 o X2 c m px :
      req_type_ r = ClientRequestType_CANCEL → oo_id o = req_order_id_ r →
      serves r (X1 ++ o :: X2) (X1 ++ X2)
        (MkMEClientResponse ClientResponseType_CANCELED c (oo_ticker o) (oo_id o) m (oo_side o) px
           Qty_INVALID (oo_leaves o))
  | serves_reject r X c :
      req_type_ r = ClientRequestType_CANCEL →
      serves r X X
        (MkMEClientResponse ClientResponseType_CANCEL_REJECTED c (req_ticker_id_ r) (req_order_id_ r)
           OrderId_INVALID Side_INVALID Price_INVALID Qty_INVALID Qty_INVALID).
(** A fill of [e] of an open order. *)
Inductive fills : list open_order → list open_order → MEClientResponse → Prop :=
  | fills_order X1 o X2 e c m px :
      0 < e ≤ oo_leaves o →
      fills (X1 ++ o :: X2) (X1 ++ remaining o e ++ X2)
        (MkMEClientResponse ClientResponseType_FILLED c (oo_ticker o) (oo_id o) m (oo_side o) px
           e (oo_leaves o - e)).

(** ** The system *)
Abbreviation requests t := (outgoing_ogw_requests_ (core_ (engine_ t))).
Definition with_requests (q : LFQueue MEClientRequest) (t : TradeEngine) : TradeEngine :=
  set_engine (set_core (set_ogw_requests q (core_ (engine_ t))) (engine_ t)) t.
(** The exchange's response is written to the engine's queue. *)
Definition answered (t : TradeEngine) (r : MEClientResponse) (t' : TradeEngine) : Prop :=
  on_responses (push r) t = Ok (tt, t').

Inductive step : TradeEngine * list open_order → TradeEngine * list open_order → Prop :=
  | step_response t X i t' :
      on_responses getNextToRead t = Ok (Some i, t) → process_response i t = Ok (tt, t') →
      step (t, X) (t', X)
  | step_update t X i t' :
      on_md getNextToRead t = Ok (Some i, t) → process_update i t = Ok (tt, t') →
      step (t, X) (t', X)
  | step_market_data t X u t' :
      0 ≤ upd_ticker_id_ u → on_md (push u) t = Ok (tt, t') → step (t, X) (t', X)
  | step_serve t X r q X' a t' :
      pop MEClientRequest_default (requests t) = Ok (Some r, q) → serves r X X' a →
      answered (with_requests q t) a t' → step (t, X) (t', X')
  | step_fill t X X' a t' :
      fills X X' a → answered t a t' → step (t, X) (t', X').

(** ** The protocol of one slot *)
Definition ticker_ok (t : Z) : Prop := 0 ≤ t < ME_MAX_TICKERS.
Definition side_ok (s : Side) : Prop := s = Side_BUY ∨ s = Side_SELL.
Lemma side_ok_buy : side_ok Side_BUY.
Proof. by left. Qed.
Lemma side_ok_sell : side_ok Side_SELL.
Proof. by right. Qed.
#[export] Hint Resolve side_ok_buy side_ok_sell : hft.
Definition new_on (t : Z) (s : Side) (r : MEClientRequest) : Prop :=
  req_type_ r = ClientRequestType_NEW ∧ req_ticker_id_ r = t ∧ req_side_ r = s.
Definition resp_on (t : Z) (s : Side) (r : MEClientResponse) : Prop :=
  resp_ticker_id_ r = t ∧ resp_side_ r = s.
Definition open_on (t : Z) (s : Side) (o : open_order) : Prop := oo_ticker o = t ∧ oo_side o = s.
#[export] Instance new_on_dec t s r : Decision (new_on t s r).
Proof. unfold new_on. apply _. Defined.
#[export] Instance resp_on_dec t s r : Decision (resp_on t s r).
Proof. unfold resp_on. apply _. Defined.
#[export] Instance open_on_dec t s o : Decision (open_on t s o).
Proof. unfold open_on. apply _. Defined.

(** Where the slot's order is: in the request queue, open at the exchange with so much left, or
    neither. *)
Inductive status : Type := Queued (q : Z) | Resting (l : Z) | Gone.
Inductive at_exchange : list MEClientRequest → list open_order → status → Prop :=
  | ae_queued r : at_exchange [r] [] (Queued (req_qty_ r))
  | ae_resting o : at_exchange [] [o] (Resting (oo_leaves o))
  | ae_gone : at_exchange [] [] Gone.

(** [live_flow q rs st]: the responses [rs] take an accepted order with [q] left to [st]. *)
Inductive live_flow : Z → list MEClientResponse → status → Prop :=
  | lf_resting q : 0 < q → live_flow q [] (Resting q)
  | lf_empty : live_flow 0 [] Gone
  | lf_fill q r rs st :
      resp_type_ r = ClientResponseType_FILLED → 0 < resp_exec_qty_ r < q →
      resp_leaves_qty_ r = q - resp_exec_qty_ r →
      live_flow (resp_leaves_qty_ r) rs st → live_flow q (r :: rs) st
  | lf_filled q r :
      resp_type_ r = ClientResponseType_FILLED → 0 < q → resp_exec_qty_ r = q →
      resp_leaves_qty_ r = 0 → live_flow q [r] Gone
  | lf_canceled q r :
      resp_type_ r = ClientResponseType_CANCELED → 0 < q → live_flow q [r] Gone.

Definition idle (o : OMOrder) : Prop :=
  om_order_state_ o = OMOrderState_INVALID ∨ om_order_state_ o = OMOrderState_DEAD.
Definition accepted (o : OMOrder) : Prop :=
  om_order_state_ o = OMOrderState_LIVE ∨ om_order_state_ o = OMOrderState_PENDING_CANCEL.
Inductive flow (o : OMOrder) : list MEClientResponse → status → Prop :=
  | flow_idle : idle o → flow o [] Gone
  | flow_queued :
      om_order_state_ o = OMOrderState_PENDING_NEW → 0 ≤ om_qty_ o → flow o [] (Queued (om_qty_ o))
  | flow_accept r rs st :
      om_order_state_ o = OMOrderState_PENDING_NEW → resp_type_ r = ClientResponseType_ACCEPTED →
      live_flow (om_qty_ o) rs st → flow o (r :: rs) st
  | flow_live rs st : accepted o → live_flow (om_qty_ o) rs st → flow o rs st.

(** What the slot counts as still to be executed. *)
Definition outstanding (o : OMOrder) : Z :=
  if decide (idle o) then 0 else om_qty_ o.
#[export] Instance idle_dec o : Decision (idle o).
Proof. unfold idle. apply _. Defined.

(** *** What the exchange's answers do to the protocol *)
Lemma live_flow_nonneg q rs st : live_flow q rs st → 0 ≤ q.
Proof. destruct 1; lia. Qed.
Lemma live_flow_snoc q rs l r st :
  live_flow q rs (Resting l) → live_flow l [r] st → live_flow q (rs ++ [r]) st.
Proof.
  intros H Hr. remember (Resting l) as st0 eqn:E. induction H; simplify_eq/=; try done.
  eapply lf_fill; eauto.
Qed.
Lemma live_flow_fill l r :
  0 < resp_exec_qty_ r ≤ l → resp_type_ r = ClientResponseType_FILLED →
  resp_leaves_qty_ r = l - resp_exec_qty_ r →
  live_flow l [r] (if l =? resp_exec_qty_ r then Gone else Resting (l - resp_exec_qty_ r)).
Proof.
  intros He Ht Hl. bdestruct (l =? resp_exec_qty_ r).
  - apply lf_filled; lia || done.
  - apply lf_fill; [done|lia|done|]. rewrite Hl. apply lf_resting. lia.
Qed.
Lemma flow_snoc o rs l r st :
  flow o rs (Resting l) → live_flow l [r] st → flow o (rs ++ [r]) st.
Proof.
  intros H Hr. inversion H; subst.
  - apply flow_accept; [done|done|]. by eapply live_flow_snoc.
  - apply flow_live; [done|]. by eapply live_flow_snoc.
Qed.
Lemma flow_queued_inv o rs q :
  flow o rs (Queued q) → rs = [] ∧ om_order_state_ o = OMOrderState_PENDING_NEW ∧ om_qty_ o = q ∧ 0 ≤ q.
Proof.
  assert (∀ q' rs', ¬ live_flow q' rs' (Queued q)) as Hn.
  { intros q' rs' H. remember (Queued q) as st. induction H; by simplify_eq. }
  inversion 1; subst; try done; exfalso; by eapply Hn.
Qed.
Lemma flow_accepted o r q :
  flow o [] (Queued q) → resp_type_ r = ClientResponseType_ACCEPTED →
  flow o [r] (if q =? 0 then Gone else Resting q).
Proof.
  intros (_ & Ho & <- & Hq)%flow_queued_inv Hr. apply flow_accept; [done|done|].
  bdestruct (om_qty_ o =? 0); [rewrite Hb; constructor|constructor; lia].
Qed.

(** *** What the slot does with a response *)
Definition received (r : MEClientResponse) (o : OMOrder) : OMOrder :=
  match resp_type_ r with
  | ClientResponseType_ACCEPTED => set_om_state OMOrderState_LIVE o
  | ClientResponseType_CANCELED => set_om_state OMOrderState_DEAD o
  | ClientResponseType_FILLED =>
    let o := set_om_qty (resp_leaves_qty_ r) o in
    if resp_leaves_qty_ r =? 0 then set_om_state OMOrderState_DEAD o else o
  | _ => o
  end.
Definition resp_slot (r : MEClientResponse) : Z * Z := (resp_ticker_id_ r, sideToIndex (resp_side_ r)).

Lemma om_alter_compose p f g m : om_alter p f (om_alter p g m) = om_alter p (f ∘ g) m.
Proof.
  unfold om_alter, set_ticker_side_order. simpl. f_equal. rewrite list_alter_alter_eq.
  apply list_alter_ext; [|done]. intros os _. unfold compose. by rewrite list_alter_alter_eq.
Qed.
Lemma om_alter_ext p f g m :
  (∀ o, om_lookup p m = Some o → f o = g o) → om_alter p f m = om_alter p g m.
Proof.
  intros H. unfold om_alter, set_ticker_side_order. simpl. f_equal.
  apply list_alter_ext; [|done]. intros os Hos. apply list_alter_ext; [|done].
  intros o Ho. apply H. unfold om_lookup. by rewrite Hos.
Qed.
Lemma om_alter_id p m : om_alter p id m = m.
Proof.
  unfold om_alter, set_ticker_side_order. destruct m as [l i]. simpl. f_equal.
  apply list_alter_id. intros os. by apply list_alter_id.
Qed.
Lemma onOrderUpdate_received r m :
  wlp (onOrderUpdate r) m (λ _ m', m' = om_alter (resp_slot r) (received r) m).
Proof.
  unfold onOrderUpdate, get_om. fold (resp_slot r). set (p := resp_slot r).
  apply wlp_bind, wlp_bind, wlp_gets.
  destruct (om_lookup p m) as [o|] eqn:Ho; [|apply wlp_raise]. apply wlp_ret.
  assert (wlp (mret tt) m (λ (_ : unit) m', m' = om_alter p (λ o, o) m)) as Hid.
  { apply wlp_ret. symmetry. apply om_alter_id. }
  unfold received. destruct (resp_type_ r); try exact Hid; try by apply wlp_modify.
  apply wlp_bind, wlp_modify, wlp_bind, wlp_bind, wlp_gets.
  rewrite om_lookup_alter, decide_True, Ho by done. apply wlp_ret. simpl.
  destruct (resp_leaves_qty_ r =? 0).
  - apply wlp_modify. apply om_alter_compose.
  - by apply wlp_ret.
Qed.

Lemma flow_receive o r rs st :
  flow o (r :: rs) st →
  flow (received r o) rs st ∧
  match resp_type_ r with
  | ClientResponseType_FILLED =>
    0 < resp_exec_qty_ r ≤ outstanding o ∧ outstanding (received r o) = outstanding o - resp_exec_qty_ r
  | _ => outstanding (received r o) ≤ outstanding o
  end.
Proof.
  intros H. unfold received, outstanding. inversion H as [| |? ? ? Hs Hr Hl|? ? Ha Hl]; subst.
  - rewrite Hr. split; [apply flow_live; [by left|done]|].
    rewrite !decide_False by (intros [E|E]; simpl in E; congruence). simpl. lia.
  - assert (¬ idle o) as Hni by (intros [E|E]; destruct Ha; congruence).
    rewrite (decide_False (P := idle o)) by done.
    inversion Hl as [| |? ? ? ? Ht He Hlv Hl'|? ? Ht Hq He Hlv|? ? Ht Hq]; subst; rewrite Ht.
    + bdestruct (resp_leaves_qty_ r =? 0); [lia|]. split; [by apply flow_live|].
      rewrite decide_False by exact Hni. simpl. lia.
    + rewrite Hlv. simpl. split; [apply flow_idle; by right|]. lia.
    + split; [apply flow_idle; by right|]. simpl. lia.
Qed.
Lemma flow_outstanding o rs st : flow o rs st → 0 ≤ outstanding o.
Proof.
  unfold outstanding. case_decide; [done|]. inversion 1; subst; try done; eauto using live_flow_nonneg.
Qed.

(** ** The invariant *)
Definition slot_ok (om : OrderManager) (reqs : list MEClientRequest) (rs : list MEClientResponse)
    (X : list open_order) (t : Z) (s : Side) : Prop :=
  ∃ o st, om_lookup (t, sideToIndex s) om = Some o ∧
    at_exchange (filter (new_on t s) reqs) (filter (open_on t s) X) st ∧
    flow o (filter (resp_on t s) rs) st.

Lemma at_exchange_open reqs X1 o X2 st :
  at_exchange reqs (X1 ++ o :: X2) st → reqs = [] ∧ X1 = [] ∧ X2 = [] ∧ st = Resting (oo_leaves o).
Proof.
  inversion 1 as [? E1 E2|? E1 E2|E1 E2]; subst; try by destruct X1.
  destruct X1 as [|? [|]]; by simplify_eq/=.
Qed.
Lemma at_exchange_queued r reqs X st :
  at_exchange (r :: reqs) X st → reqs = [] ∧ X = [] ∧ st = Queued (req_qty_ r).
Proof. by inversion 1. Qed.
Lemma at_exchange_accepted r X :
  X = opened r → at_exchange [] X (if req_qty_ r =? 0 then Gone else Resting (req_qty_ r)).
Proof.
  intros ->. unfold opened. destruct (req_qty_ r =? 0); [apply ae_gone|].
  apply (ae_resting (MkOpenOrder _ _ _ _)).
Qed.
Lemma live_flow_resting_pos q rs l : live_flow q rs (Resting l) → 0 < l.
Proof. intros H. remember (Resting l) as st. induction H; simplify_eq; auto. Qed.
Lemma flow_resting_pos o rs l : flow o rs (Resting l) → 0 < l.
Proof. inversion 1; subst; by eapply live_flow_resting_pos. Qed.

Lemma filter_opened t s r :
  filter (open_on t s) (opened r) =
    if decide (req_ticker_id_ r = t ∧ req_side_ r = s) then opened r else [].
Proof.
  unfold opened. destruct (req_qty_ r =? 0); [by case_decide|].
  rewrite filter_cons, filter_nil. by repeat case_decide.
Qed.

Lemma slot_ok_serve om r reqs rs X X' a t s :
  slot_ok om (r :: reqs) rs X t s → serves r X X' a → side_ok s →
  slot_ok om reqs (rs ++ [a]) X' t s.
Proof.
  intros (o & st & Ho & Hx & Hf) Hs Hside. exists o. rewrite filter_app.
  inversion Hs as [? ? c m Hr|? X1 b X2 c m px Hr Hb|? ? c Hr]; subst;
    [|rewrite filter_cons_False in Hx by (intros (? & _); congruence)..].
  - rewrite filter_app, filter_opened. destruct (decide (new_on t s r)) as [Hn|Hn].
    + rewrite filter_cons_True in Hx by done. destruct Hn as (_ & Et & Es).
      apply at_exchange_queued in Hx as (-> & -> & ->).
      pose proof Hf as (Hrs & _)%flow_queued_inv.
      rewrite Hrs in Hf |- *. rewrite decide_True, filter_cons_True by done. simpl.
      eexists. split_and!; [done|by apply at_exchange_accepted|by apply flow_accepted].
    + rewrite filter_cons_False in Hx by done. exists st.
      rewrite decide_False, filter_cons_False, !app_nil_r by (unfold new_on, resp_on in *; simpl; tauto).
      done.
  - rewrite filter_app in Hx |- *. destruct (decide (open_on t s b)) as [Hb'|Hb'].
    + rewrite filter_cons_True in Hx by done.
      apply at_exchange_open in Hx as (-> & -> & -> & ->). rewrite filter_cons_True by done.
      exists Gone. split_and!; [done|constructor|].
      eapply flow_snoc; [done|]. apply lf_canceled; [done|]. by eapply flow_resting_pos.
    + rewrite filter_cons_False in Hx by done. exists st.
      by rewrite filter_cons_False, app_nil_r by done.
  - exists st. rewrite filter_cons_False, app_nil_r; [done|]. simpl. intros [_ E]. by destruct Hside; subst.
Qed.

Lemma slot_ok_fill om reqs rs X X' a t s :
  slot_ok om reqs rs X t s → fills X X' a → slot_ok om reqs (rs ++ [a]) X' t s.
Proof.
  intros (o & st & Ho & Hx & Hf) Hs. exists o. rewrite filter_app.
  inversion Hs as [X1 b X2 e c m px He]; subst. rewrite filter_app in Hx.
  rewrite !filter_app. destruct (decide (open_on t s b)) as [Hb|Hb].
  - rewrite filter_cons_True in Hx by done.
    apply at_exchange_open in Hx as (-> & -> & -> & ->). rewrite filter_cons_True by done.
    eexists. split_and!; [done| |eapply flow_snoc; [done|by apply live_flow_fill]].
    unfold remaining. simpl. bdestruct (oo_leaves b =? e); [rewrite filter_nil; constructor|].
    rewrite filter_cons_True by done. apply (ae_resting (MkOpenOrder _ _ _ _)).
  - rewrite filter_cons_False in Hx by done. exists st.
    rewrite filter_cons_False, app_nil_r by done.
    assert (filter (open_on t s) (remaining b e) = []) as ->.
    { unfold remaining. destruct (_ =? _); [done|]. by rewrite filter_cons_False. }
    done.
Qed.
