(* ===== verification/TradingSafety.v ===== *)
(** The trading client never has two orders on one side of an instrument, and never exceeds its
    position limit.

    [safe] is the invariant of the order manager, the engine's core, the responses on their way and
    the orders open at the exchange; every step of TradingProtocol preserves it. *)
From S2P Require Export TradingProtocol.

(** ** The invariant *)
Abbreviation requests_of c := (contents MEClientRequest_default (outgoing_ogw_requests_ c)).
Definition req_ok (r : MEClientRequest) : Prop :=
  req_type_ r = ClientRequestType_NEW → ticker_ok (req_ticker_id_ r) ∧ side_ok (req_side_ r).
Definition resp_ok (r : MEClientResponse) : Prop :=
  (ticker_ok (resp_ticker_id_ r) ∧ side_ok (resp_side_ r)) ∨
  resp_type_ r = ClientResponseType_CANCEL_REJECTED.
Definition open_ok (o : open_order) : Prop := ticker_ok (oo_ticker o) ∧ side_ok (oo_side o).

Definition position_at (t : Z) (c : EngineCore) : option Z :=
  position_ <$> ticker_position_ (position_keeper_ c) !! Z.to_nat t.
Definition outstanding_at (t : Z) (s : Side) (om : OrderManager) : Z :=
  default 0 (outstanding <$> om_lookup (t, sideToIndex s) om).
(** The position stays within [lim] whatever part of the outstanding orders is executed. *)
Definition position_ok (lim t : Z) (om : OrderManager) (c : EngineCore) : Prop :=
  ∃ p, position_at t c = Some p ∧
    p + outstanding_at t Side_BUY om ≤ lim ∧ - lim ≤ p - outstanding_at t Side_SELL om.

Definition cfg_ok (cfg : list TradeEngineCfg) : Prop :=
  length cfg = Z.to_nat ME_MAX_TICKERS ∧
  Forall (λ c, 0 ≤ clip_ c ∧ 0 ≤ max_position_ (risk_cfg_ c) < 2 ^ 31 ∧
               max_order_size_ (risk_cfg_ c) < 2 ^ 31) cfg.
Definition limit_of (cfg : list TradeEngineCfg) (t : Z) : Z :=
  default 0 ((λ c, max_position_ (risk_cfg_ c)) <$> cfg !! Z.to_nat t).

Record safe (cfg : list TradeEngineCfg) (X : list open_order) (rs : list MEClientResponse)
    (om : OrderManager) (c : EngineCore) : Prop := {
  safe_queue : queue_wf (outgoing_ogw_requests_ c);
  safe_slots t s :
    ticker_ok t → side_ok s → slot_ok om (requests_of c) rs X t s;
  safe_positions t : ticker_ok t → position_ok (limit_of cfg t) t om c;
  safe_risk : risk_manager_ c = RiskManager_new cfg;
  safe_requests : Forall req_ok (requests_of c);
  safe_responses : Forall resp_ok rs;
  safe_open : Forall open_ok X;
  safe_length : Z.of_nat (length (ticker_side_order_ om)) = ME_MAX_TICKERS;
}.

Lemma limit_of_ok cfg t :
  cfg_ok cfg → 0 ≤ limit_of cfg t < 2 ^ 31.
Proof.
  intros [_ H]. unfold limit_of. destruct (cfg !! Z.to_nat t) as [c|] eqn:E; simpl; [|lia].
  by apply (Forall_lookup_1 _ _ _ _ H) in E as (_ & ? & _).
Qed.
Lemma sideToIndex_inj s s' :
  side_ok s → side_ok s' → Z.to_nat (sideToIndex s) = Z.to_nat (sideToIndex s') → s = s'.
Proof. by intros [-> | ->] [-> | ->]. Qed.
Lemma om_alter_length p f om :
  length (ticker_side_order_ (om_alter p f om)) = length (ticker_side_order_ om).
Proof. apply length_alter. Qed.
Lemma om_lookup_bound t i o om :
  0 ≤ t → om_lookup (t, i) om = Some o → t < Z.of_nat (length (ticker_side_order_ om)).
Proof.
  unfold om_lookup. cbn [fst]. destruct (_ !! Z.to_nat t) as [os|] eqn:E; [|done]. intros Ht _.
  apply lookup_lt_Some in E. lia.
Qed.
Lemma om_lookup_slot t s t' s' f om :
  ticker_ok t → side_ok s → ticker_ok t' → side_ok s' →
  om_lookup (t', sideToIndex s') (om_alter (t, sideToIndex s) f om) =
    if decide (t' = t ∧ s' = s) then f <$> om_lookup (t', sideToIndex s') om
    else om_lookup (t', sideToIndex s') om.
Proof.
  unfold ticker_ok. intros Ht Hs Ht' Hs'. rewrite om_lookup_alter. cbn [fst snd].
  destruct (decide (t' = t ∧ s' = s)) as [[-> ->]|Hne]; [by rewrite decide_True|].
  rewrite decide_False; [done|]. intros [E1 E2]. apply Hne.
  split; [lia|by apply sideToIndex_inj].
Qed.
Lemma outstanding_slot t s t' s' f om :
  ticker_ok t → side_ok s → ticker_ok t' → side_ok s' →
  outstanding_at t' s' (om_alter (t, sideToIndex s) f om) =
    if decide (t' = t ∧ s' = s)
    then default 0 (outstanding ∘ f <$> om_lookup (t', sideToIndex s') om)
    else outstanding_at t' s' om.
Proof.
  intros. unfold outstanding_at. rewrite om_lookup_slot by done.
  case_decide; [|done]. by rewrite option_fmap_compose.
Qed.
Lemma slot_outstanding om reqs rs X t s :
  slot_ok om reqs rs X t s → 0 ≤ outstanding_at t s om.
Proof.
  intros (o & st & Ho & _ & Hf). unfold outstanding_at. rewrite Ho. by eapply flow_outstanding.
Qed.

(** ** The exchange's steps *)
Lemma safe_serve cfg X X' r q a rs om c :
  safe cfg X rs om c →
  pop MEClientRequest_default (outgoing_ogw_requests_ c) = Ok (Some r, q) → serves r X X' a →
  safe cfg X' (rs ++ [a]) om (set_ogw_requests q c).
Proof.
  intros [Hq Hs Hp Hr Hreq Hresp Hop Hlen] Hpop Hserve.
  apply pop_some in Hpop as [Hwf Hc]; [|done].
  rewrite Hc in Hreq. apply Forall_cons in Hreq as [Hrok Hreq].
  assert (resp_ok a ∧ Forall open_ok X') as [Ha HX'].
  { inversion Hserve; subst.
    - destruct Hrok as [? ?]; [done|]. split; [by left|]. apply Forall_app. split; [done|].
      unfold opened. destruct (_ =? _); [constructor|]. by apply Forall_singleton.
    - apply Forall_app in Hop as [H1 [H2 H3]%Forall_cons]. split; [by left|]. by apply Forall_app.
    - split; [by right|done]. }
  split; try done.
  - intros t s Ht Hside. specialize (Hs t s Ht Hside). rewrite Hc in Hs. by eapply slot_ok_serve.
  - apply Forall_app. by rewrite Forall_singleton.
Qed.
Lemma safe_fill cfg X X' a rs om c :
  safe cfg X rs om c → fills X X' a → safe cfg X' (rs ++ [a]) om c.
Proof.
  intros [Hq Hs Hp Hr Hreq Hresp Hop Hlen] Hfill.
  assert (resp_ok a ∧ Forall open_ok X') as [Ha HX'].
  { inversion Hfill; subst. apply Forall_app in Hop as [H1 [H2 H3]%Forall_cons].
    split; [by left|]. apply Forall_app. split; [done|]. apply Forall_app. split; [|done].
    unfold remaining. destruct (_ =? _); [constructor|]. by apply Forall_singleton. }
  split; try done.
  - intros t s Ht Hside. eapply slot_ok_fill; [by apply Hs|done].
  - apply Forall_app. by rewrite Forall_singleton.
Qed.

(** ** A response *)
Lemma received_rejected r om :
  resp_type_ r = ClientResponseType_CANCEL_REJECTED → om_alter (resp_slot r) (received r) om = om.
Proof.
  intros E. rewrite <- (om_alter_id (resp_slot r) om) at 2. apply om_alter_ext.
  intros o _. unfold received. by rewrite E.
Qed.
Lemma slot_ok_receive r om reqs rs X t s :
  resp_ok r → ticker_ok t → side_ok s → slot_ok om reqs (r :: rs) X t s →
  slot_ok (om_alter (resp_slot r) (received r) om) reqs rs X t s.
Proof.
  intros Hr Ht Hs (o & st & Ho & Hx & Hf). destruct (decide (resp_on t s r)) as [[<- <-]|Hne].
  - rewrite filter_cons_True in Hf by done. exists (received r o), st.
    split_and!; [|done|by apply flow_receive].
    unfold resp_slot. by rewrite om_lookup_slot, decide_True, Ho by done.
  - rewrite filter_cons_False in Hf by done. exists o, st. split_and!; [|done|done].
    destruct Hr as [[Hrt Hrs]|Hr]; [|by rewrite received_rejected].
    unfold resp_slot. rewrite om_lookup_slot, decide_False; try done. unfold resp_on in Hne. naive_solver.
Qed.
(** The quantity a response executes on one side of an instrument. *)
Definition executed (t : Z) (s : Side) (r : MEClientResponse) : Z :=
  if decide (resp_type_ r = ClientResponseType_FILLED ∧ resp_on t s r) then resp_exec_qty_ r else 0.
Lemma receive_outstanding r om reqs rs X t s :
  resp_ok r → ticker_ok t → side_ok s → slot_ok om reqs (r :: rs) X t s →
  0 ≤ executed t s r ≤ outstanding_at t s om ∧
  outstanding_at t s (om_alter (resp_slot r) (received r) om) ≤ outstanding_at t s om - executed t s r.
Proof.
  intros Hr Ht Hs Hslot. pose proof (slot_outstanding _ _ _ _ _ _ Hslot) as Hpos.
  destruct Hslot as (o & st & Ho & Hx & Hf). unfold executed. destruct (decide (resp_on t s r)) as [Hon|Hne].
  - rewrite filter_cons_True in Hf by done. apply flow_receive in Hf as [_ Hf].
    assert (outstanding_at t s (om_alter (resp_slot r) (received r) om) = outstanding (received r o)) as ->.
    { destruct Hon as [<- <-]. unfold resp_slot. by rewrite outstanding_slot, decide_True, Ho by done. }
    unfold outstanding_at in *. rewrite Ho in *. simpl in *.
    destruct (resp_type_ r); case_decide as E; try lia; destruct E as [E ?]; try done.
  - case_decide; [tauto|]. destruct Hr as [[Hrt Hrs]|Hr].
    + unfold resp_slot. rewrite outstanding_slot by done.
      rewrite decide_False; [lia|]. unfold resp_on in Hne. naive_solver.
    + rewrite received_rejected by done. lia.
Qed.

(** What a fill does to the engine's core. *)
Record filled (r : MEClientResponse) (c c' : EngineCore) : Prop := {
  filled_queue : outgoing_ogw_requests_ c' = outgoing_ogw_requests_ c;
  filled_risk : risk_manager_ c' = risk_manager_ c;
  filled_position t :
    position_at t c' =
      (if decide (Z.to_nat t = Z.to_nat (resp_ticker_id_ r))
       then λ p, i32 (p + u32 (resp_exec_qty_ r * sideToValue (resp_side_ r))) else id) <$> position_at t c;
}.
Lemma wlp_on_position t m pk (Φ : PositionKeeper → Prop) :
  (∀ p, ticker_position_ pk !! Z.to_nat t = Some p →
        wlp m p (λ _ p', Φ (MkPositionKeeper (<[Z.to_nat t := p']> (ticker_position_ pk))))) →
  wlp (on_position t m) pk (λ _ pk', Φ pk').
Proof.
  intros H. unfold on_position. apply wlp_bind, wlp_gets.
  destruct (_ !! _) as [p|] eqn:Hp; [|apply wlp_raise].
  apply wlp_bind, wlp_of_res. intros [[] p'] E. by eapply wlp_modify, H.
Qed.
Lemma addFill_filled r c :
  wlp (PositionKeeper_addFill r) (position_keeper_ c)
    (λ _ pk, filled r c (set_position_keeper pk c)).
Proof.
  apply wlp_on_position. intros p Hp. eapply wlp_mono; [apply addFill_holding|].
  intros [] p' [= Hpos _]. split; try done. intros t. unfold position_at. simpl.
  case_decide as E.
  - rewrite E, Hp, list_lookup_insert_eq by (by eapply lookup_lt_Some). simpl. by rewrite Hpos.
  - rewrite list_lookup_insert_ne by congruence. by rewrite option_fmap_id.
Qed.
Lemma i32_add_u32 p z : - 2 ^ 31 ≤ p + z < 2 ^ 31 → i32 (p + u32 z) = p + z.
Proof.
  intros H. rewrite <- (swrap_id 32 (p + z)) by lia. unfold i32, swrap, u32, wrap.
  rewrite <- (Zplus_mod_idemp_l (p + z mod _)), Zplus_mod_idemp_r, Zplus_mod_idemp_l. done.
Qed.
(** A response that fills changes the position, any other leaves the core alone. *)
Definition settled (r : MEClientResponse) (c c' : EngineCore) : Prop :=
  match resp_type_ r with ClientResponseType_FILLED => filled r c c' | _ => c' = c end.
Lemma settled_spec r c c' :
  settled r c c' →
  (resp_type_ r = ClientResponseType_FILLED ∧ filled r c c') ∨
  (resp_type_ r ≠ ClientResponseType_FILLED ∧ c' = c).
Proof. unfold settled. destruct (resp_type_ r); auto. Qed.

Lemma settled_position r t c c' p :
  resp_ok r → ticker_ok t → settled r c c' → - 2 ^ 31 ≤ p < 2 ^ 31 → position_at t c = Some p →
  position_at t c' = Some (i32 (p + u32 (executed t Side_BUY r - executed t Side_SELL r))).
Proof.
  intros Hr Ht Hc Hp Hpos. unfold executed.
  assert (i32 (p + u32 (0 - 0)) = p) as Hid by (rewrite i32_add_u32; lia).
  apply settled_spec in Hc as [[Hf [_ _ Hc]]|[Hf ->]].
  - rewrite Hc, Hpos. destruct Hr as [[Hrt Hrs]|Hr]; [|congruence].
    destruct (decide (t = resp_ticker_id_ r)) as [E|E].
    + rewrite decide_True by congruence. simpl. do 2 f_equal. f_equal.
      destruct Hrs as [Hside|Hside]; rewrite Hside; simpl.
      * rewrite decide_True, decide_False; [f_equal; lia|intros (_ & _ & ?); congruence|by split_and!].
      * rewrite decide_False, decide_True; [f_equal; lia|by split_and!|intros (_ & _ & ?); congruence].
    + unfold ticker_ok in *. rewrite !decide_False; [by rewrite Hid|unfold resp_on; naive_solver..|lia].
  - rewrite !decide_False by naive_solver. by rewrite Hid.
Qed.
Lemma position_ok_receive lim r om reqs rs X t c c' :
  0 ≤ lim < 2 ^ 31 → resp_ok r → ticker_ok t →
  (∀ s, side_ok s → slot_ok om reqs (r :: rs) X t s) → settled r c c' → position_ok lim t om c →
  position_ok lim t (om_alter (resp_slot r) (received r) om) c'.
Proof.
  intros Hlim Hr Ht Hs Hc (p & Hp & Hb & Ha).
  pose proof side_ok_buy as Hbuy. pose proof side_ok_sell as Hsell.
  pose proof (receive_outstanding r om reqs rs X t _ Hr Ht Hbuy (Hs _ Hbuy)) as Hob.
  pose proof (receive_outstanding r om reqs rs X t _ Hr Ht Hsell (Hs _ Hsell)) as Hoa.
  eexists. split; [apply (settled_position r t c c' p); [done..|lia|done]|].
  rewrite i32_add_u32 by lia. lia.
Qed.
Lemma safe_receive cfg X r rs om c c' :
  cfg_ok cfg → safe cfg X (r :: rs) om c → settled r c c' →
  safe cfg X rs (om_alter (resp_slot r) (received r) om) c'.
Proof.
  intros Hcfg [Hq Hs Hp Hr Hreq [Hresp Hresps]%Forall_cons Hop Hlen] Hc.
  assert (outgoing_ogw_requests_ c' = outgoing_ogw_requests_ c ∧ risk_manager_ c' = risk_manager_ c)
    as [Eq Er] by (apply settled_spec in Hc as [[_ []]|[_ ->]]; done).
  split; rewrite ?Eq, ?Er; try (done || by rewrite om_alter_length).
  - intros t s Ht Hside. apply slot_ok_receive; auto.
  - intros t Ht. eapply position_ok_receive; eauto using limit_of_ok.
Qed.

(** ** The engine's orders *)
Definition state_safe (cfg : list TradeEngineCfg) (X : list open_order) (rs : list MEClientResponse)
    (s : OrderManager * EngineCore) : Prop := safe cfg X rs s.1 s.2.

Lemma wlp_sendClientRequest r c :
  queue_wf (outgoing_ogw_requests_ c) →
  wlp (sendClientRequest r) c (λ _ c', ∃ q, c' = set_ogw_requests q c ∧ queue_wf q ∧
    contents MEClientRequest_default q = requests_of c ++ [r]).
Proof.
  intros Hq. apply wlp_zoom. intros u q Hpush.
  apply (push_some MEClientRequest_default) in Hpush as [? ?]; [|done]. eauto.
Qed.

Lemma slot_ok_cancel om reqs rs X t s r t' s' :
  ticker_ok t → side_ok s → ticker_ok t' → side_ok s' →
  (∃ o, om_lookup (t, sideToIndex s) om = Some o ∧ om_order_state_ o = OMOrderState_LIVE) →
  req_type_ r = ClientRequestType_CANCEL →
  slot_ok om reqs rs X t' s' →
  slot_ok (om_alter (t, sideToIndex s) (set_om_state OMOrderState_PENDING_CANCEL) om)
    (reqs ++ [r]) rs X t' s'.
Proof.
  intros Ht Hs Ht' Hs' (ol & Hol & Hlive) Hr (o & st & Ho & Hx & Hf).
  unfold slot_ok. rewrite om_lookup_slot, filter_app, (filter_cons_False _ r) by
    (done || (intros (? & _); congruence)).
  rewrite filter_nil, app_nil_r, Ho. destruct (decide (t' = t ∧ s' = s)) as [[-> ->]|]; [|by exists o, st].
  eexists _, st. split_and!; [done..|]. rewrite Ho in Hol. simplify_eq.
  apply flow_live; [by right|]. inversion Hf as [[?|?]|? ?|? ? ? ? ?|? ? ? ?]; subst; congruence || done.
Qed.
Lemma outstanding_cancel om t s t' s' :
  ticker_ok t → side_ok s → ticker_ok t' → side_ok s' →
  (∃ o, om_lookup (t, sideToIndex s) om = Some o ∧ om_order_state_ o = OMOrderState_LIVE) →
  outstanding_at t' s' (om_alter (t, sideToIndex s) (set_om_state OMOrderState_PENDING_CANCEL) om) =
    outstanding_at t' s' om.
Proof.
  intros Ht Hs Ht' Hs' (ol & Hol & Hlive). rewrite outstanding_slot by done.
  case_decide as E; [|done]. destruct E as [-> ->]. unfold outstanding_at. rewrite Hol. simpl.
  unfold outstanding. rewrite !decide_False by (intros [?|?]; simpl in *; congruence). done.
Qed.
Lemma wlp_cancelOrder cfg X rs om c t s :
  safe cfg X rs om c → ticker_ok t → side_ok s →
  (∃ o, om_lookup (t, sideToIndex s) om = Some o ∧ om_order_state_ o = OMOrderState_LIVE) →
  wlp (cancelOrder (t, sideToIndex s)) (om, c) (λ _, state_safe cfg X rs).
Proof.
  intros [Hq Hs Hp Hr Hreq Hresp Hop Hlen] Ht Hside Hlive. unfold cancelOrder, get_om.
  apply wlp_bind, wlp_zoom, wlp_gets, wlp_bind, wlp_zoom, wlp_bind, wlp_gets.
  pose proof Hlive as (o & Ho & _). cbn [fst snd]. rewrite Ho. apply wlp_ret.
  apply wlp_bind, wlp_zoom. eapply wlp_mono; [by apply wlp_sendClientRequest|].
  intros _ c' (q & -> & Hwf & Hc). apply wlp_zoom, wlp_modify. unfold state_safe. simpl in *.
  split; simpl; rewrite ?Hc; try (done || by rewrite length_alter).
  - intros t' s' Ht' Hs'. apply slot_ok_cancel; auto.
  - intros t' Ht'. destruct (Hp t' Ht') as (p & ? & ? & ?). exists p.
    by rewrite !outstanding_cancel by auto with hft.
  - apply Forall_app. split; [done|]. by apply Forall_singleton.
Qed.

(** What the risk manager allows. *)
Lemma risk_allowed cfg om c t s q X rs :
  cfg_ok cfg → safe cfg X rs om c → 0 ≤ t → side_ok s → 0 ≤ q →
  checkPreTradeRisk (risk_manager_ c) (position_keeper_ c) t s q = Ok RiskCheckResult_ALLOWED →
  ticker_ok t ∧ ∃ p, position_at t c = Some p ∧ Z.abs (p + sideToValue s * q) ≤ limit_of cfg t.
Proof.
  intros [Hlen Hcfg] Hsafe Ht Hs Hq. rewrite (safe_risk _ _ _ _ _ Hsafe).
  unfold checkPreTradeRisk, RiskManager_new, position_at, limit_of. simpl. rewrite list_lookup_imap.
  destruct (cfg !! Z.to_nat t) as [tc|] eqn:Htc; simpl; [|done].
  pose proof (lookup_lt_Some _ _ _ Htc) as Hlt. rewrite Hlen in Hlt. rewrite Nat2Z.id.
  apply (Forall_lookup_1 _ _ _ _ Hcfg) in Htc as (_ & Hlim & Hmax).
  destruct (_ !! _) as [p|] eqn:Hp; [|done]. intros Hrisk.
  split; [unfold ticker_ok; lia|]. exists (position_ p). split; [done|].
  assert (wlp (RiskInfo_checkPreTradeRisk (risk_cfg_ tc) s q) p (λ r _, r = RiskCheckResult_ALLOWED →
    Z.abs (position_ p + sideToValue s * q) ≤ max_position_ (risk_cfg_ tc))) as Hw.
  { unfold RiskInfo_checkPreTradeRisk. bdestruct (max_order_size_ (risk_cfg_ tc) <? q); [by apply wlp_ret|].
    apply wlp_bind, wlp_gets, wlp_bind, wlp_signed. intros _. apply wlp_bind, wlp_signed. intros _.
    apply wlp_bind, wlp_signed. intros _. unfold i32. rewrite !swrap_id by lia.
    bdestruct (max_position_ (risk_cfg_ tc) <? Z.abs (position_ p + sideToValue s * q)); [by apply wlp_ret|].
    apply wlp_bind, wlp_gets. by destruct (dlt _ _); apply wlp_ret. }
  destruct (RiskInfo_checkPreTradeRisk _ _ _ _) as [[r p']|] eqn:E; simplify_eq/=. by eapply Hw.
Qed.

Lemma flow_idle_inv o rs st : idle o → flow o rs st → rs = [] ∧ st = Gone.
Proof.
  intros Hi. inversion 1 as [?|? ?|? ? ? ? ?|? ? [?|?] ?]; subst; auto; destruct Hi; congruence.
Qed.
Lemma slot_ok_new om reqs rs X t s o r t' s' :
  ticker_ok t → side_ok s → ticker_ok t' → side_ok s' →
  (∃ o, om_lookup (t, sideToIndex s) om = Some o ∧ idle o) →
  new_on t s r → om_order_state_ o = OMOrderState_PENDING_NEW → om_qty_ o = req_qty_ r → 0 ≤ req_qty_ r →
  slot_ok om reqs rs X t' s' →
  slot_ok (om_alter (t, sideToIndex s) (λ _, o) om) (reqs ++ [r]) rs X t' s'.
Proof.
  intros Ht Hs Ht' Hs' (oi & Hoi & Hidle) Hr Hpn Hqty Hpos (o' & st & Ho & Hx & Hf).
  unfold slot_ok. rewrite om_lookup_slot, filter_app by done.
  destruct (decide (t' = t ∧ s' = s)) as [[-> ->]|Hne].
  - rewrite Ho in Hoi |- *. simplify_eq. apply flow_idle_inv in Hf as [Hrs ->]; [|done].
    inversion Hx as [| |Hreqs HX]. rewrite filter_cons_True, Hrs by done.
    eexists _, (Queued (om_qty_ o)). split_and!; [done| |apply flow_queued; lia || done].
    rewrite Hqty. constructor.
  - rewrite filter_cons_False by (unfold new_on in *; naive_solver). rewrite filter_nil, app_nil_r. by exists o', st.
Qed.
Lemma outstanding_new om t s o t' s' :
  ticker_ok t → side_ok s → ticker_ok t' → side_ok s' →
  is_Some (om_lookup (t, sideToIndex s) om) → ¬ idle o →
  outstanding_at t' s' (om_alter (t, sideToIndex s) (λ _, o) om) =
    if decide (t' = t ∧ s' = s) then om_qty_ o else outstanding_at t' s' om.
Proof.
  intros Ht Hs Ht' Hs' [ol Hol] Hni. rewrite outstanding_slot by done.
  case_decide as E; [|done]. destruct E as [-> ->]. rewrite Hol. simpl.
  unfold outstanding. by rewrite decide_False.
Qed.
Lemma wlp_newOrder cfg X rs om c t s price q :
  cfg_ok cfg → safe cfg X rs om c → 0 ≤ t → side_ok s → 0 ≤ q →
  (∃ o, om_lookup (t, sideToIndex s) om = Some o ∧ idle o) →
  checkPreTradeRisk (risk_manager_ c) (position_keeper_ c) t s q = Ok RiskCheckResult_ALLOWED →
  wlp (newOrder (t, sideToIndex s) t price s q) (om, c) (λ _, state_safe cfg X rs).
Proof.
  intros Hcfg Hsafe Ht Hside Hqty Hidle Hrisk.
  destruct (risk_allowed _ _ _ _ _ _ _ _ Hcfg Hsafe Ht Hside Hqty Hrisk) as [Htok (p & Hpos & Hlim)].
  destruct Hsafe as [Hq Hs Hp Hr Hreq Hresp Hop Hlen]. unfold newOrder.
  apply wlp_bind, wlp_zoom, wlp_gets, wlp_bind, wlp_zoom, wlp_gets, wlp_bind, wlp_zoom.
  eapply wlp_mono; [by apply wlp_sendClientRequest|]. intros _ c' (q' & -> & Hwf & Hc).
  apply wlp_bind, wlp_zoom, wlp_modify, wlp_zoom, wlp_modify. unfold state_safe. simpl in *.
  set (o := MkOMOrder _ _ _ _ _ _). set (om' := om_alter _ _ _).
  assert (∀ t' s', outstanding_at t' s' (set_next_order_id (u64 (next_order_id_ om + 1)) om') =
                   outstanding_at t' s' om') as Hout by done.
  assert (is_Some (om_lookup (t, sideToIndex s) om)) as Hsome by (destruct Hidle as (? & -> & _); eauto).
  assert (¬ idle o) as Hni by by intros [?|?].
  split; simpl; rewrite ?Hc; try (done || by rewrite length_alter).
  - intros t' s' Ht' Hs'. apply (slot_ok_new om _ _ _ _ _ o); auto. by split_and!.
  - intros t' Ht'. destruct (Hp t' Ht') as (p' & Hp' & Hb & Ha). exists p'. split; [done|].
    rewrite !Hout. unfold om'.
    rewrite !outstanding_new by auto with hft.
    assert (t' = t → p' = p) as E by (intros ->; unfold position_at in *; simpl in *; congruence).
    destruct (decide (t' = t)) as [->|]; [|by rewrite !decide_False by tauto].
    rewrite E in * by done. destruct Hside as [-> | ->]; simpl in *.
    + rewrite decide_True, decide_False by (done || naive_solver). lia.
    + rewrite decide_False, decide_True by (done || naive_solver). lia.
  - apply Forall_app. split; [done|]. by apply Forall_singleton.
Qed.

Section orders.
Context (cfg : list TradeEngineCfg) (Hcfg : cfg_ok cfg) (X : list open_order)
  (rs : list MEClientResponse).
Implicit Types st : OrderManager * EngineCore.

Lemma wlp_moveOrder st t price s q :
  state_safe cfg X rs st → 0 ≤ t → side_ok s → 0 ≤ q →
  wlp (moveOrder (t, sideToIndex s) t price s q) st (λ _, state_safe cfg X rs).
Proof.
  destruct st as [om c]. intros Hsafe Ht Hs Hq. unfold moveOrder, get_om.
  apply wlp_bind, wlp_zoom, wlp_bind, wlp_gets. cbn [fst snd].
  destruct (om_lookup _ om) as [o|] eqn:Ho; [|apply wlp_raise]. apply wlp_ret.
  assert (∀ m, (idle o → wlp m (om, c) (λ _, state_safe cfg X rs)) →
    idle o → wlp (if price =? Price_INVALID then mret tt else m) (om, c) (λ _, state_safe cfg X rs)) as Hnew.
  { intros m Hm Hi. destruct (_ =? _); [by apply wlp_ret|auto]. }
  destruct (om_order_state_ o) eqn:Hst; try by apply wlp_ret.
  1, 3: apply Hnew; [|by (left + right)]; intros Hi;
    apply wlp_bind, wlp_zoom, wlp_gets, wlp_bind, wlp_of_res; intros a Ha; cbn [fst snd] in *;
    (case_decide; [subst a|by apply wlp_ret]); apply wlp_newOrder; eauto.
  destruct (om_price_ o =? price); [by apply wlp_ret|]. apply wlp_cancelOrder; eauto.
  apply om_lookup_bound in Ho; [|done]. pose proof (safe_length _ _ _ _ _ Hsafe) as Hl.
  simpl in Hl. unfold ticker_ok. lia.
Qed.
Lemma wlp_moveOrders st t bid ask clip :
  state_safe cfg X rs st → 0 ≤ t → 0 ≤ clip →
  wlp (moveOrders t bid ask clip) st (λ _, state_safe cfg X rs).
Proof.
  intros Hsafe Ht Hclip. unfold moveOrders.
  assert (∀ p st', wlp (on_orders (E := EngineCore) (get_om p)) st' (λ _ st'', st'' = st')) as Hget.
  { intros p [om' c']. apply wlp_zoom, wlp_bind, wlp_gets. cbn [fst snd].
    by destruct (om_lookup p om'); [apply wlp_ret|apply wlp_raise]. }
  apply wlp_bind. eapply wlp_mono; [apply Hget|]. intros _ st' ->.
  apply wlp_bind. eapply wlp_mono; [apply wlp_moveOrder; auto with hft|]. intros [] st1 Hsafe1.
  apply wlp_bind. eapply wlp_mono; [apply Hget|]. intros _ st'' ->. apply wlp_moveOrder; auto with hft.
Qed.
Lemma wlp_ticker_cfg_at t st :
  wlp (ticker_cfg_at (E := EngineCore) cfg t) st (λ c st', 0 ≤ clip_ c ∧ st' = st).
Proof.
  unfold ticker_cfg_at. destruct (cfg !! _) as [c|] eqn:E; [|apply wlp_raise].
  apply wlp_ret. destruct Hcfg as [_ H]. by apply (Forall_lookup_1 _ _ _ _ H) in E as [? _].
Qed.
Lemma wlp_MarketMaker f t bbo st :
  state_safe cfg X rs st → 0 ≤ t →
  wlp (MarketMaker_onOrderBookUpdate cfg f t bbo) st (λ _, state_safe cfg X rs).
Proof.
  intros Hsafe Ht. unfold MarketMaker_onOrderBookUpdate. case_match; [|by apply wlp_ret].
  apply wlp_bind. eapply wlp_mono; [apply wlp_ticker_cfg_at|]. intros c ? [Hc ->].
  apply wlp_bind, wlp_signed. intros _. apply wlp_bind, wlp_signed. intros _. by apply wlp_moveOrders.
Qed.
Lemma wlp_LiquidityTaker f u bbo st :
  state_safe cfg X rs st → 0 ≤ upd_ticker_id_ u →
  wlp (LiquidityTaker_onTradeUpdate cfg f u bbo) st (λ _, state_safe cfg X rs).
Proof.
  intros Hsafe Ht. unfold LiquidityTaker_onTradeUpdate. case_match; [|by apply wlp_ret].
  apply wlp_bind. eapply wlp_mono; [apply wlp_ticker_cfg_at|]. intros c ? [Hc ->].
  destruct (dge _ _); [|by apply wlp_ret]. case_decide; by apply wlp_moveOrders.
Qed.
End orders.

(** ** The engine's callbacks *)
Record engine_safe (cfg : list TradeEngineCfg) (X : list open_order) (rs : list MEClientResponse)
    (e : EngineState) : Prop := {
  engine_cfg : ticker_cfg_ e = cfg;
  engine_algo : algo_type_ e = AlgoType_MAKER ∨ algo_type_ e = AlgoType_TAKER;
  engine_state : safe cfg X rs (order_manager_ e) (core_ e);
}.

Lemma updateBBO_positions t bbo c :
  wlp (PositionKeeper_updateBBO t bbo) (position_keeper_ c)
    (λ _ pk, ∀ t', position_at t' (set_position_keeper pk c) = position_at t' c).
Proof.
  apply wlp_on_position. intros p Hp. eapply wlp_mono; [apply (keeps_updateBBO bbo p)|].
  intros _ p' [= Hpos _] t'. unfold position_at. simpl.
  destruct (decide (Z.to_nat t' = Z.to_nat t)) as [->|E].
  - rewrite Hp, list_lookup_insert_eq by (by eapply lookup_lt_Some). simpl. by rewrite Hpos.
  - by rewrite list_lookup_insert_ne by congruence.
Qed.
Lemma safe_same_positions cfg X rs om c c' :
  safe cfg X rs om c → outgoing_ogw_requests_ c' = outgoing_ogw_requests_ c →
  risk_manager_ c' = risk_manager_ c → (∀ t, position_at t c' = position_at t c) →
  safe cfg X rs om c'.
Proof.
  intros [? ? Hpos] Eq Er Hp. split; rewrite ?Eq, ?Er; try done. intros t Ht. unfold position_ok. rewrite Hp. by apply Hpos.
Qed.

Section callbacks.
Context (cfg : list TradeEngineCfg) (Hcfg : cfg_ok cfg) (X : list open_order)
  (rs : list MEClientResponse).

Lemma wlp_on_trading m e :
  engine_safe cfg X rs e →
  (∀ st, state_safe cfg X rs st → wlp m st (λ _, state_safe cfg X rs)) →
  wlp (on_trading m) e (λ _ : unit, engine_safe cfg X rs).
Proof.
  intros [He Ha Hs] Hm. apply wlp_zoom. eapply wlp_mono; [by apply Hm|]. intros [] [om c] Hs'. by split.
Qed.
Lemma wlp_features {A} (m : M FeatureEngine A) e :
  engine_safe cfg X rs e → wlp (zoom feature_engine_ set_features m) e (λ _, engine_safe cfg X rs).
Proof. intros [] . apply wlp_zoom. intros a f _. by split. Qed.
Lemma wlp_engine_onOrderBookUpdate t price side bbo e :
  engine_safe cfg X rs e → 0 ≤ t →
  wlp (engine_onOrderBookUpdate t price side bbo) e (λ _, engine_safe cfg X rs).
Proof.
  intros He Ht. unfold engine_onOrderBookUpdate. apply wlp_bind, wlp_zoom.
  eapply wlp_mono; [apply updateBBO_positions|]. intros [] pk Hpk. apply wlp_bind.
  eapply wlp_mono; [apply wlp_features|].
  { destruct He as [? ? Hs]. split; [done..|]. by eapply safe_same_positions. }
  intros [] e' He'. apply wlp_bind, wlp_gets. simpl. rewrite (engine_cfg _ _ _ _ He').
  destruct (algo_type_ _); try by apply wlp_ret.
  apply wlp_on_trading; [done|]. intros. by apply wlp_MarketMaker.
Qed.
Lemma wlp_engine_onTradeUpdate u bbo e :
  engine_safe cfg X rs e → 0 ≤ upd_ticker_id_ u →
  wlp (engine_onTradeUpdate u bbo) e (λ _, engine_safe cfg X rs).
Proof.
  intros He Ht. unfold engine_onTradeUpdate. apply wlp_bind.
  eapply wlp_mono; [by apply wlp_features|]. intros [] e' He'. apply wlp_bind, wlp_gets.
  simpl. rewrite (engine_cfg _ _ _ _ He'). destruct (algo_type_ _); try by apply wlp_ret.
  apply wlp_on_trading; [done|]. intros. by apply wlp_LiquidityTaker.
Qed.
Lemma wlp_engine_onOrderUpdate r e :
  engine_safe cfg X (r :: rs) e →
  wlp (engine_onOrderUpdate r) e (λ _, engine_safe cfg X rs).
Proof.
  intros [He Ha Hs]. unfold engine_onOrderUpdate. apply wlp_bind.
  assert (wlp (match resp_type_ r with
               | ClientResponseType_FILLED => on_positions (PositionKeeper_addFill r)
               | _ => mret tt
               end) e (λ _ e', ∃ c, e' = set_core c e ∧ settled r (core_ e) c)) as Hw.
  { unfold settled. destruct (resp_type_ r);
      try (apply wlp_ret; exists (core_ e); split; [by destruct e|done]).
    apply wlp_zoom. eapply wlp_mono; [apply addFill_filled|]. eauto. }
  eapply wlp_mono; [exact Hw|]. intros [] ? (c & -> & Hc). apply wlp_bind, wlp_gets.
  assert (wlp (on_trading (on_orders (onOrderUpdate r))) (set_core c e) (λ _, engine_safe cfg X rs)).
  { apply wlp_zoom, wlp_zoom. eapply wlp_mono; [apply onOrderUpdate_received|].
    intros [] om ->. split; [done..|]. by eapply safe_receive. }
  simpl in *. by destruct Ha as [-> | ->].
Qed.
End callbacks.

(** ** The system *)
Record system_safe (cfg : list TradeEngineCfg) (s : TradeEngine * list open_order) : Prop := {
  system_engine :
    engine_safe cfg s.2 (contents MEClientResponse_default (incoming_ogw_responses_ s.1)) (engine_ s.1);
  system_responses : queue_wf (incoming_ogw_responses_ s.1);
  system_md : queue_wf (incoming_md_updates_ s.1);
  system_updates :
    Forall (λ u, 0 ≤ upd_ticker_id_ u) (contents MEMarketUpdate_default (incoming_md_updates_ s.1));
}.

Section steps.
Context (cfg : list TradeEngineCfg) (Hcfg : cfg_ok cfg).
Implicit Types (t : TradeEngine) (X : list open_order).

Lemma system_response t X i :
  system_safe cfg (t, X) → on_responses getNextToRead t = Ok (Some i, t) →
  wlp (process_response i) t (λ _ t', system_safe cfg (t', X)).
Proof.
  intros [He Hr Hmd Hu] (q & Hread & _)%zoom_inv. simpl in *.
  apply (read_some MEClientResponse_default) in Hread as (-> & r & Hslot & Hpop & Hwf & Hc); [|done].
  apply wlp_bind, wlp_zoom. rewrite Hc in He. intros r' q Hq. rewrite Hslot in Hq. simplify_eq.
  apply wlp_bind, wlp_zoom. eapply wlp_mono; [by apply wlp_engine_onOrderUpdate|]. intros [] e' He'.
  apply wlp_bind, wlp_zoom. intros b q Hq. simpl in Hq. rewrite Hpop in Hq. simplify_eq.
  apply wlp_ret. by split.
Qed.
Lemma wlp_onMarketUpdate u b e X rs :
  engine_safe cfg X rs e → 0 ≤ upd_ticker_id_ u →
  wlp (onMarketUpdate u) (b, e) (λ _ s, engine_safe cfg X rs s.2).
Proof.
  intros He Hu. unfold onMarketUpdate. apply wlp_bind, wlp_zoom. intros [] b' _.
  apply wlp_bind, wlp_gets, wlp_zoom. simpl.
  destruct (upd_type_ u); by apply wlp_engine_onTradeUpdate || by apply wlp_engine_onOrderBookUpdate.
Qed.
Lemma system_update t X i :
  system_safe cfg (t, X) → on_md getNextToRead t = Ok (Some i, t) →
  wlp (process_update i) t (λ _ t', system_safe cfg (t', X)).
Proof.
  intros [He Hr Hmd Hu] (q & Hread & _)%zoom_inv. simpl in *.
  apply (read_some MEMarketUpdate_default) in Hread as (-> & u & Hslot & Hpop & Hwf & Hc); [|done].
  rewrite Hc in Hu. apply Forall_cons in Hu as [Hu Hus].
  apply wlp_bind, wlp_zoom. intros u' q Hq. rewrite Hslot in Hq. simplify_eq.
  apply wlp_bind, wlp_gets, wlp_bind, wlp_ASSERT. intros _.
  apply wlp_bind, wlp_bind, wlp_gets. simpl. destruct (_ !! _) as [b|]; [|apply wlp_raise].
  apply wlp_bind, wlp_gets, wlp_bind, wlp_of_res. intros [[] [b' e']] Hm.
  eapply wlp_onMarketUpdate in Hm; [|done..]. simpl in Hm.
  apply wlp_bind, wlp_modify, wlp_modify, wlp_bind, wlp_zoom. simpl. intros b0 q Hq.
  rewrite Hpop in Hq. simplify_eq. apply wlp_ret. by split.
Qed.
Lemma system_step s s' : system_safe cfg s → step s s' → system_safe cfg s'.
Proof.
  intros Hs Hstep. inversion Hstep as [t X i t' Hread Hm|t X i t' Hread Hm|t X u t' Hu Hm
    |t X r q X' a t' Hpop Hserve Hm|t X X' a t' Hfill Hm]; subst.
  - by eapply system_response in Hm.
  - by eapply system_update in Hm.
  - destruct Hs as [He Hr Hmd Hus]. apply zoom_inv in Hm as (q & Hpush & ->). simpl in *.
    apply (push_some MEMarketUpdate_default) in Hpush as [Hwf Hc]; [|done].
    split; simpl; [done..|]. rewrite Hc. apply Forall_app. by rewrite Forall_singleton.
  - destruct Hs as [[Ec Ea He] Hr Hmd Hus]. apply zoom_inv in Hm as (q' & Hpush & ->). simpl in *.
    apply (push_some MEClientResponse_default) in Hpush as [Hwf Hc]; [|done].
    split; simpl; [|done..]. rewrite Hc. split; [done..|]. by eapply safe_serve.
  - destruct Hs as [[Ec Ea He] Hr Hmd Hus]. apply zoom_inv in Hm as (q' & Hpush & ->). simpl in *.
    apply (push_some MEClientResponse_default) in Hpush as [Hwf Hc]; [|done].
    split; simpl; [|done..]. rewrite Hc. split; [done..|]. by eapply safe_fill.
Qed.
End steps.

(** ** From the start *)
(** An engine that trades, as its constructor leaves it, on queues with nothing in them. *)
Record engine_started (cfg : list TradeEngineCfg) (t : TradeEngine) : Prop := {
  started_new : ∃ id algo requests om_mem price_mem vwap_mem,
    TradeEngine_new id algo cfg requests (incoming_ogw_responses_ t) (incoming_md_updates_ t)
      om_mem price_mem vwap_mem = Ok t ∧ (algo = AlgoType_MAKER ∨ algo = AlgoType_TAKER) ∧
    queue_wf requests ∧ contents MEClientRequest_default requests = [];
  started_responses : queue_wf (incoming_ogw_responses_ t);
  started_no_response : contents MEClientResponse_default (incoming_ogw_responses_ t) = [];
  started_updates : queue_wf (incoming_md_updates_ t);
  started_no_update : contents MEMarketUpdate_default (incoming_md_updates_ t) = [];
}.
Lemma TradeEngine_new_engine id algo cfg q rs md om_mem price_mem vwap_mem t :
  TradeEngine_new id algo cfg q rs md om_mem price_mem vwap_mem = Ok t →
  engine_ t = MkEngineState algo cfg FeatureEngine_new OrderManager_new
    (MkEngineCore id q (PositionKeeper_new vwap_mem) (RiskManager_new cfg)).
Proof. unfold TradeEngine_new, res_bind. case_match; [|done]. by intros [= <-]. Qed.

Lemma started_safe cfg t : cfg_ok cfg → engine_started cfg t → system_safe cfg (t, []).
Proof.
  intros Hcfg [(id & algo & q & om_mem & price_mem & vwap_mem & Hnew & Halgo & Hq & Hqc) Hrs Hrc Hmd Hmc].
  apply TradeEngine_new_engine in Hnew. split; simpl; [|done..|by rewrite Hmc].
  rewrite Hrc, Hnew. split; [done..|]. split; simpl; rewrite ?Hqc; try done.
  - intros t' s Ht Hs. exists OMOrder_default, Gone. split_and!; [by apply om_lookup_new|constructor|].
    apply flow_idle. by left.
  - intros t' Ht. exists 0. pose proof (limit_of_ok _ t' Hcfg). unfold ticker_ok in Ht.
    unfold position_at, outstanding_at. cbn [position_keeper_ ticker_position_ PositionKeeper_new].
    rewrite (lookup_replicate_2 (Z.to_nat ME_MAX_TICKERS)), !om_lookup_new by (lia || by (left + right)).
    split; [done|]. cbn. unfold outstanding. rewrite !decide_True by by left. lia.
Qed.
Lemma reachable_safe cfg s s' :
  cfg_ok cfg → system_safe cfg s → rtc step s s' → system_safe cfg s'.
Proof. intros Hcfg Hs. induction 1; eauto using system_step. Qed.

(** C14: whatever the market data and whatever an exchange that keeps the protocol answers, a MAKER or
    TAKER engine, new and on empty queues, never has more than one order on one side of one instrument:
    the new-order requests it has not yet sent and the orders that rest at the exchange are together at
    most one per instrument and side. The configuration must give one entry per instrument with
    quantities below 2^31. *)
Theorem one_order_per_side cfg t0 t X ticker side :
  cfg_ok cfg → engine_started cfg t0 → rtc step (t0, []) (t, X) → ticker_ok ticker → side_ok side →
  (length (filter (new_on ticker side) (contents MEClientRequest_default (requests t))) +
   length (filter (open_on ticker side) X) ≤ 1)%nat.
Proof.
  intros Hcfg Ht0 Hreach Ht Hs. eapply reachable_safe in Hreach; [|done|by apply started_safe].
  destruct Hreach as [[_ _ Hsafe] _ _ _]. destruct (safe_slots _ _ _ _ _ Hsafe ticker side Ht Hs)
    as (o & st & _ & Hx & _). simpl in Hx. inversion Hx; simpl; lia.
Qed.

(** C13: the position of every instrument stays within the configured limit in every state that a MAKER
    or TAKER engine, new and on empty queues, can reach with any market data and with an exchange that
    keeps the protocol (it answers each request, and fills what rests in whatever order and portions):
    the pre-trade check counts neither the other side's order nor fills on their way, but with at most
    one order per side neither can exceed the limit. The configuration must give one entry per
    instrument with quantities below 2^31. *)
Theorem position_limit cfg t0 t X ticker :
  cfg_ok cfg → engine_started cfg t0 → rtc step (t0, []) (t, X) → ticker_ok ticker →
  ∃ p, position_at ticker (core_ (engine_ t)) = Some p ∧ Z.abs p ≤ limit_of cfg ticker.
Proof.
  intros Hcfg Ht0 Hreach Ht. eapply reachable_safe in Hreach; [|done|by apply started_safe].
  destruct Hreach as [[_ _ Hsafe] _ _ _].
  destruct (safe_positions _ _ _ _ _ Hsafe ticker Ht) as (p & Hp & Hb & Ha).
  pose proof (slot_outstanding _ _ _ _ _ _ (safe_slots _ _ _ _ _ Hsafe ticker _ Ht side_ok_buy)).
  pose proof (slot_outstanding _ _ _ _ _ _ (safe_slots _ _ _ _ _ Hsafe ticker _ Ht side_ok_sell)).
  exists p. split; [done|]. lia.
Qed.

(** ** A run *)
(** A scheduler: one step of the system, chosen by an event.  The exchange of the run accepts every new
    order and refuses every cancel. *)
Inductive event : Type :=
  | EvResponse | EvUpdate | EvMarketData (u : MEMarketUpdate) | EvServe | EvFill (e : Z).
Definition serve_one (r : MEClientRequest) (X : list open_order) : list open_order * MEClientResponse :=
  match req_type_ r with
  | ClientRequestType_NEW =>
    (X ++ opened r, MkMEClientResponse ClientResponseType_ACCEPTED 0 (req_ticker_id_ r)
       (req_order_id_ r) 0 (req_side_ r) (req_price_ r) 0 (req_qty_ r))
  | _ => (X, MkMEClientResponse ClientResponseType_CANCEL_REJECTED 0 (req_ticker_id_ r)
       (req_order_id_ r) OrderId_INVALID Side_INVALID Price_INVALID Qty_INVALID Qty_INVALID)
  end.
Definition ok_state (r : res (unit * TradeEngine)) (X : list open_order) :
    option (TradeEngine * list open_order) :=
  match r with Ok (_, t) => Some (t, X) | Err _ => None end.
Definition run_event (ev : event) (s : TradeEngine * list open_order) :
    option (TradeEngine * list open_order) :=
  let t := s.1 in
  let X := s.2 in
  match ev with
  | EvResponse =>
    match getNextToRead (incoming_ogw_responses_ t) with
    | Ok (Some i, _) => ok_state (process_response i t) X
    | _ => None
    end
  | EvUpdate =>
    match getNextToRead (incoming_md_updates_ t) with
    | Ok (Some i, _) => ok_state (process_update i t) X
    | _ => None
    end
  | EvMarketData u => if 0 <=? upd_ticker_id_ u then ok_state (on_md (push u) t) X else None
  | EvServe =>
    match pop MEClientRequest_default (requests t) with
    | Ok (Some r, q) =>
      if decide (req_type_ r = ClientRequestType_NEW ∨ req_type_ r = ClientRequestType_CANCEL)
      then ok_state (on_responses (push (serve_one r X).2) (with_requests q t)) (serve_one r X).1
      else None
    | _ => None
    end
  | EvFill e =>
    match X with
    | o :: X' =>
      if (0 <? e) && (e <=? oo_leaves o) then
        ok_state (on_responses (push (MkMEClientResponse ClientResponseType_FILLED 0 (oo_ticker o)
          (oo_id o) 0 (oo_side o) 100 e (oo_leaves o - e))) t) (remaining o e ++ X')
      else None
    | [] => None
    end
  end.
Definition run_events (evs : list event) (s : TradeEngine * list open_order) :
    option (TradeEngine * list open_order) :=
  foldl (λ s ev, s ≫= run_event ev) (Some s) evs.

Lemma ok_state_inv r X s : ok_state r X = Some s → s.2 = X ∧ r = Ok (tt, s.1).
Proof. destruct r as [[[] t]|]; [|done]. by intros [= <-]. Qed.
Lemma getNextToRead_same {T} (q q' : LFQueue T) p : getNextToRead q = Ok (p, q') → q' = q.
Proof. unfold getNextToRead. mrun. case_match; congruence. Qed.
Lemma run_event_step ev s s' : run_event ev s = Some s' → step s s'.
Proof.
  destruct s as [t X], s' as [t' X']. unfold run_event. cbn [fst snd].
  destruct ev as [| |u| |e].
  - destruct (getNextToRead _) as [[[i|] q]|] eqn:Hr; try done.
    intros [E H]%ok_state_inv. simpl in *. subst. apply (step_response _ _ i); [|done].
    pose proof (getNextToRead_same _ _ _ Hr) as ->. unfold on_responses, zoom. rewrite Hr. by destruct t.
  - destruct (getNextToRead _) as [[[i|] q]|] eqn:Hr; try done.
    intros [E H]%ok_state_inv. simpl in *. subst. apply (step_update _ _ i); [|done].
    pose proof (getNextToRead_same _ _ _ Hr) as ->. unfold on_md, zoom. rewrite Hr. by destruct t.
  - bdestruct (0 <=? upd_ticker_id_ u); [|done]. intros [E H]%ok_state_inv. simpl in *. subst.
    by apply (step_market_data _ _ u).
  - destruct (pop _ _) as [[[r|] q]|] eqn:Hp; try done. case_decide as Er; [|done].
    intros [E H']%ok_state_inv. simpl in *. subst. eapply step_serve; [done| |done].
    unfold serve_one. destruct Er as [Er|Er]; rewrite Er; [by apply serves_new|by apply serves_reject].
  - destruct X as [|o X]; [done|]. bdestruct ((0 <? e) && (e <=? oo_leaves o)); [|done].
    intros [E H']%ok_state_inv. simpl in *. subst. eapply step_fill; [|done].
    apply (fills_order [] o X). lia.
Qed.
Lemma run_events_steps evs s s' : run_events evs s = Some s' → rtc step s s'.
Proof.
  unfold run_events. revert s. induction evs as [|ev evs IH]; intros s; simpl; [by intros [= <-]|].
  destruct (run_event ev s) as [s1|] eqn:E.
  - intros H. eapply rtc_l; [by eapply run_event_step|by apply IH].
  - assert (∀ evs, foldl (λ s ev, s ≫= run_event ev) None evs = None) as ->; [|done].
    clear. induction evs; by simpl.
Qed.

(** A market maker with a limit of 50 on every instrument sees two orders on each side of the market,
    quotes both sides, and its bid is filled in two portions. *)
Definition cfg50 : list TradeEngineCfg :=
  replicate 8 (MkTradeEngineCfg 10 dzero (MkRiskCfg 100 50 (double_of (-1000)))).
Definition maker0 : TradeEngine :=
  match TradeEngine_new 1 AlgoType_MAKER cfg50 new_queue new_queue new_queue ∅ ∅ [dzero; dzero; dzero] with
  | Ok t => t
  | Err _ => MkTradeEngine [] new_queue new_queue (MkEngineState AlgoType_MAKER cfg50 FeatureEngine_new
               OrderManager_new (MkEngineCore 1 new_queue (PositionKeeper_new []) (RiskManager_new cfg50)))
  end.
Definition quote (oid : Z) (side : Side) (price : Z) : list event :=
  [EvMarketData (MkMEMarketUpdate MarketUpdateType_ADD oid 0 side price 50 1); EvUpdate].
Definition maker_events : list event :=
  quote 1 Side_BUY 100 ++ quote 2 Side_BUY 100 ++ quote 3 Side_SELL 102 ++ quote 4 Side_SELL 102 ++
  [EvServe; EvServe; EvResponse; EvResponse; EvFill 4; EvFill 6; EvResponse; EvResponse].
Definition maker_end : TradeEngine * list open_order :=
  default (maker0, []) (run_events maker_events (maker0, [])).
Lemma maker_end_run : run_events maker_events (maker0, []) = Some maker_end.
Proof. vm_compute. reflexivity. Qed.
Lemma maker_started : engine_started cfg50 maker0.
Proof.
  split; [|by apply new_queue_wf| |by apply new_queue_wf|]; try by vm_compute.
  exists 1, AlgoType_MAKER, new_queue, ∅, ∅, [dzero; dzero; dzero]. split_and!; [vm_compute; reflexivity|by left| |done].
  apply new_queue_wf.
Qed.
Lemma cfg50_ok : cfg_ok cfg50.
Proof. split; [done|]. apply Forall_replicate. simpl. lia. Qed.
Lemma maker_reaches : rtc step (maker0, []) (maker_end.1, maker_end.2).
Proof. apply (run_events_steps maker_events). rewrite maker_end_run. by destruct maker_end. Qed.

Lemma one_order_per_side_witness :
  length maker_end.2 = 1%nat ∧
  (length (filter (new_on 0 Side_SELL) (contents MEClientRequest_default (requests maker_end.1))) +
   length (filter (open_on 0 Side_SELL) maker_end.2) ≤ 1)%nat.
Proof.
  split; [vm_compute; reflexivity|].
  apply (one_order_per_side cfg50 maker0 maker_end.1 maker_end.2 0 Side_SELL);
    [exact cfg50_ok|exact maker_started|exact maker_reaches|by vm_compute|by right].
Defined.
Lemma position_limit_witness :
  position_at 0 (core_ (engine_ maker_end.1)) = Some 10 ∧
  ∃ p, position_at 0 (core_ (engine_ maker_end.1)) = Some p ∧ Z.abs p ≤ limit_of cfg50 0.
Proof.
  split; [vm_compute; reflexivity|].
  apply (position_limit cfg50 maker0 maker_end.1 maker_end.2 0);
    [exact cfg50_ok|exact maker_started|exact maker_reaches|by vm_compute].
Defined.
